(* ===== verification/_CoqProject ===== *)
-Q . S2P
Prelude.v
GoBase.v
GoStrings.v
GoTime.v
GoText.v
Sched.v
GraphModels.v
Inode.v
Heap.v
InodeCache.v
CacheProofs.v
CacheSweep.v
CacheTheorems.v
CachePersist.v
QuickXorHash.v
GoOS.v
ContentCache.v
ContentProofs.v
ContentTheorems.v
GraphClient.v
GraphTransfer.v
GraphAPI.v
GraphTheorems.v
TransferTheorems.v
Remote.v
Uploads.v
UploadSlots.v
UploadPersist.v
UploadTheorems.v
UploadRetry.v
UploadPublish.v
DeltaSync.v
DeltaTheorems.v
FsOps.v
FsTheorems.v
Account.v
Login.v
Mount.v
AuthTheorems.v
MountTheorems.v
SystemInvariant.v
Service.v
ServiceTheorems.v
Control.v
ControlTheorems.v
Commands.v
CommandTheorems.v
ServiceText.v
ServiceTextTheorems.v
Output.v
Eviction.v
Lifecycle.v
