(* ===== verification/Prelude.v ===== *)
(** * OneCloudRiver: a verification library

    OneCloudRiver mounts a Microsoft OneDrive as a FUSE file system, in Go. This
    library models its implementation (internal/ and cmd/onecloudriver) and
    proves what makes it correct.

    ** The program and how its parts interact

    A mount ([Mount], internal/fs/mount.go) holds four shared objects. The
    _metadata cache_ ([InodeCache]) has the tree of items, filled by listing
    folders and kept within a number of inodes and a time to live; it is
    persisted in a BoltDB file. The _content cache_ has the bytes of files, one
    file of the disk each, within a total size. The _upload manager_ has a
    session for each file to publish, with its queue, its loop and a goroutine
    for each upload in flight; sessions are persisted in the same database. The
    _delta synchronisation_ polls the changes of the drive and applies them to
    both caches, leaving alone what is being uploaded. The _file system
    operations_ answer the kernel from the caches, fetch what is missing and
    queue uploads. All of them reach the drive through the _Graph client_, with
    the tokens of an _account_. Commands on the side log in, act on single
    items, synchronise once, and install the mount as a systemd unit; a running
    mount reports its state on a _control socket_.

    ** Files

    Go and its library:
    - [Prelude] fixed-width integers, the state-and-error monad, generic lemmas;
    - [GoBase] errors, instants; [GoStrings], [GoText], [GoTime] strings,
      [path], [net/url], [strconv], [bufio], [time.Format];
    - [GoOS] package [os] on a model disk with a script of faults;
    - [Sched] goroutines as resumptions, and pools of them under interleaving:
      the units they owe ([owes]), the invariants they keep ([safe]), the
      pointers they hold ([guarded]);
    - [Heap] [container/heap] against an interface and its laws.

    Data and the drive:
    - [GraphModels] internal/graph/models.go and [encoding/json] on syntax trees;
    - [QuickXorHash] internal/graph/quickxorhash, hashes.go;
    - [GraphClient] client.go, error.go, drive_item.go, children.go, items.go,
      delta.go, user.go; [GraphTransfer] upload.go, download.go;
    - [GraphAPI] what internal/fs uses of the client, as a class the client is an
      instance of; [Remote] the laws of a drive behind it, and a small drive
      that satisfies them;
    - [GraphTheorems], [TransferTheorems] their properties.

    The mount (internal/fs):
    - [Inode], [InodeCache] inode.go and cache.go; [CachePersist] its
      persistence; [CacheProofs], [CacheSweep], [CacheTheorems] their properties;
    - [ContentCache] content_cache.go, content_eviction.go; [ContentProofs],
      [ContentTheorems];
    - [Uploads] upload_session.go, upload_manager.go; [UploadSlots],
      [UploadPersist], [UploadTheorems], [UploadRetry], [UploadPublish];
    - [DeltaSync] delta.go; [DeltaTheorems];
    - [FsOps] fs_ops.go, drive_item_node.go, root.go; [FsTheorems];
    - [Mount] mount.go and the configuration of cmd/onecloudriver/mount.go;
      [MountTheorems];
    - [SystemInvariant] all of them at once, under every interleaving;
    - [Eviction] eviction.go, which nothing uses;
    - [Lifecycle] the goroutines of cache.go, delta.go and upload_manager.go, from
      their start to their end.

    Around it:
    - [Account], [Login] internal/auth: account.go, keyring.go, httptools.go,
      flow.go, manager.go; [AuthTheorems];
    - [Service] internal/service: status.go, instances.go, systemd.go,
      results.go; [ServiceTheorems];
    - [ServiceText] the text forms of the service commands (systemd.go, status.go,
      cmd/onecloudriver/service.go); [ServiceTextTheorems];
    - [Control] internal/control and internal/fs/control_info.go;
      [ControlTheorems];
    - [Commands] cmd/onecloudriver: the item commands, sync, account, service;
      [CommandTheorems];
    - [Output] cmd/onecloudriver/output.go, the formatters, and the choice of the
      language (internal/i18n/detect.go).

    ** How the code is represented

    A struct is a record, an enumeration an inductive type, a Go map a [gmap]
    (a list of the keys it ranges over where the order is observable), an int64
    a [Z] wrapped by [i64] where it may overflow, a byte string a [string] of
    bytes, contents a [list Z]. Errors are values of [error], whose tree keeps
    what [errors.Is] and [errors.As] look at. A method is a function of the
    state it uses; fallible ones are in the monad [SE]. Inodes and upload
    sessions are shared by pointer, so each has a store of objects and the maps
    hold locations: an update through one pointer is seen through the others.
    JSON is its syntax tree; [dec_*] update a value in place as [Unmarshal]
    does, and [enc_*] are [Marshal].

    Concurrency: a goroutine of the upload manager, of the FUSE server or of the
    manager's loop is a resumption of [Sched]; an atomic action is a critical
    section, a call of a cache with the fetch it makes, or a request. The delta
    loop and the pre-warming are state passing, one page or one folder at a
    time, and the fetcher they call may change the cache; [Lifecycle] takes a
    turn of a loop as what its goroutine does between two looks at its channel. The copy of a download
    into the content cache is one action after the request.

    ** What the theorems show

    - Metadata cache: the invariant of the tree, the eviction heap, the TTL ring
      and the dirty sets in every reachable state; the bucket sweep agrees with
      the full scan; eviction removes idle folders only; listing, the offline
      fallback, the exchange of a local ID for a remote one; a failed batch of
      the serialization loses no mark, and what is persisted is what is restored.
    - Content cache: the accounting invariant, what eviction may remove, reading
      back a write, independence of snapshots.
    - Graph: path normalisation stays under the root, links are followed on the
      same origin only, the retrying transport makes a bounded number of
      attempts, with whole bodies when a response made it retry, pagination is
      complete, errors are classified; the chunks of a transfer partition the file,
      uploads send the contents to a server that keeps to its documentation,
      downloads are whole and have the server's hash; the hash is the one of the
      specification.
    - Uploads: the bound on uploads in flight under every interleaving, registered
      sessions that survive a restart at any point, the retry policy and its
      backoff, an accepted content is published, a conflict keeps both versions
      (both for an upload that nothing interrupts).
    - Delta: local work that is marked or registered is kept, the pages of a cycle
      are applied once each and in order, across a failure too, the deletion of a
      folder arrives whatever the order of its page.
    - Files: a flushed file that is not empty reaches the drive; a rename is all
      or nothing.
    - Accounts: what a renewal can leave in memory, in the keyring and on disk,
      accounts survive a restart, which authorization codes a login accepts.
    - The whole mount: in every state its goroutines reach, action by action, the
      maps and queues lead to objects and the pointers held stay good
      ([mount_interleavings]). Between the two steps in which an upload gives a
      new file its ID the map may lead to an inode of another ID: the equality of
      keys and IDs is shown where nothing comes between them
      ([cache_reachable_wf]).
    - The loops: one sweeper at most, none once the cache is closed; a service is
      stopped once its loop has ended.
    - Mount: pre-warming ends and lists what it promises; a mount stopped and
      started again finds its tree, its delta link and its registered uploads.
    - Service, control, commands: the mount point of an installed unit is the one
      reported; results and outcomes agree; the text form of a service command
      does what the structured one does, in the same order of the accounts; the
      control socket reports its mount; a
      download stays in its folder.

    The [Example]s that are no property record behaviour worth knowing: runs,
    computed by the kernel, where the code does not do what a comment says.

    ** Bounds and fuel

    Loops that end by themselves are bounded by a measure and proved to end
    (sweeps, heap, backoff, pre-warming: see [preWarm_terminates]). Loops driven
    by the server (pages of a listing or of a delta, polls of a copy) take their
    number of turns as an argument and return [None] beyond it; the theorems
    either hold for every number or say which one is enough. The retries of the
    transport are bounded by its configuration. Buffered channels have their
    capacity ([QueueUpload]).

    ** Parameters

    Code outside the repository is a class: [Bolt] (bbolt, with [BoltLaws] its
    documented behaviour), [Keyring], [Mergo], [Humanize] and [HumanizeBytes],
    [World] (an exchange with the network, waiting, starting a goroutine),
    [Clock], [TimeText] and [JsonLen] (the text of an instant, the size of a
    JSON text), [SHA256], [Host] (commands and the search path), [LocalZone],
    [Catalog], [LanguageTags] and [Encoders] (translations, JSON and YAML text),
    [MapRange] (the order in which Go ranges over the accounts), [Systemd] (how it
    shows the command line of a unit), [RemoteDrive] (what the drive promises of
    the requests that change it: an upload in one request replaces the child of
    that name, an upload session makes a new one, and nothing is promised of the
    bytes of a request that a network error interrupted).
    Each class of laws has an instance, which the witnesses use.

    ** Not modelled

    Progress messages, the catalog of translations, logging and the debug server
    (internal/i18n/i18n.go, internal/obs, internal/auth/logging.go,
    i18n_help.go, i18n_flags.go): they change no state the program reads. JSON
    and YAML texts: documents are syntax trees, their encoders parameters.
    Cobra's parsing of the command line and main.go: the commands take the values
    of their flags. The FUSE library and the kernel: the operations are called as
    [FsOps] has them. Real time within one atomic action. *)

From stdpp Require Export base tactics list gmap sets strings numbers relations.
From Stdlib Require Export ZArith Lia.

#[export] Set Warnings "-register-all,-abstract-large-number,-clear-no-such-hyp".

(** ** Machine integers: Go's fixed-width arithmetic, written out on [Z] *)

Declare Scope go_scope.
Delimit Scope go_scope with go.

Definition u64 (z : Z) : Z := (z mod 2 ^ 64)%Z.
Definition u32 (z : Z) : Z := (z mod 2 ^ 32)%Z.
Definition u8 (z : Z) : Z := (z mod 2 ^ 8)%Z.
Definition i64 (z : Z) : Z := ((z + 2 ^ 63) mod 2 ^ 64 - 2 ^ 63)%Z.

Notation "x +u64 y" := (u64 (x + y)) (at level 50, left associativity) : go_scope.
Notation "x +u32 y" := (u32 (x + y)) (at level 50, left associativity) : go_scope.
Notation "x -u32 y" := (u32 (x - y)) (at level 50, left associativity) : go_scope.
Notation "x +i64 y" := (i64 (x + y)) (at level 50, left associativity) : go_scope.
Notation "x -i64 y" := (i64 (x - y)) (at level 50, left associativity) : go_scope.

(** A byte is an integer in [0, 256). *)
Definition is_byte (b : Z) : Prop := (0 ≤ b < 256)%Z.

Lemma u64_small z : (0 ≤ z < 2 ^ 64)%Z → u64 z = z.
Proof. intros. unfold u64. by apply Z.mod_small. Qed.
Lemma u32_small z : (0 ≤ z < 2 ^ 32)%Z → u32 z = z.
Proof. intros. unfold u32. by apply Z.mod_small. Qed.
Lemma u8_small z : is_byte z → u8 z = z.
Proof. unfold is_byte, u8. intros. by apply Z.mod_small. Qed.
Lemma i64_small z : (- 2 ^ 63 ≤ z < 2 ^ 63)%Z → i64 z = z.
Proof. intros. unfold i64. rewrite Z.mod_small; lia. Qed.
Lemma i64_range z : (- 2 ^ 63 ≤ i64 z < 2 ^ 63)%Z.
Proof. unfold i64. pose proof (Z.mod_pos_bound (z + 2 ^ 63) (2 ^ 64) ltac:(lia)). lia. Qed.
Lemma u8_range z : is_byte (u8 z).
Proof. unfold is_byte, u8. apply Z.mod_pos_bound. lia. Qed.
Lemma u64_range z : (0 ≤ u64 z < 2 ^ 64)%Z.
Proof. unfold u64. apply Z.mod_pos_bound. lia. Qed.

Create HintDb go_int discriminated.
Create Rewrite HintDb go_int.
#[export] Hint Rewrite u64_small u32_small u8_small i64_small using lia : go_int.
#[export] Hint Resolve u8_range u64_range : go_int.

(** ** Effects: a state-and-error monad

    A Go function that mutates shared state and returns [(T, error)] is a
    function from the state to an error or a value, together with the new
    state (the state survives the error, as it does in Go). *)
Definition SE (S E A : Type) : Type := S → (E + A) * S.

Section se_monad.
Context {S E : Type}.
Definition se_ret {A} (a : A) : SE S E A := λ s, (inr a, s).
Definition se_fail {A} (e : E) : SE S E A := λ s, (inl e, s).
Definition se_bind {A B} (m : SE S E A) (f : A → SE S E B) : SE S E B :=
  λ s, match m s with
       | (inl e, s') => (inl e, s')
       | (inr a, s') => f a s'
       end.
(** Run [m] and hand its outcome, error or value, to [f]. *)
Definition se_try {A B} (m : SE S E A) (f : E + A → SE S E B) : SE S E B :=
  λ s, let '(r, s') := m s in f r s'.
Definition se_get : SE S E S := λ s, (inr s, s).
Definition se_modify (f : S → S) : SE S E unit := λ s, (inr tt, f s).
Definition se_lift {A} (r : E + A) : SE S E A := λ s, (r, s).
End se_monad.

Notation "'let*' x := m 'in' k" := (se_bind m (λ x, k))
  (at level 10, x pattern, m at level 100, k at level 200) : go_scope.
Notation "'try*' x := m 'in' k" := (se_try m (λ x, k))
  (at level 10, x pattern, m at level 100, k at level 200) : go_scope.

(** Lift a computation on a component of the state to the whole state. *)
Definition se_zoom {S T E A} (get : S → T) (set : T → S → S) (m : SE T E A) : SE S E A :=
  λ s, let '(r, t) := m (get s) in (r, set t s).

Lemma se_bind_assoc {S E A B C} (m : SE S E A) (f : A → SE S E B) (g : B → SE S E C) s :
  se_bind (se_bind m f) g s = se_bind m (λ x, se_bind (f x) g) s.
Proof. unfold se_bind. by destruct (m s) as [[]?]. Qed.

Lemma se_bind_inr {S E A B} (m : SE S E A) (f : A → SE S E B) s b s'' :
  se_bind m f s = (inr b, s'') ↔ ∃ a s', m s = (inr a, s') ∧ f a s' = (inr b, s'').
Proof.
  unfold se_bind. destruct (m s) as [[e|a] s']; split.
  - discriminate.
  - intros (?&?&[=]&?).
  - eauto.
  - intros (?&?&[= -> ->]&?). done.
Qed.

(** ** Reachability for step relations *)

Section reach.
Context {St : Type} (step : St → St → Prop).

(** An invariant: holds initially and is preserved by every step, hence
    holds in every reachable state. *)
Lemma rtc_invariant (I : St → Prop) s s' :
  (∀ a b, I a → step a b → I b) → I s → rtc step s s' → I s'.
Proof. intros Hstep HI Hr. induction Hr; eauto. Qed.
End reach.

(** ** Lists of integers *)

Definition sum_Z (l : list Z) : Z := foldr Z.add 0%Z l.

Lemma sum_Z_app l k : sum_Z (l ++ k) = (sum_Z l + sum_Z k)%Z.
Proof. induction l as [|x l IH]; simpl; [done|]. rewrite IH. lia. Qed.

Lemma sum_Z_perm l k : l ≡ₚ k → sum_Z l = sum_Z k.
Proof. induction 1; simpl; lia. Qed.

Lemma sum_Z_nonneg l : Forall (λ z, 0 ≤ z)%Z l → (0 ≤ sum_Z l)%Z.
Proof. induction 1; simpl; lia. Qed.

(** ** Tactics *)

(** Case analysis on every [match]/[if] scrutinee, simplifying as it goes. *)
Ltac go_cases := repeat (case_match; simplify_eq/=); try done.

(** Decompose the record-shaped conjunctions invariants are stated with. *)
Ltac split_all := repeat match goal with |- _ ∧ _ => split end.
