(* ===== verification/GoBase.v ===== *)
(** The parts of the Go language and standard library every component uses:
    error values ([errors.New], [fmt.Errorf] with [%w], [errors.Is],
    [errors.As], [Error()]), instants and durations ([time]), and the float64
    conversions of integers. *)

From stdpp Require Export pretty.
From S2P Require Export Prelude.

(** ** Errors *)

(** [graph.GraphError] (internal/graph/error.go). *)
Record GraphError := mkGraphError {
  ge_StatusCode : Z;
  ge_Code : string;
  ge_Message : string;
}.

#[global] Instance GraphError_eq_dec : EqDecision GraphError.
Proof. solve_decision. Defined.

(** An error value. A sentinel is a package-level [errors.New] variable, told
    apart from the others by its message (all messages are distinct); [EMsg]
    is an error created where it is returned. *)
Inductive error :=
  | ESentinel (msg : string)
  | EMsg (msg : string)
  | EErrno (n : Z)
  | ENet (timeout : bool) (msg : string)
  | EGraph (g : GraphError)
  | EWrap (before : string) (inner : error) (after : string).

#[global] Instance error_eq_dec : EqDecision error.
Proof. solve_decision. Defined.

(** Linux errno values the code names ([syscall]). *)
Definition EPERM : Z := 1.
Definition ENOENT : Z := 2.
Definition EIO : Z := 5.
Definition EBADF : Z := 9.
Definition EACCES : Z := 13.
Definition EBUSY : Z := 16.
Definition EEXIST : Z := 17.
Definition EXDEV : Z := 18.
Definition ENOTDIR : Z := 20.
Definition EISDIR : Z := 21.
Definition EINVAL : Z := 22.
Definition EFBIG : Z := 27.
Definition ENOSPC : Z := 28.
Definition ENOTEMPTY : Z := 39.
Definition ENOTSUP : Z := 95.

Definition errno_string (n : Z) : string :=
  if (n =? 1)%Z then "operation not permitted"
  else if (n =? 2)%Z then "no such file or directory"
  else if (n =? 5)%Z then "input/output error"
  else if (n =? 9)%Z then "bad file descriptor"
  else if (n =? 13)%Z then "permission denied"
  else if (n =? 16)%Z then "device or resource busy"
  else if (n =? 17)%Z then "file exists"
  else if (n =? 18)%Z then "invalid cross-device link"
  else if (n =? 20)%Z then "not a directory"
  else if (n =? 21)%Z then "is a directory"
  else if (n =? 22)%Z then "invalid argument"
  else if (n =? 27)%Z then "file too large"
  else if (n =? 28)%Z then "no space left on device"
  else if (n =? 39)%Z then "directory not empty"
  else "errno " +:+ pretty n.

(** [(e *GraphError) Error()]. *)
Definition GraphError_Error (e : GraphError) : string :=
  "graph error HTTP " +:+ pretty (ge_StatusCode e) +:+ ": [" +:+ ge_Code e +:+ "] "
  +:+ ge_Message e.

(** [err.Error()]. *)
Fixpoint Error (e : error) : string :=
  match e with
  | ESentinel m | EMsg m | ENet _ m => m
  | EErrno n => errno_string n
  | EGraph g => GraphError_Error g
  | EWrap b i a => b +:+ Error i +:+ a
  end.

(** The sentinels of internal/graph/error.go and of [context]. *)
Definition ErrItemNotFound := ESentinel "Item not found".
Definition ErrInvalidToken := ESentinel "Invalid token".
Definition ErrEmptyName := ESentinel "The name cannot be empty".
Definition ErrEmptyResource := ESentinel "The resource cannot be empty".
Definition ErrThrottled := ESentinel "Too many requests to the API".
Definition ErrConflict := ESentinel "Conflict while modifying".
Definition ErrPreconditionFailed := ESentinel "Precondition failed".
Definition context_Canceled := ESentinel "context canceled".
Definition context_DeadlineExceeded := ESentinel "context deadline exceeded".

(** [(e *GraphError) Is(target)]: the sentinels by HTTP status. *)
Definition GraphError_Is (e : GraphError) (target : error) : bool :=
  if decide (target = ErrItemNotFound) then (ge_StatusCode e =? 404)%Z
  else if decide (target = ErrInvalidToken) then (ge_StatusCode e =? 401)%Z
  else if decide (target = ErrThrottled) then (ge_StatusCode e =? 429)%Z
  else if decide (target = ErrConflict) then (ge_StatusCode e =? 409)%Z
  else if decide (target = ErrPreconditionFailed) then (ge_StatusCode e =? 412)%Z
  else false.

(** [errors.Is(err, target)]: identity (of sentinels and errno values, which
    are comparable), the [Is] method of a [*GraphError], then the chain of
    wrapped errors. *)
Fixpoint errors_Is (err target : error) : bool :=
  match err with
  | ESentinel m => bool_decide (target = ESentinel m)
  | EErrno n => bool_decide (target = EErrno n)
  | EGraph g => GraphError_Is g target
  | EWrap _ i _ => errors_Is i target
  | EMsg _ | ENet _ _ => false
  end.

(** [errors.As(err, &graphErr)]: the first [*GraphError] of the chain. *)
Fixpoint errors_As_Graph (err : error) : option GraphError :=
  match err with
  | EGraph g => Some g
  | EWrap _ i _ => errors_As_Graph i
  | _ => None
  end.

(** [errors.As(err, &netErr)] followed by [netErr.Timeout()]: the first
    [net.Error] of the chain, [None] when there is none. [context] deadline
    errors implement [net.Error] and report a timeout; a [syscall.Errno] does
    too, with [Timeout()] for EAGAIN, EWOULDBLOCK and ETIMEDOUT. *)
Fixpoint errors_As_NetTimeout (err : error) : option bool :=
  match err with
  | ENet t _ => Some t
  | EErrno n => Some ((n =? 11) || (n =? 110))%Z
  | ESentinel m => if decide (err = context_DeadlineExceeded) then Some true else None
  | EWrap _ i _ => errors_As_NetTimeout i
  | _ => None
  end.

(** [errors.Is] looks through [%w] wrapping. *)
Lemma errors_Is_wrap b i a t : errors_Is (EWrap b i a) t = errors_Is i t.
Proof. reflexivity. Qed.

(** ** Instants and durations

    A [time.Time] is the number of nanoseconds since the Unix epoch (wall
    clock; time zones never matter to the code modelled here), a
    [time.Duration] an int64 number of nanoseconds. *)

#[local] Open Scope Z_scope.

Definition Time := Z.
Definition Duration := Z.

Definition Millisecond : Duration := 1000000.
Definition Second : Duration := 1000000000.
Definition Minute : Duration := 60 * Second.

(** The zero [time.Time]: January 1, year 1, 00:00:00 UTC. *)
Definition zeroTime : Time := (-62135596800 * 1000000000)%Z.
Definition IsZero (t : Time) : bool := (t =? zeroTime)%Z.

Definition time_Add (t : Time) (d : Duration) : Time := (t + d)%Z.
Definition time_After (t u : Time) : bool := (u <? t)%Z.
Definition time_Before (t u : Time) : bool := (t <? u)%Z.

(** [t.Sub(u)]: saturates at the int64 bounds. *)
Definition time_Sub (t u : Time) : Duration :=
  (Z.max (- 2 ^ 63) (Z.min (2 ^ 63 - 1) (t - u)))%Z.

(** [t.Unix()] and [t.UnixMilli()] round towards minus infinity. *)
Definition Unix (t : Time) : Z := (t / Second)%Z.
Definition UnixMilli (t : Time) : Z := (t / Millisecond)%Z.
Definition time_UnixMilli (ms : Z) : Time := (ms * Millisecond)%Z.

Lemma UnixMilli_roundtrip ms : UnixMilli (time_UnixMilli ms) = ms.
Proof. unfold UnixMilli, time_UnixMilli, Millisecond. by rewrite Z.div_mul. Qed.

(** Persisting an instant as milliseconds never moves it forward, and by less
    than a millisecond backward. *)
Lemma UnixMilli_trunc t :
  (time_UnixMilli (UnixMilli t) ≤ t < time_UnixMilli (UnixMilli t) + Millisecond)%Z.
Proof.
  unfold UnixMilli, time_UnixMilli, Millisecond.
  pose proof (Z.div_mod t 1000000) as H. pose proof (Z.mod_pos_bound t 1000000).
  lia.
Qed.

(** ** float64 conversions of integers

    [float64(n)] rounds to the nearest integer with 53 significant bits, ties
    to even. Products with powers of two are exact, so the float arithmetic of
    [effectiveTTL] is integer arithmetic on half-units with this rounding. *)
Definition round53_pos (z : Z) : Z :=
  if (z <? 2 ^ 53)%Z then z else
  let e := (Z.log2 z - 52)%Z in
  let q := Z.shiftr z e in
  let r := (z - Z.shiftl q e)%Z in
  let h := Z.shiftl 1 (e - 1) in
  let q' := if (h <? r)%Z || ((r =? h)%Z && Z.odd q) then (q + 1)%Z else q in
  Z.shiftl q' e.

Definition round53 (z : Z) : Z :=
  if (z <? 0)%Z then (- round53_pos (- z))%Z else round53_pos z.

Lemma round53_small z : (0 ≤ z < 2 ^ 53)%Z → round53 z = z.
Proof.
  intros. unfold round53, round53_pos.
  destruct (Z.ltb_spec z 0); [lia|]. destruct (Z.ltb_spec z (2 ^ 53)); [done|lia].
Qed.

(** The rounded value, with the quotient and the rest made explicit. *)
Lemma round53_pos_spec z :
  (2 ^ 53 ≤ z)%Z → ∃ e q r, (1 ≤ e)%Z ∧ z = (q * 2 ^ e + r)%Z ∧ (0 ≤ r < 2 ^ e)%Z ∧
    (2 ^ 52 ≤ q < 2 ^ 53)%Z ∧ e = (Z.log2 z - 52)%Z ∧
    (round53_pos z = q * 2 ^ e ∧ 2 * r ≤ 2 ^ e ∨
     round53_pos z = (q + 1) * 2 ^ e ∧ 2 ^ e ≤ 2 * r)%Z.
Proof.
  intros Hz. set (e := (Z.log2 z - 52)%Z).
  assert (Hl : (53 ≤ Z.log2 z)%Z) by (apply Z.log2_le_pow2; lia).
  pose proof (Z.log2_spec z ltac:(lia)) as [Hlo Hhi].
  assert (0 < 2 ^ e)%Z by (apply Z.pow_pos_nonneg; lia).
  exists e, (z / 2 ^ e)%Z, (z mod 2 ^ e)%Z.
  pose proof (Z.div_mod z (2 ^ e) ltac:(lia)) as Hdm.
  pose proof (Z.mod_pos_bound z (2 ^ e) ltac:(lia)) as Hr.
  assert (Hp1 : (2 ^ Z.log2 z = 2 ^ 52 * 2 ^ e)%Z) by (rewrite <- Z.pow_add_r; [f_equal|..]; lia).
  assert (Hp2 : (2 ^ Z.succ (Z.log2 z) = 2 ^ 53 * 2 ^ e)%Z)
    by (rewrite <- Z.pow_add_r; [f_equal|..]; lia).
  assert (Hh : (2 * 2 ^ (e - 1) = 2 ^ e)%Z) by (rewrite <- Z.pow_succ_r; [f_equal|]; lia).
  split; [lia|]. split; [lia|]. split; [lia|].
  split. { split; [apply Z.div_le_lower_bound|apply Z.div_lt_upper_bound]; lia. }
  split; [done|].
  unfold round53_pos. destruct (Z.ltb_spec z (2 ^ 53)); [lia|]. fold e.
  rewrite Z.shiftr_div_pow2, !Z.shiftl_mul_pow2 by lia.
  replace (z - z / 2 ^ e * 2 ^ e)%Z with (z mod 2 ^ e)%Z by lia.
  set (r := (z mod 2 ^ e)%Z) in *. set (q := (z / 2 ^ e)%Z) in *.
  destruct (Z.ltb_spec (1 * 2 ^ (e - 1)) r); simpl; [right; split; lia|].
  destruct (Z.eqb_spec r (1 * 2 ^ (e - 1))); simpl; [|left; split; lia].
  destruct (Z.odd q); [right|left]; split; lia.
Qed.

(** Rounding is monotone: it never reorders two values. *)
Lemma round53_pos_mono a b : (0 ≤ a ≤ b)%Z → (round53_pos a ≤ round53_pos b)%Z.
Proof.
  intros [Ha Hab].
  destruct (decide (b < 2 ^ 53)%Z) as [Hb|Hb].
  { unfold round53_pos. destruct (Z.ltb_spec a (2 ^ 53)), (Z.ltb_spec b (2 ^ 53)); lia. }
  destruct (round53_pos_spec b ltac:(lia)) as (eb & qb & rb & ? & Eb & ? & Hqb & Heb & Hrb).
  assert (0 < 2 ^ eb)%Z by (apply Z.pow_pos_nonneg; lia).
  assert (Hlowb : (2 ^ 52 * 2 ^ eb ≤ round53_pos b)%Z) by nia.
  destruct (decide (a < 2 ^ 53)%Z) as [Ha'|Ha'].
  { unfold round53_pos at 1. destruct (Z.ltb_spec a (2 ^ 53)); [|lia].
    assert (2 ^ 1 ≤ 2 ^ eb)%Z by (apply Z.pow_le_mono_r; lia). nia. }
  destruct (round53_pos_spec a ltac:(lia)) as (ea & qa & ra & ? & Ea & ? & Hqa & Hea & Hra).
  assert (0 < 2 ^ ea)%Z by (apply Z.pow_pos_nonneg; lia).
  pose proof (Z.log2_le_mono a b Hab).
  assert (0 < 2 ^ ea) by (apply Z.pow_pos_nonneg; lia).
  assert (Ha_up : round53_pos a ≤ (qa + 1) * 2 ^ ea) by (destruct Hra as [[-> ?]|[-> ?]]; nia).
  assert (Hb_lo : qb * 2 ^ eb ≤ round53_pos b) by (destruct Hrb as [[-> ?]|[-> ?]]; nia).
  destruct (decide (ea = eb)) as [->|Hne].
  - assert (qa ≤ qb) by nia.
    destruct (decide (qa = qb)) as [->|].
    + destruct Hra as [[Ra ?]|[Ra ?]], Hrb as [[Rb ?]|[Rb ?]]; rewrite ?Ra, ?Rb; try lia.
      assert (Hab' : a = b) by lia. rewrite Hab' in Ra. lia.
    + assert ((qa + 1) * 2 ^ eb ≤ qb * 2 ^ eb) by (apply Z.mul_le_mono_nonneg_r; lia). lia.
  - assert (Hpow : 2 ^ (ea + 1) ≤ 2 ^ eb) by (apply Z.pow_le_mono_r; lia).
    rewrite Z.pow_add_r in Hpow by lia. nia.
Qed.
