(* ===== verification/GoStrings.v ===== *)
(** Go's byte strings: the functions of [strings], [path], [net/url],
    [encoding/hex], [encoding/base64] and [unicode/utf8] the code calls, on
    [string] (a sequence of bytes, as in Go). *)

From Stdlib Require Export Ascii.
From Stdlib Require String.
From S2P Require Export GoBase.

#[local] Open Scope Z_scope.

Definition chars (s : string) : list ascii := String.list_ascii_of_string s.
Definition of_chars (l : list ascii) : string := String.string_of_list_ascii l.

Lemma of_chars_chars s : of_chars (chars s) = s.
Proof. apply String.string_of_list_ascii_of_string. Qed.
Lemma chars_of_chars l : chars (of_chars l) = l.
Proof. apply String.list_ascii_of_string_of_list_ascii. Qed.
Lemma chars_app s t : chars (s +:+ t) = chars s ++ chars t.
Proof. unfold chars. induction s as [|a s IH]; simpl; [done|]. by rewrite IH. Qed.
Lemma chars_inj s t : chars s = chars t → s = t.
Proof. intros H. by rewrite <- (of_chars_chars s), <- (of_chars_chars t), H. Qed.
Lemma of_chars_app l k : of_chars (l ++ k) = of_chars l +:+ of_chars k.
Proof. apply chars_inj. by rewrite chars_app, !chars_of_chars. Qed.

Definition byte_of (a : ascii) : Z := Z.of_N (Ascii.N_of_ascii a).
Definition ascii_of (b : Z) : ascii := Ascii.ascii_of_N (Z.to_N b).
Definition Slen (s : string) : Z := Z.of_nat (String.length s).

(** ** strings *)

Definition HasPrefix (s p : string) : bool := String.prefix p s.
Definition HasSuffix (s p : string) : bool :=
  bool_decide (drop (length (chars s) - length (chars p)) (chars s) = chars p).

(** The order of strings: [<=] byte by byte. *)
Definition string_le (a b : string) : Prop := String.leb a b = true.
#[global] Instance string_le_dec : RelDecision string_le.
Proof. intros a b. unfold string_le. apply _. Defined.
Definition string_lt (a b : string) : bool := String.ltb a b.

Fixpoint list_prefixb (p l : list ascii) : bool :=
  match p, l with
  | [], _ => true
  | a :: p, b :: l => bool_decide (a = b) && list_prefixb p l
  | _, [] => false
  end.

Fixpoint list_containsb (l sub : list ascii) : bool :=
  list_prefixb sub l || match l with [] => false | _ :: l => list_containsb l sub end.

(** [strings.Contains]. *)
Definition Contains (s sub : string) : bool := list_containsb (chars s) (chars sub).

Fixpoint drop_while (f : ascii → bool) (l : list ascii) : list ascii :=
  match l with [] => [] | a :: l' => if f a then drop_while f l' else l end.

Definition TrimLeft_chars (c : ascii) (l : list ascii) : list ascii :=
  drop_while (λ a, bool_decide (a = c)) l.
Definition TrimRight_chars (c : ascii) (l : list ascii) : list ascii :=
  reverse (TrimLeft_chars c (reverse l)).

(** [strings.TrimRight(s, "c")], [strings.Trim(s, "c")] for one byte [c]. *)
Definition TrimRight (s : string) (c : ascii) : string := of_chars (TrimRight_chars c (chars s)).
Definition Trim (s : string) (c : ascii) : string :=
  of_chars (TrimRight_chars c (TrimLeft_chars c (chars s))).

(** [strings.Split(s, "c")] for one byte [c]: never empty. *)
Fixpoint split_chars (c : ascii) (l : list ascii) : list (list ascii) :=
  match l with
  | [] => [[]]
  | a :: l' =>
      if decide (a = c) then [] :: split_chars c l'
      else match split_chars c l' with
           | [] => [[a]]
           | w :: ws => (a :: w) :: ws
           end
  end.
Definition Split (s : string) (c : ascii) : list string := of_chars <$> split_chars c (chars s).

(** [strings.Join(ss, "c")]. *)
Fixpoint join_chars (c : ascii) (ws : list (list ascii)) : list ascii :=
  match ws with
  | [] => []
  | [w] => w
  | w :: ws => w ++ c :: join_chars c ws
  end.
Definition Join (ss : list string) (c : ascii) : string := of_chars (join_chars c (chars <$> ss)).

(** [strings.ReplaceAll(s, "c", new)] for one byte [c]. *)
Definition ReplaceAll (s : string) (c : ascii) (new : string) : string :=
  of_chars (chars s ≫= λ a, if decide (a = c) then chars new else [a]).

(** [strings.ToLower] on ASCII letters. *)
Definition lower_ascii (a : ascii) : ascii :=
  let n := Ascii.N_of_ascii a in
  if (65 <=? n)%N && (n <=? 90)%N then Ascii.ascii_of_N (n + 32) else a.

(** [strings.EqualFold], for two strings of which one is ASCII: the ASCII
    letters fold by case and the two other runes whose simple folding is an
    ASCII letter, the Kelvin sign (E2 84 AA) and the long s (C5 BF), fold to
    k and s. *)
Fixpoint fold_chars (l : list ascii) : list ascii :=
  match l with
  | "197"%char :: "191"%char :: l' => "s"%char :: fold_chars l'
  | "226"%char :: "132"%char :: "170"%char :: l' => "k"%char :: fold_chars l'
  | a :: l' => lower_ascii a :: fold_chars l'
  | [] => []
  end.
Definition EqualFold (s t : string) : bool :=
  bool_decide (fold_chars (chars s) = fold_chars (chars t)).

Lemma EqualFold_refl s : EqualFold s s = true.
Proof. unfold EqualFold. by apply bool_decide_eq_true. Qed.

(** ** Split and join *)

Lemma split_chars_nonnil c l : split_chars c l ≠ [].
Proof. destruct l as [|a l]; simpl; [done|]. case_decide; [done|]. by destruct (split_chars c l). Qed.

Lemma split_chars_no_sep c l : Forall (λ w, c ∉ w) (split_chars c l).
Proof.
  induction l as [|a l IH]; simpl.
  - repeat constructor. apply not_elem_of_nil.
  - case_decide as E; [constructor; [apply not_elem_of_nil|done]|].
    destruct (split_chars c l) as [|w ws].
    + repeat constructor. by apply not_elem_of_cons; split; [congruence|apply not_elem_of_nil].
    + apply Forall_cons in IH as [Hw Hws]. constructor; [|done].
      by apply not_elem_of_cons; split; [congruence|].
Qed.

Lemma join_split_chars c l : join_chars c (split_chars c l) = l.
Proof.
  induction l as [|a l IH]; simpl; [done|].
  pose proof (split_chars_nonnil c l).
  case_decide as E; subst.
  - destruct (split_chars c l) as [|w ws]; [done|]. simpl in *. by rewrite IH.
  - destruct (split_chars c l) as [|w [|w' ws]]; simpl in *; [done|by rewrite IH|by rewrite IH].
Qed.

Lemma split_join_chars c ws :
  ws ≠ [] → Forall (λ w, c ∉ w) ws → split_chars c (join_chars c ws) = ws.
Proof.
  intros Hne HF. induction ws as [|w ws IH]; [done|].
  inversion HF as [|?? Hw HF']; subst.
  assert (Hw1 : split_chars c w = [w]).
  { clear -Hw. induction w as [|a w IHw]; simpl; [done|].
    apply not_elem_of_cons in Hw as [Ha Hw]. rewrite decide_False by congruence.
    by rewrite IHw. }
  assert (Hcons : ∀ l, split_chars c (w ++ c :: l) = w :: split_chars c l).
  { clear -Hw. intros l. induction w as [|a w IHw]; simpl.
    - by rewrite decide_True.
    - apply not_elem_of_cons in Hw as [Ha Hw]. rewrite decide_False by congruence.
      by rewrite IHw. }
  destruct ws as [|w' ws]; [done|].
  change (join_chars c (w :: w' :: ws)) with (w ++ c :: join_chars c (w' :: ws)).
  rewrite Hcons. f_equal. by apply IH.
Qed.

(** ** path.Clean

    The path is split at the slashes; empty and "." components are dropped, a
    ".." drops the component before it, or is dropped at the root of a rooted
    path, or is kept at the start of a relative one. [st] is the stack of
    components kept so far, last first. *)
Definition seg := list ascii.
Definition dot : seg := ["."%char].
Definition dotdot : seg := ["."%char; "."%char].
Definition slash : ascii := "/"%char.

Definition clean_step (rooted : bool) (st : list seg) (s : seg) : list seg :=
  if decide (s = [] ∨ s = dot) then st
  else if decide (s = dotdot) then
    match st with
    | [] => if rooted then [] else [dotdot]
    | t :: st' => if decide (t = dotdot) then dotdot :: st else st'
    end
  else s :: st.

Definition clean_segs (rooted : bool) (ss : list seg) : list seg :=
  reverse (foldl (clean_step rooted) [] ss).

Definition Clean (p : string) : string :=
  let l := chars p in
  let rooted := match l with a :: _ => bool_decide (a = slash) | [] => false end in
  match rooted, clean_segs rooted (split_chars slash l) with
  | true, ss => of_chars (slash :: join_chars slash ss)
  | false, [] => "."
  | false, ss => of_chars (join_chars slash ss)
  end.

(** The components a cleaned rooted path is made of: never empty, "." or "..". *)
Definition plain_seg (s : seg) : Prop := s ≠ [] ∧ s ≠ dot ∧ s ≠ dotdot ∧ slash ∉ s.

Lemma clean_step_plain st s :
  slash ∉ s → Forall plain_seg st → Forall plain_seg (clean_step true st s).
Proof.
  intros Hs Hst. unfold clean_step. case_decide as H1; [done|].
  case_decide as H2.
  - destruct st as [|t st]; [done|]. apply Forall_cons in Hst as [(_&_&Ht&_) Hst].
    by rewrite decide_False.
  - constructor; [|done]. unfold plain_seg. tauto.
Qed.

Lemma clean_segs_plain ss : Forall (λ s, slash ∉ s) ss → Forall plain_seg (clean_segs true ss).
Proof.
  intros H. unfold clean_segs. apply Forall_reverse.
  assert (∀ st, Forall plain_seg st → Forall plain_seg (foldl (clean_step true) st ss)) as Hgo;
    [|by apply Hgo].
  induction H as [|s ss Hs _ IH]; intros st Hst; simpl; [done|].
  apply IH. by apply clean_step_plain.
Qed.

Lemma foldl_clean_plain r ss st :
  Forall plain_seg ss → foldl (clean_step r) st ss = reverse ss ++ st.
Proof.
  intros H. revert st. induction H as [|s ss (H1&H2&H3&_) _ IH]; intros st; simpl; [done|].
  rewrite IH, reverse_cons, <- app_assoc. f_equal.
  unfold clean_step. rewrite !decide_False by tauto. done.
Qed.

(** Cleaning keeps a list of plain components. *)
Lemma clean_segs_id r ss : Forall plain_seg ss → clean_segs r ss = ss.
Proof.
  intros H. unfold clean_segs. by rewrite foldl_clean_plain, app_nil_r, reverse_involutive.
Qed.

(** ** net/url *)

Definition is_alnum (a : ascii) : bool :=
  let n := Ascii.N_of_ascii a in
  ((48 <=? n) && (n <=? 57) || (65 <=? n) && (n <=? 90) || (97 <=? n) && (n <=? 122))%N.

(** The bytes [url.PathEscape] leaves alone: letters, digits, - _ . ~ and,
    inside a path segment, $ & + : = @. *)
Definition seg_safe (a : ascii) : bool :=
  is_alnum a || bool_decide (a ∈ chars "-_.~$&+:=@").

Definition hex_upper (n : Z) : ascii :=
  if n <? 10 then ascii_of (48 + n) else ascii_of (55 + n).
Definition hex_lower (n : Z) : ascii :=
  if n <? 10 then ascii_of (48 + n) else ascii_of (87 + n).

Definition pct (a : ascii) : list ascii :=
  ["%"%char; hex_upper (Z.shiftr (byte_of a) 4); hex_upper (Z.land (byte_of a) 15)].

Definition PathEscape_chars (l : list ascii) : list ascii :=
  l ≫= λ a, if seg_safe a then [a] else pct a.
Definition PathEscape (s : string) : string := of_chars (PathEscape_chars (chars s)).

(** [url.QueryEscape]: a space is written +, only the unreserved bytes stay. *)
Definition QueryEscape (s : string) : string :=
  of_chars (chars s ≫= λ a,
    if decide (a = " "%char) then ["+"%char]
    else if is_alnum a || bool_decide (a ∈ chars "-_.~") then [a] else pct a).

(** [url.Values.Encode] on the key/value pairs in key order. *)
Fixpoint Values_Encode (q : list (string * string)) : string :=
  match q with
  | [] => ""
  | [(k, v)] => QueryEscape k +:+ "=" +:+ QueryEscape v
  | (k, v) :: q' => QueryEscape k +:+ "=" +:+ QueryEscape v +:+ "&" +:+ Values_Encode q'
  end.

Lemma hex_upper_safe n : 0 ≤ n < 16 → hex_upper n ≠ slash ∧ hex_upper n ≠ ":"%char.
Proof.
  intros Hn. assert (n ∈ seqZ 0 16) as Hin by (apply elem_of_seqZ; lia).
  assert (HF : Forall (λ n, hex_upper n ≠ slash ∧ hex_upper n ≠ ":"%char) (seqZ 0 16))
    by (vm_compute; repeat constructor; discriminate).
  rewrite Forall_forall in HF. auto.
Qed.

Lemma byte_of_range a : is_byte (byte_of a).
Proof.
  unfold byte_of, is_byte. split; [lia|].
  pose proof (Ascii.N_ascii_bounded a). lia.
Qed.

Lemma pct_no_slash a : slash ∉ pct a.
Proof.
  pose proof (byte_of_range a) as [H0 H1]. unfold pct.
  rewrite Z.shiftr_div_pow2 by lia.
  replace 15 with (Z.ones 4) by reflexivity. rewrite Z.land_ones by lia.
  destruct (hex_upper_safe (byte_of a / 2 ^ 4)) as [Hs1 _].
  { split; [apply Z.div_pos; lia|apply Z.div_lt_upper_bound; lia]. }
  destruct (hex_upper_safe (byte_of a mod 2 ^ 4)) as [Hs2 _]; [apply Z.mod_pos_bound; lia|].
  rewrite !not_elem_of_cons. repeat split; try congruence; [done|apply not_elem_of_nil].
Qed.

(** An escaped segment never contains a slash: one segment in, one segment out. *)
Lemma PathEscape_no_slash l : slash ∉ PathEscape_chars l.
Proof.
  unfold PathEscape_chars. rewrite list_elem_of_bind. intros (a & Hin & _).
  destruct (seg_safe a) eqn:E.
  - apply list_elem_of_singleton in Hin. subst a. by vm_compute in E.
  - by apply pct_no_slash in Hin.
Qed.

(** ** encoding/hex, encoding/base64 *)

Definition hex_EncodeToString (b : list Z) : string :=
  of_chars (b ≫= λ x, [hex_lower (Z.shiftr x 4); hex_lower (Z.land x 15)]).

Definition b64_char (n : Z) : ascii :=
  if n <? 26 then ascii_of (65 + n)
  else if n <? 52 then ascii_of (71 + n)
  else if n <? 62 then ascii_of (n - 4)
  else if n =? 62 then "+"%char else "/"%char.

(** [base64.StdEncoding]: three bytes to four characters, padded with =. *)
Fixpoint b64_chars (b : list Z) : list ascii :=
  match b with
  | x :: y :: z :: b' =>
      let v := Z.lor (Z.shiftl x 16) (Z.lor (Z.shiftl y 8) z) in
      b64_char (Z.land (Z.shiftr v 18) 63) :: b64_char (Z.land (Z.shiftr v 12) 63) ::
      b64_char (Z.land (Z.shiftr v 6) 63) :: b64_char (Z.land v 63) :: b64_chars b'
  | [x; y] =>
      let v := Z.lor (Z.shiftl x 16) (Z.shiftl y 8) in
      [b64_char (Z.land (Z.shiftr v 18) 63); b64_char (Z.land (Z.shiftr v 12) 63);
       b64_char (Z.land (Z.shiftr v 6) 63); "="%char]
  | [x] =>
      let v := Z.shiftl x 16 in
      [b64_char (Z.land (Z.shiftr v 18) 63); b64_char (Z.land (Z.shiftr v 12) 63); "="%char; "="%char]
  | [] => []
  end.
Definition base64_EncodeToString (b : list Z) : string := of_chars (b64_chars b).

Definition b64_value (a : ascii) : option Z :=
  let n := byte_of a in
  if (65 <=? n) && (n <=? 90) then Some (n - 65)
  else if (97 <=? n) && (n <=? 122) then Some (n - 71)
  else if (48 <=? n) && (n <=? 57) then Some (n + 4)
  else if n =? 43 then Some 62 else if n =? 47 then Some 63 else None.

(** [base64.StdEncoding.Decode]: groups of four, the last one padded; line
    breaks are skipped, the unused low bits are not looked at. *)
Fixpoint b64_quads (l : list ascii) : option (list Z) :=
  match l with
  | [] => Some []
  | a :: b :: c :: d :: l' =>
      x ← b64_value a; y ← b64_value b;
      if bool_decide (d = "="%char) then
        if negb (bool_decide (l' = [])) then None
        else if bool_decide (c = "="%char) then Some [u8 ((x * 64 + y) / 16)]
        else z ← b64_value c;
             let v := (x * 64 + y) * 64 + z in Some [u8 (v / 1024); u8 (v / 4)]
      else
        z ← b64_value c; t ← b64_value d;
        let v := ((x * 64 + y) * 64 + z) * 64 + t in
        rest ← b64_quads l'; Some (u8 (v / 65536) :: u8 (v / 256) :: u8 v :: rest)
  | _ => None
  end.
Definition base64_DecodeString (s : string) : option (list Z) :=
  b64_quads (filter (λ a, byte_of a ≠ 10 ∧ byte_of a ≠ 13) (chars s)).

Lemma b64_char_value n : 0 ≤ n < 64 → b64_value (b64_char n) = Some n.
Proof.
  intros Hn. assert (H : forallb (λ k, bool_decide (b64_value (b64_char k) = Some k)) (seqZ 0 64) = true)
    by (vm_compute; reflexivity).
  rewrite forallb_forall in H. apply (bool_decide_eq_true_1 _), H.
  apply list_elem_of_In, elem_of_seqZ. lia.
Qed.

(** A character of the alphabet is neither padding nor a line break. *)
Lemma b64_char_plain n : 0 ≤ n < 64 →
  b64_char n ≠ "="%char ∧ byte_of (b64_char n) ≠ 10 ∧ byte_of (b64_char n) ≠ 13.
Proof.
  intros Hn. assert (H : forallb (λ k, bool_decide (b64_char k ≠ "="%char ∧
    byte_of (b64_char k) ≠ 10 ∧ byte_of (b64_char k) ≠ 13)) (seqZ 0 64) = true)
    by (vm_compute; reflexivity).
  rewrite forallb_forall in H. apply (bool_decide_eq_true_1 _), H.
  apply list_elem_of_In, elem_of_seqZ. lia.
Qed.

Lemma sextet v k : 0 ≤ k → Z.land (Z.shiftr v k) 63 = (v / 2 ^ k) mod 64.
Proof. intros. rewrite Z.shiftr_div_pow2 by done. by rewrite (Z.land_ones _ 6). Qed.

Lemma sextet_low v : Z.land v 63 = v mod 64.
Proof. by rewrite (Z.land_ones _ 6). Qed.

(** Putting a byte above [k] bits. *)
Lemma lor_shift x y k : 0 ≤ k → 0 ≤ y < 2 ^ k → Z.lor (Z.shiftl x k) y = x * 2 ^ k + y.
Proof.
  intros Hk Hy. rewrite <-Z.shiftl_mul_pow2 by done. symmetry. apply Z.add_nocarry_lor.
  apply Z.bits_inj'. intros i Hi. rewrite Z.land_spec, Z.bits_0, Z.shiftl_spec by done.
  destruct (decide (i < k)).
  - by rewrite Z.testbit_neg_r by lia.
  - destruct (decide (y = 0)) as [->|]; [by rewrite Z.bits_0, andb_false_r|].
    rewrite (Z.bits_above_log2 y), andb_false_r; [done|lia|]. apply Z.log2_lt_pow2; [lia|].
    eapply Z.lt_le_trans; [apply Hy|]. apply Z.pow_le_mono_r; lia.
Qed.

Lemma three_bytes x y z : is_byte y → is_byte z →
  Z.lor (Z.shiftl x 16) (Z.lor (Z.shiftl y 8) z) = x * 65536 + y * 256 + z.
Proof.
  unfold is_byte. intros. rewrite (lor_shift y z 8) by lia. rewrite lor_shift by lia. lia.
Qed.

(** One group: the sextets of [v] are plain characters with the right values. *)
Lemma b64_char_mod n : b64_value (b64_char (n mod 64)) = Some (n mod 64) ∧ b64_char (n mod 64) ≠ "="%char.
Proof.
  pose proof (Z.mod_pos_bound n 64 ltac:(lia)). split; [by apply b64_char_value|].
  by apply b64_char_plain.
Qed.

#[local] Ltac Zify.zify_post_hook ::= Z.to_euclidean_division_equations.

(** The bytes of the value the sextets of [v] make up. *)
Lemma sextets_value v : 0 ≤ v < 2 ^ 24 →
  (((v / 2 ^ 18) mod 64 * 64 + (v / 2 ^ 12) mod 64) * 64 + (v / 2 ^ 6) mod 64) * 64 + v mod 64 = v.
Proof.
  change (2 ^ 24) with 16777216. change (2 ^ 18) with 262144. change (2 ^ 12) with 4096.
  change (2 ^ 6) with 64. lia.
Qed.
Lemma sextets_value3 v : 0 ≤ v < 2 ^ 24 →
  ((v / 2 ^ 18) mod 64 * 64 + (v / 2 ^ 12) mod 64) * 64 + (v / 2 ^ 6) mod 64 = v / 64.
Proof.
  change (2 ^ 24) with 16777216. change (2 ^ 18) with 262144. change (2 ^ 12) with 4096.
  change (2 ^ 6) with 64. lia.
Qed.
Lemma sextets_value2 v : 0 ≤ v < 2 ^ 24 →
  (v / 2 ^ 18) mod 64 * 64 + (v / 2 ^ 12) mod 64 = v / 4096.
Proof.
  change (2 ^ 24) with 16777216. change (2 ^ 18) with 262144. change (2 ^ 12) with 4096. lia.
Qed.

Ltac b64_sextets :=
  rewrite ?sextet by lia; rewrite ?sextet_low;
  repeat match goal with
  | |- context [b64_value (b64_char (?n mod 64))] => rewrite (proj1 (b64_char_mod n)); cbn [mbind option_bind]
  end;
  repeat match goal with
  | |- context [bool_decide (b64_char (?n mod 64) = "="%char)] =>
      rewrite (bool_decide_eq_false_2 (b64_char (n mod 64) = "="%char)) by apply (b64_char_mod n)
  end.

Lemma b64_quads_chars b : Forall is_byte b → b64_quads (b64_chars b) = Some b.
Proof.
  induction b as [b IH] using (induction_ltof1 _ length). unfold ltof in IH. intros Hb.
  destruct b as [|x [|y [|z b]]]; [done| | |].
  - inversion_clear Hb as [|? ? Hx]. unfold is_byte in *. cbn [b64_chars b64_quads]. b64_sextets.
    rewrite !bool_decide_eq_true_2 by done. cbn [negb].
    rewrite Z.shiftl_mul_pow2, sextets_value2 by lia. do 2 f_equal. unfold u8. lia.
  - inversion_clear Hb as [|? ? Hx Hb']. inversion_clear Hb' as [|? ? Hy]. unfold is_byte in *.
    cbn [b64_chars b64_quads]. rewrite (Z.shiftl_mul_pow2 y 8), (lor_shift x (y * 2 ^ 8) 16) by lia.
    b64_sextets. rewrite !bool_decide_eq_true_2 by done. cbn [negb].
    rewrite sextets_value3 by lia. unfold u8. f_equal. f_equal; [lia|f_equal; lia].
  - inversion_clear Hb as [|? ? Hx Hb1]. inversion_clear Hb1 as [|? ? Hy Hb2].
    inversion_clear Hb2 as [|? ? Hz Hb3]. cbn [b64_chars b64_quads].
    rewrite (three_bytes x y z) by done. b64_sextets. unfold is_byte in *.
    rewrite sextets_value by lia.
    rewrite IH by (simpl; lia || done). cbn [mbind option_bind]. unfold u8 in *.
    f_equal. f_equal; [lia|f_equal; [lia|f_equal; lia]].
Qed.

Definition line_char (a : ascii) : Prop := byte_of a ≠ 10 ∧ byte_of a ≠ 13.
Lemma b64_chars_plain b : Forall line_char (b64_chars b).
Proof.
  assert (Hc : ∀ n, line_char (b64_char (n mod 64))).
  { intros n. apply b64_char_plain, Z.mod_pos_bound. lia. }
  assert (He : line_char "="%char) by (by vm_compute).
  induction b as [b IH] using (induction_ltof1 _ length). unfold ltof in IH.
  destruct b as [|x [|y [|z b]]]; cbn [b64_chars];
    rewrite ?sextet by lia; rewrite ?sextet_low; repeat constructor; auto; apply Hc || apply IH; simpl; lia.
Qed.

Lemma base64_roundtrip b :
  Forall is_byte b → base64_DecodeString (base64_EncodeToString b) = Some b.
Proof.
  intros Hb. unfold base64_DecodeString, base64_EncodeToString. rewrite chars_of_chars.
  replace (filter _ (b64_chars b)) with (b64_chars b); [by apply b64_quads_chars|].
  induction (b64_chars_plain b) as [|a l Ha _ IH]; [done|].
  rewrite filter_cons_True by apply Ha. by f_equal.
Qed.

(** ** unicode/utf8: what [encoding/json] does to a string

    The JSON encoder writes each byte that does not belong to a valid UTF-8
    sequence as U+FFFD (EF BF BD). *)
Definition in_range (a : ascii) (lo hi : Z) : bool := (lo <=? byte_of a) && (byte_of a <=? hi).
Definition cont (a : ascii) : bool := in_range a 128 191.

(** The length of the valid sequence the bytes start with, 0 when invalid. *)
Definition utf8_width (l : list ascii) : nat :=
  match l with
  | [] => 0
  | a :: l' =>
      if byte_of a <? 128 then 1 else
      if in_range a 194 223 then
        match l' with b :: _ => if cont b then 2 else 0 | _ => 0 end
      else if in_range a 224 239 then
        match l' with
        | b :: c :: _ =>
            if in_range b (if byte_of a =? 224 then 160 else 128)
                          (if byte_of a =? 237 then 159 else 191) && cont c then 3 else 0
        | _ => 0
        end
      else if in_range a 240 244 then
        match l' with
        | b :: c :: d :: _ =>
            if in_range b (if byte_of a =? 240 then 144 else 128)
                          (if byte_of a =? 244 then 143 else 191) && cont c && cont d then 4 else 0
        | _ => 0
        end
      else 0
  end.

Definition replacement : list ascii := ["239"%char; "191"%char; "189"%char].

Fixpoint utf8_coerce_fuel (n : nat) (l : list ascii) : list ascii :=
  match n, l with
  | S n, a :: l' =>
      match utf8_width l with
      | O => replacement ++ utf8_coerce_fuel n l'
      | w => take w l ++ utf8_coerce_fuel n (drop w l)
      end
  | _, _ => []
  end.
Definition utf8_coerce (s : string) : string :=
  let l := chars s in of_chars (utf8_coerce_fuel (length l) l).

(** A string [encoding/json] writes unchanged. *)
Definition utf8_valid (s : string) : Prop := utf8_coerce s = s.
#[global] Instance utf8_valid_dec s : Decision (utf8_valid s).
Proof. unfold utf8_valid. apply _. Defined.

(** An ASCII string is valid UTF-8. *)
Definition is_ascii (s : string) : bool := forallb (λ a, byte_of a <? 128) (chars s).

Lemma utf8_valid_ascii s : is_ascii s = true → utf8_valid s.
Proof.
  unfold is_ascii, utf8_valid, utf8_coerce. intros H.
  rewrite <- (of_chars_chars s) at 3. f_equal.
  induction (chars s) as [|a l IH]; [done|].
  simpl in H. apply andb_prop in H as [Ha Hl].
  cbn [length utf8_coerce_fuel utf8_width]. rewrite Ha.
  simpl. f_equal. auto.
Qed.

(** ** Quoting ([%q]): the printable ASCII and non-ASCII bytes stand for
    themselves, the quote and the backslash are escaped, a control byte has
    its letter or is written \xNN. *)
Definition escape_letter (a : ascii) : option ascii :=
  chars "abtnvfr" !! Z.to_nat (byte_of a - 7) ≫= λ c,
    if (7 <=? byte_of a) && (byte_of a <=? 13) then Some c else None.
Definition dquote : ascii := "034"%char.
Definition Quote (s : string) : string :=
  of_chars (dquote :: (chars s ≫= λ a,
    if decide (a = dquote ∨ a = "\"%char) then ["\"%char; a]
    else if escape_letter a is Some c then ["\"%char; c]
    else if (byte_of a <? 32) || (byte_of a =? 127)
    then ["\"%char; "x"%char; hex_lower (Z.shiftr (byte_of a) 4); hex_lower (Z.land (byte_of a) 15)]
    else [a]) ++ [dquote]).
