(* ===== verification/GoTime.v ===== *)
(** [time.Time.Format] for the layout the code uses: the civil date of an
    instant in the local time zone. *)

From S2P Require Export GoStrings.

#[local] Open Scope Z_scope.
#[local] Ltac Zify.zify_post_hook ::= Z.to_euclidean_division_equations.

(** The offset of the local zone from UTC at an instant, in seconds. *)
Class LocalZone := zone_offset : Time → Z.

(** ** The proleptic Gregorian calendar *)

Record Date := mkDate { year : Z; month : Z; day : Z }.

(** The date of the [z]-th day after 1970-01-01, counted in eras of 400 years
    that start on March 1. *)
Definition year_of_era (doe : Z) : Z := (doe - doe / 1460 + doe / 36524 - doe / 146096) / 365.
Definition civil_era (doe : Z) : Date :=
  let yoe := year_of_era doe in
  let doy := doe - (365 * yoe + yoe / 4 - yoe / 100) in
  let mp := (5 * doy + 2) / 153 in
  let m := if mp <? 10 then mp + 3 else mp - 9 in
  mkDate (if m <=? 2 then yoe + 1 else yoe) m (doy - (153 * mp + 2) / 5 + 1).
Definition civil_of_days (z : Z) : Date :=
  let z := z + 719468 in
  let d := civil_era (z mod 146097) in
  mkDate (year d + 400 * (z / 146097)) (month d) (day d).

(** The inverse. *)
Definition days_era (d : Date) : Z :=
  let y := if month d <=? 2 then year d - 1 else year d in
  let mp := if 2 <? month d then month d - 3 else month d + 9 in
  365 * y + y / 4 - y / 100 + (153 * mp + 2) / 5 + day d - 1.

(** Within a century of the era the year and the day of the year are in range;
    the last day of the era is a leap day on its own. *)
Lemma century_day doe k : 0 ≤ k ≤ 3 → 36524 * k ≤ doe < 36524 * (k + 1) →
  let y := year_of_era doe in 0 ≤ y < 400 ∧ 0 ≤ doe - (365 * y + y / 4 - y / 100) ≤ 365.
Proof.
  intros Hk Hd y. assert (Hb : doe / 36524 = k) by lia. assert (Hc : doe / 146096 = 0) by lia.
  assert (H100 : 100 * k ≤ y < 100 * (k + 1)) by (subst y; unfold year_of_era; rewrite Hb, Hc; lia).
  split; [lia|]. assert (Hy : y / 100 = k) by lia. rewrite Hy.
  assert (He : y = (doe + k - doe / 1460) / 365) by (subst y; unfold year_of_era; rewrite Hb, Hc; f_equal; lia).
  clearbody y. clear Hb Hc Hy. lia.
Qed.
Lemma year_of_era_range doe : 0 ≤ doe < 146097 →
  let y := year_of_era doe in 0 ≤ y < 400 ∧ 0 ≤ doe - (365 * y + y / 4 - y / 100) ≤ 365.
Proof.
  intros Hd. destruct (decide (doe = 146096)) as [->|Hn]; [by vm_compute|].
  apply (century_day doe (doe / 36524)); lia.
Qed.

(** The date of an era day: its ranges, and the day back. *)
Lemma era_day doe : 0 ≤ doe < 146097 →
  let d := civil_era doe in
  days_era d = doe ∧ 1 ≤ month d ≤ 12 ∧ 1 ≤ day d ≤ 31 ∧
  0 ≤ (if month d <=? 2 then year d - 1 else year d) < 400.
Proof.
  intros Hd. pose proof (year_of_era_range doe Hd) as [Hy Hdoy]. cbv zeta in *. unfold civil_era.
  set (y := year_of_era doe) in *. cbv zeta.
  set (doy := doe - (365 * y + y / 4 - y / 100)) in *. assert (Hdoe : doe = doy + (365 * y + y / 4 - y / 100)) by lia.
  clearbody doy y. set (mp := (5 * doy + 2) / 153). assert (Hmp : 0 ≤ mp ≤ 11) by lia.
  unfold days_era. cbn [year month day].
  destruct (Z.ltb_spec mp 10).
  - rewrite (proj2 (Z.leb_gt (mp + 3) 2)), (proj2 (Z.ltb_lt 2 (mp + 3))) by lia.
    replace (mp + 3 - 3) with mp by lia. lia.
  - rewrite (proj2 (Z.leb_le (mp - 9) 2)), (proj2 (Z.ltb_ge 2 (mp - 9))) by lia.
    replace (mp - 9 + 9) with mp by lia. replace (y + 1 - 1) with y by lia. lia.
Qed.

(** Two days with the same date are the same day. *)
Lemma civil_of_days_inj a b : civil_of_days a = civil_of_days b → a = b.
Proof.
  unfold civil_of_days. set (x := a + 719468). set (y := b + 719468). intros H.
  pose proof (era_day (x mod 146097) ltac:(lia)) as (Hx & _ & _ & Hyx).
  pose proof (era_day (y mod 146097) ltac:(lia)) as (Hy & _ & _ & Hyy). cbv zeta in *.
  destruct (civil_era (x mod 146097)) as [yx mx dx], (civil_era (y mod 146097)) as [yy my dy].
  unfold days_era in *. cbn [year month day] in *. injection H as Hyear -> ->.
  set (q := (153 * _ + 2) / 5) in *. clearbody q.
  assert (x / 146097 = y / 146097) by (destruct (my <=? 2); lia).
  assert (x mod 146097 = y mod 146097) by (destruct (my <=? 2); replace yy with yx by lia; lia).
  subst x y. lia.
Qed.

(** ** The text of an instant *)

Definition digit (n : Z) : ascii := ascii_of (48 + n mod 10).
Definition pad2 (n : Z) : list ascii := [digit (n / 10); digit n].
(** A year is padded to four digits; a later one takes what it needs. *)
Definition pad4 (n : Z) : list ascii :=
  if n <? 0 then "-"%char :: pad2 (- n / 100) ++ pad2 (- n mod 100)
  else if n <? 10000 then pad2 (n / 100) ++ pad2 (n mod 100) else chars (pretty n).

Definition DateTime : Type := Date * Z.
(** The date and the second of the day, in the local zone. *)
Definition civil `{LocalZone} (t : Time) : DateTime :=
  let s := Unix t + zone_offset t in (civil_of_days (s / 86400), s mod 86400).

(** [t.Format("2006-01-02_15-04-05")]. *)
Definition format_datetime (dt : DateTime) : list ascii :=
  let '(d, s) := dt in
  pad4 (year d) ++ "-"%char :: pad2 (month d) ++ "-"%char :: pad2 (day d) ++ "_"%char ::
  pad2 (s / 3600) ++ "-"%char :: pad2 (s / 60 mod 60) ++ "-"%char :: pad2 (s mod 60).
Definition time_Format `{LocalZone} (t : Time) : string := of_chars (format_datetime (civil t)).

Lemma byte_of_ascii_of n : 0 ≤ n < 256 → byte_of (ascii_of n) = n.
Proof.
  intros Hn. unfold byte_of, ascii_of. rewrite Ascii.N_ascii_embedding by lia. by rewrite Z2N.id by lia.
Qed.
Lemma digit_inj a b : 0 ≤ a < 10 → 0 ≤ b < 10 → digit a = digit b → a = b.
Proof.
  intros Ha Hb H. apply (f_equal byte_of) in H. unfold digit in H.
  rewrite !byte_of_ascii_of in H by lia. lia.
Qed.
Lemma pad2_inj a b : 0 ≤ a < 100 → 0 ≤ b < 100 → pad2 a = pad2 b → a = b.
Proof.
  intros Ha Hb [= H1 H2]. apply digit_inj in H1; [|lia..].
  assert (Hd : ∀ n, digit n = digit (n mod 10)) by (intros n; unfold digit; by rewrite Zmod_mod).
  rewrite (Hd a), (Hd b) in H2. apply digit_inj in H2; lia.
Qed.

Lemma pad4_inj a b : 0 ≤ a < 10000 → 0 ≤ b < 10000 → pad4 a = pad4 b → a = b.
Proof.
  intros Ha Hb. unfold pad4.
  rewrite !(proj2 (Z.ltb_ge _ 0)), !(proj2 (Z.ltb_lt _ 10000)) by lia. intros [= H1 H2 H3 H4].
  assert (a / 100 = b / 100) by (apply pad2_inj; [lia..|unfold pad2; congruence]).
  assert (a mod 100 = b mod 100) by (apply pad2_inj; [lia..|unfold pad2; congruence]). lia.
Qed.

(** Within the years of four digits the text tells the second. *)
Definition four_digit_year `{LocalZone} (t : Time) : Prop := 0 ≤ year (civil t).1 < 10000.

Lemma civil_ranges `{LocalZone} t :
  1 ≤ month (civil t).1 ≤ 12 ∧ 1 ≤ day (civil t).1 ≤ 31 ∧ 0 ≤ (civil t).2 < 86400.
Proof.
  unfold civil, civil_of_days. cbn [fst snd month day].
  set (s := Unix t + zone_offset t).
  pose proof (era_day ((s / 86400 + 719468) mod 146097) ltac:(lia)) as (_ & ? & ? & _).
  split_and!; try lia.
Qed.

Lemma time_Format_inj `{LocalZone} t u :
  four_digit_year t → four_digit_year u → time_Format t = time_Format u →
  Unix t + zone_offset t = Unix u + zone_offset u.
Proof.
  intros Ht Hu E. apply (f_equal chars) in E. unfold time_Format in E. rewrite !chars_of_chars in E.
  pose proof (civil_ranges t) as (Hmt & Hdt & Hst). pose proof (civil_ranges u) as (Hmu & Hdu & Hsu).
  unfold four_digit_year in *.
  assert (Hinj : civil t = civil u).
  { destruct (civil t) as [[y m d] s], (civil u) as [[y' m' d'] s']. cbn [fst snd year month day] in *.
    unfold format_datetime in E. cbn [fst snd year month day] in E.
    apply app_inj_1 in E as [Hy E];
      [|unfold pad4; rewrite !(proj2 (Z.ltb_ge _ 0)), !(proj2 (Z.ltb_lt _ 10000)) by lia; done].
    apply pad4_inj in Hy; [|lia..]. subst y'.
    injection E as E1 E2 E3 E4 E5 E6 E7 E8 E9 E10.
    assert (m = m') by (apply pad2_inj; [lia..|unfold pad2; congruence]).
    assert (d = d') by (apply pad2_inj; [lia..|unfold pad2; congruence]).
    assert (s / 3600 = s' / 3600) by (apply pad2_inj; [lia..|unfold pad2; congruence]).
    assert (s / 60 mod 60 = s' / 60 mod 60) by (apply pad2_inj; [lia..|unfold pad2; congruence]).
    assert (s mod 60 = s' mod 60) by (apply pad2_inj; [lia..|unfold pad2; congruence]).
    assert (s = s') by lia. by subst. }
  pose proof (f_equal fst Hinj) as Hd. pose proof (f_equal snd Hinj) as Hs.
  apply civil_of_days_inj in Hd. cbn [civil snd] in Hs. unfold civil in Hs. cbn [snd] in Hs. lia.
Qed.

(** [t.UTC().Format(time.RFC3339)]. *)
Definition format_RFC3339 (t : Time) : string :=
  let d := civil_of_days (Unix t / 86400) in
  let s := Unix t mod 86400 in
  of_chars (pad4 (year d) ++ "-"%char :: pad2 (month d) ++ "-"%char :: pad2 (day d) ++ "T"%char ::
            pad2 (s / 3600) ++ ":"%char :: pad2 (s / 60 mod 60) ++ ":"%char :: pad2 (s mod 60) ++ ["Z"%char]).
Example format_2026 : format_RFC3339 (1788602400 * Second) = "2026-09-05T10:00:00Z".
Proof. reflexivity. Qed.

(** [d.String()]: the last [prec] digits of [v] are a fraction, written without
    its trailing zeros, and the rest of [v]. *)
Fixpoint fmtFrac (prec : nat) (v : Z) (print : bool) (out : list ascii) : list ascii * Z :=
  match prec with
  | O => (if print then "."%char :: out else out, v)
  | S prec =>
      let d := v mod 10 in
      let print := print || negb (d =? 0) in
      fmtFrac prec (v / 10) print (if print then digit d :: out else out)
  end.
Definition fmtInt (v : Z) : list ascii := chars (pretty v).
Definition duration_chars (u : Z) : list ascii :=
  if u =? 0 then ["0"%char; "s"%char]
  else if u <? Second then
    let '(prec, unit) := if u <? 1000 then (0%nat, ["n"%char; "s"%char])
                         else if u <? Millisecond then (3%nat, [ascii_of 194; ascii_of 181; "s"%char])
                         else (6%nat, ["m"%char; "s"%char]) in
    let '(frac, v) := fmtFrac prec u false unit in fmtInt v ++ frac
  else
    let '(secs, v) := fmtFrac 9 u false ["s"%char] in
    let out := fmtInt (v mod 60) ++ secs in
    let m := v / 60 in
    if m =? 0 then out
    else
      let out := fmtInt (m mod 60) ++ "m"%char :: out in
      if m / 60 =? 0 then out else fmtInt (m / 60) ++ "h"%char :: out.
Definition duration_String (d : Duration) : string :=
  of_chars (if d <? 0 then "-"%char :: duration_chars (- d) else duration_chars d).
Example durations : duration_String <$> [0; 1500; 15 * Second; 5 * Minute; 90 * Minute + 1500 * Millisecond; - Second]
  = ["0s"; of_chars ["1"; "."; "5"; ascii_of 194; ascii_of 181; "s"]%char; "15s"; "5m0s"; "1h30m1.5s"; "-1s"].
Proof. reflexivity. Qed.
