(* ===== verification/GoText.v ===== *)
(** More of Go's text functions: white space, substrings, fields, lines
    ([bufio.Scanner]) and decimal numbers ([strconv]). *)

From S2P Require Export GoStrings GoBase.

#[local] Open Scope Z_scope.

(** A byte slice as a string, and back. *)
Definition bytes_string (b : list Z) : string := of_chars (ascii_of <$> b).
Definition string_bytes (s : string) : list Z := byte_of <$> chars s.

(** The runes [unicode.IsSpace] accepts, in UTF-8. *)
Definition space_runes : list (list Z) :=
  [[9]; [10]; [11]; [12]; [13]; [32]; [194; 133]; [194; 160]; [225; 154; 128]; [226; 128; 168]; [226; 128; 169];
   [226; 128; 175]; [226; 129; 159]; [227; 128; 128]] ++ ((λ n, [226; 128; n]) <$> seqZ 128 11).
(** [l] without the first of [runes] it starts with. *)
Definition strip_rune (runes : list (list Z)) (l : list Z) : option (list Z) :=
  head (omap (λ r, if decide (take (length r) l = r) then Some (drop (length r) l) else None) runes).
Fixpoint trim_runes (fuel : nat) (runes : list (list Z)) (l : list Z) : list Z :=
  match fuel, strip_rune runes l with
  | S fuel, Some l' => trim_runes fuel runes l'
  | _, _ => l
  end.
Definition trim_front (runes : list (list Z)) (l : list Z) : list Z := trim_runes (length l) runes l.
(** [strings.TrimSpace]. *)
Definition TrimSpace (s : string) : string :=
  bytes_string (reverse (trim_front (reverse <$> space_runes) (reverse (trim_front space_runes (string_bytes s))))).

(** [strings.Fields]: [cur] is the field being read, in reverse. *)
Definition push_field (cur : list Z) (rest : list string) : list string :=
  match cur with [] => rest | _ => bytes_string (reverse cur) :: rest end.
Fixpoint fields_loop (fuel : nat) (cur l : list Z) : list string :=
  match fuel, l with
  | S fuel, b :: l' =>
      match strip_rune space_runes l with
      | Some l' => push_field cur (fields_loop fuel [] l')
      | None => fields_loop fuel (b :: cur) l'
      end
  | _, _ => push_field cur []
  end.
Definition Fields (s : string) : list string := fields_loop (String.length s) [] (string_bytes s).

(** *** Substrings *)

(** The text before and after the first [sub], if there is one. *)
Fixpoint cut_chars (sub l : list ascii) : option (list ascii * list ascii) :=
  if list_prefixb sub l then Some ([], drop (length sub) l)
  else match l with
       | [] => None
       | a :: l => (λ p, (a :: p.1, p.2)) <$> cut_chars sub l
       end.
(** [strings.Cut], and the two halves around [strings.Index]. *)
Definition Cut (s sep : string) : option (string * string) :=
  (λ p, (of_chars p.1, of_chars p.2)) <$> cut_chars (chars sep) (chars s).

(** [strings.ReplaceAll] of a text that is not empty. *)
Fixpoint replace_chars (fuel : nat) (old new l : list ascii) : list ascii :=
  match fuel, cut_chars old l with
  | S fuel, Some (before, after) => before ++ new ++ replace_chars fuel old new after
  | _, _ => l
  end.
Definition ReplaceText (s old new : string) : string :=
  of_chars (replace_chars (String.length s) (chars old) (chars new) (chars s)).

Definition TrimPrefix (s p : string) : string :=
  if HasPrefix s p then of_chars (drop (String.length p) (chars s)) else s.
Definition TrimSuffix (s p : string) : string :=
  if HasSuffix s p then of_chars (take (String.length s - String.length p) (chars s)) else s.
(** [strings.TrimRight(s, "\r\n")]. *)
Definition TrimNewlines (s : string) : string :=
  of_chars (reverse (drop_while (λ a, (byte_of a =? 10) || (byte_of a =? 13)) (reverse (chars s)))).

(** [strings.ToLower], as far as it yields ASCII and Latin-1 letters: the ASCII
    letters, the Kelvin and the angstrom signs (E2 84 AA, E2 84 AB), the dotted
    capital I (C4 B0), and the capitals of Latin-1 (C3 80 to C3 9E, without the
    multiplication sign C3 97). *)
Definition latin1_lower (a : ascii) : ascii :=
  if (128 <=? byte_of a) && (byte_of a <=? 158) && negb (byte_of a =? 151) then ascii_of (byte_of a + 32) else a.
Fixpoint lower_chars (l : list ascii) : list ascii :=
  match l with
  | "195"%char :: a :: l' => "195"%char :: latin1_lower a :: lower_chars l'
  | "196"%char :: "176"%char :: l' => "i"%char :: lower_chars l'
  | "226"%char :: "132"%char :: "170"%char :: l' => "k"%char :: lower_chars l'
  | "226"%char :: "132"%char :: "171"%char :: l' => "195"%char :: "165"%char :: lower_chars l'
  | a :: l' => lower_ascii a :: lower_chars l'
  | [] => []
  end.
Definition ToLower (s : string) : string := of_chars (lower_chars (chars s)).

(** [strings.Join] with any separator. *)
Fixpoint JoinText (ss : list string) (sep : string) : string :=
  match ss with [] => "" | [s] => s | s :: ss => s +:+ sep +:+ JoinText ss sep end.

(** *** Lines *)

(** A newline, and [bufio.Scanner] over a text: the lines without their ends
    (a final empty one is none), and the error that stops it at a line too long
    for its buffer. *)
Definition newline : ascii := "010"%char.
Definition nl : string := String newline "".
Definition drop_cr (l : list ascii) : list ascii :=
  match reverse l with "013"%char :: r => reverse r | _ => l end.
Definition max_token : nat := 65536.
Definition ErrTooLong := ESentinel "bufio.Scanner: token too long".
Fixpoint scan_lines (ls : list (list ascii)) : list string * option error :=
  match ls with
  | [] => ([], None)
  | [[]] => ([], None)
  | l :: ls =>
      if (max_token <=? length l)%nat then ([], Some ErrTooLong) else
      let '(rest, err) := scan_lines ls in (of_chars (drop_cr l) :: rest, err)
  end.
Definition Scan (s : string) : list string * option error := scan_lines (split_chars newline (chars s)).

(** *** Numbers *)

Definition dec_digit (a : ascii) : option Z :=
  let n := byte_of a in if (48 <=? n) && (n <=? 57) then Some (n - 48) else None.
Fixpoint dec_value (acc : Z) (l : list ascii) : option Z :=
  match l with
  | [] => Some acc
  | a :: l => match dec_digit a with Some d => dec_value (acc * 10 + d) l | None => None end
  end.
(** [strconv.ParseInt(s, 10, 64)]: a sign and digits, within 64 bits. *)
Definition ParseInt (s : string) : option Z :=
  let '(neg, l) := match chars s with
                   | "-"%char :: l => (true, l)
                   | "+"%char :: l => (false, l)
                   | l => (false, l)
                   end in
  match l with
  | [] => None
  | _ => match dec_value 0 l with
         | Some n => let n := if (neg : bool) then - n else n in
                     if (- 2 ^ 63 <=? n) && (n <? 2 ^ 63) then Some n else None
         | None => None
         end
  end.

(** [strconv.ParseUint] of two hexadecimal digits. *)
Definition hex_digit (a : ascii) : option Z :=
  let n := byte_of a in
  if (48 <=? n) && (n <=? 57) then Some (n - 48)
  else if (97 <=? n) && (n <=? 102) then Some (n - 87)
  else if (65 <=? n) && (n <=? 70) then Some (n - 55)
  else None.
Definition ParseHex2 (a b : ascii) : option Z :=
  match hex_digit a, hex_digit b with Some x, Some y => Some (x * 16 + y) | _, _ => None end.

(** *** The first occurrence *)

Lemma list_prefixb_app sub l : list_prefixb sub (sub ++ l) = true.
Proof. induction sub as [|a sub IH]; [done|]. simpl. by rewrite bool_decide_eq_true_2. Qed.

(** [sub] first occurs where it was put, when nothing before reaches it. *)
Lemma cut_chars_first sub p l :
  (∀ i, (i < length p)%nat → list_prefixb sub (drop i (p ++ sub ++ l)) = false) →
  cut_chars sub (p ++ sub ++ l) = Some (p, l).
Proof.
  induction p as [|a p IH]; intros Hp.
  - change ([] ++ sub ++ l) with (sub ++ l).
    assert (E : list_prefixb sub (sub ++ l) = true) by apply list_prefixb_app.
    destruct (sub ++ l) as [|b m] eqn:Em; simpl; rewrite E; rewrite <-Em, drop_app_length; done.
  - simpl. pose proof (Hp 0%nat ltac:(simpl; lia)) as H0. rewrite drop_0 in H0. simpl in H0. rewrite H0.
    rewrite IH; [done|]. intros i Hi. apply (Hp (S i)). simpl. lia.
Qed.
