(* ===== verification/Sched.v ===== *)
(** Goroutines: a resumption is a sequence of atomic actions on the shared
    state (a critical section, a system call, a request), which may fork other
    goroutines and may block. A pool of them runs by interleaving; the rule of
    reasoning is a count of the resources each goroutine still owes. *)

From S2P Require Export GoBase.

#[local] Set Default Proof Using "Type".

(** ** Resumptions *)

(** [Act f]: the next atomic action; [None] blocks (a send on a full channel).
    [Fork child k]: the statement [go child]. *)
Inductive Res (S A : Type) : Type :=
  | Ret (a : A)
  | Act (f : S → option (S * Res S A))
  | Fork (child : Res S unit) (k : Res S A).
Arguments Ret {S A} a.
Arguments Act {S A} f.
Arguments Fork {S A} child k.

Fixpoint res_bind {S A B} (m : Res S A) (k : A → Res S B) : Res S B :=
  match m with
  | Ret a => k a
  | Act f => Act (λ s, match f s with
                       | Some (s', m') => Some (s', res_bind m' k)
                       | None => None
                       end)
  | Fork child m' => Fork child (res_bind m' k)
  end.

(** An atomic action that returns a value, one that does not, and one that
    waits for a condition. *)
Definition atomic {S A} (f : S → A * S) : Res S A :=
  Act (λ s, let '(a, s') := f s in Some (s', Ret a)).
Definition atomic_ {S} (f : S → S) : Res S unit := Act (λ s, Some (f s, Ret tt)).
Definition await {S} (ready : S → bool) (f : S → S) : Res S unit :=
  Act (λ s, if ready s then Some (f s, Ret tt) else None).
Definition fork {S} (child : Res S unit) : Res S unit := Fork child (Ret tt).

Declare Scope res_scope.
Delimit Scope res_scope with res.
Notation "'do*' x := m 'in' k" := (res_bind m (λ x, k))
  (at level 10, x pattern, m at level 100, k at level 200) : res_scope.
Notation "m ;;; k" := (res_bind m (λ _, k)) (at level 100, right associativity) : res_scope.

Fixpoint res_iter {S A} (f : A → Res S unit) (l : list A) : Res S unit :=
  match l with
  | [] => Ret tt
  | a :: l => res_bind (f a) (λ _, res_iter f l)
  end.

(** ** Running a goroutine alone

    [run] executes the actions in order; the goroutines it forks are collected,
    in order, for the caller to run. [None]: it blocked. *)
Fixpoint run {S A} (m : Res S A) (s : S) : option (A * S * list (Res S unit)) :=
  match m with
  | Ret a => Some (a, s, [])
  | Act f => match f s with Some (s', m') => run m' s' | None => None end
  | Fork child k => match run k s with
                    | Some (a, s', cs) => Some (a, s', child :: cs)
                    | None => None
                    end
  end.

Lemma run_bind {S A B} (m : Res S A) (k : A → Res S B) s :
  run (res_bind m k) s =
  match run m s with
  | Some (a, s1, cs1) => match run (k a) s1 with Some (b, s2, cs2) => Some (b, s2, cs1 ++ cs2) | None => None end
  | None => None
  end.
Proof.
  revert s. revert m. fix IH 1. intros [a|f|child m] s; simpl.
  - by destruct (run (k a) s) as [[[b s2] cs2]|].
  - destruct (f s) as [[s1 m1]|]; [apply IH|done].
  - rewrite IH. destruct (run m s) as [[[a s1] cs1]|]; [|done]. by destruct (run (k a) s1) as [[[b s2] cs2]|].
Qed.

Lemma run_atomic {S A} (f : S → A * S) s : run (atomic f) s = Some ((f s).1, (f s).2, []).
Proof. unfold atomic. cbn [run]. by destruct (f s). Qed.
Lemma run_atomic_ {S} (f : S → S) s : run (atomic_ f) s = Some (tt, f s, []).
Proof. reflexivity. Qed.
Lemma run_atomic_bind {S A B} (f : S → A * S) (k : A → Res S B) s :
  run (res_bind (atomic f) k) s = run (k (f s).1) (f s).2.
Proof. rewrite run_bind, run_atomic. by destruct (run (k (f s).1) (f s).2) as [[[b s2] cs]|]. Qed.
Lemma run_atomic_bind_ {S B} (f : S → S) (k : unit → Res S B) s :
  run (res_bind (atomic_ f) k) s = run (k tt) (f s).
Proof. reflexivity. Qed.

(** Run one atomic action after the other. *)
Ltac go_run := repeat (rewrite run_atomic_bind || rewrite run_atomic_bind_ || rewrite run_atomic || rewrite run_atomic_);
  cbn [fst snd].

(** ** Interleavings *)

Section pool.
Context {S : Type}.
Abbreviation Thread := (Res S unit).

(** One atomic action of one goroutine of the pool. *)
Inductive pool_step : S * list Thread → S * list Thread → Prop :=
  | pool_act s s' ts1 ts2 f t' : f s = Some (s', t') →
      pool_step (s, ts1 ++ Act f :: ts2) (s', ts1 ++ t' :: ts2)
  | pool_fork s ts1 ts2 child k :
      pool_step (s, ts1 ++ Fork child k :: ts2) (s, ts1 ++ k :: ts2 ++ [child])
  | pool_end s ts1 ts2 :
      pool_step (s, ts1 ++ Ret tt :: ts2) (s, ts1 ++ ts2).

(** *** Owing a resource

    [level s] counts the units in use, within the states of [good]. A goroutine
    owes [n] units when, whatever the others do in between, it gives back what
    it takes: an action moves the level by exactly the change of its debt. A
    part of a goroutine that returns [a] owing [n] satisfies [Q a n]. *)
Context (good : S → Prop) (level : S → Z).

Inductive owes (A : Type) (Q : A → Z → Prop) : Z → Res S A → Prop :=
  | owes_ret a n : Q a n → owes A Q n (Ret a)
  | owes_act n f (debt : S → Z) :
      (∀ s s' t', good s → (n ≤ level s)%Z → f s = Some (s', t') →
         good s' ∧ (level s' - level s = debt s - n)%Z ∧ (0 ≤ debt s)%Z) →
      (∀ s s' t', good s → (n ≤ level s)%Z → f s = Some (s', t') → owes A Q (debt s) t') →
      owes A Q n (Act f)
  | owes_fork n m child k :
      (0 ≤ n)%Z → (0 ≤ m)%Z → owes unit (λ _ d, d = 0%Z) n child → owes A Q m k →
      owes A Q (n + m) (Fork child k).

Abbreviation settles := (owes unit (λ _ d, d = 0%Z)).

(** The pool owes the sum of what its goroutines do. *)
Inductive pool_owes : Z → list Thread → Prop :=
  | pool_owes_nil : pool_owes 0 []
  | pool_owes_cons n m t ts : (0 ≤ n)%Z → settles n t → pool_owes m ts → pool_owes (n + m) (t :: ts).

Lemma pool_owes_nonneg n ts : pool_owes n ts → (0 ≤ n)%Z.
Proof. induction 1; lia. Qed.

Lemma pool_owes_app n ts1 ts2 :
  pool_owes n (ts1 ++ ts2) ↔ ∃ n1 n2, n = (n1 + n2)%Z ∧ pool_owes n1 ts1 ∧ pool_owes n2 ts2.
Proof.
  split.
  - revert n. induction ts1 as [|t ts1 IH]; intros n H; simpl in *.
    + exists 0%Z, n. split_and!; [lia|constructor|done].
    + inversion H as [|a b ? ? Ha Ht Hb]; subst. destruct (IH _ Hb) as (n1 & n2 & -> & ? & ?).
      exists (a + n1)%Z, n2. split_and!; [lia|by constructor|done].
  - intros (n1 & n2 & -> & H1 & H2). induction H1; simpl; [done|].
    rewrite <-Z.add_assoc. by constructor.
Qed.

Lemma pool_owes_single n t : (0 ≤ n)%Z → settles n t → pool_owes n [t].
Proof. intros Hn Ht. rewrite <-(Z.add_0_r n). by repeat constructor. Qed.

(** One goroutine taken out of the pool, and its place. *)
Lemma pool_owes_one n ts1 t ts2 :
  pool_owes n (ts1 ++ t :: ts2) →
  ∃ a m, n = (a + m)%Z ∧ (0 ≤ a)%Z ∧ (0 ≤ m)%Z ∧ settles a t ∧ pool_owes m (ts1 ++ ts2) ∧
    (∀ b t', (0 ≤ b)%Z → settles b t' → pool_owes (b + m) (ts1 ++ t' :: ts2)).
Proof.
  intros (n1 & n2 & -> & H1 & H2)%pool_owes_app. inversion H2 as [|a m2 ? ? Ha Ht Hm]; subst.
  pose proof (pool_owes_nonneg _ _ H1). pose proof (pool_owes_nonneg _ _ Hm).
  exists a, (n1 + m2)%Z. split_and!; [lia|done|lia|done| |].
  - apply pool_owes_app. eauto.
  - intros b t' Hb Ht'. apply pool_owes_app. exists n1, (b + m2)%Z.
    split_and!; [lia|done|by constructor].
Qed.

(** The level is the sum of the debts, in every interleaving. *)
Definition balanced (c : S * list Thread) : Prop := good c.1 ∧ pool_owes (level c.1) c.2.

Lemma pool_step_balanced c c' : balanced c → pool_step c c' → balanced c'.
Proof.
  intros [Hg Ho] Hs.
  destruct Hs as [s s' ts1 ts2 f t' Hf|s ts1 ts2 child k|s ts1 ts2]; simpl in *;
    destruct (pool_owes_one _ _ _ _ Ho) as (a & m & Hl & Ha & Hm & Ht & Hr & Hput);
    inversion Ht as [? ? HQ|n g debt Hact Hnext|n1 n2 ? ? H1 H2 Hc Hk]; subst.
  - destruct (Hact s s' t' Hg ltac:(lia) Hf) as (Hg' & Hd & Hn). split; [done|]. simpl.
    replace (level s') with (debt s + m)%Z by lia. apply Hput; [done|].
    apply (Hnext s s'); [done|lia|done].
  - split; [done|]. simpl.
    replace (ts1 ++ k :: ts2 ++ [child]) with ((ts1 ++ k :: ts2) ++ [child])
      by (rewrite <-app_assoc; done).
    rewrite Hl. apply pool_owes_app. exists (n2 + m)%Z, n1.
    split_and!; [lia|by apply Hput|by apply pool_owes_single].
  - split; [done|]. simpl. by rewrite Hl.
Qed.

(** A new goroutine that owes nothing joins. *)
Lemma balanced_spawn s ts t : balanced (s, ts) → settles 0 t → balanced (s, ts ++ [t]).
Proof.
  intros [Hg Ho] Ht. split; [done|]. simpl in *. apply pool_owes_app.
  exists (level s), 0%Z. split_and!; [lia|done|by apply pool_owes_single].
Qed.

(** *** Composing debts *)

Lemma owes_bind {A B} (P : A → Z → Prop) (Q : B → Z → Prop) n (m : Res S A) (k : A → Res S B) :
  owes A P n m → (∀ a n, P a n → owes B Q n (k a)) → owes B Q n (res_bind m k).
Proof.
  intros H. revert B Q k. induction H as [A P a n HP|A P n f debt Hact Hnext IH|A P n m child m' ? ? Hc _ Hm IH];
    intros B Q k Hk; simpl.
  - by apply Hk.
  - apply owes_act with debt.
    + intros s s' t' Hg Hn Hf. destruct (f s) as [[s1 t1]|] eqn:E; [|done]. simplify_eq.
      by eapply Hact.
    + intros s s' t' Hg Hn Hf. destruct (f s) as [[s1 t1]|] eqn:E; [|done]. simplify_eq.
      eapply IH; eauto.
  - apply owes_fork; auto.
Qed.

Lemma owes_mono {A} (P Q : A → Z → Prop) n (m : Res S A) :
  owes A P n m → (∀ a n, P a n → Q a n) → owes A Q n m.
Proof.
  intros H. revert Q. induction H as [A P a n HP|A P n f debt Hact Hnext IH|A P n m child m' ? ? Hc _ Hm IH];
    intros Q HQ.
  - apply owes_ret. auto.
  - apply owes_act with debt; [done|]. intros s s' t' Hg Hn Hf. eapply IH; eauto.
  - apply owes_fork; auto.
Qed.

(** An action that leaves the level alone keeps the debt. *)
Lemma owes_atomic {A} (n : Z) (f : S → A * S) :
  (0 ≤ n)%Z → (∀ s, good s → good (f s).2 ∧ level (f s).2 = level s) →
  owes A (λ _ d, d = n) n (atomic f).
Proof.
  intros Hn Hf. apply owes_act with (λ _, n).
  - intros s s' t' Hg _ E. destruct (f s) as [a s1] eqn:Es. simplify_eq.
    destruct (Hf s Hg) as [? Hl]. rewrite Es in *. simpl in *. split_and!; [done|lia|done].
  - intros s s' t' Hg _ E. destruct (f s) as [a s1]. simplify_eq. by apply owes_ret.
Qed.
Lemma owes_atomic_ (n : Z) (f : S → S) :
  (0 ≤ n)%Z → (∀ s, good s → good (f s) ∧ level (f s) = level s) →
  owes unit (λ _ d, d = n) n (atomic_ f).
Proof.
  intros Hn Hf. apply owes_act with (λ _, n).
  - intros s s' t' Hg _ [= <- <-]. destruct (Hf s Hg). split_and!; [done|lia|done].
  - intros s s' t' Hg _ [= <- <-]. by apply owes_ret.
Qed.

Lemma owes_iter {A} (f : A → Res S unit) l n :
  (∀ a, a ∈ l → owes unit (λ _ d, d = n) n (f a)) → owes unit (λ _ d, d = n) n (res_iter f l).
Proof.
  induction l as [|a l IH]; intros H; simpl; [by apply owes_ret|].
  eapply owes_bind; [apply H; left|]. intros _ ? ->. apply IH. intros b Hb. apply H. by right.
Qed.
End pool.

(** ** Invariants of every interleaving

    A goroutine is safe for [I] when each of its actions keeps [I], whatever
    the others did before it; it is the case of no debt. *)
Section safe.
Context {S : Type} (I : S → Prop).
Definition safe {A} (m : Res S A) : Prop := owes I (λ _, 0%Z) A (λ _ d, d = 0%Z) 0 m.

Lemma safe_ret {A} (a : A) : safe (Ret a).
Proof. by apply owes_ret. Qed.
Lemma safe_act {A} (f : S → option (S * Res S A)) :
  (∀ s s' m, I s → f s = Some (s', m) → I s' ∧ safe m) → safe (Act f).
Proof.
  intros Hf. apply owes_act with (λ _, 0%Z); intros s s' m Hs _ E; destruct (Hf s s' m Hs E) as [Hs' Hm];
    [by split_and!|exact Hm].
Qed.
Lemma safe_bind {A B} (m : Res S A) (k : A → Res S B) : safe m → (∀ a, safe (k a)) → safe (res_bind m k).
Proof. intros Hm Hk. eapply owes_bind; [exact Hm|]. intros a ? ->. apply Hk. Qed.
Lemma safe_atomic {A} (f : S → A * S) : (∀ s, I s → I (f s).2) → safe (atomic f).
Proof. intros Hf. apply owes_atomic; [done|]. intros s Hs. by split; [apply Hf|]. Qed.
Lemma safe_atomic_ (f : S → S) : (∀ s, I s → I (f s)) → safe (atomic_ f).
Proof. intros Hf. apply owes_atomic_; [done|]. intros s Hs. by split; [apply Hf|]. Qed.
Lemma safe_await (ready : S → bool) (f : S → S) : (∀ s, I s → I (f s)) → safe (await ready f).
Proof.
  intros Hf. apply safe_act. intros s s' m Hs E. destruct (ready s); [|done]. injection E as <- <-.
  split; [by apply Hf|apply safe_ret].
Qed.
Lemma safe_fork (child : Res S unit) : safe child → safe (fork child).
Proof. intros Hc. apply (owes_fork _ _ _ _ 0 0); [done..|exact Hc|by apply owes_ret]. Qed.
Lemma safe_iter {A} (f : A → Res S unit) l : (∀ a, safe (f a)) → safe (res_iter f l).
Proof. intros Hf. apply owes_iter. intros a _. apply Hf. Qed.

(** A safe pool stays safe. *)
Definition safe_pool (c : S * list (Res S unit)) : Prop := I c.1 ∧ Forall safe c.2.
Lemma safe_pool_balanced c : safe_pool c ↔ balanced I (λ _, 0%Z) c.
Proof.
  destruct c as [s ts]. unfold safe_pool, balanced. cbn [fst snd]. apply and_iff_compat_l. split.
  - induction 1 as [|t ts Ht _ IH]; [constructor|]. apply (pool_owes_cons _ _ 0 0); [done|exact Ht|exact IH].
  - intros Ho. assert (Hz : ∀ n, pool_owes I (λ _, 0%Z) n ts → n = 0%Z → Forall safe ts); [|by eapply Hz].
    clear Ho. induction 1 as [|n m t ts Hn Ht Ho IH]; intros E; [constructor|].
    pose proof (pool_owes_nonneg _ _ _ _ Ho). assert (n = 0%Z) as -> by lia. constructor; [exact Ht|apply IH; lia].
Qed.
Lemma safe_pool_step c c' : safe_pool c → pool_step c c' → safe_pool c'.
Proof. rewrite !safe_pool_balanced. apply pool_step_balanced. Qed.
End safe.

(** ** Goroutines that hold pointers

    What a goroutine knows of the shared state between two of its actions, that
    a pointer it holds leads to an object say, must survive what the others do:
    it is stable under [R], which every action of every goroutine respects.
    [guarded Q P m]: from a state where [P] is known, each action of [m] keeps [I]
    and respects [R], and [Q] holds of what [m] returns. *)
Section guarded.
Context {S : Type} (I : S → Prop) (R : S → S → Prop).
Abbreviation Thread := (Res S unit).

Definition stable (P : S → Prop) : Prop := ∀ s s', R s s' → P s → P s'.

Inductive guarded (A : Type) (Q : A → S → Prop) : (S → Prop) → Res S A → Prop :=
  | guarded_ret P a : (∀ s, I s → P s → Q a s) → guarded A Q P (Ret a)
  | guarded_act P f (K : S → S → Prop) :
      (∀ s s' t', I s → P s → f s = Some (s', t') → I s' ∧ R s s' ∧ K s s') →
      (∀ s, stable (K s)) →
      (∀ s s' t', I s → P s → f s = Some (s', t') → guarded A Q (K s) t') →
      guarded A Q P (Act f)
  | guarded_fork P child k :
      guarded unit (λ _ _, True) P child → guarded A Q P k → guarded A Q P (Fork child k).

Abbreviation behaves := (guarded unit (λ _ _, True)).

Lemma guarded_weaken {A} (Q : A → S → Prop) P P' m :
  guarded A Q P m → (∀ s, I s → P' s → P s) → guarded A Q P' m.
Proof.
  intros Hm. revert P'. induction Hm as [A Q P a HQ|A Q P f K Hact Hst Hnext _|A Q P child k _ IHc _ IHk]; intros P' HP.
  - apply guarded_ret. auto.
  - apply guarded_act with K; [|exact Hst|]; intros s s' t' Hs Hp; eauto.
  - apply guarded_fork; auto.
Qed.
Lemma guarded_bind {A B} (Q : A → S → Prop) (Q' : B → S → Prop) P m (k : A → Res S B) :
  guarded A Q P m → (∀ a, guarded B Q' (Q a) (k a)) → guarded B Q' P (res_bind m k).
Proof.
  intros Hm. revert Q' k. induction Hm as [A Q P a HQ|A Q P f K Hact Hst _ IH|A Q P child m Hc _ _ IH]; intros Q' k Hk; simpl.
  - by eapply guarded_weaken.
  - apply guarded_act with K; [|exact Hst|]; intros s s' t' Hs Hp E; (destruct (f s) as [[s1 t1]|] eqn:Ef; [|done]);
      injection E as <- <-; eauto.
  - apply guarded_fork; auto.
Qed.
Lemma guarded_post {A} (Q Q' : A → S → Prop) P m :
  guarded A Q P m → (∀ a s, I s → Q a s → Q' a s) → guarded A Q' P m.
Proof.
  intros Hm. revert Q'. induction Hm as [A Q P a HQ|A Q P f K Hact Hst _ IH|A Q P child k Hc _ _ IH]; intros Q' HQ'.
  - apply guarded_ret. auto.
  - apply guarded_act with K; [exact Hact|exact Hst|]; intros s s' t' Hs Hp E; eauto.
  - apply guarded_fork; auto.
Qed.

(** One action, after which [Q] is known too. *)
Lemma guarded_atomic {A} (Q : A → S → Prop) P (f : S → A * S) :
  stable P → (∀ a, stable (Q a)) → (∀ s, I s → P s → I (f s).2 ∧ R s (f s).2 ∧ Q (f s).1 (f s).2) →
  guarded A (λ a s, P s ∧ Q a s) P (atomic f).
Proof.
  intros HP HQ Hf. apply guarded_act with (λ s s', P s' ∧ Q (f s).1 s').
  - intros s s' t' Hs Hp E. destruct (Hf s Hs Hp) as (H1 & H2 & H3). destruct (f s) as [a s1]. injection E as <- _.
    cbn [fst snd] in *. eauto.
  - intros s s1 s2 Hr [H1 H2]. split; [by eapply HP|by eapply HQ].
  - intros s s' t' Hs Hp E. destruct (f s) as [a s1]. injection E as _ <-. by apply guarded_ret.
Qed.
Lemma guarded_atomic_ P (f : S → S) :
  stable P → (∀ s, I s → P s → I (f s) ∧ R s (f s)) → guarded unit (λ _, P) P (atomic_ f).
Proof.
  intros HP Hf. apply guarded_act with (λ _, P).
  - intros s s' t' Hs Hp [= <- _]. destruct (Hf s Hs Hp). eauto.
  - intros s. exact HP.
  - intros s s' t' Hs Hp [= _ <-]. by apply guarded_ret.
Qed.
Lemma guarded_await P (ready : S → bool) (f : S → S) :
  stable P → (∀ s, I s → P s → I (f s) ∧ R s (f s)) → guarded unit (λ _, P) P (await ready f).
Proof.
  intros HP Hf. apply guarded_act with (λ _, P).
  - intros s s' t' Hs Hp E. destruct (ready s); [|done]. injection E as <- _. destruct (Hf s Hs Hp). eauto.
  - intros s. exact HP.
  - intros s s' t' Hs Hp E. destruct (ready s); [|done]. injection E as _ <-. by apply guarded_ret.
Qed.
Lemma guarded_iter {A} P (f : A → Res S unit) l :
  (∀ a, a ∈ l → guarded unit (λ _, P) P (f a)) → guarded unit (λ _, P) P (res_iter f l).
Proof.
  induction l as [|a l IH]; intros Hf; simpl; [by apply guarded_ret|].
  apply (guarded_bind (λ _, P)); [apply Hf; left|]. intros ?. apply IH. intros b Hb. apply Hf. by right.
Qed.

(** A pool of goroutines, each with what it knows, keeps [I] whatever the
    interleaving, and so does one more goroutine. *)
Definition behaved (s : S) (t : Thread) : Prop := ∃ P, stable P ∧ P s ∧ behaves P t.
Definition pool_guarded (c : S * list Thread) : Prop := I c.1 ∧ Forall (behaved c.1) c.2.

Lemma behaved_later s s' t : R s s' → behaved s t → behaved s' t.
Proof. intros Hr (P & HP & Hs & Ht). exists P. split_and!; [done|by eapply HP|done]. Qed.
Lemma pool_guarded_step `{!PreOrder R} c c' : pool_guarded c → pool_step c c' → pool_guarded c' ∧ R c.1 c'.1.
Proof.
  intros [HI Hts] Hs. destruct Hs as [s s' ts1 ts2 f t' Hf|s ts1 ts2 child k|s ts1 ts2]; unfold pool_guarded in *; cbn [fst snd] in *;
    apply Forall_app in Hts as [H1 [(P & HP & Hp & Ht) H2]%Forall_cons]; inversion Ht as [? ? HQ|? ? K Hact Hst Hnext|? ? ? Hc Hk]; subst.
  - destruct (Hact s s' t' HI Hp Hf) as (HI' & Hr & HK). split; [split; [done|]|done].
    assert (Hlater : ∀ ts, Forall (behaved s) ts → Forall (behaved s') ts)
      by (intros ts Hts; eapply Forall_impl; [exact Hts|]; intros t Hbt; by apply (behaved_later _ _ _ Hr)).
    apply Forall_app. split; [by apply Hlater|]. constructor; [|by apply Hlater].
    exists (K s). split_and!; [apply Hst|done|by eapply Hnext].
  - split; [split; [done|]|done]. apply Forall_app. split; [done|]. constructor; [by exists P|].
    apply Forall_app. split; [done|]. constructor; [by exists P|constructor].
  - split; [split; [done|]|done]. by apply Forall_app.
Qed.
Lemma pool_guarded_spawn s ts t : pool_guarded (s, ts) → behaved s t → pool_guarded (s, ts ++ [t]).
Proof. intros [HI Hts] Ht. split; [done|]. apply Forall_app. split; [done|]. by repeat constructor. Qed.
End guarded.
