(* ===== verification/GraphModels.v ===== *)
(** The data the Microsoft Graph API exchanges (internal/graph/models.go,
    user.go, delta.go): records for the structs, and their JSON coding by
    [encoding/json]. A JSON text is represented by its syntax tree. *)

From S2P Require Export GoStrings.

#[local] Open Scope Z_scope.

(** ** JSON documents

    [JReal] is a number that is not an integer. [JTime s t] is a string whose
    text [s] is the RFC 3339 timestamp of the instant [t]; [JStr] is any other
    string. *)
Inductive json :=
  | JNull
  | JBool (b : bool)
  | JNum (z : Z)
  | JReal (text : string)
  | JStr (s : string)
  | JTime (s : string) (t : Time)
  | JArr (l : list json)
  | JObj (kvs : list (string * json)).

(** The text [time.Time.MarshalJSON] writes for an instant; [None] when the
    year is outside [0, 9999] and it reports an error. *)
Class TimeText := time_text : Time → option string.

(** *** Decoding: a decoder updates the Go value in place, [None] is an error.
    As in Go, [null] leaves a scalar or a struct unchanged. *)
Definition decoder (T : Type) := json → T → option T.

Definition dec_string : decoder string := λ j old,
  match j with
  | JNull => Some old
  | JStr s => Some s
  | JTime s _ => Some s
  | _ => None
  end.
Definition dec_bool : decoder bool := λ j old,
  match j with JNull => Some old | JBool b => Some b | _ => None end.
Definition dec_int (lo hi : Z) : decoder Z := λ j old,
  match j with
  | JNull => Some old
  | JNum z => if (lo <=? z) && (z <=? hi) then Some z else None
  | _ => None
  end.
Definition dec_uint64 : decoder Z := dec_int 0 (2 ^ 64 - 1).
Definition dec_uint32 : decoder Z := dec_int 0 (2 ^ 32 - 1).
Definition dec_int64 : decoder Z := dec_int (- 2 ^ 63) (2 ^ 63 - 1).
(** [time.Time]: a string that is not a timestamp is an error. *)
Definition dec_time : decoder Time := λ j old,
  match j with JNull => Some old | JTime _ t => Some t | _ => None end.
(** A pointer: [null] makes it nil, anything else decodes into the value it
    points at, allocated (as [zero]) when it was nil. *)
Definition dec_ptr {T} (zero : T) (d : decoder T) : decoder (option T) := λ j old,
  match j with
  | JNull => Some None
  | _ => Some <$> d j (default zero old)
  end.
(** A slice: [null] makes it nil, an array is decoded element by element. *)
Definition dec_slice {T} (zero : T) (d : decoder T) : decoder (option (list T)) := λ j _,
  match j with
  | JNull => Some None
  | JArr l => Some <$> mapM (λ e, d e zero) l
  | _ => None
  end.
(** A struct: each key of the object selects the field of exactly that name,
    else the first field whose name folds to it; unknown keys are skipped. *)
Definition field_for {T} (fields : list (string * decoder T)) (k : string) : option (decoder T) :=
  match list_find (λ f, f.1 = k) fields with
  | Some (_, f) => Some f.2
  | None => (λ p, p.2.2) <$> list_find (λ f, EqualFold f.1 k = true) fields
  end.
Definition dec_struct {T} (fields : list (string * decoder T)) : decoder T := λ j old,
  match j with
  | JNull => Some old
  | JObj kvs =>
      foldl (λ acc kv, acc ≫= λ t,
        match field_for fields kv.1 with Some d => d kv.2 t | None => Some t end)
        (Some old) kvs
  | _ => None
  end.
(** A field: how to read it and how to write it back. *)
Definition dec_field {T A} (get : T → A) (set : A → T → T) (d : decoder A) : decoder T :=
  λ j t, (λ a, set a t) <$> d j (get t).

(** *** Encoding. A string is written with its invalid bytes replaced. *)
Definition enc_string (s : string) : json := JStr (utf8_coerce s).
Definition enc_time `{TimeText} (t : Time) : option json := (λ s, JTime s t) <$> time_text t.
(** [omitempty]: the member is left out. *)
Definition omit_if (b : bool) (k : string) (j : json) : list (string * json) :=
  if b then [] else [(k, j)].
Definition enc_str_field (k s : string) : list (string * json) :=
  omit_if (bool_decide (s = "")) k (enc_string s).
Definition enc_ptr_field {T} (k : string) (p : option T) (f : T → option json) :
    option (list (string * json)) :=
  match p with None => Some [] | Some x => (λ j, [(k, j)]) <$> f x end.

(** ** The structs *)

Record DriveItemParent := mkDriveItemParent {
  parent_Path : string; parent_ID : string; parent_DriveID : string; parent_DriveType : string }.
Record Folder := mkFolder { folder_ChildCount : Z }.
Record Hashes := mkHashes { hashes_SHA1Hash : string; hashes_QuickXorHash : string }.
Record File := mkFile { file_Hashes : Hashes }.
Record Deleted := mkDeleted { deleted_State : string }.

Record DriveItem := mkDriveItem {
  item_ID : string;
  item_Name : string;
  item_Size : Z;
  item_ModTime : option Time;
  item_Parent : option DriveItemParent;
  item_Folder : option Folder;
  item_File : option File;
  item_Deleted : option Deleted;
  item_ConflictBehavior : string;
  item_ETag : string;
  item_CreatedTime : option Time;
}.

Definition zero_Parent := mkDriveItemParent "" "" "" "".
Definition zero_Folder := mkFolder 0.
Definition zero_File := mkFile (mkHashes "" "").
Definition zero_Deleted := mkDeleted "".
Definition zero_DriveItem : DriveItem :=
  mkDriveItem "" "" 0 None None None None None "" "" None.

#[global] Instance DriveItemParent_eq_dec : EqDecision DriveItemParent.
Proof. solve_decision. Defined.
#[global] Instance Folder_eq_dec : EqDecision Folder.
Proof. solve_decision. Defined.
#[global] Instance Hashes_eq_dec : EqDecision Hashes.
Proof. solve_decision. Defined.
#[global] Instance File_eq_dec : EqDecision File.
Proof. solve_decision. Defined.
#[global] Instance Deleted_eq_dec : EqDecision Deleted.
Proof. solve_decision. Defined.
#[global] Instance DriveItem_eq_dec : EqDecision DriveItem.
Proof. solve_decision. Defined.

(** Field updates ([item.Name = v]). *)
Definition set_item_ID (v : string) (r : DriveItem) : DriveItem :=
    mkDriveItem v (item_Name r) (item_Size r) (item_ModTime r) (item_Parent r) (item_Folder r)
    (item_File r) (item_Deleted r) (item_ConflictBehavior r) (item_ETag r) (item_CreatedTime r).
Definition set_item_Name (v : string) (r : DriveItem) : DriveItem :=
    mkDriveItem (item_ID r) v (item_Size r) (item_ModTime r) (item_Parent r) (item_Folder r)
    (item_File r) (item_Deleted r) (item_ConflictBehavior r) (item_ETag r) (item_CreatedTime r).
Definition set_item_Size (v : Z) (r : DriveItem) : DriveItem :=
    mkDriveItem (item_ID r) (item_Name r) v (item_ModTime r) (item_Parent r) (item_Folder r)
    (item_File r) (item_Deleted r) (item_ConflictBehavior r) (item_ETag r) (item_CreatedTime r).
Definition set_item_ModTime (v : option Time) (r : DriveItem) : DriveItem :=
    mkDriveItem (item_ID r) (item_Name r) (item_Size r) v (item_Parent r) (item_Folder r)
    (item_File r) (item_Deleted r) (item_ConflictBehavior r) (item_ETag r) (item_CreatedTime r).
Definition set_item_Parent (v : option DriveItemParent) (r : DriveItem) : DriveItem :=
    mkDriveItem (item_ID r) (item_Name r) (item_Size r) (item_ModTime r) v (item_Folder r)
    (item_File r) (item_Deleted r) (item_ConflictBehavior r) (item_ETag r) (item_CreatedTime r).
Definition set_item_Folder (v : option Folder) (r : DriveItem) : DriveItem :=
    mkDriveItem (item_ID r) (item_Name r) (item_Size r) (item_ModTime r) (item_Parent r) v
    (item_File r) (item_Deleted r) (item_ConflictBehavior r) (item_ETag r) (item_CreatedTime r).
Definition set_item_File (v : option File) (r : DriveItem) : DriveItem :=
    mkDriveItem (item_ID r) (item_Name r) (item_Size r) (item_ModTime r) (item_Parent r)
    (item_Folder r) v (item_Deleted r) (item_ConflictBehavior r) (item_ETag r) (item_CreatedTime
    r).
Definition set_item_Deleted (v : option Deleted) (r : DriveItem) : DriveItem :=
    mkDriveItem (item_ID r) (item_Name r) (item_Size r) (item_ModTime r) (item_Parent r)
    (item_Folder r) (item_File r) v (item_ConflictBehavior r) (item_ETag r) (item_CreatedTime
    r).
Definition set_item_ConflictBehavior (v : string) (r : DriveItem) : DriveItem :=
    mkDriveItem (item_ID r) (item_Name r) (item_Size r) (item_ModTime r) (item_Parent r)
    (item_Folder r) (item_File r) (item_Deleted r) v (item_ETag r) (item_CreatedTime r).
Definition set_item_ETag (v : string) (r : DriveItem) : DriveItem :=
    mkDriveItem (item_ID r) (item_Name r) (item_Size r) (item_ModTime r) (item_Parent r)
    (item_Folder r) (item_File r) (item_Deleted r) (item_ConflictBehavior r) v (item_CreatedTime
    r).
Definition set_item_CreatedTime (v : option Time) (r : DriveItem) : DriveItem :=
    mkDriveItem (item_ID r) (item_Name r) (item_Size r) (item_ModTime r) (item_Parent r)
    (item_Folder r) (item_File r) (item_Deleted r) (item_ConflictBehavior r) (item_ETag r) v.

(** ** Decoding and encoding the structs *)

Definition Parent_fields : list (string * decoder DriveItemParent) := [
  ("path", dec_field parent_Path (λ v r, mkDriveItemParent v (parent_ID r) (parent_DriveID r) (parent_DriveType r)) dec_string);
  ("id", dec_field parent_ID (λ v r, mkDriveItemParent (parent_Path r) v (parent_DriveID r) (parent_DriveType r)) dec_string);
  ("driveId", dec_field parent_DriveID (λ v r, mkDriveItemParent (parent_Path r) (parent_ID r) v (parent_DriveType r)) dec_string);
  ("driveType", dec_field parent_DriveType (λ v r, mkDriveItemParent (parent_Path r) (parent_ID r) (parent_DriveID r) v) dec_string)].
Definition dec_Parent : decoder DriveItemParent := dec_struct Parent_fields.
Definition Folder_fields : list (string * decoder Folder) := [
  ("childCount", dec_field folder_ChildCount (λ v _, mkFolder v) dec_uint32)].
Definition dec_Folder : decoder Folder := dec_struct Folder_fields.
Definition Hashes_fields : list (string * decoder Hashes) := [
  ("sha1Hash", dec_field hashes_SHA1Hash (λ v r, mkHashes v (hashes_QuickXorHash r)) dec_string);
  ("quickXorHash", dec_field hashes_QuickXorHash (λ v r, mkHashes (hashes_SHA1Hash r) v) dec_string)].
Definition dec_Hashes : decoder Hashes := dec_struct Hashes_fields.
Definition File_fields : list (string * decoder File) := [
  ("hashes", dec_field file_Hashes (λ v _, mkFile v) dec_Hashes)].
Definition dec_File : decoder File := dec_struct File_fields.
Definition Deleted_fields : list (string * decoder Deleted) := [
  ("state", dec_field deleted_State (λ v _, mkDeleted v) dec_string)].
Definition dec_Deleted : decoder Deleted := dec_struct Deleted_fields.

(** The fields of [DriveItem], with their JSON names. *)
Definition DriveItem_fields : list (string * decoder DriveItem) := [
  ("id", dec_field item_ID set_item_ID dec_string);
  ("name", dec_field item_Name set_item_Name dec_string);
  ("size", dec_field item_Size set_item_Size dec_uint64);
  ("lastModifiedDatetime", dec_field item_ModTime set_item_ModTime (dec_ptr 0 dec_time));
  ("parentReference", dec_field item_Parent set_item_Parent (dec_ptr zero_Parent dec_Parent));
  ("folder", dec_field item_Folder set_item_Folder (dec_ptr zero_Folder dec_Folder));
  ("file", dec_field item_File set_item_File (dec_ptr zero_File dec_File));
  ("deleted", dec_field item_Deleted set_item_Deleted (dec_ptr zero_Deleted dec_Deleted));
  ("@microsoft.graph.conflictBehavior",
     dec_field item_ConflictBehavior set_item_ConflictBehavior dec_string);
  ("eTag", dec_field item_ETag set_item_ETag dec_string);
  ("createdDateTime", dec_field item_CreatedTime set_item_CreatedTime (dec_ptr 0 dec_time))].

Definition dec_DriveItem : decoder DriveItem := dec_struct DriveItem_fields.

Definition enc_Parent (p : DriveItemParent) : json :=
  JObj (enc_str_field "path" (parent_Path p) ++ enc_str_field "id" (parent_ID p) ++
        enc_str_field "driveId" (parent_DriveID p) ++ enc_str_field "driveType" (parent_DriveType p)).
Definition enc_Folder (f : Folder) : json :=
  JObj (omit_if (folder_ChildCount f =? 0) "childCount" (JNum (folder_ChildCount f))).
Definition enc_Hashes (h : Hashes) : json :=
  JObj (enc_str_field "sha1Hash" (hashes_SHA1Hash h) ++
        enc_str_field "quickXorHash" (hashes_QuickXorHash h)).
Definition enc_File (f : File) : json := JObj [("hashes", enc_Hashes (file_Hashes f))].
Definition enc_Deleted (d : Deleted) : json := JObj (enc_str_field "state" (deleted_State d)).

(** The members [json.Marshal] writes for a [DriveItem], in field order. *)
Definition enc_DriveItem_members `{TimeText} (i : DriveItem) : option (list (string * json)) :=
  mt ← enc_ptr_field "lastModifiedDatetime" (item_ModTime i) enc_time;
  ct ← enc_ptr_field "createdDateTime" (item_CreatedTime i) enc_time;
  pr ← enc_ptr_field "parentReference" (item_Parent i) (λ p, Some (enc_Parent p));
  fo ← enc_ptr_field "folder" (item_Folder i) (λ f, Some (enc_Folder f));
  fi ← enc_ptr_field "file" (item_File i) (λ f, Some (enc_File f));
  de ← enc_ptr_field "deleted" (item_Deleted i) (λ d, Some (enc_Deleted d));
  Some (enc_str_field "id" (item_ID i) ++ enc_str_field "name" (item_Name i) ++
        omit_if (item_Size i =? 0) "size" (JNum (item_Size i)) ++
        mt ++ pr ++ fo ++ fi ++ de ++
        enc_str_field "@microsoft.graph.conflictBehavior" (item_ConflictBehavior i) ++
        enc_str_field "eTag" (item_ETag i) ++ ct).

(** ** Methods of [DriveItem] *)

Definition IsFolder (drive : DriveItem) : bool := bool_decide (is_Some (item_Folder drive)).

(** [ModTimeUnix]: 0 for an item without a date or dated before 1970. *)
Definition ModTimeUnix (drive : DriveItem) : Z :=
  match item_ModTime drive with
  | None => 0
  | Some t => let unix := Unix t in if unix <? 0 then 0 else u64 unix
  end.

(** [VerifyChecksum] (internal/graph/hashes.go); the receiver may be nil. *)
Definition VerifyChecksum (item : option DriveItem) (checksum : string) : bool :=
  match item with
  | None => false
  | Some i =>
      match item_File i with
      | None => false
      | Some f =>
          if bool_decide (checksum = "") || bool_decide (hashes_QuickXorHash (file_Hashes f) = "")
          then false else EqualFold (hashes_QuickXorHash (file_Hashes f)) checksum
      end
  end.

(** ** The JSON round trip of a [DriveItem] *)

(** Decoding a list of members, one after the other. *)
Definition dec_members {T} (fields : list (string * decoder T)) (kvs : list (string * json)) (t : T) :
    option T :=
  foldl (λ acc kv, acc ≫= λ t,
    match field_for fields kv.1 with Some d => d kv.2 t | None => Some t end) (Some t) kvs.

Section members.
Context {T : Type} (fields : list (string * decoder T)).

Lemma dec_members_None kvs :
  foldl (λ acc kv, acc ≫= λ t,
    match field_for fields kv.1 with Some d => d kv.2 t | None => Some t end) None kvs = None.
Proof. induction kvs; simpl; auto. Qed.

Lemma dec_members_cons kv kvs t :
  dec_members fields (kv :: kvs) t =
  match field_for fields kv.1 with Some d => d kv.2 t | None => Some t end ≫= dec_members fields kvs.
Proof.
  unfold dec_members. simpl.
  destruct (match field_for fields kv.1 with Some d => d kv.2 t | None => Some t end); simpl;
    [done|apply dec_members_None].
Qed.

Lemma dec_members_app l k t :
  dec_members fields (l ++ k) t = dec_members fields l t ≫= dec_members fields k.
Proof.
  revert t. induction l as [|kv l IH]; intros t; [done|].
  rewrite <- app_comm_cons, !dec_members_cons.
  destruct (match field_for fields kv.1 with Some d => d kv.2 t | None => Some t end); simpl; auto.
Qed.

(** One written field, read back. *)
Lemma dec_members_str {get : T → string} {set} k s t :
  field_for fields k = Some (dec_field get set dec_string) →
  utf8_valid s → (∀ t, set (get t) t = t) → get t = "" →
  dec_members fields (enc_str_field k s) t = Some (set s t).
Proof.
  intros Hf Hv Hl Hg. unfold enc_str_field, omit_if. case_bool_decide as E.
  - subst s. unfold dec_members. simpl. by rewrite <- Hg, Hl.
  - rewrite dec_members_cons. simpl. rewrite Hf. unfold dec_field, enc_string. simpl.
    by rewrite Hv.
Qed.

Lemma dec_members_string {get : T → string} {set} k s ms t :
  field_for fields k = Some (dec_field get set dec_string) → utf8_valid s →
  dec_members fields ((k, enc_string s) :: ms) t = dec_members fields ms (set s t).
Proof.
  intros Hf Hv. rewrite dec_members_cons. cbn [fst snd]. rewrite Hf. unfold dec_field, enc_string. simpl.
  by rewrite Hv.
Qed.

Lemma dec_members_ptr {A} {get : T → option A} {set} (zero : A) (d : decoder A) k p
    (f : A → option json) ms t :
  enc_ptr_field k p f = Some ms →
  field_for fields k = Some (dec_field get set (dec_ptr zero d)) →
  (∀ x j, p = Some x → f x = Some j → j ≠ JNull ∧ d j zero = Some x) →
  (∀ t, set (get t) t = t) → get t = None →
  dec_members fields ms t = Some (set p t).
Proof.
  intros He Hf Hd Hl Hg. destruct p as [x|]; simpl in He.
  - destruct (f x) as [j|] eqn:Ef; simplify_eq/=.
    destruct (Hd x j eq_refl Ef) as [Hn Hj].
    rewrite dec_members_cons. simpl. rewrite Hf. unfold dec_field, dec_ptr. rewrite Hg. simpl.
    destruct j; try done; by rewrite Hj.
  - simplify_eq. unfold dec_members. simpl. by rewrite <- Hg, Hl.
Qed.

Lemma dec_members_num {get : T → Z} {set} lo hi k n t :
  field_for fields k = Some (dec_field get set (dec_int lo hi)) →
  lo ≤ n ≤ hi → (∀ t, set (get t) t = t) → get t = 0 →
  dec_members fields (omit_if (n =? 0) k (JNum n)) t = Some (set n t).
Proof.
  intros Hf Hn Hl Hg. unfold omit_if. destruct (Z.eqb_spec n 0) as [->|].
  - unfold dec_members. simpl. by rewrite <- Hg, Hl.
  - rewrite dec_members_cons. simpl. rewrite Hf. unfold dec_field, dec_int.
    destruct (Z.leb_spec lo n), (Z.leb_spec n hi); try lia. done.
Qed.
End members.

(** The values a JSON text can carry: strings that are valid UTF-8, counters
    within their width. *)
Definition parent_json_ok (p : DriveItemParent) : Prop :=
  utf8_valid (parent_Path p) ∧ utf8_valid (parent_ID p) ∧
  utf8_valid (parent_DriveID p) ∧ utf8_valid (parent_DriveType p).
Definition opt_ok {A} (P : A → Prop) (o : option A) : Prop :=
  match o with Some a => P a | None => True end.
Definition item_json_ok (i : DriveItem) : Prop :=
  utf8_valid (item_ID i) ∧ utf8_valid (item_Name i) ∧ 0 ≤ item_Size i < 2 ^ 64 ∧
  opt_ok parent_json_ok (item_Parent i) ∧
  opt_ok (λ f, 0 ≤ folder_ChildCount f < 2 ^ 32) (item_Folder i) ∧
  opt_ok (λ f, utf8_valid (hashes_SHA1Hash (file_Hashes f)) ∧
               utf8_valid (hashes_QuickXorHash (file_Hashes f))) (item_File i) ∧
  opt_ok (λ d, utf8_valid (deleted_State d)) (item_Deleted i) ∧
  utf8_valid (item_ConflictBehavior i) ∧ utf8_valid (item_ETag i).

#[global] Instance opt_ok_dec {A} (P : A → Prop) `{∀ a, Decision (P a)} o : Decision (opt_ok P o).
Proof. destruct o; simpl; apply _. Defined.
#[global] Instance parent_json_ok_dec p : Decision (parent_json_ok p).
Proof. unfold parent_json_ok. apply _. Defined.
#[global] Instance item_json_ok_dec i : Decision (item_json_ok i).
Proof. unfold item_json_ok. apply _. Defined.

Lemma dec_struct_obj {T} (fs : list (string * decoder T)) kvs t :
  dec_struct fs (JObj kvs) t = dec_members fs kvs t.
Proof. reflexivity. Qed.

(** Read back the next string field. *)
Ltac member_str :=
  rewrite ?dec_members_app; erewrite dec_members_str; [|reflexivity|assumption|by intros []|reflexivity];
  cbn [mbind option_bind].

Lemma dec_enc_Parent p : parent_json_ok p → dec_Parent (enc_Parent p) zero_Parent = Some p.
Proof.
  intros (?&?&?&?). destruct p as [a b c d].
  unfold dec_Parent, enc_Parent. rewrite dec_struct_obj.
  cbn [parent_Path parent_ID parent_DriveID parent_DriveType].
  do 3 member_str. by member_str.
Qed.

Lemma dec_enc_Folder f :
  0 ≤ folder_ChildCount f < 2 ^ 32 → dec_Folder (enc_Folder f) zero_Folder = Some f.
Proof.
  destruct f as [n]. cbn [folder_ChildCount]. intros. unfold dec_Folder, enc_Folder. rewrite dec_struct_obj.
  cbn [folder_ChildCount].
  etrans; [eapply dec_members_num; [reflexivity|lia|by intros []|reflexivity]|reflexivity].
Qed.

Lemma dec_enc_File f :
  utf8_valid (hashes_SHA1Hash (file_Hashes f)) → utf8_valid (hashes_QuickXorHash (file_Hashes f)) →
  dec_File (enc_File f) zero_File = Some f.
Proof.
  destruct f as [[a b]]. intros Ha Hb. unfold dec_File, enc_File.
  rewrite dec_struct_obj, dec_members_cons. cbn [fst snd].
  replace (field_for File_fields "hashes") with
    (Some (dec_field file_Hashes (λ v _, mkFile v) dec_Hashes)) by reflexivity.
  unfold dec_field, dec_Hashes, enc_Hashes. cbn [file_Hashes hashes_SHA1Hash hashes_QuickXorHash].
  rewrite dec_struct_obj. member_str. by member_str.
Qed.

Lemma dec_enc_Deleted d :
  utf8_valid (deleted_State d) → dec_Deleted (enc_Deleted d) zero_Deleted = Some d.
Proof.
  destruct d as [a]. cbn [deleted_State]. intros. unfold dec_Deleted, enc_Deleted.
  rewrite dec_struct_obj. cbn [deleted_State]. by member_str.
Qed.

(** Read back the next pointer field. *)
Ltac member_ptr H :=
  rewrite ?dec_members_app; erewrite dec_members_ptr; [|exact H|reflexivity| |by intros []|reflexivity];
  [cbn [mbind option_bind]|].

(** What [json.Marshal] writes for a [DriveItem], [json.Unmarshal] reads back. *)
Lemma dec_enc_DriveItem_members `{TimeText} i ms :
  item_json_ok i → enc_DriveItem_members i = Some ms →
  dec_members DriveItem_fields ms zero_DriveItem = Some i.
Proof.
  destruct i as [id name sz mt pr fo fi de cb et ct].
  intros (Hid&Hname&Hsz&Hpr&Hfo&Hfi&Hde&Hcb&Het). unfold enc_DriveItem_members.
  cbn [item_ID item_Name item_Size item_ModTime item_Parent item_Folder item_File item_Deleted
    item_ConflictBehavior item_ETag item_CreatedTime] in *.
  destruct (enc_ptr_field "lastModifiedDatetime" mt _) as [mt'|] eqn:Emt; [|done].
  destruct (enc_ptr_field "createdDateTime" ct _) as [ct'|] eqn:Ect; [|done].
  destruct (enc_ptr_field "parentReference" pr _) as [pr'|] eqn:Epr; [|done].
  destruct (enc_ptr_field "folder" fo _) as [fo'|] eqn:Efo; [|done].
  destruct (enc_ptr_field "file" fi _) as [fi'|] eqn:Efi; [|done].
  destruct (enc_ptr_field "deleted" de _) as [de'|] eqn:Ede; [|done].
  intros [= <-].
  assert (Htime : ∀ x j, enc_time x = Some j → j ≠ JNull ∧ dec_time j 0 = Some x).
  { unfold enc_time. intros x j Hj. by destruct (time_text x); simplify_eq/=. }
  member_str. member_str.
  rewrite dec_members_app; erewrite dec_members_num; [|reflexivity|lia|by intros []|reflexivity]; cbn [mbind option_bind].
  member_ptr Emt; [|by eauto].
  member_ptr Epr; [|intros x j -> [= <-]; split; [done|by apply dec_enc_Parent]].
  member_ptr Efo; [|intros x j -> [= <-]; split; [done|by apply dec_enc_Folder]].
  member_ptr Efi; [|intros x j -> [= <-]; split; [done|by apply dec_enc_File; destruct Hfi]].
  member_ptr Ede; [|intros x j -> [= <-]; split; [done|by apply dec_enc_Deleted]].
  member_str. member_str.
  etrans; [eapply dec_members_ptr; [exact Ect|reflexivity| |by intros []|reflexivity]; eauto|reflexivity].
Qed.
