(* ===== verification/Inode.v ===== *)
(** The metadata of one OneDrive item held in memory (internal/fs/inode.go):
    the [Inode] record, its accessors, the attributes the kernel sees and the
    JSON form it is persisted in. *)

From S2P Require Export GraphModels.

#[local] Open Scope Z_scope.

(** [children] is [None] when the folder was never listed (or its list was
    evicted), [Some []] when it was listed and is empty. *)
Record Inode := mkInode {
  DriveItem_of : DriveItem;
  children : option (list string);
  subdir : Z;
  mode : Z;
  hasChanges : bool;
  childrenAccessCount : Z;
  childrenLastAccess : Time;
  childrenCachedAt : Time;
}.

#[global] Instance Inode_eq_dec : EqDecision Inode.
Proof. solve_decision. Defined.

Definition set_DriveItem_of (v : DriveItem) (r : Inode) : Inode :=
    mkInode v (children r) (subdir r) (mode r) (hasChanges r) (childrenAccessCount r)
    (childrenLastAccess r) (childrenCachedAt r).
Definition set_children (v : option (list string)) (r : Inode) : Inode :=
    mkInode (DriveItem_of r) v (subdir r) (mode r) (hasChanges r) (childrenAccessCount r)
    (childrenLastAccess r) (childrenCachedAt r).
Definition set_subdir (v : Z) (r : Inode) : Inode :=
    mkInode (DriveItem_of r) (children r) v (mode r) (hasChanges r) (childrenAccessCount r)
    (childrenLastAccess r) (childrenCachedAt r).
Definition set_mode (v : Z) (r : Inode) : Inode :=
    mkInode (DriveItem_of r) (children r) (subdir r) v (hasChanges r) (childrenAccessCount r)
    (childrenLastAccess r) (childrenCachedAt r).
Definition set_hasChanges (v : bool) (r : Inode) : Inode :=
    mkInode (DriveItem_of r) (children r) (subdir r) (mode r) v (childrenAccessCount r)
    (childrenLastAccess r) (childrenCachedAt r).
Definition set_childrenAccessCount (v : Z) (r : Inode) : Inode :=
    mkInode (DriveItem_of r) (children r) (subdir r) (mode r) (hasChanges r) v
    (childrenLastAccess r) (childrenCachedAt r).
Definition set_childrenLastAccess (v : Time) (r : Inode) : Inode :=
    mkInode (DriveItem_of r) (children r) (subdir r) (mode r) (hasChanges r)
    (childrenAccessCount r) v (childrenCachedAt r).
Definition set_childrenCachedAt (v : Time) (r : Inode) : Inode :=
    mkInode (DriveItem_of r) (children r) (subdir r) (mode r) (hasChanges r)
    (childrenAccessCount r) (childrenLastAccess r) v.

(** The zero [Inode] around an item: [&Inode{DriveItem: item}]. *)
Definition inode_of_item (item : DriveItem) : Inode :=
  mkInode item None 0 0 false 0 zeroTime zeroTime.

(** ** Local IDs *)

Definition localIDPrefix : string := "local-".

(** [isLocalID]: the prefix and at least one more byte. *)
Definition isLocalID (id : string) : bool :=
  (Slen localIDPrefix <? Slen id) && HasPrefix id localIDPrefix.

(** [newLocalID]; the argument is what [rand.Read] gives, [None] on failure. *)
Definition newLocalID (rand : option (list Z)) : string :=
  match rand with
  | None => localIDPrefix +:+ "fallback"
  | Some b => localIDPrefix +:+ hex_EncodeToString b
  end.

(** ** Constructors *)

Definition NewInodeDriveItem (item : option DriveItem) : option Inode := inode_of_item <$> item.

Definition S_IFDIR : Z := 16384.
Definition S_IFREG : Z := 32768.

(** [NewInodeLocal name mode parent]: a folder or a dirty file without an ID
    on the server; the parent is given by its ID. *)
Definition NewInodeLocal (rand : option (list Z)) (name : string) (m : Z) (parentID : option string) :
    Inode :=
  let item := set_item_Name name (set_item_ID (newLocalID rand) zero_DriveItem) in
  let item := if Z.land m S_IFDIR =? 0 then item else set_item_Folder (Some zero_Folder) item in
  let item := match parentID with
              | Some p => set_item_Parent (Some (mkDriveItemParent "" p "" "")) item
              | None => item
              end in
  mkInode item None 0 0 (negb (IsFolder item)) 0 zeroTime zeroTime.

(** ** Accessors *)

Definition ID (i : Inode) : string := item_ID (DriveItem_of i).
Definition Name (i : Inode) : string := item_Name (DriveItem_of i).
Definition IsDir (i : Inode) : bool := IsFolder (DriveItem_of i).
Definition ParentID (i : Inode) : string :=
  match item_Parent (DriveItem_of i) with None => "" | Some p => parent_ID p end.

Definition Mode (i : Inode) : Z :=
  if negb (mode i =? 0) then mode i
  else if IsDir i then Z.lor S_IFDIR 493 else Z.lor S_IFREG 420.
Definition ModTime (i : Inode) : Z := ModTimeUnix (DriveItem_of i).
Definition Size (i : Inode) : Z := if IsDir i then 4096 else item_Size (DriveItem_of i).
Definition NLink (i : Inode) : Z := if IsDir i then u32 (2 + subdir i) else 1.
Definition Path (i : Inode) : string :=
  if bool_decide (ParentID i = "") && bool_decide (Name i = "root") then "/" else Name i.

(** [HasChildren]: once listed, the local list decides; before, the child
    count the API reported. *)
Definition HasChildren (i : Inode) : bool :=
  match children i with
  | Some l => negb (bool_decide (l = []))
  | None => match item_Folder (DriveItem_of i) with
            | Some f => 0 <? folder_ChildCount f
            | None => false
            end
  end.
Definition IsChildrenFetched (i : Inode) : bool := bool_decide (is_Some (children i)).

Definition SetHasChanges (v : bool) (i : Inode) : Inode := set_hasChanges v i.
Definition SetMode (m : Z) (i : Inode) : Inode := set_mode m i.
Definition SetSubdir (n : Z) (i : Inode) : Inode := set_subdir n i.
Definition SetID (id : string) (i : Inode) : Inode :=
  set_DriveItem_of (set_item_ID id (DriveItem_of i)) i.
Definition SetParentID (pid : string) (i : Inode) : Inode :=
  set_DriveItem_of (set_item_Parent (Some (mkDriveItemParent "" pid "" "")) (DriveItem_of i)) i.

(** [SetChildren ids] at the instant [now]; the access count is kept. *)
Definition SetChildren (now : Time) (ids : option (list string)) (i : Inode) : Inode :=
  set_childrenLastAccess now (set_childrenCachedAt now (set_children ids i)).
Definition BumpChildrenAccess (now : Time) (i : Inode) : Inode :=
  set_childrenLastAccess now (set_childrenAccessCount (u64 (childrenAccessCount i + 1)) i).
Definition DecayChildrenAccess (i : Inode) : Inode :=
  set_childrenAccessCount (Z.shiftr (childrenAccessCount i) 1) i.
Definition EvictChildren (i : Inode) : Inode := set_children None i.

(** ** The attributes given to the kernel *)

Record Attr := mkAttr {
  attr_Size : Z; attr_Nlink : Z; attr_Ctime : Z; attr_Mtime : Z; attr_Atime : Z; attr_Mode : Z;
  attr_Uid : Z; attr_Gid : Z }.

(** [makeAttr]; [uid], [gid] are the process's. *)
Definition makeAttr (uid gid : Z) (i : Inode) : Attr :=
  let mtime := ModTime i in
  mkAttr (Size i) (NLink i) mtime mtime mtime (Mode i) (u32 uid) (u32 gid).

Record EntryOut := mkEntryOut {
  out_Attr : Attr; out_Blksize : Z; out_Blocks : Z; out_EntryTimeout : Duration;
  out_AttrTimeout : Duration }.

Definition fillEntryOut (now : Time) (uid gid : Z) (item : DriveItem) : EntryOut :=
  let '(m, nlink, size) :=
    if IsFolder item then (Z.lor S_IFDIR 493, 2, 4096)
    else (Z.lor S_IFREG 420, 1, item_Size item) in
  let t := match item_ModTime item with
           | Some _ => ModTimeUnix item
           | None => u64 (Z.max (Unix now) 0)
           end in
  mkEntryOut (mkAttr size nlink t t t m (u32 uid) (u32 gid))
    4096 (u64 (size + 511) / 512) Second Second.

(** ** The persisted form: [SerializeableInode] and its JSON *)

Record SerializeableInode := mkSerializeableInode {
  raw_DriveItem : DriveItem;
  raw_Children : option (list string);
  raw_Subdir : Z;
  raw_Mode : Z;
  raw_HasChanges : bool;
  raw_ChildrenAccessCount : Z;
  raw_ChildrenLastAccessMs : Z;
  raw_ChildrenCachedAtMs : Z;
}.

Definition set_raw_DriveItem (v : DriveItem) (r : SerializeableInode) : SerializeableInode :=
    mkSerializeableInode v (raw_Children r) (raw_Subdir r) (raw_Mode r) (raw_HasChanges r)
    (raw_ChildrenAccessCount r) (raw_ChildrenLastAccessMs r) (raw_ChildrenCachedAtMs r).
Definition set_raw_Children (v : option (list string)) (r : SerializeableInode) :
    SerializeableInode :=
    mkSerializeableInode (raw_DriveItem r) v (raw_Subdir r) (raw_Mode r) (raw_HasChanges r)
    (raw_ChildrenAccessCount r) (raw_ChildrenLastAccessMs r) (raw_ChildrenCachedAtMs r).
Definition set_raw_Subdir (v : Z) (r : SerializeableInode) : SerializeableInode :=
    mkSerializeableInode (raw_DriveItem r) (raw_Children r) v (raw_Mode r) (raw_HasChanges r)
    (raw_ChildrenAccessCount r) (raw_ChildrenLastAccessMs r) (raw_ChildrenCachedAtMs r).
Definition set_raw_Mode (v : Z) (r : SerializeableInode) : SerializeableInode :=
    mkSerializeableInode (raw_DriveItem r) (raw_Children r) (raw_Subdir r) v (raw_HasChanges r)
    (raw_ChildrenAccessCount r) (raw_ChildrenLastAccessMs r) (raw_ChildrenCachedAtMs r).
Definition set_raw_HasChanges (v : bool) (r : SerializeableInode) : SerializeableInode :=
    mkSerializeableInode (raw_DriveItem r) (raw_Children r) (raw_Subdir r) (raw_Mode r) v
    (raw_ChildrenAccessCount r) (raw_ChildrenLastAccessMs r) (raw_ChildrenCachedAtMs r).
Definition set_raw_ChildrenAccessCount (v : Z) (r : SerializeableInode) : SerializeableInode :=
    mkSerializeableInode (raw_DriveItem r) (raw_Children r) (raw_Subdir r) (raw_Mode r)
    (raw_HasChanges r) v (raw_ChildrenLastAccessMs r) (raw_ChildrenCachedAtMs r).
Definition set_raw_ChildrenLastAccessMs (v : Z) (r : SerializeableInode) : SerializeableInode :=
    mkSerializeableInode (raw_DriveItem r) (raw_Children r) (raw_Subdir r) (raw_Mode r)
    (raw_HasChanges r) (raw_ChildrenAccessCount r) v (raw_ChildrenCachedAtMs r).
Definition set_raw_ChildrenCachedAtMs (v : Z) (r : SerializeableInode) : SerializeableInode :=
    mkSerializeableInode (raw_DriveItem r) (raw_Children r) (raw_Subdir r) (raw_Mode r)
    (raw_HasChanges r) (raw_ChildrenAccessCount r) (raw_ChildrenLastAccessMs r) v.

Definition zero_Serializeable : SerializeableInode :=
  mkSerializeableInode zero_DriveItem None 0 0 false 0 0 0.

(** The embedded [DriveItem] contributes its fields to the same object. *)
Definition Serializeable_fields : list (string * decoder SerializeableInode) :=
  ((λ f, (f.1, dec_field raw_DriveItem set_raw_DriveItem f.2)) <$> DriveItem_fields) ++ [
  ("children", dec_field raw_Children set_raw_Children (dec_slice "" dec_string));
  ("subdir", dec_field raw_Subdir set_raw_Subdir dec_uint32);
  ("mode", dec_field raw_Mode set_raw_Mode dec_uint32);
  ("hasChanges", dec_field raw_HasChanges set_raw_HasChanges dec_bool);
  ("childrenAccessCount",
     dec_field raw_ChildrenAccessCount set_raw_ChildrenAccessCount dec_uint64);
  ("childrenLastAccessMs",
     dec_field raw_ChildrenLastAccessMs set_raw_ChildrenLastAccessMs dec_int64);
  ("childrenCachedAtMs",
     dec_field raw_ChildrenCachedAtMs set_raw_ChildrenCachedAtMs dec_int64)].

Definition enc_strings (l : option (list string)) : json :=
  match l with None => JNull | Some ss => JArr (enc_string <$> ss) end.

(** [AsJSON]: the marshalling error is dropped by the code, which then holds no
    data ([None]). *)
Definition AsJSON `{TimeText} (i : Inode) : option json :=
  ms ← enc_DriveItem_members (DriveItem_of i);
  Some (JObj (ms ++ [
    ("children", enc_strings (children i));
    ("subdir", JNum (subdir i));
    ("mode", JNum (mode i));
    ("hasChanges", JBool (hasChanges i));
    ("childrenAccessCount", JNum (childrenAccessCount i));
    ("childrenLastAccessMs", JNum (UnixMilli (childrenLastAccess i)));
    ("childrenCachedAtMs", JNum (UnixMilli (childrenCachedAt i)))])).

(** [NewInodeJSON]; [None] data is a text that is not JSON (an empty value). *)
Definition NewInodeJSON (data : option json) : error + Inode :=
  match data ≫= λ j, dec_struct Serializeable_fields j zero_Serializeable with
  | None => inl (EMsg "json: cannot unmarshal")
  | Some raw =>
      inr (mkInode (raw_DriveItem raw) (raw_Children raw) (raw_Subdir raw) (raw_Mode raw)
             (raw_HasChanges raw) (raw_ChildrenAccessCount raw)
             (time_UnixMilli (raw_ChildrenLastAccessMs raw))
             (time_UnixMilli (raw_ChildrenCachedAtMs raw)))
  end.

(** The state a stored inode can carry: its strings are valid UTF-8 and its
    counters are within their widths. *)
Definition inode_json_ok (i : Inode) : Prop :=
  item_json_ok (DriveItem_of i) ∧ opt_ok (Forall utf8_valid) (children i) ∧
  0 ≤ subdir i < 2 ^ 32 ∧ 0 ≤ mode i < 2 ^ 32 ∧ 0 ≤ childrenAccessCount i < 2 ^ 64 ∧
  - 2 ^ 63 ≤ UnixMilli (childrenLastAccess i) < 2 ^ 63 ∧
  - 2 ^ 63 ≤ UnixMilli (childrenCachedAt i) < 2 ^ 63.
#[global] Instance inode_json_ok_dec i : Decision (inode_json_ok i).
Proof. unfold inode_json_ok. apply _. Defined.

(** What a restored inode holds: the instants lose what is below the
    millisecond. *)
Definition trunc_ms (i : Inode) : Inode :=
  mkInode (DriveItem_of i) (children i) (subdir i) (mode i) (hasChanges i) (childrenAccessCount i)
    (time_UnixMilli (UnixMilli (childrenLastAccess i)))
    (time_UnixMilli (UnixMilli (childrenCachedAt i))).

(** Decoding the members of the embedded item is decoding the item. *)
Lemma field_for_lift k d :
  field_for DriveItem_fields k = Some d →
  k ∈ DriveItem_fields.*1 →
  field_for Serializeable_fields k = Some (dec_field raw_DriveItem set_raw_DriveItem d).
Proof.
  intros Hd Hk. cbn in Hk. rewrite !elem_of_cons, elem_of_nil in Hk.
  destruct_or!; subst; try done;
    (lazymatch type of Hd with
     | field_for _ ?k = _ =>
         eassert (Hx : field_for DriveItem_fields k = Some _) by reflexivity
     end);
    rewrite Hx in Hd; injection Hd as <-; reflexivity.
Qed.

Lemma dec_members_lift kvs t :
  Forall (λ kv, kv.1 ∈ DriveItem_fields.*1) kvs →
  dec_members Serializeable_fields kvs t =
  (λ d, set_raw_DriveItem d t) <$> dec_members DriveItem_fields kvs (raw_DriveItem t).
Proof.
  intros H. revert t. induction H as [|[k j] kvs Hk _ IH]; intros t.
  - unfold dec_members. by destruct t.
  - rewrite !dec_members_cons. cbn [fst snd] in *.
    destruct (field_for DriveItem_fields k) as [d|] eqn:E.
    + rewrite (field_for_lift k d E Hk). unfold dec_field at 1.
      destruct (d j (raw_DriveItem t)) as [i|]; simpl; [|done].
      rewrite IH. simpl. by destruct (dec_members _ _ i).
    + exfalso. clear -E Hk. cbn in Hk. rewrite !elem_of_cons, elem_of_nil in Hk.
      destruct_or!; subst; done.
Qed.

Lemma omit_if_keys b k j (ks : list string) : k ∈ ks → Forall (λ kv, kv.1 ∈ ks) (omit_if b k j).
Proof. destruct b; simpl; intros; repeat constructor; done. Qed.
Lemma enc_ptr_field_keys {T} k (p : option T) f ms (ks : list string) :
  k ∈ ks → enc_ptr_field k p f = Some ms → Forall (λ kv, kv.1 ∈ ks) ms.
Proof.
  intros Hk. destruct p as [x|]; simpl; [|by intros [= <-]; constructor].
  destruct (f x); simpl; [|done]. intros [= <-]. repeat constructor. done.
Qed.

Ltac key_in := cbn [DriveItem_fields fmap list_fmap fst];
  repeat first [apply list_elem_of_here | apply list_elem_of_further].

Lemma enc_DriveItem_keys `{TimeText} i ms :
  enc_DriveItem_members i = Some ms → Forall (λ kv, kv.1 ∈ DriveItem_fields.*1) ms.
Proof.
  unfold enc_DriveItem_members.
  destruct (enc_ptr_field "lastModifiedDatetime" _ _) as [mt|] eqn:Emt; [|done].
  destruct (enc_ptr_field "createdDateTime" _ _) as [ct|] eqn:Ect; [|done].
  destruct (enc_ptr_field "parentReference" _ _) as [pr|] eqn:Epr; [|done].
  destruct (enc_ptr_field "folder" _ _) as [fo|] eqn:Efo; [|done].
  destruct (enc_ptr_field "file" _ _) as [fi|] eqn:Efi; [|done].
  destruct (enc_ptr_field "deleted" _ _) as [de|] eqn:Ede; [|done].
  intros [= <-].
  repeat apply Forall_app_2;
    first [apply omit_if_keys; key_in
          |eapply enc_ptr_field_keys; [|eassumption]; key_in].
Qed.

Lemma dec_enc_strings l old :
  opt_ok (Forall utf8_valid) l → dec_slice "" dec_string (enc_strings l) old = Some l.
Proof.
  destruct l as [ss|]; [|done]. simpl. intros H.
  assert (Hm : mapM (λ e, dec_string e "") (enc_string <$> ss) = Some ss); [|by rewrite Hm].
  induction H as [|s ss Hs _ IH]; [done|].
  rewrite fmap_cons. unfold mapM in *; fold @mapM. simpl. unfold utf8_valid in Hs. rewrite Hs. simpl.
  by rewrite IH.
Qed.

Lemma dec_int_ok lo hi n old : lo ≤ n ≤ hi → dec_int lo hi (JNum n) old = Some n.
Proof. intros ?. unfold dec_int. destruct (Z.leb_spec lo n), (Z.leb_spec n hi); try lia. done. Qed.

(** One member whose field and value are known. *)
Lemma dec_members_own {A} (get : SerializeableInode → A) set d v k j t kvs :
  field_for Serializeable_fields k = Some (dec_field get set d) → d j (get t) = Some v →
  dec_members Serializeable_fields ((k, j) :: kvs) t = dec_members Serializeable_fields kvs (set v t).
Proof. intros Hf Hd. rewrite dec_members_cons. cbn [fst snd]. rewrite Hf. unfold dec_field. by rewrite Hd. Qed.

Lemma NewInodeJSON_AsJSON `{TimeText} i j :
  inode_json_ok i → AsJSON i = Some j → NewInodeJSON (Some j) = inr (trunc_ms i).
Proof.
  intros (Hit&Hch&Hsd&Hmd&Hac&Hla&Hca). unfold AsJSON.
  destruct (enc_DriveItem_members _) as [ms|] eqn:Ems; [|done]. simpl. intros [= <-].
  unfold NewInodeJSON. cbn [mbind option_bind].
  rewrite dec_struct_obj, dec_members_app, dec_members_lift by (by eapply enc_DriveItem_keys).
  cbn [raw_DriveItem zero_Serializeable]. rewrite (dec_enc_DriveItem_members _ _ Hit Ems).
  cbn [fmap option_fmap option_map mbind option_bind].
  rewrite (dec_members_own raw_Children set_raw_Children (dec_slice "" dec_string) (children i))
    by first [reflexivity | by apply dec_enc_strings].
  rewrite (dec_members_own raw_Subdir set_raw_Subdir dec_uint32 (subdir i)),
    (dec_members_own raw_Mode set_raw_Mode dec_uint32 (mode i)),
    (dec_members_own raw_HasChanges set_raw_HasChanges dec_bool (hasChanges i)),
    (dec_members_own raw_ChildrenAccessCount set_raw_ChildrenAccessCount dec_uint64
       (childrenAccessCount i)),
    (dec_members_own raw_ChildrenLastAccessMs set_raw_ChildrenLastAccessMs dec_int64
       (UnixMilli (childrenLastAccess i))),
    (dec_members_own raw_ChildrenCachedAtMs set_raw_ChildrenCachedAtMs dec_int64
       (UnixMilli (childrenCachedAt i)))
    by first [reflexivity | apply dec_int_ok; lia].
  reflexivity.
Qed.

Lemma trunc_ms_AsJSON `{TimeText} i : AsJSON (trunc_ms i) = AsJSON i.
Proof. unfold AsJSON, trunc_ms. simpl. by rewrite !UnixMilli_roundtrip. Qed.

Lemma trunc_ms_idem i : trunc_ms (trunc_ms i) = trunc_ms i.
Proof. unfold trunc_ms. simpl. by rewrite !UnixMilli_roundtrip. Qed.
