(* ===== verification/Heap.v ===== *)
(** Go's [container/heap], which both eviction indexes are built on.

    [HeapInterface] is [heap.Interface] (the operations a heap type provides),
    [HeapLaws] what an implementation promises: through [elems], its operations
    are those of a list ordered by [lt]. The algorithms ([up], [down], [Push],
    [Pop], [Fix], [Remove]) are written against the interface, and their
    theorems are proved once from the laws. *)

From Stdlib Require Import ZifyNat.
From S2P Require Export Prelude.

#[local] Ltac Zify.zify_post_hook ::= Z.to_euclidean_division_equations.

(** [heap.Interface]: [H] is the heap type with whatever store it lives in, [A]
    the type of the pushed and popped values. *)
Class HeapInterface (H A : Type) := {
  Len : H → nat;
  Less : H → nat → nat → bool;
  Swap : nat → nat → H → H;
  heap_Push : A → H → H;
  heap_Pop : H → A * H;
}.

(** ** The algorithms of container/heap *)

Section algorithms.
Context {H A : Type} `{HeapInterface H A}.

Fixpoint up_fuel (fuel : nat) (h : H) (j : nat) : H :=
  match fuel with
  | O => h
  | S fuel =>
      let i := (j - 1) / 2 in
      if (i =? j) || negb (Less h j i) then h else up_fuel fuel (Swap i j h) i
  end.
(** [j] strictly decreases: [S j] turns are enough. *)
Definition up (h : H) (j : nat) : H := up_fuel (S j) h j.

Fixpoint down_fuel (fuel : nat) (h : H) (i n : nat) : H :=
  match fuel with
  | O => h
  | S fuel =>
      let j1 := 2 * i + 1 in
      if n <=? j1 then h else
      let j2 := j1 + 1 in
      let j := if (j2 <? n) && Less h j2 j1 then j2 else j1 in
      if negb (Less h j i) then h else down_fuel fuel (Swap i j h) j n
  end.
(** [i] strictly increases and stays under [n]: [n] turns are enough. *)
Definition down (h : H) (i n : nat) : H := down_fuel n h i n.

(** Whether [down] moved the element (its boolean result): it does when it
    makes its first swap. *)
Definition down_moves (h : H) (i n : nat) : bool :=
  let j1 := 2 * i + 1 in
  if n <=? j1 then false else
  let j2 := j1 + 1 in
  let j := if (j2 <? n) && Less h j2 j1 then j2 else j1 in
  Less h j i.

Definition Push (h : H) (x : A) : H :=
  let h := heap_Push x h in up h (Len h - 1).

Definition Pop (h : H) : A * H :=
  let n := Len h - 1 in
  heap_Pop (down (Swap 0 n h) 0 n).

Definition Fix (h : H) (i : nat) : H :=
  if down_moves h i (Len h) then down h i (Len h) else up h i.

Definition Remove (h : H) (i : nat) : A * H :=
  let n := Len h - 1 in
  if n =? i then heap_Pop h else
  let h := Swap i n h in
  let h := if down_moves h i n then down h i n else up h i in
  heap_Pop h.
End algorithms.

(** ** Swapping two positions of a list *)

Definition swapl {B} `{Inhabited B} (i j : nat) (l : list B) : list B :=
  <[i := l !!! j]> (<[j := l !!! i]> l).

Section swapl.
Context {B : Type} `{Inhabited B}.
Implicit Types l : list B.

Lemma swapl_length i j l : length (swapl i j l) = length l.
Proof. unfold swapl. by rewrite !length_insert. Qed.

Lemma swapl_lookup i j l k :
  i < length l → j < length l →
  swapl i j l !!! k =
  if decide (k = i) then l !!! j else if decide (k = j) then l !!! i else l !!! k.
Proof.
  intros Hi Hj. unfold swapl. case_decide as E1; subst.
  - by rewrite list_lookup_total_insert_eq by (rewrite length_insert; lia).
  - rewrite list_lookup_total_insert_ne by done. case_decide; subst.
    + by rewrite list_lookup_total_insert_eq by lia.
    + by rewrite list_lookup_total_insert_ne by done.
Qed.

Lemma swapl_perm i j l : i < length l → j < length l → swapl i j l ≡ₚ l.
Proof.
  intros Hi Hj. apply Permutation_inj. split; [apply swapl_length|].
  set (f := λ k : nat, if decide (k = i) then j else if decide (k = j) then i else k).
  exists f. split.
  - intros a b. unfold f. repeat case_decide; congruence.
  - intros k. unfold f, swapl.
    destruct (decide (k = i)) as [->|].
    { rewrite list_lookup_insert_eq by (rewrite length_insert; lia).
      by rewrite list_lookup_lookup_total_lt. }
    rewrite list_lookup_insert_ne by done.
    destruct (decide (k = j)) as [->|]; [|by rewrite list_lookup_insert_ne].
    rewrite list_lookup_insert_eq by lia. by rewrite list_lookup_lookup_total_lt.
Qed.
End swapl.

(** ** The laws of an implementation *)

(** [ok] is the representation invariant the operations keep ([heap_Push]
    keeps it for the values its client may push). *)
Class HeapLaws (H A B : Type) `{HeapInterface H A} `{Inhabited B}
    (ok : H → Prop) (elems : H → list B) (val : H → A → B) (lt : B → B → bool) := {
  Len_spec h : Len h = length (elems h);
  Less_spec h i j : ok h → i < Len h → j < Len h →
    Less h i j = lt (elems h !!! i) (elems h !!! j);
  Swap_ok h i j : ok h → i < Len h → j < Len h → ok (Swap i j h);
  Swap_spec h i j : i < Len h → j < Len h → elems (Swap i j h) = swapl i j (elems h);
  heap_Push_spec h x : elems (heap_Push x h) = elems h ++ [val h x];
  heap_Pop_ok h : ok h → 0 < Len h → ok (heap_Pop h).2;
  heap_Pop_spec h : 0 < Len h →
    elems h = elems (heap_Pop h).2 ++ [val h (heap_Pop h).1];
}.

(** A strict weak order: [lt] is asymmetric and "not greater" is transitive. *)
Class StrictWeak {B} (lt : B → B → bool) := {
  lt_asym a b : lt a b = true → lt b a = false;
  le_trans a b c : lt b a = false → lt c b = false → lt c a = false;
}.

Section heap_order.
Context {B : Type} `{Inhabited B} (lt : B → B → bool) `{!StrictWeak lt}.

Definition le (a b : B) : Prop := lt b a = false.
Definition parent (k : nat) : nat := (k - 1) / 2.

(** The first [n] elements are a heap. *)
Definition heap_ok (l : list B) (n : nat) : Prop :=
  ∀ k, 0 < k < n → le (l !!! parent k) (l !!! k).

(** Every element is below the root. *)
Lemma heap_ok_root l n k : heap_ok l n → k < n → le (l !!! 0) (l !!! k).
Proof using Type*.
  intros Hh. induction k as [k IH] using lt_wf_ind. intros Hk.
  destruct (decide (k = 0)) as [->|].
  - unfold le. destruct (lt (l !!! 0) (l !!! 0)) eqn:E; [|done]. by apply lt_asym in E as E'; congruence.
  - assert (parent k < k) by (unfold parent; lia).
    eapply le_trans; [|apply Hh; lia]. apply IH; lia.
Qed.

(** A heap but for the links of position [i]; its children are still above
    its parent. *)
Definition heap_but (l : list B) (n i : nat) : Prop :=
  (∀ k, 0 < k < n → k ≠ i → parent k ≠ i → le (l !!! parent k) (l !!! k)) ∧
  (∀ c, c < n → parent c = i → 0 < i → 0 < c → le (l !!! parent i) (l !!! c)).
(** A heap but for the links of [i] to its children. *)
Definition heap_down (l : list B) (n i : nat) : Prop :=
  heap_but l n i ∧ (0 < i → i < n → le (l !!! parent i) (l !!! i)).
(** A heap but for the link of [i] to its parent. *)
Definition heap_up (l : list B) (n i : nat) : Prop :=
  heap_but l n i ∧ (∀ c, 0 < c < n → parent c = i → le (l !!! i) (l !!! c)).

Lemma heap_down_done l n i :
  heap_down l n i → (∀ c, 0 < c < n → parent c = i → le (l !!! i) (l !!! c)) → heap_ok l n.
Proof.
  intros [[H1 _] H2] Hc k Hk. destruct (decide (k = i)) as [->|]; [apply H2; lia|].
  destruct (decide (parent k = i)) as [<-|]; [by apply Hc|by apply H1].
Qed.
Lemma heap_up_done l n i :
  heap_up l n i → (0 < i → i < n → le (l !!! parent i) (l !!! i)) → heap_ok l n.
Proof. intros [H1 H2] Hi. apply (heap_down_done l n i); [by split|done]. Qed.

Lemma le_total a b : ¬ le a b → le b a.
Proof using Type*. unfold le. intros H1. apply lt_asym. by destruct (lt b a). Qed.

(** One step of [down]: the smaller child [j] of [i] takes its place. *)
Lemma heap_but_swap_down l n i j :
  n ≤ length l → j < n → parent j = i → 0 < j → lt (l !!! j) (l !!! i) = true →
  (∀ c, 0 < c < n → parent c = i → le (l !!! j) (l !!! c)) →
  heap_but l n i → heap_down (swapl i j l) n j.
Proof using Type*.
  intros Hn Hj Hp Hj0 Hlt Hmin [H1 H2].
  assert (Hij : i < j) by (unfold parent in Hp; lia).
  assert (Hl : ∀ k, swapl i j l !!! k =
    if decide (k = i) then l !!! j else if decide (k = j) then l !!! i else l !!! k)
    by (intros; apply swapl_lookup; lia).
  split; [split|].
  - intros k Hk Hkj Hpkj. rewrite !Hl.
    destruct (decide (k = i)) as [->|].
    { assert (parent i < i) by (unfold parent; lia).
      rewrite (decide_False (P := parent i = i)), (decide_False (P := parent i = j)) by lia.
      apply H2; lia. }
    rewrite (decide_False (P := k = j)), (decide_False (P := parent k = j)) by done.
    destruct (decide (parent k = i)) as [Hpk|]; [by apply Hmin|by apply H1].
  - intros c Hc Hpc _ Hc0. rewrite !Hl, Hp.
    assert (j < c) by (unfold parent in Hpc; lia).
    rewrite (decide_True (P := i = i)), (decide_False (P := c = i)), (decide_False (P := c = j)) by lia.
    rewrite <- Hpc. apply H1; lia.
  - intros _ _. rewrite !Hl, Hp.
    rewrite (decide_True (P := i = i)), (decide_False (P := j = i)), (decide_True (P := j = j)) by lia.
    by apply lt_asym in Hlt.
Qed.

(** One step of [up]. *)
Lemma heap_up_swap l n j :
  n ≤ length l → 0 < j < n → lt (l !!! j) (l !!! parent j) = true →
  heap_up l n j → heap_up (swapl (parent j) j l) n (parent j).
Proof using Type*.
  intros Hn Hj Hlt [[H1 H2] H3]. set (i := parent j) in *.
  assert (Hij : i < j) by (subst i; unfold parent; lia).
  assert (Hl : ∀ k, swapl i j l !!! k =
    if decide (k = i) then l !!! j else if decide (k = j) then l !!! i else l !!! k)
    by (intros; apply swapl_lookup; lia).
  assert (Hle : le (l !!! j) (l !!! i)) by by apply lt_asym.
  assert (Hpar : 0 < i → le (l !!! parent i) (l !!! i)).
  { intros. apply H1; unfold i, parent in *; lia. }
  split; [split|].
  - intros k Hk Hki Hpki. rewrite !Hl.
    rewrite (decide_False (P := k = i)), (decide_False (P := parent k = i)) by done.
    assert (k ≠ j) by (intros ->; by apply Hpki). rewrite (decide_False (P := k = j)) by done.
    destruct (decide (parent k = j)); [by apply H2; unfold i, parent in *; lia|by apply H1].
  - intros c Hc Hpc Hi0 Hc0. rewrite !Hl.
    assert (parent i < i) by (unfold parent; lia).
    rewrite (decide_False (P := parent i = i)), (decide_False (P := parent i = j)) by lia.
    assert (i < c) by (unfold parent in Hpc; lia).
    rewrite (decide_False (P := c = i)) by lia.
    destruct (decide (c = j)) as [->|]; [by apply Hpar|].
    eapply le_trans; [by apply Hpar|]. rewrite <- Hpc. apply H1; [lia|done|].
    rewrite Hpc. lia.
  - intros c Hc Hpc. rewrite !Hl. rewrite (decide_True (P := i = i)) by done.
    assert (i < c) by (unfold parent in Hpc; lia).
    rewrite (decide_False (P := c = i)) by lia.
    destruct (decide (c = j)) as [->|]; [done|].
    eapply le_trans; [exact Hle|]. rewrite <- Hpc. apply H1; [lia|done|].
    rewrite Hpc. lia.
Qed.
End heap_order.

(** ** The algorithms keep the elements and the order *)

Section heap_correct.
Context {H A B : Type} `{HeapInterface H A} `{Inhabited B} {ok : H → Prop} {elems : H → list B}
  {val : H → A → B} {lt : B → B → bool} `{!HeapLaws H A B ok elems val lt} `{!StrictWeak lt}.

(** [h'] holds the elements of [h], in another order. *)
Definition same_elems (h h' : H) : Prop := ok h' ∧ elems h' ≡ₚ elems h ∧ Len h' = Len h.

Lemma same_elems_refl h : ok h → same_elems h h.
Proof. by repeat split. Qed.
Lemma same_elems_trans h1 h2 h3 : same_elems h1 h2 → same_elems h2 h3 → same_elems h1 h3.
Proof. intros (?&E1&?) (?&E2&?). repeat split; [done|by rewrite E2|congruence]. Qed.
Lemma same_elems_swap h i j : ok h → i < Len h → j < Len h → same_elems h (Swap i j h).
Proof using Type*.
  intros. repeat split; [by apply Swap_ok|..].
  - rewrite Swap_spec by done. apply swapl_perm; by rewrite <- Len_spec.
  - by rewrite !Len_spec, Swap_spec, swapl_length.
Qed.

Lemma up_fuel_same fuel h j : ok h → j < Len h → same_elems h (up_fuel fuel h j).
Proof using Type*.
  revert h j. induction fuel as [|fuel IH]; intros h j Hok Hj; [by apply same_elems_refl|].
  cbn [up_fuel]. destruct (_ =? j); cbn [orb]; [by apply same_elems_refl|].
  destruct (Less h j _); cbn [negb]; [|by apply same_elems_refl].
  assert (Hs : same_elems h (Swap ((j - 1) / 2) j h)) by (apply same_elems_swap; [done|lia..]).
  eapply same_elems_trans; [exact Hs|]. destruct Hs as (?&_&HL). apply IH; [done|lia].
Qed.

Lemma up_fuel_ok fuel h j n :
  ok h → j < fuel → j < n → n ≤ Len h → heap_up lt (elems h) n j →
  heap_ok lt (elems (up_fuel fuel h j)) n.
Proof using Type*.
  revert h j. induction fuel as [|fuel IH]; intros h j Hok Hf Hj Hn Hup; [lia|].
  cbn [up_fuel]. assert (Hlen : n ≤ length (elems h)) by (by rewrite <- Len_spec).
  destruct (Nat.eqb_spec ((j - 1) / 2) j) as [E|E]; cbn [orb].
  { apply (heap_up_done lt _ _ j Hup). intros. exfalso. lia. }
  rewrite Less_spec by (done || lia).
  destruct (lt (elems h !!! j) _) eqn:El; cbn [negb].
  - apply IH; [apply Swap_ok; done || lia|lia..| |].
    + rewrite !Len_spec, Swap_spec, swapl_length, <- Len_spec by lia. done.
    + rewrite Swap_spec by lia. apply (heap_up_swap lt); [exact Hlen|lia|exact El|exact Hup].
  - apply (heap_up_done lt _ _ j Hup). intros _ _. exact El.
Qed.

Lemma down_fuel_same fuel h i n : ok h → n ≤ Len h → same_elems h (down_fuel fuel h i n).
Proof using Type*.
  revert h i. induction fuel as [|fuel IH]; intros h i Hok Hn; [by apply same_elems_refl|].
  cbn [down_fuel]. destruct (Nat.leb_spec n (2 * i + 1)) as [|Hi]; [by apply same_elems_refl|].
  set (j := if _ && _ then _ else _).
  assert (Hj : i < j < n).
  { subst j. destruct (Nat.ltb_spec (2 * i + 1 + 1) n); cbn [andb]; [|lia]. case_match; lia. }
  destruct (Less h j i); cbn [negb]; [|by apply same_elems_refl].
  assert (Hs : same_elems h (Swap i j h)) by (apply same_elems_swap; [done|lia..]).
  eapply same_elems_trans; [exact Hs|]. destruct Hs as (?&_&HL). apply IH; [done|lia].
Qed.

(** The child [down] compares with. *)
Definition small_child (h : H) (i n : nat) : nat :=
  let j1 := 2 * i + 1 in if (j1 + 1 <? n) && Less h (j1 + 1) j1 then j1 + 1 else j1.

Lemma small_child_spec h i n :
  ok h → n ≤ Len h → 2 * i + 1 < n →
  let j := small_child h i n in
  i < j < n ∧ parent j = i ∧
  ∀ c, 0 < c < n → parent c = i → le lt (elems h !!! j) (elems h !!! c).
Proof using Type*.
  intros Hok Hn Hi. unfold small_child. cbn zeta. unfold parent.
  assert (Hrefl : ∀ b, le lt b b).
  { intros b. unfold le. destruct (lt b b) eqn:E; [|done]. by apply lt_asym in E as E'; congruence. }
  destruct (Nat.ltb_spec (2 * i + 1 + 1) n) as [H2|H2]; cbn [andb].
  - rewrite Less_spec by (done || lia).
    destruct (lt _ _) eqn:E; (split; [lia|split; [lia|]]); intros c Hc Hpc;
      (assert (c = 2 * i + 1 ∨ c = 2 * i + 1 + 1) as [->| ->] by lia); try apply Hrefl.
    + by apply lt_asym in E.
    + done.
  - split; [lia|split; [lia|]]. intros c Hc Hpc. replace c with (2 * i + 1) by lia. apply Hrefl.
Qed.

Lemma down_fuel_ok fuel h i n :
  ok h → n ≤ fuel + i → n ≤ Len h → heap_down lt (elems h) n i →
  heap_ok lt (elems (down_fuel fuel h i n)) n.
Proof using Type*.
  revert h i. induction fuel as [|fuel IH]; intros h i Hok Hf Hn Hd.
  { simpl. apply (heap_down_done lt _ _ i Hd). unfold parent. intros; lia. }
  cbn [down_fuel]. destruct (Nat.leb_spec n (2 * i + 1)) as [|Hi].
  { apply (heap_down_done lt _ _ i Hd). unfold parent. intros; lia. }
  destruct (small_child_spec h i n Hok Hn Hi) as (Hj & Hp & Hmin).
  fold (small_child h i n). set (j := small_child h i n) in *.
  rewrite Less_spec by (done || lia).
  destruct (lt _ _) eqn:E; simpl.
  - apply IH; [apply Swap_ok; done || lia|lia| |].
    + by rewrite !Len_spec, Swap_spec, swapl_length, <- Len_spec by lia.
    + rewrite Swap_spec by lia. apply (heap_but_swap_down lt); try done; try lia; [by rewrite <- Len_spec|].
      apply Hd.
  - apply (heap_down_done lt _ _ i Hd). intros c Hc Hpc. eapply le_trans; [exact E|]. by apply Hmin.
Qed.

(** [down] leaves the positions past [n] alone. *)
Lemma down_fuel_above fuel h i n k :
  ok h → n ≤ Len h → n ≤ k → elems (down_fuel fuel h i n) !!! k = elems h !!! k.
Proof using Type*.
  revert h i. induction fuel as [|fuel IH]; intros h i Hok Hn Hk; [done|].
  cbn [down_fuel]. destruct (Nat.leb_spec n (2 * i + 1)) as [|Hi]; [done|].
  destruct (small_child_spec h i n Hok Hn Hi) as (Hj & _ & _).
  fold (small_child h i n). set (j := small_child h i n) in *.
  destruct (Less h j i); cbn [negb]; [|done].
  destruct (same_elems_swap h i j) as (?&_&HL); [done|lia..|].
  rewrite IH by (done || lia). rewrite Swap_spec, swapl_lookup by (rewrite <- ?Len_spec; lia).
  by rewrite !decide_False by lia.
Qed.

Lemma up_fuel_above fuel h j k :
  ok h → j < Len h → j < k → k < Len h → elems (up_fuel fuel h j) !!! k = elems h !!! k.
Proof using Type*.
  revert h j. induction fuel as [|fuel IH]; intros h j Hok Hj Hk Hkl; [done|].
  cbn [up_fuel]. destruct (_ =? j); cbn [orb]; [done|].
  destruct (Less h j _); cbn [negb]; [|done].
  destruct (same_elems_swap h ((j - 1) / 2) j) as (?&_&HL); [done|lia..|].
  rewrite IH by (done || lia). rewrite Swap_spec, swapl_lookup by (rewrite <- ?Len_spec; lia).
  by rewrite !decide_False by lia.
Qed.

Lemma down_moves_false h i n : down_moves h i n = false → down h i n = h.
Proof using Type*.
  unfold down, down_moves. destruct n as [|n]; [done|]. cbn [down_fuel].
  destruct (S n <=? 2 * i + 1); [done|]. by intros ->.
Qed.

(** A heap of which only the links of [i] may be broken, repaired. *)
Lemma restore_ok h i n :
  ok h → i < n → n ≤ Len h → heap_but lt (elems h) n i →
  heap_ok lt (elems (if down_moves h i n then down h i n else up h i)) n.
Proof using Type*.
  intros Hok Hi Hn Hb. unfold down_moves.
  destruct (Nat.leb_spec n (2 * i + 1)) as [|Hi2].
  { apply up_fuel_ok; [done|lia..|]. split; [done|]. unfold parent. intros; lia. }
  destruct (small_child_spec h i n Hok Hn Hi2) as (Hj & Hp & Hmin).
  fold (small_child h i n). set (j := small_child h i n) in *.
  rewrite Less_spec by (done || lia).
  assert (Hlen : n ≤ length (elems h)) by (by rewrite <- Len_spec).
  destruct (lt _ _) eqn:E.
  - unfold down. destruct n as [|n]; [lia|]. cbn [down_fuel].
    destruct (Nat.leb_spec (S n) (2 * i + 1)) as [|_]; [lia|].
    fold (small_child h i (S n)). change (small_child h i (S n)) with j.
    rewrite Less_spec by (done || lia). rewrite E. cbn [negb].
    destruct (same_elems_swap h i j) as (?&_&HL); [done|lia..|].
    apply down_fuel_ok; [done|lia|lia|].
    rewrite Swap_spec by lia. by apply (heap_but_swap_down lt); try lia.
  - apply up_fuel_ok; [done|lia..|]. split; [done|].
    intros c Hc Hpc. eapply le_trans; [exact E|]. by apply Hmin.
Qed.

Lemma restore_same h i n :
  ok h → i < Len h → n ≤ Len h →
  same_elems h (if down_moves h i n then down h i n else up h i).
Proof using Type*. intros. case_match; [by apply down_fuel_same|by apply up_fuel_same]. Qed.

(** [heap.Push] adds the element and keeps the order. *)
Lemma Push_correct h x :
  ok (heap_Push x h) →
  ok (Push h x) ∧ elems (Push h x) ≡ₚ val h x :: elems h ∧
  (heap_ok lt (elems h) (Len h) → heap_ok lt (elems (Push h x)) (Len (Push h x))).
Proof using Type*.
  intros Hok. unfold Push. set (h1 := heap_Push x h) in *.
  assert (He : elems h1 = elems h ++ [val h x]) by apply heap_Push_spec.
  assert (HL : Len h1 = S (Len h)) by (rewrite !Len_spec, He, length_app; simpl; lia).
  destruct (up_fuel_same (S (Len h1 - 1)) h1 (Len h1 - 1)) as (Ho&Hp&HL'); [done|lia|].
  split; [done|]. split; [unfold up; rewrite Hp, He; apply Permutation_app_comm|].
  intros Hh. unfold up. rewrite HL'. apply up_fuel_ok; [done|lia..|].
  split; [|unfold parent; intros; lia]. split; [|unfold parent; intros; lia].
  intros k Hk Hk1 Hpk. rewrite He, !lookup_total_app_l
    by (rewrite <- Len_spec; unfold parent; lia). apply Hh. lia.
Qed.

Lemma heap_ok_le l n m : heap_ok lt l n → m ≤ n → heap_ok lt l m.
Proof. intros Hh Hm k Hk. apply Hh. lia. Qed.
Lemma heap_ok_app l k n : n ≤ length l → heap_ok lt (l ++ k) n → heap_ok lt l n.
Proof.
  intros Hn Hh j Hj. specialize (Hh j Hj). revert Hh.
  by rewrite !lookup_total_app_l by (unfold parent; lia).
Qed.
Lemma heap_but_swap_last l n i :
  i < n → n < length l → heap_ok lt l (S n) → heap_but lt (swapl i n l) n i.
Proof using Type*.
  intros Hi Hn Hh.
  assert (Hl : ∀ k, k ≠ i → k < n → swapl i n l !!! k = l !!! k).
  { intros k ??. rewrite swapl_lookup by lia. by rewrite !decide_False by lia. }
  split.
  - intros k Hk Hki Hpk. rewrite !Hl by (unfold parent in *; lia). apply Hh. lia.
  - intros c Hc Hpc Hi0 Hc0. rewrite !Hl by (unfold parent in *; lia).
    eapply le_trans; [apply (Hh i); lia|]. rewrite <- Hpc. apply Hh. lia.
Qed.

(** Changing the element at [i] breaks the links of [i] only. *)
Lemma heap_but_insert l n i x :
  i < n → n ≤ length l → heap_ok lt l n → heap_but lt (<[i := x]> l) n i.
Proof using Type*.
  intros Hi Hn Hh. split.
  - intros k Hk Hki Hpk. rewrite !list_lookup_total_insert_ne by done. by apply Hh.
  - intros c Hc Hpc Hi0 Hc0. rewrite !list_lookup_total_insert_ne by (unfold parent in *; lia).
    eapply le_trans; [apply (Hh i); lia|]. rewrite <- Hpc. apply Hh. lia.
Qed.

(** Popping the last position of a rearranged heap. *)
Lemma pop_last h hd n :
  same_elems h hd → Len h = S n →
  let '(x, h') := heap_Pop hd in
  ok h' ∧ elems hd = elems h' ++ [val hd x] ∧ Len h' = n ∧
  elems h ≡ₚ val hd x :: elems h' ∧ elems hd !!! n = val hd x.
Proof using Type*.
  intros (Hok&Hp&HL) Hn.
  pose proof (heap_Pop_spec hd ltac:(lia)) as He. pose proof (heap_Pop_ok hd Hok ltac:(lia)) as Hok'.
  destruct (heap_Pop hd) as [x h']. simpl in *.
  assert (HL' : Len h' = n).
  { pose proof (Len_spec hd) as Hle. rewrite He, length_app, <- Len_spec in Hle. simpl in Hle. lia. }
  split; [done|]. split; [done|]. split; [done|]. split.
  - rewrite <- Hp, He. apply Permutation_app_comm.
  - rewrite He, lookup_total_app_r by (rewrite <- Len_spec; lia).
    by rewrite <- Len_spec, HL', Nat.sub_diag.
Qed.

(** [heap.Pop] returns a least element and keeps the others, in order. *)
Lemma Pop_correct h :
  ok h → 0 < Len h →
  let '(x, h') := Pop h in
  ∃ hd, same_elems h hd ∧ ok h' ∧ elems h ≡ₚ val hd x :: elems h' ∧
  (heap_ok lt (elems h) (Len h) →
    heap_ok lt (elems h') (Len h') ∧ ∀ y, y ∈ elems h → le lt (val hd x) y).
Proof using Type*.
  intros Hok HL. unfold Pop. set (n := Len h - 1). assert (Hn : Len h = S n) by lia.
  assert (Hs1 : same_elems h (Swap 0 n h)) by (apply same_elems_swap; [done|lia..]).
  pose proof Hs1 as (Ho1&_&HL1).
  assert (Hs2 : same_elems h (down (Swap 0 n h) 0 n)).
  { eapply same_elems_trans; [exact Hs1|]. apply down_fuel_same; [done|lia]. }
  set (hd := down (Swap 0 n h) 0 n) in *.
  pose proof (pop_last h hd n Hs2 Hn) as Hpop. destruct (heap_Pop hd) as [x h'].
  destruct Hpop as (Ho'&He&HL'&Hp&Hlast).
  exists hd. split; [done|]. split; [done|]. split; [done|]. intros Hh.
  assert (Hlen : S n = length (elems h)) by (by rewrite <- Len_spec).
  split.
  - rewrite HL'. apply (heap_ok_app (elems h') [val hd x]); [rewrite <- Len_spec; lia|].
    rewrite <- He. destruct n as [|n]; [intros k Hk; lia|].
    apply down_fuel_ok; [done|lia|lia|]. rewrite Swap_spec by lia.
    split; [|lia]. apply heap_but_swap_last; [lia..|]. by rewrite Hn in Hh.
  - assert (Hroot : val hd x = elems h !!! 0).
    { rewrite <- Hlast. subst hd. unfold down. rewrite down_fuel_above by (done || lia).
      rewrite Swap_spec, swapl_lookup by lia.
      destruct (decide (n = 0)) as [E|]; [by rewrite E|]. by rewrite decide_True. }
    intros y Hy. apply list_elem_of_lookup in Hy as [k Hk].
    pose proof (lookup_lt_Some _ _ _ Hk). apply list_lookup_total_correct in Hk as <-.
    rewrite Hroot. apply (heap_ok_root lt _ (Len h)); [done|lia].
Qed.

(** [heap.Fix] after the element at [i] changed, in a heap otherwise. *)
Lemma Fix_correct h i :
  ok h → i < Len h →
  same_elems h (Fix h i) ∧
  (heap_but lt (elems h) (Len h) i → heap_ok lt (elems (Fix h i)) (Len (Fix h i))).
Proof using Type*.
  intros Hok Hi. unfold Fix.
  assert (Hs : same_elems h (if down_moves h i (Len h) then down h i (Len h) else up h i))
    by (by apply restore_same).
  split; [done|]. intros Hb. destruct Hs as (_&_&->). by apply restore_ok.
Qed.

(** [heap.Remove] takes out the element at [i]. *)
Lemma Remove_correct h i :
  ok h → i < Len h →
  let '(x, h') := Remove h i in
  ∃ hd, same_elems h hd ∧ ok h' ∧ elems h ≡ₚ val hd x :: elems h' ∧ val hd x = elems h !!! i ∧
    (heap_ok lt (elems h) (Len h) → heap_ok lt (elems h') (Len h')).
Proof using Type*.
  intros Hok Hi. unfold Remove. set (n := Len h - 1). assert (Hn : Len h = S n) by lia.
  assert (Hlen : S n = length (elems h)) by (by rewrite <- Len_spec).
  assert (Hfin : ∀ hd, same_elems h hd → elems hd !!! n = elems h !!! i →
    (heap_ok lt (elems h) (Len h) → heap_ok lt (elems hd) n) →
    let '(x, h') := heap_Pop hd in
    ∃ hd, same_elems h hd ∧ ok h' ∧ elems h ≡ₚ val hd x :: elems h' ∧ val hd x = elems h !!! i ∧
      (heap_ok lt (elems h) (Len h) → heap_ok lt (elems h') (Len h'))).
  { intros hd Hs Hv Hh. pose proof (pop_last h hd n Hs Hn) as Hpop. destruct (heap_Pop hd) as [x h'].
    destruct Hpop as (?&He&HL'&?&Hlast). exists hd. repeat (split; [congruence || done|]). intros Hh0.
    rewrite HL'. apply (heap_ok_app (elems h') [val hd x]); [rewrite <- Len_spec; lia|].
    rewrite <- He. auto. }
  destruct (Nat.eqb_spec n i) as [<-|Hni].
  - apply Hfin; [by apply same_elems_refl|done|]. intros Hh. eapply heap_ok_le; [exact Hh|lia].
  - assert (Hs1 : same_elems h (Swap i n h)) by (apply same_elems_swap; [done|lia..]).
    pose proof Hs1 as (Ho1&_&HL1). apply Hfin.
    + eapply same_elems_trans; [exact Hs1|]. apply restore_same; [done|lia..].
    + transitivity (elems (Swap i n h) !!! n).
      * destruct (down_moves _ i n); [unfold down; by apply down_fuel_above; [|lia..]|].
        apply up_fuel_above; [done|lia..].
      * rewrite Swap_spec, swapl_lookup by lia. rewrite (decide_False (P := n = i)) by done.
        by rewrite decide_True.
    + intros Hh. apply restore_ok; [done|lia..|]. rewrite Swap_spec by lia.
      apply heap_but_swap_last; [lia..|]. by rewrite Hn in Hh.
Qed.
End heap_correct.
