(* ===== verification/InodeCache.v ===== *)
(** The metadata cache (internal/fs/cache.go): the [InodeCache] state, its tree
    bookkeeping and dirty tracking, the TTL ring and the size-eviction heap.

    Inodes are shared by pointer ([*Inode]): the FUSE nodes, the map and the
    callers hold the same object. The state has a [store] from locations to
    inodes and the map [inodes] from IDs to locations, so an update through one
    pointer is seen through the others, and an inode the map no longer holds
    can still be updated by who kept its pointer. Each operation takes the
    instant [now] at which it reads the clock. *)

From Stdlib Require Import SpecFloat ZifyNat.
From S2P Require Export Inode Heap.

#[local] Open Scope Z_scope.

(** ** Constants *)

Definition sweepInterval : Duration := Second.
Definition ttlBucketCount : Z := 60.
Definition ttlBucketWidth : Duration := Second.
Definition sizeEvictIdleGrace : Duration := 5 * Second.

(** ** Data *)

Record ttlEntry := mkTtlEntry { ttl_inodeID : string; ttl_expiry : Time }.

(** An entry of the size-eviction heap; [score] is a float64. *)
Record evictionEntry := mkEvictionEntry {
  ee_id : string; ee_score : spec_float; ee_age : Time; ee_generation : Z }.

Record InodeCache := mkInodeCache {
  store : gmap N Inode;
  nextLoc : N;
  inodes : gmap string N;
  hits : Z;
  misses : Z;
  evictions : Z;
  offline : bool;
  maxEntries : Z;
  baseTTL : Duration;
  dirty : gset string;
  deleted : gset string;
  serializedBytes : Z;
  ttlBuckets : list (list ttlEntry);
  lastSweep : Time;
  evictionHeap : list evictionEntry;
  evictionGeneration : gmap string Z;
  cachedFolders : Z;
}.

Definition set_store (v : gmap N Inode) (r : InodeCache) : InodeCache :=
    mkInodeCache v (nextLoc r) (inodes r) (hits r) (misses r) (evictions r) (offline r)
    (maxEntries r) (baseTTL r) (dirty r) (deleted r) (serializedBytes r) (ttlBuckets r)
    (lastSweep r) (evictionHeap r) (evictionGeneration r) (cachedFolders r).
Definition set_nextLoc (v : N) (r : InodeCache) : InodeCache :=
    mkInodeCache (store r) v (inodes r) (hits r) (misses r) (evictions r) (offline r)
    (maxEntries r) (baseTTL r) (dirty r) (deleted r) (serializedBytes r) (ttlBuckets r)
    (lastSweep r) (evictionHeap r) (evictionGeneration r) (cachedFolders r).
Definition set_inodes (v : gmap string N) (r : InodeCache) : InodeCache :=
    mkInodeCache (store r) (nextLoc r) v (hits r) (misses r) (evictions r) (offline r)
    (maxEntries r) (baseTTL r) (dirty r) (deleted r) (serializedBytes r) (ttlBuckets r)
    (lastSweep r) (evictionHeap r) (evictionGeneration r) (cachedFolders r).
Definition set_hits (v : Z) (r : InodeCache) : InodeCache :=
    mkInodeCache (store r) (nextLoc r) (inodes r) v (misses r) (evictions r) (offline r)
    (maxEntries r) (baseTTL r) (dirty r) (deleted r) (serializedBytes r) (ttlBuckets r)
    (lastSweep r) (evictionHeap r) (evictionGeneration r) (cachedFolders r).
Definition set_misses (v : Z) (r : InodeCache) : InodeCache :=
    mkInodeCache (store r) (nextLoc r) (inodes r) (hits r) v (evictions r) (offline r)
    (maxEntries r) (baseTTL r) (dirty r) (deleted r) (serializedBytes r) (ttlBuckets r)
    (lastSweep r) (evictionHeap r) (evictionGeneration r) (cachedFolders r).
Definition set_evictions (v : Z) (r : InodeCache) : InodeCache :=
    mkInodeCache (store r) (nextLoc r) (inodes r) (hits r) (misses r) v (offline r) (maxEntries
    r) (baseTTL r) (dirty r) (deleted r) (serializedBytes r) (ttlBuckets r) (lastSweep r)
    (evictionHeap r) (evictionGeneration r) (cachedFolders r).
Definition set_offline (v : bool) (r : InodeCache) : InodeCache :=
    mkInodeCache (store r) (nextLoc r) (inodes r) (hits r) (misses r) (evictions r) v
    (maxEntries r) (baseTTL r) (dirty r) (deleted r) (serializedBytes r) (ttlBuckets r)
    (lastSweep r) (evictionHeap r) (evictionGeneration r) (cachedFolders r).
Definition set_maxEntries (v : Z) (r : InodeCache) : InodeCache :=
    mkInodeCache (store r) (nextLoc r) (inodes r) (hits r) (misses r) (evictions r) (offline r)
    v (baseTTL r) (dirty r) (deleted r) (serializedBytes r) (ttlBuckets r) (lastSweep r)
    (evictionHeap r) (evictionGeneration r) (cachedFolders r).
Definition set_baseTTL (v : Duration) (r : InodeCache) : InodeCache :=
    mkInodeCache (store r) (nextLoc r) (inodes r) (hits r) (misses r) (evictions r) (offline r)
    (maxEntries r) v (dirty r) (deleted r) (serializedBytes r) (ttlBuckets r) (lastSweep r)
    (evictionHeap r) (evictionGeneration r) (cachedFolders r).
Definition set_dirty (v : gset string) (r : InodeCache) : InodeCache :=
    mkInodeCache (store r) (nextLoc r) (inodes r) (hits r) (misses r) (evictions r) (offline r)
    (maxEntries r) (baseTTL r) v (deleted r) (serializedBytes r) (ttlBuckets r) (lastSweep r)
    (evictionHeap r) (evictionGeneration r) (cachedFolders r).
Definition set_deleted (v : gset string) (r : InodeCache) : InodeCache :=
    mkInodeCache (store r) (nextLoc r) (inodes r) (hits r) (misses r) (evictions r) (offline r)
    (maxEntries r) (baseTTL r) (dirty r) v (serializedBytes r) (ttlBuckets r) (lastSweep r)
    (evictionHeap r) (evictionGeneration r) (cachedFolders r).
Definition set_serializedBytes (v : Z) (r : InodeCache) : InodeCache :=
    mkInodeCache (store r) (nextLoc r) (inodes r) (hits r) (misses r) (evictions r) (offline r)
    (maxEntries r) (baseTTL r) (dirty r) (deleted r) v (ttlBuckets r) (lastSweep r)
    (evictionHeap r) (evictionGeneration r) (cachedFolders r).
Definition set_ttlBuckets (v : list (list ttlEntry)) (r : InodeCache) : InodeCache :=
    mkInodeCache (store r) (nextLoc r) (inodes r) (hits r) (misses r) (evictions r) (offline r)
    (maxEntries r) (baseTTL r) (dirty r) (deleted r) (serializedBytes r) v (lastSweep r)
    (evictionHeap r) (evictionGeneration r) (cachedFolders r).
Definition set_lastSweep (v : Time) (r : InodeCache) : InodeCache :=
    mkInodeCache (store r) (nextLoc r) (inodes r) (hits r) (misses r) (evictions r) (offline r)
    (maxEntries r) (baseTTL r) (dirty r) (deleted r) (serializedBytes r) (ttlBuckets r) v
    (evictionHeap r) (evictionGeneration r) (cachedFolders r).
Definition set_evictionHeap (v : list evictionEntry) (r : InodeCache) : InodeCache :=
    mkInodeCache (store r) (nextLoc r) (inodes r) (hits r) (misses r) (evictions r) (offline r)
    (maxEntries r) (baseTTL r) (dirty r) (deleted r) (serializedBytes r) (ttlBuckets r)
    (lastSweep r) v (evictionGeneration r) (cachedFolders r).
Definition set_evictionGeneration (v : gmap string Z) (r : InodeCache) : InodeCache :=
    mkInodeCache (store r) (nextLoc r) (inodes r) (hits r) (misses r) (evictions r) (offline r)
    (maxEntries r) (baseTTL r) (dirty r) (deleted r) (serializedBytes r) (ttlBuckets r)
    (lastSweep r) (evictionHeap r) v (cachedFolders r).
Definition set_cachedFolders (v : Z) (r : InodeCache) : InodeCache :=
    mkInodeCache (store r) (nextLoc r) (inodes r) (hits r) (misses r) (evictions r) (offline r)
    (maxEntries r) (baseTTL r) (dirty r) (deleted r) (serializedBytes r) (ttlBuckets r)
    (lastSweep r) (evictionHeap r) (evictionGeneration r) v.

(** [NewInodeCache]. *)
Definition NewInodeCache : InodeCache :=
  mkInodeCache ∅ 0%N ∅ 0 0 0 false 2000 (60 * Second) ∅ ∅ 0
    (replicate (Z.to_nat ttlBucketCount) []) zeroTime [] ∅ 0.

Definition zero_Inode : Inode := inode_of_item zero_DriveItem.

(** The object a pointer designates. *)
Definition deref (c : InodeCache) (l : N) : Inode := default zero_Inode (store c !! l).
(** A method of the object at [l]. *)
Definition upd (l : N) (f : Inode → Inode) (c : InodeCache) : InodeCache :=
  set_store (alter f l (store c)) c.
(** [&Inode{...}]. *)
Definition alloc (i : Inode) (c : InodeCache) : N * InodeCache :=
  (nextLoc c, set_nextLoc (nextLoc c + 1)%N (set_store (<[nextLoc c := i]> (store c)) c)).

Definition inodes_Store (id : string) (l : N) (c : InodeCache) : InodeCache :=
  set_inodes (<[id := l]> (inodes c)) c.
Definition inodes_Delete (id : string) (c : InodeCache) : InodeCache :=
  set_inodes (delete id (inodes c)) c.

(** [Get]: a pointer, [None] for nil. *)
Definition Get (c : InodeCache) (id : string) : option N := inodes c !! id.

(** ** Dirty tracking *)

(** [markExclusive set other id]: both resulting sets. *)
Definition markExclusive (set other : gset string) (id : string) : gset string * gset string :=
  ({[id]} ∪ set, other ∖ {[id]}).

Definition markDirty (id : string) (c : InodeCache) : InodeCache :=
  let '(d, del) := markExclusive (dirty c) (deleted c) id in
  set_deleted del (set_dirty d c).

Definition markDeleted (id : string) (c : InodeCache) : InodeCache :=
  let '(del, d) := markExclusive (deleted c) (dirty c) id in
  set_deleted del (set_dirty d c).

(** ** Effective TTL

    [float64(baseTTL) * min(1.0 + float64(accessCount) * 0.5, 20.0)], converted
    back to an int64. The multiplier is a multiple of one half, held here in
    half-units: halving is exact in float64, and the two conversions and the
    sum and product round to 53 bits. A float outside the int64 range converts
    to the smallest int64 (amd64). *)
Definition ttl_halves (accessCount : Z) : Z :=
  let m := round53 (2 + round53 accessCount) in if 40 <? m then 40 else m.

Definition effectiveTTL (base : Duration) (accessCount : Z) : Duration :=
  let d := Z.quot (round53 (round53 base * ttl_halves accessCount)) 2 in
  if (- 2 ^ 63 <=? d) && (d <? 2 ^ 63) then d else - 2 ^ 63.

(** ** TTL ring *)

Definition ttlBucketIndex (expiry : Time) : Z :=
  let index := Z.rem (Unix expiry) ttlBucketCount in
  if index <? 0 then index + ttlBucketCount else index.

Definition registerTTL (l : N) (c : InodeCache) : InodeCache :=
  let i := deref c l in
  if negb (IsChildrenFetched i) then c else
  let ttl := effectiveTTL (baseTTL c) (childrenAccessCount i) in
  let expiry := time_Add (childrenLastAccess i) ttl in
  set_ttlBuckets (alter (λ b, b ++ [mkTtlEntry (ID i) expiry])
                    (Z.to_nat (ttlBucketIndex expiry)) (ttlBuckets c)) c.

(** ** Size-eviction heap *)

Definition float_of_Z (z : Z) : spec_float := binary_normalize 53 1024 z 0 false.

(** [d.Minutes()]: whole minutes plus the rest as a fraction. *)
Definition Minutes (d : Duration) : spec_float :=
  SFadd 53 1024 (float_of_Z (Z.quot d Minute))
    (SFdiv 53 1024 (float_of_Z (Z.rem d Minute)) (float_of_Z Minute)).

(** [sizeScore]: accessCount / (minutesSinceLastAccess + 1). *)
Definition sizeScore (i : Inode) (now : Time) : spec_float :=
  let m := Minutes (time_Sub now (childrenLastAccess i)) in
  SFdiv 53 1024 (float_of_Z (childrenAccessCount i)) (SFadd 53 1024 m (float_of_Z 1)).

(** [less]: lowest score first; the oldest on a tie. *)
Definition less (a b : evictionEntry) : bool :=
  if SFeqb (ee_score a) (ee_score b) then time_Before (ee_age a) (ee_age b)
  else SFltb (ee_score a) (ee_score b).

Definition zero_entry : evictionEntry := mkEvictionEntry "" (S754_zero false) zeroTime 0.
#[global] Instance evictionEntry_inhabited : Inhabited evictionEntry := populate zero_entry.

(** [evictionHeap] as a [heap.Interface]. *)
#[global] Instance evictionHeap_heap : HeapInterface (list evictionEntry) evictionEntry := {
  Len h := length h;
  Less h i j := less (h !!! i) (h !!! j);
  Swap i j h := <[i := h !!! j]> (<[j := h !!! i]> h);
  heap_Push x h := h ++ [x];
  heap_Pop h := (h !!! (length h - 1)%nat, take (length h - 1) h);
}.

Definition updateEvictionEntry (l : N) (now : Time) (c : InodeCache) : InodeCache :=
  let i := deref c l in
  if negb (IsChildrenFetched i) then c else
  let generation := u64 (default 0 (evictionGeneration c !! ID i) + 1) in
  set_evictionHeap
    (Push (evictionHeap c)
       (mkEvictionEntry (ID i) (sizeScore i now) (childrenCachedAt i) generation))
    (set_evictionGeneration (<[ID i := generation]> (evictionGeneration c)) c).

(** ** Parent and children bookkeeping *)

Definition containsID (ids : list string) (id : string) : bool := bool_decide (id ∈ ids).

Definition attach (childID : string) (childIsDir seedNilChildren : bool) (p : Inode) : Inode :=
  let p :=
    if IsChildrenFetched p || seedNilChildren then
      let ids := default [] (children p) in
      if containsID ids childID then p else set_children (Some (ids ++ [childID])) p
    else p in
  if childIsDir then set_subdir (u32 (subdir p + 1)) p else p.
Definition attachChild (parent : N) (childID : string) (childIsDir seedNilChildren : bool) :
    InodeCache → InodeCache :=
  upd parent (attach childID childIsDir seedNilChildren).

Definition detach (childID : string) (childIsDir : bool) (p : Inode) : Inode :=
  let p := set_children (filter (λ id, id ≠ childID) <$> children p) p in
  if childIsDir && (0 <? subdir p) then set_subdir (subdir p - 1) p else p.
Definition detachChild (parent : N) (childID : string) (childIsDir : bool) :
    InodeCache → InodeCache :=
  upd parent (detach childID childIsDir).

Definition addCached (n : Z) (c : InodeCache) : InodeCache :=
  set_cachedFolders (cachedFolders c + n) c.

(** A population: the folder enters the TTL ring and the heap, and counts as
    cached. Shared by the operations that may seed an evicted folder. *)
Definition attachSeeding (now : Time) (parent : N) (childID : string) (childIsDir : bool)
    (c : InodeCache) : InodeCache :=
  let wasFetched := IsChildrenFetched (deref c parent) in
  let c := attachChild parent childID childIsDir true c in
  if negb wasFetched && IsChildrenFetched (deref c parent)
  then addCached 1 (updateEvictionEntry parent now (registerTTL parent c))
  else c.

(** ** Basic operations *)

(** [Insert inode]; the argument is a pointer, maybe nil. *)
Definition Insert (now : Time) (inode : option N) (c : InodeCache) : InodeCache :=
  match inode with
  | None => c
  | Some l =>
      let i := deref c l in
      let c := markDirty (ID i) (inodes_Store (ID i) l c) in
      let parentID := ParentID i in
      if bool_decide (parentID = "") then c else
      match Get c parentID with
      | Some p => markDirty parentID (attachSeeding now p (ID i) (IsDir i) c)
      | None => c
      end
  end.

Definition Delete (id : string) (c : InodeCache) : InodeCache :=
  match Get c id with
  | None => c
  | Some l =>
      let i := deref c l in
      let parentID := ParentID i in
      let c :=
        if bool_decide (parentID = "") then c else
        match Get c parentID with
        | Some p => detachChild p id (IsDir i) c
        | None => c
        end in
      let c := if IsChildrenFetched (deref c l) then addCached (-1) c else c in
      let c := markDeleted id (inodes_Delete id c) in
      if bool_decide (parentID = "") then c else markDirty parentID c
  end.

Definition InsertChild (parentID : string) (child : option N) (c : InodeCache) : InodeCache :=
  match child with
  | None => c
  | Some l =>
      let c := inodes_Store (ID (deref c l)) l c in
      let c := upd l (SetParentID parentID) c in
      let i := deref c l in
      let c :=
        match Get c parentID with
        | Some p => markDirty parentID (attachChild p (ID i) (IsDir i) false c)
        | None => c
        end in
      markDirty (ID i) c
  end.

Definition RemoveChild (parentID childID : string) (c : InodeCache) : InodeCache :=
  match Get c childID with
  | None => c
  | Some l =>
      let c :=
        match Get c parentID with
        | Some p => detachChild p childID (IsDir (deref c l)) c
        | None => c
        end in
      let c := markDeleted childID (inodes_Delete childID c) in
      if bool_decide (parentID = "") then c else markDirty parentID c
  end.

(** Replace the first occurrence of [old] (the loop with [break] of MoveID). *)
Fixpoint replace_first (old new : string) (ids : list string) : list string :=
  match ids with
  | [] => []
  | id :: ids => if decide (id = old) then new :: ids else id :: replace_first old new ids
  end.

Definition MoveID (oldID newID : string) (c : InodeCache) : InodeCache :=
  match Get c oldID with
  | None => c
  | Some l =>
      let c := upd l (SetID newID) c in
      let c := inodes_Delete oldID (inodes_Store newID l c) in
      let c := if bool_decide (oldID = newID) then c else markDeleted oldID c in
      let c := markDirty newID c in
      let parentID := ParentID (deref c l) in
      if bool_decide (parentID = "") then c else
      match Get c parentID with
      | Some p =>
          markDirty parentID
            (upd p (λ i, set_children (replace_first oldID newID <$> children i) i) c)
      | None => c
      end
  end.

Definition MoveChild (now : Time) (oldParentID newParentID childID : string) (c : InodeCache) :
    InodeCache :=
  match Get c childID with
  | None => c
  | Some l =>
      let c :=
        match Get c oldParentID with
        | Some p => detachChild p childID (IsDir (deref c l)) c
        | None => c
        end in
      let c :=
        match Get c newParentID with
        | Some p => markDirty newParentID (attachSeeding now p childID (IsDir (deref c l)) c)
        | None => c
        end in
      markDirty childID c
  end.

(** ** Invalidation *)

Definition Invalidate (now : Time) (parentID : string) (c : InodeCache) : InodeCache :=
  match Get c parentID with
  | None => c
  | Some p =>
      let c := if IsChildrenFetched (deref c p) then addCached (-1) c else c in
      markDirty parentID (upd p (SetChildren now None) c)
  end.

(** [Range]: the callback on each entry, in an order [sync.Map] leaves open. *)
Definition inodes_Range (f : N → InodeCache → InodeCache) (c : InodeCache) : InodeCache :=
  foldr (λ kl c, f kl.2 c) c (map_to_list (inodes c)).

Definition invalidate_one (now : Time) (l : N) (c : InodeCache) : InodeCache :=
  if HasChildren (deref c l) then
    let c := addCached (-1) (upd l (SetChildren now None) c) in
    markDirty (ID (deref c l)) c
  else c.
Definition InvalidateAll (now : Time) (c : InodeCache) : InodeCache :=
  inodes_Range (invalidate_one now) c.

(** ** Configuration, statistics, offline mode *)

Definition SetBaseTTL (ttl : Duration) (c : InodeCache) : InodeCache := set_baseTTL ttl c.
Definition SetMaxEntries (n : Z) (c : InodeCache) : InodeCache := set_maxEntries n c.
Definition SetOffline (v : bool) (c : InodeCache) : InodeCache := set_offline v c.
Definition IsOffline (c : InodeCache) : bool := offline c.

Record InodeCacheStats := mkInodeCacheStats {
  InodeCount : Z; Hits : Z; Misses : Z; Evictions : Z }.
Definition Stats (c : InodeCache) : InodeCacheStats :=
  mkInodeCacheStats (Z.of_nat (size (inodes c))) (hits c) (misses c) (evictions c).

(** ** Eviction sweeps *)

(** The eviction of one folder's list, shared by the TTL and size sweeps. *)
Definition evict_one (l : N) (c : InodeCache) : InodeCache :=
  addCached (-1) (set_evictions (u64 (evictions c + 1)) (upd l EvictChildren c)).

(** The callback of [evictExpiredChildrenFullScan]. *)
Definition fullScan_one (now : Time) (l : N) (c : InodeCache) : InodeCache :=
  if negb (IsChildrenFetched (deref c l)) then c else
  let c := upd l DecayChildrenAccess c in
  let i := deref c l in
  let ttl := effectiveTTL (baseTTL c) (childrenAccessCount i) in
  if time_After now (time_Add (childrenLastAccess i) ttl) then evict_one l c else c.

Definition evictExpiredChildrenFullScan (now : Time) (c : InodeCache) : InodeCache :=
  inodes_Range (fullScan_one now) c.

(** [processTTLEntry]; [processed] is the map of IDs already handled. *)
Definition processTTLEntry (now : Time) (entry : ttlEntry) (s : InodeCache * gset string) :
    InodeCache * gset string :=
  let '(c, processed) := s in
  match Get c (ttl_inodeID entry) with
  | None => (c, processed)
  | Some l =>
      if negb (IsChildrenFetched (deref c l)) then (c, processed) else
      if bool_decide (ttl_inodeID entry ∈ processed) then (c, processed) else
      let processed := {[ttl_inodeID entry]} ∪ processed in
      let c := upd l DecayChildrenAccess c in
      let i := deref c l in
      let ttl := effectiveTTL (baseTTL c) (childrenAccessCount i) in
      if negb (time_After now (time_Add (childrenLastAccess i) ttl))
      then (registerTTL l c, processed)
      else (evict_one l c, processed)
  end.

Definition sweepBucket (index : Z) (now : Time) (s : InodeCache * gset string) :
    InodeCache * gset string :=
  let '(c, processed) := s in
  let entries := default [] (ttlBuckets c !! Z.to_nat index) in
  let c := set_ttlBuckets (<[Z.to_nat index := []]> (ttlBuckets c)) c in
  foldl (λ s e, processTTLEntry now e s) (c, processed) entries.

Definition sweepExpiredBucket (now : Time) (c : InodeCache) : InodeCache :=
  (sweepBucket (ttlBucketIndex now) now (c, ∅)).1.

(** The loop over the seconds after the last sweep. At most 60 turns are made
    when it is entered (see [sweep_loop_enough]). *)
Fixpoint sweep_loop (fuel : nat) (t now : Time) (s : InodeCache * gset string) :
    InodeCache * gset string :=
  match fuel with
  | O => s
  | S fuel =>
      if time_After t now then s else
      sweep_loop fuel (time_Add t ttlBucketWidth) now (sweepBucket (ttlBucketIndex t) now s)
  end.

Definition sweepExpiredBuckets (now : Time) (c : InodeCache) : InodeCache :=
  let start := if IsZero (lastSweep c) then time_Add now (- ttlBucketWidth) else lastSweep c in
  let s :=
    if ttlBucketCount * ttlBucketWidth <? time_Sub now start
    then foldl (λ s i, sweepBucket i now s) (c, ∅) (seqZ 0 ttlBucketCount)
    else sweep_loop 60 (time_Add start ttlBucketWidth) now (c, ∅) in
  set_lastSweep now s.1.

(** [sizeEvictable] of the inode a lookup found, maybe nil. *)
Definition sizeEvictable (i : option Inode) (now : Time) : bool :=
  match i with
  | None => false
  | Some i =>
      if negb (IsChildrenFetched i) then false
      else sizeEvictIdleGrace <=? time_Sub now (childrenLastAccess i)
  end.

(** The loop of [popEvictionCandidate]; each turn pops one entry. *)
Fixpoint popEvictionCandidate_loop (fuel : nat) (c : InodeCache) : option string * InodeCache :=
  match fuel with
  | O => (None, c)
  | S fuel =>
      if decide (Len (evictionHeap c) = 0%nat) then (None, c) else
      let '(entry, h) := Pop (evictionHeap c) in
      let c := set_evictionHeap h c in
      if negb (ee_generation entry =? default 0 (evictionGeneration c !! ee_id entry))
      then popEvictionCandidate_loop fuel c else
      match Get c (ee_id entry) with
      | None => popEvictionCandidate_loop fuel c
      | Some l =>
          if negb (IsChildrenFetched (deref c l)) then popEvictionCandidate_loop fuel c
          else (Some (ee_id entry), c)
      end
  end.
Definition popEvictionCandidate (c : InodeCache) : option string * InodeCache :=
  popEvictionCandidate_loop (S (Len (evictionHeap c))) c.

(** The loop of [popEvictableCandidate]: an active candidate is pushed back and
    ends the pass. *)
Fixpoint popEvictableCandidate_loop (fuel : nat) (now : Time) (c : InodeCache) :
    option (string * spec_float) * InodeCache :=
  match fuel with
  | O => (None, c)
  | S fuel =>
      if decide (Len (evictionHeap c) = 0%nat) then (None, c) else
      let '(entry, h) := Pop (evictionHeap c) in
      let c := set_evictionHeap h c in
      if negb (ee_generation entry =? default 0 (evictionGeneration c !! ee_id entry))
      then popEvictableCandidate_loop fuel now c else
      match Get c (ee_id entry) with
      | None => popEvictableCandidate_loop fuel now c
      | Some l =>
          if negb (IsChildrenFetched (deref c l)) then popEvictableCandidate_loop fuel now c
          else if negb (sizeEvictable (Some (deref c l)) now)
          then (None, set_evictionHeap (Push (evictionHeap c) entry) c)
          else (Some (ee_id entry, ee_score entry), c)
      end
  end.
Definition popEvictableCandidate (now : Time) (c : InodeCache) :
    option (string * spec_float) * InodeCache :=
  popEvictableCandidate_loop (S (Len (evictionHeap c))) now c.

(** The loop of [evictChildrenBySizeLimit] for [toRemove] turns. *)
Fixpoint sizeLimit_loop (toRemove : nat) (now : Time) (c : InodeCache) : InodeCache :=
  match toRemove with
  | O => c
  | S n =>
      match popEvictableCandidate now c with
      | (None, c) => c
      | (Some (id, _), c) =>
          match Get c id with
          | None => sizeLimit_loop n now c
          | Some l => sizeLimit_loop n now (evict_one l c)
          end
      end
  end.

Definition evictChildrenBySizeLimit (now : Time) (c : InodeCache) : InodeCache :=
  if maxEntries c <=? 0 then c else
  if cachedFolders c <=? maxEntries c then c else
  sizeLimit_loop (Z.to_nat (cachedFolders c - maxEntries c)) now c.

(** [sweep] (and [ForceSweep]): TTL first, then size. *)
Definition sweep (now : Time) (c : InodeCache) : InodeCache :=
  evictChildrenBySizeLimit now (sweepExpiredBuckets now c).

(** ** Listing a folder *)

(** The world outside the cache: its clock. A [ChildrenFetcher] queries Graph;
    while it runs, the clock moves and other goroutines may use the cache, so
    it takes and returns both. *)
Class Clock (W : Type) := w_now : W → Time.

Definition ChildrenFetcher (W : Type) : Type :=
  string → SE (W * InodeCache) error (list DriveItem).

Section children.
Context {W : Type} `{Clock W}.

(** [isChildrenFresh]: the age is counted from the population. *)
Definition isChildrenFresh (now : Time) (c : InodeCache) (i : Inode) : bool :=
  time_Sub now (childrenCachedAt i) <? effectiveTTL (baseTTL c) (childrenAccessCount i).

(** The condition of a cache hit: the folder is cached, listed and fresh. *)
Definition fresh_listing (now : Time) (c : InodeCache) (parent : option N) : option N :=
  p ← parent;
  if IsChildrenFetched (deref c p) && isChildrenFresh now c (deref c p) then Some p else None.

(** [buildChildMap]: name to pointer; the last of two equal names wins. *)
Definition buildChildMap (c : InodeCache) (ids : list string) : gmap string N :=
  foldl (λ m id, match Get c id with Some l => <[Name (deref c l) := l]> m | None => m end) ∅ ids.

(** One turn of the population loop of [getChildren]: the child IDs and the
    child map grow with the new inode. *)
Definition populate_one (parentID : string) (dirtying : bool)
    (s : InodeCache * list string * gmap string N) (item : DriveItem) :
    InodeCache * list string * gmap string N :=
  let '(c, ids, m) := s in
  let i := inode_of_item item in
  let i := if bool_decide (ParentID i = "") then SetParentID parentID i else i in
  let '(l, c) := alloc i c in
  let c := inodes_Store (ID i) l c in
  let c := if dirtying then markDirty (ID i) c else c in
  (c, ids ++ [ID i], <[Name i := l]> m).

Definition count_dirs (c : InodeCache) (m : gmap string N) : Z :=
  u32 (Z.of_nat (length (filter (λ kl, IsDir (deref c kl.2) = true) (map_to_list m)))).

(** The population of [parent] (nil when it was not cached) with the fetched
    items, at the instant [now]. *)
Definition populate_children (now : Time) (parentID : string) (parent : option N)
    (dirtying : bool) (items : list DriveItem) (c : InodeCache) :
    gmap string N * InodeCache :=
  let '(c, childIDs, childMap) := foldl (populate_one parentID dirtying) (c, [], ∅) items in
  let '(p, c) :=
    match parent with
    | Some p => (p, c)
    | None =>
        let item := set_item_Folder (Some zero_Folder)
                      (set_item_Name parentID (set_item_ID parentID zero_DriveItem)) in
        let '(p, c) := alloc (inode_of_item item) c in (p, inodes_Store parentID p c)
    end in
  let wasFetched := IsChildrenFetched (deref c p) in
  let c := upd p (SetChildren now (Some childIDs)) c in
  let c := upd p (BumpChildrenAccess now) c in
  let c := updateEvictionEntry p now (registerTTL p c) in
  let c := if wasFetched then c else addCached 1 c in
  let c := if dirtying then markDirty parentID c else c in
  (childMap, upd p (SetSubdir (count_dirs c childMap)) c).

Definition getChildren (parentID : string) (fetch : option (ChildrenFetcher W))
    (dirtying : bool) : SE (W * InodeCache) error (gmap string N) := λ '(w, c),
  let parent := Get c parentID in
  match fresh_listing (w_now w) c parent with
  | Some p =>
      let c := set_hits (u64 (hits c + 1)) c in
      let c := upd p (BumpChildrenAccess (w_now w)) c in
      let c := updateEvictionEntry p (w_now w) (registerTTL p c) in
      (inr (buildChildMap c (default [] (children (deref c p)))), (w, c))
  | None =>
      let c := set_misses (u64 (misses c + 1)) c in
      match fetch with
      | None =>
          (inl (EMsg ("cache miss for " +:+ Quote parentID
                      +:+ " and no fetcher available (test without mock?)")), (w, c))
      | Some fetch =>
          match fetch parentID (w, c) with
          | (inl e, s) => (inl e, s)
          | (inr items, (w, c)) =>
              let '(childMap, c) := populate_children (w_now w) parentID parent dirtying items c in
              (inr childMap, (w, c))
          end
      end
  end.

Definition GetChildren (parentID : string) (fetch : option (ChildrenFetcher W)) :=
  getChildren parentID fetch true.
Definition PrefetchChildren (parentID : string) (fetch : option (ChildrenFetcher W)) :=
  getChildren parentID fetch false.

Local Open Scope go_scope.

(** [GetChild]: nil when the folder has no child of that name. *)
Definition GetChild (parentID name : string) (fetch : option (ChildrenFetcher W)) :
    SE (W * InodeCache) error (option N) :=
  let* children := GetChildren parentID fetch in se_ret (children !! name).

Definition ErrIsRoot : error := ESentinel "the root has no representation in InodeCache".

(** The loop of [GetPath] over the components. *)
Fixpoint GetPath_loop (components : list string) (currentID : string)
    (fetch : option (ChildrenFetcher W)) : SE (W * InodeCache) error N :=
  match components with
  | [] => se_fail (EWrap "" (EErrno ENOENT) ": empty path after cleaning")
  | name :: rest =>
      if bool_decide (name = "") || bool_decide (name = ".")
      then GetPath_loop rest currentID fetch
      else
        try* r := GetChildren currentID fetch in
        match r with
        | inl e => se_fail (EWrap ("navigating " +:+ Quote name +:+ " in " +:+ Quote currentID
                                   +:+ ": ") e "")
        | inr children =>
            match children !! name with
            | None => se_fail (EWrap "" (EErrno ENOENT)
                        (": " +:+ Quote name +:+ " not found in " +:+ Quote currentID))
            | Some child =>
                if bool_decide (rest = []) then se_ret child else
                let* s := se_get in
                if negb (IsDir (deref s.2 child))
                then se_fail (EWrap "" (EErrno ENOTDIR) (": " +:+ Quote name +:+ " is not a folder"))
                else GetPath_loop rest (ID (deref s.2 child)) fetch
            end
        end
  end.

Definition GetPath (path : string) (fetch : option (ChildrenFetcher W)) :
    SE (W * InodeCache) error N :=
  let path := Trim path "/"%char in
  if bool_decide (path = "") || bool_decide (path = ".") then se_fail ErrIsRoot
  else GetPath_loop (Split path "/"%char) "root" fetch.
End children.

(** [ItemsByParent]: the cached items whose parent is [parentID]. *)
Definition ItemsByParent (parentID : string) (c : InodeCache) : list DriveItem :=
  omap (λ kl, let i := deref c kl.2 in
              if bool_decide (ParentID i = parentID) then Some (DriveItem_of i) else None)
    (map_to_list (inodes c)).
