(* ===== verification/CacheProofs.v ===== *)
(** The theorems about the metadata cache: the order and the laws of the
    eviction heap, the invariant every operation keeps, the sweeps, listing
    and path resolution. *)

From Stdlib Require Import SpecFloat ZifyNat.
From S2P Require Export InodeCache.

#[local] Open Scope Z_scope.

(** ** The order of the eviction heap

    Scores that are numbers compare as the tuples (sign class, exponent,
    mantissa); the age breaks ties. *)
Definition ordkey : Type := (Z * Z) * (Z * Z).

Definition score_key (f : spec_float) : Z * Z * Z :=
  match f with
  | S754_zero _ | S754_nan => (0, 0, 0)
  | S754_infinity s => (if s then -2 else 2, 0, 0)
  | S754_finite false m e => (1, e, Z.pos m)
  | S754_finite true m e => (-1, - e, - Z.pos m)
  end.
Definition entry_key (e : evictionEntry) : ordkey :=
  let '(a, b, c) := score_key (ee_score e) in ((a, b), (c, ee_age e)).

Definition key_lt (x y : evictionEntry * ordkey) : bool :=
  let '((a1, a2), (a3, a4)) := x.2 in
  let '((b1, b2), (b3, b4)) := y.2 in
  (a1 <? b1) || (a1 =? b1) && ((a2 <? b2) || (a2 =? b2) && ((a3 <? b3) ||
    (a3 =? b3) && (a4 <? b4))).

#[global] Instance key_lt_StrictWeak : StrictWeak key_lt.
Proof.
  split.
  - intros [? [[a1 a2] [a3 a4]]] [? [[b1 b2] [b3 b4]]]. unfold key_lt. simpl. intros. lia.
  - intros [? [[a1 a2] [a3 a4]]] [? [[b1 b2] [b3 b4]]] [? [[c1 c2] [c3 c4]]].
    unfold key_lt. simpl. intros. lia.
Qed.

(** A score that is a number. *)
Definition is_num (f : spec_float) : Prop := f ≠ S754_nan.

Lemma less_key a b :
  is_num (ee_score a) → is_num (ee_score b) →
  less a b = key_lt (a, entry_key a) (b, entry_key b).
Proof.
  intros Ha Hb. unfold less, key_lt, entry_key, SFeqb, SFltb, time_Before, SFcompare. simpl.
  destruct (ee_score a) as [[]|[]| |[] m1 e1], (ee_score b) as [[]|[]| |[] m2 e2];
    try (by destruct Ha); try (by destruct Hb); simpl; try lia;
    change (Pos.compare_cont Eq m1 m2) with (Pos.compare m1 m2);
    destruct (Z.compare_spec e1 e2); subst; try lia;
    destruct (Pos.compare_spec m1 m2); subst; simpl; rewrite ?Pos.eqb_refl;
    try destruct (Pos.eqb_spec m1 m2); subst; lia.
Qed.

(** Every score in the heap is a number. *)
Definition heap_num (h : list evictionEntry) : Prop := Forall (λ e, is_num (ee_score e)) h.

#[global] Instance evictionHeap_laws :
  HeapLaws (list evictionEntry) evictionEntry (evictionEntry * ordkey) heap_num
    (fmap (λ e, (e, entry_key e))) (λ _ e, (e, entry_key e)) key_lt.
Proof.
  assert (Hl : ∀ (h : list evictionEntry) i, (i < length h)%nat →
    ((λ e, (e, entry_key e)) <$> h) !!! i = (h !!! i, entry_key (h !!! i))).
  { intros h i Hi. by rewrite (list_lookup_total_fmap (λ e, (e, entry_key e))). }
  split.
  - intros h. simpl. by rewrite length_fmap.
  - simpl. intros h i j Hh Hi Hj. rewrite !Hl by done.
    unfold heap_num in Hh. rewrite Forall_forall in Hh.
    apply less_key; apply Hh; apply list_elem_of_lookup_total_2; done.
  - simpl. intros h i j Hh Hi Hj. unfold heap_num in *. rewrite Forall_forall in *.
    intros e He. apply Hh. by rewrite <- (swapl_perm i j h Hi Hj).
  - simpl. intros h i j Hi Hj. unfold swapl. by rewrite !list_fmap_insert, !Hl.
  - simpl. intros h x. by rewrite fmap_app.
  - simpl. intros h Hh _. by apply Forall_take.
  - simpl. intros h Hlen. etrans; [|apply (fmap_app (λ e, (e, entry_key e)) (take _ h) [h !!! (length h - 1)%nat])].
    f_equal. rewrite <- (take_drop (length h - 1) h) at 1. f_equal.
    rewrite (drop_S h (h !!! (length h - 1)%nat)) by (apply list_lookup_lookup_total_lt; lia).
    f_equal. rewrite drop_ge by lia. done.
Qed.

(** ** The invariant of the cache *)

(** A pointer to an allocated inode. *)
Definition valid (c : InodeCache) (l : N) : Prop := is_Some (store c !! l).

(** What holds whoever changes an inode in place. *)
Record cache_ok (c : InodeCache) : Prop := {
  ok_map : ∀ id l, inodes c !! id = Some l → valid c l;
  ok_fresh : ∀ l, valid c l → (l < nextLoc c)%N;
  (** An ID is never to be both rewritten and removed on disk. *)
  ok_disj : dirty c ## deleted c;
  (** The ring has its 60 buckets, and an entry is in the bucket of its expiry. *)
  ok_ring_len : length (ttlBuckets c) = Z.to_nat ttlBucketCount;
  ok_ring : ∀ k b e, ttlBuckets c !! k = Some b → e ∈ b →
    ttlBucketIndex (ttl_expiry e) = Z.of_nat k;
}.
(** And the map leads each ID to an inode of that ID. *)
Record cache_wf (c : InodeCache) : Prop := {
  wf_ok : cache_ok c;
  wf_ids : ∀ id l i, inodes c !! id = Some l → store c !! l = Some i → ID i = id;
}.

Lemma wf_map c : cache_wf c → ∀ id l, inodes c !! id = Some l → ∃ i, store c !! l = Some i ∧ ID i = id.
Proof. intros [Hok Hids] id l Hl. destruct (ok_map _ Hok _ _ Hl) as [i Hi]. eauto. Qed.
Lemma wf_fresh c : cache_wf c → ∀ l, valid c l → (l < nextLoc c)%N.
Proof. intros Hc. apply ok_fresh, Hc. Qed.
Lemma wf_disj c : cache_wf c → dirty c ## deleted c.
Proof. intros Hc. apply ok_disj, Hc. Qed.
Lemma wf_ring_len c : cache_wf c → length (ttlBuckets c) = Z.to_nat ttlBucketCount.
Proof. intros Hc. apply ok_ring_len, Hc. Qed.

Lemma wf_new : cache_wf NewInodeCache.
Proof.
  split; [split|]; try done.
  - by intros l [i Hi].
  - intros k b e Hk Hb. apply lookup_replicate in Hk as [-> _]. by apply elem_of_nil in Hb.
Qed.

Lemma ttlBucketIndex_range t : 0 ≤ ttlBucketIndex t < ttlBucketCount.
Proof.
  unfold ttlBucketIndex, ttlBucketCount. cbn zeta.
  pose proof (Z.rem_bound_abs (Unix t) 60 ltac:(lia)).
  destruct (Z.ltb_spec (Z.rem (Unix t) 60) 0); lia.
Qed.

Lemma deref_upd_eq c l f : valid c l → deref (upd l f c) l = f (deref c l).
Proof. intros [i Hi]. unfold deref, upd. simpl. by rewrite lookup_alter_eq, Hi. Qed.
Lemma deref_upd_ne c l l' f : l ≠ l' → deref (upd l f c) l' = deref c l'.
Proof. intros. unfold deref, upd. simpl. by rewrite lookup_alter_ne. Qed.
Lemma valid_upd c l f l' : valid (upd l f c) l' ↔ valid c l'.
Proof. unfold valid, upd. simpl. apply lookup_alter_is_Some. Qed.
Lemma deref_valid c l i : store c !! l = Some i → deref c l = i.
Proof. unfold deref. by intros ->. Qed.

(** [markExclusive] keeps two sets disjoint. *)
Lemma disjoint_mark (a b : gset string) id : a ## b → {[id]} ∪ a ## b ∖ {[id]}.
Proof. set_solver. Qed.
Lemma disjoint_mark_sym (a b : gset string) id : a ## b → a ∖ {[id]} ## {[id]} ∪ b.
Proof. set_solver. Qed.

Section wf_preserved.
Implicit Types c : InodeCache.

Lemma wf_inj c id id' l :
  cache_wf c → inodes c !! id = Some l → inodes c !! id' = Some l → id = id'.
Proof.
  intros Hc H1 H2. destruct (wf_map _ Hc _ _ H1) as (i&?&<-), (wf_map _ Hc _ _ H2) as (i'&?&<-).
  congruence.
Qed.

Lemma wf_get c id l : cache_wf c → Get c id = Some l → valid c l ∧ ID (deref c l) = id.
Proof.
  intros Hc Hl. destruct (wf_map _ Hc _ _ Hl) as (i&Hi&<-).
  split; [by eexists|by rewrite (deref_valid _ _ _ Hi)].
Qed.

(** An update through a pointer, that keeps the ID. *)
Lemma ok_upd c l f : cache_ok c → cache_ok (upd l f c).
Proof.
  intros Hc. split; try apply Hc.
  - intros id l' Hl. apply valid_upd. by apply (ok_map _ Hc id).
  - intros l' Hl. apply (ok_fresh _ Hc). by apply valid_upd in Hl.
Qed.
Lemma wf_upd c l f : (∀ i, ID (f i) = ID i) → cache_wf c → cache_wf (upd l f c).
Proof.
  intros Hf Hc. split; [apply ok_upd, Hc|]. intros id l' i Hl. unfold upd. simpl.
  destruct (decide (l = l')) as [->|]; [|rewrite lookup_alter_ne by done; by apply Hc].
  rewrite lookup_alter_eq. intros (i' & Hi & ->)%fmap_Some. rewrite Hf. by eapply (wf_ids _ Hc).
Qed.

Lemma valid_alloc c i l : valid c l → valid (alloc i c).2 l.
Proof.
  unfold valid. simpl. intros [i' Hi]. destruct (decide (nextLoc c = l)) as [->|].
  - rewrite lookup_insert_eq. eauto.
  - rewrite lookup_insert_ne by done. eauto.
Qed.
Lemma ok_alloc c i : cache_ok c → cache_ok (alloc i c).2.
Proof.
  intros Hc. split; simpl; try apply Hc.
  - intros id l Hl. apply (valid_alloc c i). by apply (ok_map _ Hc id).
  - intros l [i' Hi]. simpl in Hi. destruct (decide (l = nextLoc c)) as [->|]; [lia|].
    rewrite lookup_insert_ne in Hi by done. pose proof (ok_fresh _ Hc l ltac:(by eexists)). lia.
Qed.
Lemma wf_alloc c i : cache_wf c → cache_wf (alloc i c).2.
Proof.
  intros Hc. split; [apply ok_alloc, Hc|]. simpl. intros id l i' Hl.
  pose proof (ok_fresh _ (wf_ok _ Hc) l (ok_map _ (wf_ok _ Hc) _ _ Hl)).
  rewrite lookup_insert_ne by lia. by apply Hc.
Qed.
Lemma alloc_spec c i :
  valid (alloc i c).2 (alloc i c).1 ∧ deref (alloc i c).2 (alloc i c).1 = i.
Proof. unfold valid, deref. simpl. rewrite lookup_insert_eq. eauto. Qed.
Lemma deref_alloc_old c i l : cache_wf c → valid c l → deref (alloc i c).2 l = deref c l.
Proof.
  intros Hc Hl. apply (wf_fresh _ Hc) in Hl. unfold deref. simpl.
  by rewrite lookup_insert_ne by lia.
Qed.

Lemma ok_inodes_Store c id l : valid c l → cache_ok c → cache_ok (inodes_Store id l c).
Proof.
  intros Hl Hc. split; simpl; try apply Hc.
  intros id' l' [[_ <-]|[_ Hl']]%lookup_insert_Some; [exact Hl|by apply (ok_map _ Hc id')].
Qed.
Lemma wf_inodes_Store c l : valid c l → cache_wf c → cache_wf (inodes_Store (ID (deref c l)) l c).
Proof.
  intros Hl Hc. split; [by apply ok_inodes_Store, Hc|]. simpl. intros id l' i Hl' Hi.
  apply lookup_insert_Some in Hl' as [[<- <-]|[_ Hl']]; [by rewrite (deref_valid _ _ _ Hi)|by eapply (wf_ids _ Hc)].
Qed.
Lemma ok_inodes_Delete c id : cache_ok c → cache_ok (inodes_Delete id c).
Proof.
  intros Hc. split; simpl; try apply Hc.
  intros id' l. rewrite lookup_delete_Some. intros [_ ?]. by apply (ok_map _ Hc id').
Qed.
Lemma wf_inodes_Delete c id : cache_wf c → cache_wf (inodes_Delete id c).
Proof.
  intros Hc. split; [apply ok_inodes_Delete, Hc|]. simpl. intros id' l i. rewrite lookup_delete_Some. intros [_ ?].
  by apply (wf_ids _ Hc).
Qed.

(** A change of the other fields keeps the IDs. *)
Lemma wf_of_ok c c' : inodes c' = inodes c → store c' = store c → (cache_ok c → cache_ok c') → cache_wf c → cache_wf c'.
Proof. intros E1 E2 Hok Hc. split; [apply Hok, Hc|]. rewrite E1, E2. apply Hc. Qed.

Lemma ok_markDirty c id : cache_ok c → cache_ok (markDirty id c).
Proof. intros Hc. split; simpl; try apply Hc. apply disjoint_mark, Hc. Qed.
Lemma ok_markDeleted c id : cache_ok c → cache_ok (markDeleted id c).
Proof. intros Hc. split; simpl; try apply Hc. apply disjoint_mark_sym, Hc. Qed.
Lemma wf_markDirty c id : cache_wf c → cache_wf (markDirty id c).
Proof. by apply wf_of_ok, ok_markDirty. Qed.
Lemma wf_markDeleted c id : cache_wf c → cache_wf (markDeleted id c).
Proof. by apply wf_of_ok, ok_markDeleted. Qed.

Lemma ok_registerTTL c l : cache_ok c → cache_ok (registerTTL l c).
Proof.
  intros Hc. unfold registerTTL. destruct (negb _); [done|]. split; simpl; try apply Hc.
  - rewrite length_alter. apply Hc.
  - set (e0 := mkTtlEntry _ _). intros k b e Hk He.
    pose proof (ttlBucketIndex_range (ttl_expiry e0)) as Hr. simpl in Hr.
    destruct (decide (Z.to_nat (ttlBucketIndex (ttl_expiry e0)) = k)) as [<-|Hne]; simpl in *.
    + rewrite list_lookup_alter_eq in Hk.
      destruct (ttlBuckets c !! _) as [b0|] eqn:Hb0; simplify_eq/=.
      apply elem_of_app in He as [He|He]; [by eapply (ok_ring _ Hc)|].
      apply list_elem_of_singleton in He as ->. simpl. lia.
    + rewrite list_lookup_alter_ne in Hk by done. by eapply (ok_ring _ Hc).
Qed.
Lemma wf_registerTTL c l : cache_wf c → cache_wf (registerTTL l c).
Proof. apply wf_of_ok; [..|apply ok_registerTTL]; unfold registerTTL; by destruct (negb _). Qed.

Lemma ok_updateEvictionEntry c l now : cache_ok c → cache_ok (updateEvictionEntry l now c).
Proof. intros Hc. unfold updateEvictionEntry. destruct (negb _); [done|]. split; apply Hc. Qed.
Lemma wf_updateEvictionEntry c l now : cache_wf c → cache_wf (updateEvictionEntry l now c).
Proof. apply wf_of_ok; [..|apply ok_updateEvictionEntry]; unfold updateEvictionEntry; by destruct (negb _). Qed.
Lemma ok_addCached c n : cache_ok c → cache_ok (addCached n c).
Proof. intros Hc. split; apply Hc. Qed.
Lemma wf_addCached c n : cache_wf c → cache_wf (addCached n c).
Proof. by apply wf_of_ok, ok_addCached. Qed.
Lemma ok_evict_one c l : cache_ok c → cache_ok (evict_one l c).
Proof.
  intros Hc. unfold evict_one. apply ok_addCached.
  assert (HE : cache_ok (upd l EvictChildren c)) by by apply ok_upd. split; apply HE.
Qed.
Lemma wf_evict_one c l : cache_wf c → cache_wf (evict_one l c).
Proof.
  intros Hc. unfold evict_one. apply wf_addCached.
  assert (HE : cache_wf (upd l EvictChildren c)) by by apply wf_upd. split; [split|]; apply HE.
Qed.
End wf_preserved.

Create HintDb cache discriminated.
#[export] Hint Resolve wf_markDirty wf_markDeleted wf_registerTTL wf_updateEvictionEntry wf_addCached
  wf_evict_one wf_inodes_Delete wf_alloc valid_alloc ok_upd ok_markDirty ok_markDeleted ok_registerTTL
  ok_updateEvictionEntry ok_addCached ok_evict_one ok_inodes_Delete ok_alloc : cache.

(** A later state of the same cache: the invariants carry over and the pointers
    still designate inodes. *)
Definition cache_ext (c c' : InodeCache) : Prop :=
  ((cache_wf c → cache_wf c') ∧ (cache_ok c → cache_ok c')) ∧ ∀ l, valid c l → valid c' l.

#[global] Instance cache_ext_preorder : PreOrder cache_ext.
Proof. split; [by split|]. intros a b c [[H1 H1'] H2] [[H3 H3'] H4]. split_and!; auto. Qed.

Section ext.
Implicit Types c : InodeCache.

(** The primitive updates. *)
Lemma ext_upd c l f : (∀ i, ID (f i) = ID i) → cache_ext c (upd l f c).
Proof. intros Hf. split; [split; [by apply wf_upd|apply ok_upd]|]. intros l'. apply valid_upd. Qed.
Lemma ext_alloc c i : cache_ext c (alloc i c).2.
Proof. split; [split|]; auto with cache. Qed.
Lemma ext_Store c l : valid c l → cache_ext c (inodes_Store (ID (deref c l)) l c).
Proof. intros Hl. split; [split; [by apply wf_inodes_Store|by apply ok_inodes_Store]|done]. Qed.
Lemma ext_markDirty c id : cache_ext c (markDirty id c).
Proof. split; [split; auto with cache|done]. Qed.
Lemma ext_markDeleted c id : cache_ext c (markDeleted id c).
Proof. split; [split; auto with cache|done]. Qed.
Lemma ext_remove c id : cache_ext c (markDeleted id (inodes_Delete id c)).
Proof. split; [split; auto with cache|done]. Qed.
Lemma ext_registerTTL c l : cache_ext c (registerTTL l c).
Proof. split; [split; auto with cache|]. unfold registerTTL. by destruct (negb _). Qed.
Lemma ext_updateEvictionEntry c l now : cache_ext c (updateEvictionEntry l now c).
Proof. split; [split; auto with cache|]. unfold updateEvictionEntry. by destruct (negb _). Qed.
Lemma ext_addCached c n : cache_ext c (addCached n c).
Proof. split; [split; auto with cache|done]. Qed.
Lemma ext_evict_one c l : cache_ext c (evict_one l c).
Proof. split; [split; auto with cache|]. intros l'. apply valid_upd. Qed.
(** Fields the invariant does not constrain. *)
Lemma ok_same c c' :
  store c' = store c → nextLoc c' = nextLoc c → inodes c' = inodes c → dirty c' = dirty c →
  deleted c' = deleted c → ttlBuckets c' = ttlBuckets c → cache_ok c → cache_ok c'.
Proof.
  intros E1 E2 E3 E4 E5 E6 [H1 H2 H3 H4 H5]. split; unfold valid in *; rewrite ?E1, ?E2, ?E3, ?E4, ?E5, ?E6; done.
Qed.
Lemma ext_same c c' :
  store c' = store c → nextLoc c' = nextLoc c → inodes c' = inodes c → dirty c' = dirty c →
  deleted c' = deleted c → ttlBuckets c' = ttlBuckets c → cache_ext c c'.
Proof.
  intros E1 E2 E3 E4 E5 E6. split; [|intros l; unfold valid; by rewrite E1].
  split; [apply wf_of_ok; [done..|]|]; by apply ok_same.
Qed.

Lemma ID_attach id d s i : ID (attach id d s i) = ID i.
Proof. unfold attach. by repeat case_match. Qed.
Lemma ID_detach id d i : ID (detach id d i) = ID i.
Proof. unfold detach. by repeat case_match. Qed.
Lemma ext_attachChild c p id d s : cache_ext c (attachChild p id d s c).
Proof. apply ext_upd. intros. apply ID_attach. Qed.
Lemma ext_detachChild c p id d : cache_ext c (detachChild p id d c).
Proof. apply ext_upd. intros. apply ID_detach. Qed.
End ext.

#[export] Hint Resolve ext_alloc ext_Store ext_markDirty ext_remove ext_registerTTL
  ext_updateEvictionEntry ext_addCached ext_evict_one ext_attachChild ext_detachChild : cache.
#[export] Hint Extern 5 (cache_ext ?c ?c) => reflexivity : cache.

(** Follow the chain of updates of an operation from the last to the first. *)
Ltac ext_step := etrans; [|solve [auto with cache]].
Ltac ext_chain := repeat case_match; repeat first [reflexivity | solve [auto with cache] | ext_step].

Section operations_ext.
Implicit Types c : InodeCache.

Lemma ext_attachSeeding now p id d c : cache_ext c (attachSeeding now p id d c).
Proof. unfold attachSeeding. cbn zeta. ext_chain. Qed.

Lemma ext_Insert now l c : opt_ok (valid c) l → cache_ext c (Insert now l c).
Proof.
  destruct l as [l|]; [|done]. simpl. intros Hl. unfold Insert. cbn zeta.
  assert (H0 : cache_ext c (markDirty (ID (deref c l)) (inodes_Store (ID (deref c l)) l c))).
  { etrans; [by apply ext_Store|apply ext_markDirty]. }
  case_bool_decide; [done|]. case_match; [|done].
  etrans; [exact H0|]. etrans; [apply ext_attachSeeding|apply ext_markDirty].
Qed.

Lemma ext_Delete id c : cache_ext c (Delete id c).
Proof. unfold Delete. cbn zeta. ext_chain. Qed.

Lemma ext_InsertChild pid l c : opt_ok (valid c) l → cache_ext c (InsertChild pid l c).
Proof.
  destruct l as [l|]; [|done]. simpl. intros Hl. unfold InsertChild. cbn zeta.
  assert (H0 : cache_ext c (upd l (SetParentID pid) (inodes_Store (ID (deref c l)) l c))).
  { etrans; [by apply ext_Store|by apply ext_upd]. }
  case_match; (etrans; [exact H0|]); ext_chain.
Qed.

Lemma ext_RemoveChild pid id c : cache_ext c (RemoveChild pid id c).
Proof. unfold RemoveChild. cbn zeta. ext_chain. Qed.

Lemma ext_MoveChild now p1 p2 id c : cache_ext c (MoveChild now p1 p2 id c).
Proof.
  unfold MoveChild. cbn zeta. destruct (Get c id); [|done].
  etrans; [|apply ext_markDirty].
  set (c1 := match Get c p1 with Some _ => _ | None => _ end).
  assert (cache_ext c c1) as -> by (subst c1; ext_chain).
  case_match; [|done]. etrans; [apply ext_attachSeeding|apply ext_markDirty].
Qed.

(** Re-keying: the object at [old] takes the ID [new] and the key [new]. *)
Lemma ok_rekey c old new l :
  cache_ok c → Get c old = Some l →
  cache_ok (inodes_Delete old (inodes_Store new l (upd l (SetID new) c))).
Proof.
  intros Hc Hl. apply ok_inodes_Delete, ok_inodes_Store; [|by apply ok_upd].
  apply valid_upd. by apply (ok_map _ Hc old).
Qed.
Lemma wf_rekey c old new l :
  cache_wf c → Get c old = Some l →
  cache_wf (inodes_Delete old (inodes_Store new l (upd l (SetID new) c))).
Proof.
  intros Hc Hl. split; [by apply ok_rekey; [apply Hc|]|]. simpl. intros id l' i Hl' Hi.
  apply lookup_delete_Some in Hl' as [Hne Hl'].
  destruct (decide (l = l')) as [<-|Hll].
  - apply lookup_insert_Some in Hl' as [[<- _]|[_ Hl']]; [|by destruct Hne; apply (wf_inj c _ _ l)].
    rewrite lookup_alter_eq in Hi. by apply fmap_Some in Hi as (i' & _ & ->).
  - apply lookup_insert_Some in Hl' as [[_ ?]|[_ Hl']]; [done|]. rewrite lookup_alter_ne in Hi by done.
    by eapply (wf_ids _ Hc).
Qed.

Lemma ext_MoveID old new c : cache_ext c (MoveID old new c).
Proof.
  unfold MoveID. cbn zeta. destruct (Get c old) as [l|] eqn:Hl; [|done].
  set (c1 := inodes_Delete old _).
  assert (H1 : cache_ext c c1).
  { split; [split; intros; [by apply wf_rekey|by apply ok_rekey]|]. intros l'. apply valid_upd. }
  set (c2 := markDirty new (if bool_decide (old = new) then c1 else markDeleted old c1)).
  assert (H2 : cache_ext c1 c2).
  { subst c2. etrans; [|apply ext_markDirty]. case_bool_decide; [done|].
    apply ext_markDeleted. }
  etrans; [exact H1|]. etrans; [exact H2|].
  case_bool_decide; [done|]. case_match; [|done].
  etrans; [|apply ext_markDirty]. by apply ext_upd.
Qed.

Lemma ext_Invalidate now id c : cache_ext c (Invalidate now id c).
Proof.
  unfold Invalidate. cbn zeta. destruct (Get c id); [|done].
  etrans; [|apply ext_markDirty]. etrans; [|by apply ext_upd]. ext_chain.
Qed.

Lemma ext_Range f c : (∀ l c, cache_ext c (f l c)) → cache_ext c (inodes_Range f c).
Proof.
  intros Hf. unfold inodes_Range. induction (map_to_list (inodes c)) as [|kl m IH]; simpl; [done|].
  etrans; [exact IH|apply Hf].
Qed.

Lemma ext_InvalidateAll now c : cache_ext c (InvalidateAll now c).
Proof.
  apply ext_Range. intros l c'. unfold invalidate_one. case_match; [|done].
  etrans; [|apply ext_markDirty]. etrans; [|apply ext_addCached]. by apply ext_upd.
Qed.

Lemma ext_fullScan now c : cache_ext c (evictExpiredChildrenFullScan now c).
Proof.
  apply ext_Range. intros l c'. unfold fullScan_one. cbn zeta. case_match; [done|].
  case_match; [etrans; [|apply ext_evict_one]|]; by apply ext_upd.
Qed.
End operations_ext.

Section sweeps_ext.
Implicit Types c : InodeCache.

Lemma ext_emptyBucket k c : cache_ext c (set_ttlBuckets (<[k := []]> (ttlBuckets c)) c).
Proof.
  assert (Hok : cache_ok c → cache_ok (set_ttlBuckets (<[k := []]> (ttlBuckets c)) c)).
  { intros Hc. split; simpl; try apply Hc.
    - rewrite length_insert. apply Hc.
    - intros k' b e Hb He. destruct (decide (k = k')) as [->|].
      + apply list_lookup_insert_Some in Hb as [(_&<-&_)|[? _]]; [by apply elem_of_nil in He|done].
      + rewrite list_lookup_insert_ne in Hb by done. by eapply (ok_ring _ Hc). }
  split; [split; [by apply wf_of_ok|exact Hok]|done].
Qed.

Lemma ext_processTTLEntry now e c p : cache_ext c (processTTLEntry now e (c, p)).1.
Proof.
  unfold processTTLEntry. cbn zeta. destruct (Get c _) as [l|]; [|done].
  destruct (negb _); [done|]. case_bool_decide; [done|].
  case_match; simpl; (etrans; [|auto with cache]); by apply ext_upd.
Qed.

Lemma ext_foldl {A} (f : InodeCache * gset string → A → InodeCache * gset string) l s :
  (∀ s a, cache_ext s.1 (f s a).1) → cache_ext s.1 (foldl f s l).1.
Proof.
  intros Hf. revert s. induction l as [|a l IH]; intros s; simpl; [done|].
  etrans; [apply Hf|apply IH].
Qed.

Lemma ext_sweepBucket i now s : cache_ext s.1 (sweepBucket i now s).1.
Proof.
  destruct s as [c p]. unfold sweepBucket. simpl.
  etrans; [apply (ext_emptyBucket (Z.to_nat i))|].
  apply (ext_foldl (λ s e, processTTLEntry now e s) _ (_, p)). intros [] e.
  apply ext_processTTLEntry.
Qed.

Lemma ext_sweep_loop fuel t now s : cache_ext s.1 (sweep_loop fuel t now s).1.
Proof.
  revert t s. induction fuel as [|fuel IH]; intros t s; simpl; [done|].
  case_match; [done|]. etrans; [apply ext_sweepBucket|apply IH].
Qed.

Lemma ext_sweepExpiredBuckets now c : cache_ext c (sweepExpiredBuckets now c).
Proof.
  unfold sweepExpiredBuckets. cbn zeta. set (s := if _ <? _ then _ else _).
  assert (cache_ext c s.1) as H.
  { subst s. case_match.
    - apply (ext_foldl (λ s i, sweepBucket i now s) _ (c, ∅)). intros. apply ext_sweepBucket.
    - apply (ext_sweep_loop _ _ _ (c, ∅)). }
  etrans; [exact H|]. by apply ext_same.
Qed.

Lemma ext_popEvictable_loop fuel now c : cache_ext c (popEvictableCandidate_loop fuel now c).2.
Proof.
  revert c. induction fuel as [|fuel IH]; intros c; [done|]. cbn [popEvictableCandidate_loop].
  case_decide; [done|]. destruct (Pop _) as [e h].
  assert (H0 : cache_ext c (set_evictionHeap h c)) by by apply ext_same.
  case_match; [etrans; [exact H0|apply IH]|].
  case_match; [|etrans; [exact H0|apply IH]].
  case_match; [etrans; [exact H0|apply IH]|].
  case_match; [by apply ext_same|exact H0].
Qed.

Lemma ext_sizeLimit_loop n now c : cache_ext c (sizeLimit_loop n now c).
Proof.
  revert c. induction n as [|n IH]; intros c; [done|]. simpl.
  pose proof (ext_popEvictable_loop (S (Len (evictionHeap c))) now c) as Hp.
  unfold popEvictableCandidate. destruct (popEvictableCandidate_loop _ _ _) as [[[id s]|] c']; [|done].
  simpl in Hp. case_match; (etrans; [exact Hp|]); [|apply IH].
  etrans; [apply ext_evict_one|apply IH].
Qed.

Lemma ext_sizeLimit now c : cache_ext c (evictChildrenBySizeLimit now c).
Proof. unfold evictChildrenBySizeLimit. repeat case_match; try done. apply ext_sizeLimit_loop. Qed.

Lemma ext_sweep now c : cache_ext c (sweep now c).
Proof. unfold sweep. etrans; [apply ext_sweepExpiredBuckets|apply ext_sizeLimit]. Qed.
End sweeps_ext.

(** Listing a folder keeps the invariant, whatever the fetcher does to it. *)
Section listing_ext.
Context {W : Type} `{Clock W}.
Implicit Types c : InodeCache.

Lemma ext_populate_one pid d s item : cache_ext s.1.1 (populate_one pid d s item).1.1.
Proof.
  destruct s as [[c ids] m]. unfold populate_one. cbn zeta.
  set (i := if bool_decide _ then _ else _). simpl.
  pose proof (alloc_spec c i) as [Hv Hd].
  assert (H1 : cache_ext c (inodes_Store (ID i) (nextLoc c) (alloc i c).2)).
  { etrans; [apply (ext_alloc c i)|]. pose proof (ext_Store _ _ Hv) as Hs. by rewrite Hd in Hs. }
  destruct d; simpl; [|exact H1]. etrans; [exact H1|apply ext_markDirty].
Qed.

Lemma ext_populate_loop pid d items s : cache_ext s.1.1 (foldl (populate_one pid d) s items).1.1.
Proof.
  revert s. induction items as [|it items IH]; intros s; simpl; [done|].
  etrans; [apply ext_populate_one|apply IH].
Qed.

(** The rest of the population keeps the map built by the loop. *)
Lemma populate_tail now pid p d items c :
  let s := foldl (populate_one pid d) (c, [], ∅) items in
  (populate_children now pid p d items c).1 = s.2 ∧ cache_ext s.1.1 (populate_children now pid p d items c).2.
Proof.
  unfold populate_children. cbn zeta. destruct (foldl _ _ items) as [[c1 ids] m]. cbn [fst snd].
  set (pc := match p with Some _ => _ | None => _ end).
  assert (H2 : cache_ext c1 pc.2).
  { subst pc. destruct p as [p|]; [done|]. set (i := inode_of_item _). simpl.
    pose proof (alloc_spec c1 i) as [Hv Hd]. etrans; [apply (ext_alloc c1 i)|].
    assert (Hi : ID (deref (alloc i c1).2 (alloc i c1).1) = pid) by (by rewrite Hd).
    pose proof (ext_Store _ _ Hv) as Hs. by rewrite Hi in Hs. }
  destruct pc as [p' c2]. simpl in H2 |- *. split; [done|].
  etrans; [exact H2|]. etrans; [|by apply ext_upd].
  set (c3 := upd p' (BumpChildrenAccess now) _).
  assert (H3 : cache_ext c2 c3)
    by (subst c3; etrans; [|by apply ext_upd]; by apply ext_upd).
  etrans; [exact H3|]. ext_chain.
Qed.
Lemma ext_populate now pid p d items c :
  cache_ext c (populate_children now pid p d items c).2.
Proof.
  etrans; [apply (ext_populate_loop pid d items (c, [], ∅))|]. apply populate_tail.
Qed.

(** The pointers of a listing designate inodes. *)
Definition map_valid (c : InodeCache) (m : gmap string N) : Prop := ∀ name l, m !! name = Some l → valid c l.
Lemma map_valid_empty c : map_valid c ∅.
Proof. intros name l Hl. by rewrite lookup_empty in Hl. Qed.
Lemma map_valid_ext c c' m : cache_ext c c' → map_valid c m → map_valid c' m.
Proof. intros [_ Hv] Hm name l Hl. by eapply Hv, Hm. Qed.
Lemma map_valid_insert c m name l : valid c l → map_valid c m → map_valid c (<[name := l]> m).
Proof. intros Hl Hm k l' [[_ <-]|[_ Hk]]%lookup_insert_Some; [done|by eapply Hm]. Qed.

Lemma buildChildMap_valid c ids : cache_ok c → map_valid c (buildChildMap c ids).
Proof.
  intros Hwf. unfold buildChildMap. pose proof (map_valid_empty c) as Hm. revert Hm. generalize (∅ : gmap string N).
  induction ids as [|id ids IH]; intros m Hm; [done|]. cbn [foldl]. apply IH.
  destruct (Get c id) as [l|] eqn:El; [|done]. apply map_valid_insert; [by eapply (ok_map _ Hwf)|done].
Qed.
Lemma populate_loop_valid pid d items s :
  map_valid s.1.1 s.2 → map_valid (foldl (populate_one pid d) s items).1.1 (foldl (populate_one pid d) s items).2.
Proof.
  revert s. induction items as [|it items IH]; intros s Hm; [done|]. cbn [foldl]. apply IH.
  pose proof (ext_populate_one pid d s it) as He. destruct s as [[c ids] m]. cbn [fst snd] in *.
  apply (map_valid_ext _ _ _ He) in Hm. unfold populate_one in *. cbn zeta in *.
  set (i := if bool_decide _ then _ else _) in *. cbn [fst snd alloc] in *. apply map_valid_insert; [|exact Hm].
  assert (Hv : valid (alloc i c).2 (nextLoc c)) by apply alloc_spec.
  by destruct d.
Qed.

(** A fetcher that keeps the invariant. *)
Definition fetch_ok (fetch : ChildrenFetcher W) : Prop :=
  ∀ id w c, cache_ext c (fetch id (w, c)).2.2.

Lemma ext_getChildren pid fetch d w c :
  opt_ok fetch_ok fetch → cache_ext c (getChildren pid fetch d (w, c)).2.2.
Proof.
  intros Hf. unfold getChildren.
  destruct (fresh_listing (w_now w) c (Get c pid)) as [p|].
  - cbn [fst snd]. etrans; [|apply ext_updateEvictionEntry]. etrans; [|apply ext_registerTTL].
    etrans; [|by apply ext_upd]. by apply ext_same.
  - assert (H0 : cache_ext c (set_misses (u64 (misses c + 1)) c)) by by apply ext_same.
    destruct fetch as [f|]; [|exact H0]. simpl in Hf.
    specialize (Hf pid w (set_misses (u64 (misses c + 1)) c)).
    destruct (f pid _) as [[e|items] [w' c']]; simpl in *; [exact (transitivity H0 Hf)|].
    pose proof (ext_populate (w_now w') pid (Get c pid) d items c') as Hp.
    destruct (populate_children (w_now w') pid (Get c pid) d items c') as [m c''].
    exact (transitivity H0 (transitivity Hf Hp)).
Qed.

(** Two results are the same. *)
Lemma ret_inj {E A B C} (a a' : A) (b b' : B) (c c' : C) :
  (@inr E A a, (b, c)) = (inr a', (b', c')) → a = a' ∧ b = b' ∧ c = c'.
Proof. by intros [= -> -> ->]. Qed.
Lemma getChildren_valid pid fetch d w c m w' c' :
  opt_ok fetch_ok fetch → cache_ok c → getChildren pid fetch d (w, c) = (inr m, (w', c')) → map_valid c' m.
Proof.
  intros Hf Hwf. pose proof (ext_getChildren pid fetch d w c Hf) as He. unfold getChildren in *.
  destruct (fresh_listing (w_now w) c (Get c pid)) as [p|].
  - intros (<- & <- & <-)%ret_inj. apply buildChildMap_valid. by apply He.
  - destruct fetch as [f|]; [|done]. destruct (f pid _) as [[e|items] [w1 c1]]; [done|].
    pose proof (populate_tail (w_now w1) pid (Get c pid) d items c1) as [Em Hx].
    pose proof (populate_loop_valid pid d items (c1, [], ∅) (map_valid_empty c1)) as Hv.
    destruct (populate_children _ _ _ _ _ _) as [m1 c2]. cbn [fst snd] in *. intros [= <- <- <-].
    subst m1. by eapply map_valid_ext.
Qed.
End listing_ext.
