(* ===== verification/CacheSweep.v ===== *)
(** The eviction sweeps of the metadata cache: the bucket sweep against the
    full scan it replaced, and what the size eviction may remove. *)

From Stdlib Require Import SpecFloat ZifyNat.
From S2P Require Export CacheProofs.

#[local] Open Scope Z_scope.

(** ** What one sweep does to one folder *)

Definition ttl_expired (now : Time) (base : Duration) (i : Inode) : bool :=
  IsChildrenFetched i &&
  time_After now (time_Add (childrenLastAccess i)
    (effectiveTTL base (childrenAccessCount (DecayChildrenAccess i)))).
Definition swept (now : Time) (base : Duration) (i : Inode) : Inode :=
  if negb (IsChildrenFetched i) then i
  else if ttl_expired now base i then EvictChildren (DecayChildrenAccess i)
  else DecayChildrenAccess i.

Definition bump_evictions (n : nat) (e : Z) : Z := Nat.iter n (λ e, u64 (e + 1)) e.

Definition count_expired (now : Time) (c : InodeCache) (L : list N) : nat :=
  length (filter (λ l, ttl_expired now (baseTTL c) (deref c l) = true) L).

(** [c'] is [c] after the folders [L] were swept, each once. *)
Record swept_view (now : Time) (c : InodeCache) (L : list N) (c' : InodeCache) : Prop := {
  sv_inodes : inodes c' = inodes c;
  sv_base : baseTTL c' = baseTTL c;
  sv_valid : ∀ l, valid c' l ↔ valid c l;
  sv_deref : ∀ l, deref c' l =
    if decide (l ∈ L) then swept now (baseTTL c) (deref c l) else deref c l;
  sv_evictions : evictions c' = bump_evictions (count_expired now c L) (evictions c);
  sv_cached : cachedFolders c' = cachedFolders c - Z.of_nat (count_expired now c L);
}.

Lemma swept_view_nil now c : swept_view now c [] c.
Proof. split; try done. unfold count_expired. rewrite filter_nil. simpl. lia. Qed.

(** Sweeping one more folder: decay, then eviction when expired. *)
Lemma swept_view_cons now c L c' l c'' :
  swept_view now c L c' → l ∉ L → valid c l → IsChildrenFetched (deref c l) = true →
  (let d := upd l DecayChildrenAccess c' in
   c'' = if ttl_expired now (baseTTL c) (deref c l) then evict_one l d else d) →
  swept_view now c (l :: L) c''.
Proof.
  intros [H1 H2 H3 H4 H5 H6] Hl Hv Hf ->. cbn zeta.
  assert (Hd : deref c' l = deref c l) by (rewrite H4; by rewrite decide_False).
  assert (Hv' : valid (upd l DecayChildrenAccess c') l) by (by apply valid_upd, H3).
  assert (Hder : ∀ l', deref (if ttl_expired now (baseTTL c) (deref c l)
      then evict_one l (upd l DecayChildrenAccess c') else upd l DecayChildrenAccess c') l' =
      if decide (l' ∈ l :: L) then swept now (baseTTL c) (deref c l') else deref c l').
  { intros l'. destruct (decide (l' = l)) as [->|Hne].
    - rewrite decide_True by (by left). unfold swept. rewrite Hf. simpl.
      destruct (ttl_expired _ _ _); rewrite ?(deref_upd_eq c') by (by apply H3).
      + change (deref (upd l EvictChildren (upd l DecayChildrenAccess c')) l =
                EvictChildren (DecayChildrenAccess (deref c l))).
        rewrite deref_upd_eq by done. rewrite deref_upd_eq by (by apply H3). by rewrite Hd.
      + by rewrite Hd.
    - assert (Hiff : l' ∈ l :: L ↔ l' ∈ L) by (rewrite elem_of_cons; tauto).
      rewrite (decide_ext _ _ _ _ Hiff), <- H4.
      destruct (ttl_expired _ _ _).
      + change (deref (upd l EvictChildren (upd l DecayChildrenAccess c')) l' = deref c' l').
        by rewrite !deref_upd_ne by done.
      + by rewrite deref_upd_ne by done. }
  split; [..|exact Hder| |].
  - by destruct (ttl_expired _ _ _).
  - by destruct (ttl_expired _ _ _).
  - intros l'. rewrite <- H3. destruct (ttl_expired _ _ _); [|apply valid_upd].
    change (valid (upd l EvictChildren (upd l DecayChildrenAccess c')) l' ↔ valid c' l').
    by rewrite !valid_upd.
  - unfold count_expired in *. rewrite filter_cons.
    destruct (ttl_expired _ _ _); simpl; by rewrite H5.
  - unfold count_expired in *. rewrite filter_cons.
    destruct (ttl_expired _ _ _); simpl; rewrite H6; lia.
Qed.

(** A folder without a cached list is left alone. *)
Lemma swept_view_skip now c L c' l :
  swept_view now c L c' → IsChildrenFetched (deref c l) = false → swept_view now c (l :: L) c'.
Proof.
  intros [H1 H2 H3 H4 H5 H6] Hf.
  assert (He : ttl_expired now (baseTTL c) (deref c l) = false)
    by (unfold ttl_expired; by rewrite Hf).
  split; try done.
  - intros l'. rewrite H4. destruct (decide (l' = l)) as [->|Hne].
    + rewrite (decide_True (P := l ∈ l :: L)) by (by left).
      unfold swept. rewrite Hf. by case_decide.
    + assert (Hiff : l' ∈ l :: L ↔ l' ∈ L) by (rewrite elem_of_cons; tauto).
      by rewrite (decide_ext _ _ _ _ Hiff).
  - unfold count_expired in *. by rewrite filter_cons, He.
  - unfold count_expired in *. by rewrite filter_cons, He.
Qed.

(** Two sweeps of the same folders, in whatever order, agree. *)
Lemma swept_view_agree now c L1 L2 c1 c2 :
  swept_view now c L1 c1 → swept_view now c L2 c2 → NoDup L1 → NoDup L2 →
  (∀ l, IsChildrenFetched (deref c l) = true → l ∈ L1 ↔ l ∈ L2) →
  (∀ l, deref c1 l = deref c2 l) ∧ evictions c1 = evictions c2 ∧
  cachedFolders c1 = cachedFolders c2 ∧ inodes c1 = inodes c2.
Proof.
  intros V1 V2 N1 N2 HL.
  assert (Hcount : count_expired now c L1 = count_expired now c L2).
  { unfold count_expired. apply Permutation_length, NoDup_Permutation; try by apply NoDup_filter.
    intros l. rewrite !list_elem_of_filter. split; intros [He Hin]; (split; [done|]); apply HL; try done;
      unfold ttl_expired in He; by apply andb_prop in He as [? _]. }
  split; [|split; [|split]].
  - intros l. rewrite (sv_deref _ _ _ _ V1), (sv_deref _ _ _ _ V2).
    destruct (IsChildrenFetched (deref c l)) eqn:Hf.
    + by rewrite (decide_ext _ _ _ _ (HL l Hf)).
    + unfold swept. rewrite Hf. simpl. by repeat case_decide.
  - by rewrite (sv_evictions _ _ _ _ V1), (sv_evictions _ _ _ _ V2), Hcount.
  - by rewrite (sv_cached _ _ _ _ V1), (sv_cached _ _ _ _ V2), Hcount.
  - by rewrite (sv_inodes _ _ _ _ V1), (sv_inodes _ _ _ _ V2).
Qed.

(** ** The full scan *)

(** Decay, then eviction when the decayed TTL is exceeded: the common body of
    the two sweeps. *)
Lemma decay_then_check now c c' l :
  baseTTL c' = baseTTL c → deref c' l = deref c l → valid c' l → IsChildrenFetched (deref c l) = true →
  time_After now (time_Add (childrenLastAccess (deref (upd l DecayChildrenAccess c') l))
    (effectiveTTL (baseTTL c) (childrenAccessCount (deref (upd l DecayChildrenAccess c') l)))) =
  ttl_expired now (baseTTL c) (deref c l).
Proof.
  intros Hb Hd Hv Hf. rewrite deref_upd_eq, Hd by done. unfold ttl_expired. by rewrite Hf.
Qed.

Lemma fullScan_one_view now c L c' l :
  swept_view now c L c' → l ∉ L → valid c l → swept_view now c (l :: L) (fullScan_one now l c').
Proof.
  intros V Hl Hv. unfold fullScan_one.
  assert (Hd : deref c' l = deref c l) by (rewrite (sv_deref _ _ _ _ V); by rewrite decide_False).
  rewrite Hd. destruct (IsChildrenFetched (deref c l)) eqn:Hf; simpl; [|by apply swept_view_skip].
  apply (swept_view_cons now c L c'); try done. simpl.
  change (baseTTL (upd l DecayChildrenAccess c')) with (baseTTL c').
  rewrite (sv_base _ _ _ _ V).
  by rewrite (decay_then_check now c c' l (sv_base _ _ _ _ V) Hd (proj2 (sv_valid _ _ _ _ V l) Hv) Hf).
Qed.

Lemma wf_locs_NoDup c : cache_wf c → NoDup (map_to_list (inodes c)).*2.
Proof.
  intros Hc. apply NoDup_fmap_2_strong; [|apply NoDup_map_to_list].
  intros [id1 l1] [id2 l2] H1%elem_of_map_to_list H2%elem_of_map_to_list. simpl. intros ->.
  f_equal. by eapply wf_inj.
Qed.

Lemma fullScan_view now c :
  cache_wf c → swept_view now c (map_to_list (inodes c)).*2 (evictExpiredChildrenFullScan now c).
Proof.
  intros Hc. unfold evictExpiredChildrenFullScan, inodes_Range.
  pose proof (wf_locs_NoDup c Hc) as HN.
  assert (Hv : Forall (λ kl, valid c kl.2) (map_to_list (inodes c))).
  { apply Forall_forall. intros [id l] Hin%elem_of_map_to_list. by apply (wf_get c id). }
  induction Hv as [|[id l] m Hl _ IH]; simpl in *; [apply swept_view_nil|].
  apply NoDup_cons in HN as [Hn HN]. apply fullScan_one_view; auto.
Qed.

(** ** The bucket sweep *)

(** Some bucket from [k] on holds an entry for [id]. *)
Definition in_ring_from (c : InodeCache) (k : nat) (id : string) : Prop :=
  ∃ j b e, (k ≤ j)%nat ∧ ttlBuckets c !! j = Some b ∧ e ∈ b ∧ ttl_inodeID e = id.

(** Every folder with a cached list is scheduled. *)
Definition ring_covers (c : InodeCache) : Prop :=
  ∀ id l, Get c id = Some l → IsChildrenFetched (deref c l) = true → in_ring_from c 0 id.

(** The state of a pass over the whole ring: the folders [L] are swept, their
    IDs are the processed ones, and the others are scheduled in the buckets
    from [k] on or among the entries [rest] still to process. *)
Record ring_pass (now : Time) (c0 : InodeCache) (L : list N) (k : nat) (rest : list ttlEntry)
    (c : InodeCache) (processed : gset string) : Prop := {
  rp_view : swept_view now c0 L c;
  rp_nodup : NoDup L;
  rp_len : length (ttlBuckets c) = length (ttlBuckets c0);
  rp_processed : ∀ id l, Get c0 id = Some l → id ∈ processed ↔ l ∈ L;
  rp_in : ∀ l, l ∈ L → IsChildrenFetched (deref c0 l) = true ∧ ∃ id, Get c0 id = Some l;
  rp_todo : ∀ id l, Get c0 id = Some l → IsChildrenFetched (deref c0 l) = true → id ∉ processed →
    in_ring_from c k id ∨ ∃ e, e ∈ rest ∧ ttl_inodeID e = id;
}.

Lemma in_ring_registerTTL c k id l : in_ring_from c k id → in_ring_from (registerTTL l c) k id.
Proof.
  intros (j&b&e&Hj&Hb&He&Hid). unfold registerTTL. destruct (negb _); [by exists j, b, e|].
  unfold in_ring_from. simpl. set (i := Z.to_nat _). set (e0 := mkTtlEntry _ _).
  destruct (decide (i = j)) as [->|Hne].
  - exists j, (b ++ [e0]), e. rewrite list_lookup_alter_eq, Hb. repeat split; try done.
    apply elem_of_app. by left.
  - exists j, b, e. by rewrite list_lookup_alter_ne.
Qed.

(** Sweeping an entry that is not the first of its ID changes nothing of the
    view; the ring only grows. *)
Lemma swept_view_registerTTL now c L c' l :
  swept_view now c L c' → swept_view now c L (registerTTL l c').
Proof. intros [? ? ? ? ? ?]. unfold registerTTL. destruct (negb _); by split. Qed.

Lemma ring_pass_entry now c0 L k e rest c processed :
  cache_wf c0 → ring_pass now c0 L k (e :: rest) c processed →
  ∃ L', ring_pass now c0 L' k rest (processTTLEntry now e (c, processed)).1
          (processTTLEntry now e (c, processed)).2.
Proof.
  intros Hwf [V HN Hlen HP Hin Htodo]. unfold processTTLEntry.
  assert (HG : Get c (ttl_inodeID e) = Get c0 (ttl_inodeID e))
    by (unfold Get; by rewrite (sv_inodes _ _ _ _ V)).
  rewrite HG.
  assert (Hdrop : (∀ l, Get c0 (ttl_inodeID e) = Some l →
      IsChildrenFetched (deref c0 l) = true → ttl_inodeID e ∈ processed) →
    ring_pass now c0 L k rest c processed).
  { intros Hdone. split; try done. intros id l Hl Hf Hn.
    destruct (Htodo id l Hl Hf Hn) as [?|(e'&He'&Hid)]; [by left|].
    apply elem_of_cons in He' as [->|]; [|right; by exists e']. subst id. exfalso. eauto. }
  destruct (Get c0 (ttl_inodeID e)) as [l|] eqn:Hl; [|exists L; by apply Hdrop].
  destruct (wf_get c0 _ _ Hwf Hl) as [Hv Hid].
  destruct (decide (ttl_inodeID e ∈ processed)) as [Hp|Hp].
  { exists L. destruct (negb _); simpl; [by apply Hdrop|].
    rewrite bool_decide_true by done. by apply Hdrop. }
  assert (HlL : l ∉ L) by (by rewrite <- (HP _ _ Hl)).
  assert (Hd : deref c l = deref c0 l) by (rewrite (sv_deref _ _ _ _ V); by rewrite decide_False).
  rewrite Hd. destruct (IsChildrenFetched (deref c0 l)) eqn:Hf; simpl.
  2: { exists L. apply Hdrop. intros l' [= <-]. congruence. }
  rewrite bool_decide_false by done. exists (l :: L).
  change (baseTTL (upd l DecayChildrenAccess c)) with (baseTTL c). rewrite (sv_base _ _ _ _ V).
  rewrite (decay_then_check now c0 c l (sv_base _ _ _ _ V) Hd (proj2 (sv_valid _ _ _ _ V l) Hv) Hf).
  set (c1 := if ttl_expired now (baseTTL c0) (deref c0 l)
             then evict_one l (upd l DecayChildrenAccess c) else upd l DecayChildrenAccess c).
  assert (V1 : swept_view now c0 (l :: L) c1) by (by apply (swept_view_cons now c0 L c)).
  assert (Hgo : ∀ c2, swept_view now c0 (l :: L) c2 → length (ttlBuckets c2) = length (ttlBuckets c) →
    (∀ id, in_ring_from c k id → in_ring_from c2 k id) →
    ring_pass now c0 (l :: L) k rest c2 ({[ttl_inodeID e]} ∪ processed)).
  { intros c2 V2 Hlen2 Hr2. split; [done|by constructor|congruence|..].
    - intros id l' Hl'. rewrite elem_of_union, elem_of_singleton, elem_of_cons, (HP _ _ Hl').
      split; (intros [E|?]; [left|by right]).
      + subst id. congruence.
      + subst l'. by eapply wf_inj.
    - intros l' [->|?]%elem_of_cons; eauto.
    - intros id l' Hl' Hf' Hn. apply not_elem_of_union in Hn as [Hn1 Hn2].
      rewrite elem_of_singleton in Hn1.
      destruct (Htodo id l' Hl' Hf' Hn2) as [?|(e'&He'&Hid')]; [left; by apply Hr2|].
      apply elem_of_cons in He' as [->|]; [by rewrite Hid' in Hn1|right; by exists e']. }
  destruct (ttl_expired now (baseTTL c0) (deref c0 l)); simpl.
  - apply Hgo; [exact V1|reflexivity|]. intros id Hr. exact Hr.
  - apply Hgo; [by apply swept_view_registerTTL|..].
    + unfold registerTTL. destruct (negb _); [done|]. simpl. by rewrite length_alter.
    + intros id Hr. by apply in_ring_registerTTL.
Qed.

Lemma ring_pass_entries now c0 L k rest c processed :
  cache_wf c0 → ring_pass now c0 L k rest c processed →
  ∃ L', ring_pass now c0 L' k []
          (foldl (λ s e, processTTLEntry now e s) (c, processed) rest).1
          (foldl (λ s e, processTTLEntry now e s) (c, processed) rest).2.
Proof.
  intros Hwf. revert L c processed. induction rest as [|e rest IH]; intros L c processed H; [by exists L|].
  destruct (ring_pass_entry now c0 L k e rest c processed Hwf H) as [L' H'].
  cbn [foldl]. destruct (processTTLEntry now e (c, processed)) as [c' p']. by apply (IH L').
Qed.

(** Bucket [k]: its entries are taken out and processed. *)
Lemma ring_pass_bucket now c0 L k c processed :
  cache_wf c0 → (k < length (ttlBuckets c0))%nat → ring_pass now c0 L k [] c processed →
  ∃ L', ring_pass now c0 L' (S k) [] (sweepBucket (Z.of_nat k) now (c, processed)).1
          (sweepBucket (Z.of_nat k) now (c, processed)).2.
Proof.
  intros Hwf Hk [V HN Hlen HP Hin Htodo]. unfold sweepBucket. rewrite Nat2Z.id.
  apply (ring_pass_entries _ _ L); [done|].
  destruct (lookup_lt_is_Some_2 (ttlBuckets c) k) as [b Hb]; [by rewrite Hlen|].
  rewrite Hb. simpl. split; try done.
  - destruct V. by split.
  - simpl. by rewrite length_insert.
  - intros id l Hl Hf Hn. destruct (Htodo id l Hl Hf Hn) as [(j&b'&e&Hj&Hb'&He&Hid)|(e&He&_)].
    + destruct (decide (j = k)) as [->|Hjk].
      * right. simplify_eq. by exists e.
      * left. exists j, b', e. simpl. rewrite list_lookup_insert_ne by done.
        split; [lia|done].
    + by apply elem_of_nil in He.
Qed.

Lemma ring_pass_all now c0 n c processed L k :
  cache_wf c0 → (k + n = length (ttlBuckets c0))%nat → ring_pass now c0 L k [] c processed →
  ∃ L', let s := foldl (λ s i, sweepBucket i now s) (c, processed) (seqZ (Z.of_nat k) (Z.of_nat n)) in
    ring_pass now c0 L' (length (ttlBuckets c0)) [] s.1 s.2.
Proof.
  intros Hwf. revert k L c processed. induction n as [|n IH]; intros k L c processed Hkn H.
  { exists L. simpl. by rewrite <- Hkn, Nat.add_0_r. }
  rewrite seqZ_cons by lia. cbn [foldl].
  destruct (ring_pass_bucket now c0 L k c processed) as [L1 H1]; [done|lia|done|].
  destruct (sweepBucket (Z.of_nat k) now (c, processed)) as [c1 p1].
  destruct (IH (S k) L1 c1 p1) as [L2 H2]; [lia|done|].
  exists L2. replace (Z.succ (Z.of_nat k)) with (Z.of_nat (S k)) by lia.
  replace (Z.pred (Z.of_nat (S n))) with (Z.of_nat n) by lia. done.
Qed.

Lemma full_ring_view now c :
  cache_wf c → ring_covers c →
  ttlBucketCount * ttlBucketWidth < time_Sub now (lastSweep c) → IsZero (lastSweep c) = false →
  ∃ L, NoDup L ∧ swept_view now c L (sweepExpiredBuckets now c) ∧
    (∀ l, l ∈ L → IsChildrenFetched (deref c l) = true ∧ ∃ id, Get c id = Some l) ∧
    (∀ id l, Get c id = Some l → IsChildrenFetched (deref c l) = true → l ∈ L).
Proof.
  intros Hwf Hcov Hjump Hz. unfold sweepExpiredBuckets. rewrite Hz.
  destruct (Z.ltb_spec (ttlBucketCount * ttlBucketWidth) (time_Sub now (lastSweep c))); [|lia].
  destruct (ring_pass_all now c 60 c ∅ [] 0) as [L HL]; [done|by rewrite (wf_ring_len _ Hwf)|..].
  - split; try done.
    + apply swept_view_nil.
    + constructor.
    + intros id l _. split; intros Hi; [by apply elem_of_empty in Hi|by apply elem_of_nil in Hi].
    + intros l Hi. by apply elem_of_nil in Hi.
    + intros id l Hl Hf _. left. by apply (Hcov id l).
  - change (Z.of_nat 0) with 0 in HL. change (Z.of_nat 60) with ttlBucketCount in HL. cbn zeta in HL.
    destruct (foldl _ _ _) as [c' p]. simpl in *. destruct HL as [V HN Hlen HP Hin Htodo].
    exists L. split; [done|]. split; [by destruct V; split|]. split; [done|].
    intros id l Hl Hf. apply (HP id l Hl). destruct (decide (id ∈ p)) as [|Hn]; [done|exfalso].
    destruct (Htodo id l Hl Hf Hn) as [(j&b&e&Hj&Hb&_)|(e&He&_)]; [|by apply elem_of_nil in He].
    apply lookup_lt_Some in Hb. lia.
Qed.

(** ** The size eviction *)

(** The heap order of [container/heap]. *)
Definition heap_ordered (h : list evictionEntry) : Prop :=
  heap_ok key_lt ((λ e, (e, entry_key e)) <$> h) (length h).

Lemma fmap_key_perm (h k : list evictionEntry) :
  ((λ e, (e, entry_key e)) <$> h) ≡ₚ ((λ e, (e, entry_key e)) <$> k) → h ≡ₚ k.
Proof.
  assert (Hid : ∀ l : list evictionEntry, fst <$> ((λ e, (e, entry_key e)) <$> l) = l)
    by (intros l; induction l as [|e l IH]; [done|]; rewrite !fmap_cons; by f_equal).
  intros HP. apply (fmap_Permutation fst) in HP. by rewrite !Hid in HP.
Qed.

(** Pushing and popping on the eviction heap, in terms of the entries. *)
Lemma evictionHeap_Push h e :
  heap_num h → is_num (ee_score e) →
  heap_num (Push h e) ∧ Push h e ≡ₚ e :: h ∧ (heap_ordered h → heap_ordered (Push h e)).
Proof.
  intros Hh He. destruct (Push_correct h e) as (Hok&HP&Hord).
  { unfold heap_num. simpl. apply Forall_app_2; [done|]. by apply Forall_singleton. }
  split; [done|]. split; [apply fmap_key_perm; exact HP|].
  unfold heap_ordered. revert Hord. by rewrite !Len_spec, !length_fmap.
Qed.

Lemma evictionHeap_Pop h :
  heap_num h → h ≠ [] →
  let '(e, h') := Pop h in
  heap_num h' ∧ h ≡ₚ e :: h' ∧
  (heap_ordered h → heap_ordered h' ∧ ∀ y, y ∈ h → less y e = false).
Proof.
  intros Hh Hne. pose proof (Pop_correct h Hh) as HPop.
  destruct (Pop h) as [e h'].
  destruct HPop as (hd&_&Hok&HP&Hord); [destruct h; [done|simpl; lia]|].
  assert (HP' : h ≡ₚ e :: h') by (apply fmap_key_perm; exact HP).
  split; [done|]. split; [done|]. intros Ho.
  destruct Hord as [Ho' Hmin]; [by rewrite Len_spec, length_fmap|]. split.
  - unfold heap_ordered. by rewrite Len_spec, length_fmap in Ho'.
  - intros y Hy. rewrite less_key.
    + apply (Hmin (y, entry_key y)). by apply (list_elem_of_fmap_2 (λ e, (e, entry_key e))).
    + unfold heap_num in Hh. rewrite Forall_forall in Hh. auto.
    + unfold heap_num in Hh. rewrite Forall_forall in Hh. apply Hh. rewrite HP'. by left.
Qed.

(** An entry that still describes its folder: the latest generation of a
    cached, listed folder. *)
Definition current (c : InodeCache) (e : evictionEntry) : Prop :=
  ee_generation e = default 0 (evictionGeneration c !! ee_id e) ∧
  ∃ l, Get c (ee_id e) = Some l ∧ IsChildrenFetched (deref c l) = true.

(** What [popEvictableCandidate] did: stale entries are dropped; the least
    current entry is taken out if its folder is idle, and stays otherwise. *)
Definition popped (now : Time) (c : InodeCache) (r : option (string * spec_float)) (c' : InodeCache) :
    Prop :=
  ∃ h' stale, c' = set_evictionHeap h' c ∧ heap_num h' ∧ heap_ordered h' ∧
    Forall (λ e, ¬ current c e) stale ∧
    match r with
    | Some (id, score) => ∃ e l, ee_id e = id ∧ ee_score e = score ∧ current c e ∧
        Get c id = Some l ∧ sizeEvictable (Some (deref c l)) now = true ∧
        evictionHeap c ≡ₚ e :: h' ++ stale ∧
        (∀ y, y ∈ evictionHeap c → current c y → less y e = false)
    | None => evictionHeap c ≡ₚ h' ++ stale ∧
        (h' = [] ∨ ∃ e l, e ∈ h' ∧ current c e ∧ Get c (ee_id e) = Some l ∧
           sizeEvictable (Some (deref c l)) now = false ∧
           (∀ y, y ∈ evictionHeap c → current c y → less y e = false))
    end.

(** Dropping one stale entry first. *)
Lemma popped_stale now c e h r c' :
  evictionHeap c ≡ₚ e :: h → ¬ current c e →
  popped now (set_evictionHeap h c) r c' → popped now c r c'.
Proof.
  intros HP He (h'&st&->&Hn&Ho&Hst&Hr).
  exists h', (e :: st). split; [done|]. split; [done|]. split; [done|].
  split; [by constructor|].
  assert (Hmin : ∀ x : evictionEntry, (∀ y, y ∈ h → current c y → less y x = false) →
    ∀ y, y ∈ evictionHeap c → current c y → less y x = false).
  { intros x Hx y Hy Hc. rewrite HP in Hy. apply elem_of_cons in Hy as [->|]; [done|auto]. }
  destruct r as [[id s]|].
  - destruct Hr as (x&l&?&?&?&?&?&HPx&Hm). exists x, l. repeat (split; [done|]). split; [|by apply Hmin].
    rewrite HP. simpl in HPx. rewrite HPx. solve_Permutation || (rewrite !app_comm_cons; by rewrite Permutation_middle).
  - destruct Hr as [HPx Hr]. simpl in HPx. split.
    + rewrite HP, HPx. by rewrite Permutation_middle.
    + destruct Hr as [?|(x&l&?&?&?&?&Hm)]; [by left|]. right. exists x, l.
      repeat (split; [done|]). by apply Hmin.
Qed.

Lemma popEvictable_loop_spec fuel now c :
  (length (evictionHeap c) < fuel)%nat → heap_num (evictionHeap c) → heap_ordered (evictionHeap c) →
  popped now c (popEvictableCandidate_loop fuel now c).1 (popEvictableCandidate_loop fuel now c).2.
Proof.
  revert c. induction fuel as [|fuel IH]; intros c Hf Hn Ho; [lia|].
  cbn [popEvictableCandidate_loop].
  destruct (decide (Len (evictionHeap c) = 0%nat)) as [H0|H0].
  { simpl in H0. apply nil_length_inv in H0. exists [], []. simpl.
    split; [by destruct c; simpl in *; subst|]. split; [by constructor|].
    split; [intros k Hk; simpl in Hk; lia|]. split; [by constructor|].
    split; [by rewrite H0|by left]. }
  pose proof (evictionHeap_Pop (evictionHeap c) Hn) as HPop.
  destruct (Pop (evictionHeap c)) as [e h].
  destruct HPop as (Hn'&HP&Hord); [by destruct (evictionHeap c)|].
  destruct (Hord Ho) as [Ho' Hmin].
  assert (Hlen : (length h < fuel)%nat) by (apply Permutation_length in HP; simpl in HP; lia).
  assert (Hstale : ¬ current c e →
    popped now c (popEvictableCandidate_loop fuel now (set_evictionHeap h c)).1
      (popEvictableCandidate_loop fuel now (set_evictionHeap h c)).2).
  { intros Hc. apply (popped_stale now c e h); [done|done|]. by apply IH. }
  change (evictionGeneration (set_evictionHeap h c)) with (evictionGeneration c).
  change (Get (set_evictionHeap h c)) with (Get c).
  destruct (Z.eqb_spec (ee_generation e) (default 0 (evictionGeneration c !! ee_id e))) as [Hg|Hg];
    cbn [negb]; [|apply Hstale; by intros [? _]].
  destruct (Get c (ee_id e)) as [l|] eqn:Hl; [|apply Hstale; intros (_&l&?&_); congruence].
  change (deref (set_evictionHeap h c) l) with (deref c l).
  destruct (IsChildrenFetched (deref c l)) eqn:Hch; cbn [negb];
    [|apply Hstale; intros (_&l'&?&?); congruence].
  assert (Hcur : current c e) by (split; eauto).
  destruct (sizeEvictable (Some (deref c l)) now) eqn:Hev; cbn [negb fst snd].
  - exists h, []. split; [done|]. split; [done|]. split; [done|]. split; [by constructor|].
    exists e, l. rewrite app_nil_r. repeat (split; [done|]). intros y Hy _. by apply Hmin.
  - destruct (evictionHeap_Push h e Hn') as (Hn2&HP2&Ho2).
    { unfold heap_num in Hn. rewrite Forall_forall in Hn. apply Hn. rewrite HP. by left. }
    exists (Push h e), []. split; [done|]. split; [done|]. split; [auto|]. split; [by constructor|].
    rewrite app_nil_r. split; [by rewrite HP2|]. right. exists e, l.
    split; [rewrite HP2; by left|]. repeat (split; [done|]). intros y Hy _. by apply Hmin.
Qed.

(** A pop changes nothing but the heap, and gives an idle listed folder. *)
Lemma popEvictable_loop_idle fuel now c :
  ∃ h, (popEvictableCandidate_loop fuel now c).2 = set_evictionHeap h c ∧
    match (popEvictableCandidate_loop fuel now c).1 with
    | Some (id, _) => ∃ l, Get c id = Some l ∧ sizeEvictable (Some (deref c l)) now = true
    | None => True
    end.
Proof.
  revert c. induction fuel as [|fuel IH]; intros c.
  { exists (evictionHeap c). by destruct c. }
  cbn [popEvictableCandidate_loop].
  destruct (decide (Len (evictionHeap c) = 0%nat)); [exists (evictionHeap c); by destruct c|].
  destruct (Pop (evictionHeap c)) as [e h].
  destruct (IH (set_evictionHeap h c)) as (h1&H1&H2).
  change (Get (set_evictionHeap h c)) with (Get c) in *.
  destruct (negb (_ =? _)); [by exists h1|].
  destruct (Get c (ee_id e)) as [l|] eqn:Hl; [|by exists h1].
  destruct (negb (IsChildrenFetched _)); [by exists h1|].
  destruct (sizeEvictable _ _) eqn:Hev; cbn [negb fst snd].
  - exists h. split; [done|]. exists l. done.
  - by exists (Push h e).
Qed.

(** [c'] is [c] after some idle folders lost their lists, at most [n]. *)
Definition idle_evicted (now : Time) (c : InodeCache) (n : Z) (c' : InodeCache) : Prop :=
  inodes c' = inodes c ∧ cachedFolders c - n ≤ cachedFolders c' ∧
  (∀ l, valid c' l ↔ valid c l) ∧
  ∀ l, deref c' l = deref c l ∨
    (deref c' l = EvictChildren (deref c l) ∧ IsChildrenFetched (deref c l) = true ∧
     sizeEvictIdleGrace ≤ time_Sub now (childrenLastAccess (deref c l)) ∧
     ∃ id, Get c id = Some l).

Lemma sizeEvictable_spec i now :
  sizeEvictable (Some i) now = true →
  IsChildrenFetched i = true ∧ sizeEvictIdleGrace ≤ time_Sub now (childrenLastAccess i).
Proof. simpl. destruct (IsChildrenFetched i); simpl; [|done]. intros. split; [done|lia]. Qed.

Lemma sizeLimit_loop_idle n now c :
  cache_wf c → idle_evicted now c (Z.of_nat n) (sizeLimit_loop n now c).
Proof.
  revert c. induction n as [|n IH]; intros c Hwf.
  { split; [done|]. split; [simpl; lia|]. split; [done|]. by left. }
  cbn [sizeLimit_loop]. unfold popEvictableCandidate.
  destruct (popEvictable_loop_idle (S (Len (evictionHeap c))) now c) as (h&Hc&Hr).
  destruct (popEvictableCandidate_loop _ now c) as [[[id s]|] c1]; simpl in Hc, Hr; subst c1.
  2: { split; [done|]. split; [simpl; lia|]. split; [done|]. by left. }
  destruct Hr as (l&Hl&Hev).
  change (Get (set_evictionHeap h c) id) with (Get c id). rewrite Hl.
  destruct (sizeEvictable_spec _ _ Hev) as [Hf Hidle].
  destruct (wf_get c id l Hwf Hl) as [Hv _].
  set (c2 := evict_one l (set_evictionHeap h c)).
  assert (Hwf2 : cache_wf c2).
  { apply ext_evict_one. assert (He : cache_ext c (set_evictionHeap h c)) by by apply ext_same.
    by apply He. }
  assert (Hd2 : ∀ l', deref c2 l' = if decide (l' = l) then EvictChildren (deref c l) else deref c l').
  { intros l'. change (deref c2 l') with (deref (upd l EvictChildren c) l').
    case_decide; subst; [by apply deref_upd_eq|by apply deref_upd_ne]. }
  assert (Hv2 : ∀ l', valid c2 l' ↔ valid c l') by (intros; apply (valid_upd c)).
  destruct (IH c2 Hwf2) as (Hi&Hn&Hvv&Hd).
  split; [exact Hi|]. split.
  { change (cachedFolders c2) with (cachedFolders c + -1) in Hn. lia. }
  split; [intros l'; by rewrite Hvv|].
  intros l'. destruct (Hd l') as [E|(E&Hf'&Hi'&Hg')]; rewrite Hd2 in *; case_decide; subst.
  - right. rewrite E. split; [done|]. split; [done|]. split; [done|]. by exists id.
  - by left.
  - done.
  - right. done.
Qed.

Lemma sizeLimit_idle now c :
  cache_wf c →
  idle_evicted now c (Z.max 0 (cachedFolders c - maxEntries c)) (evictChildrenBySizeLimit now c).
Proof.
  intros Hwf. unfold evictChildrenBySizeLimit.
  assert (Hrefl : idle_evicted now c (Z.max 0 (cachedFolders c - maxEntries c)) c).
  { split; [done|]. split; [lia|]. split; [done|]. by left. }
  destruct (maxEntries c <=? 0); [done|].
  destruct (Z.leb_spec (cachedFolders c) (maxEntries c)); [done|].
  pose proof (sizeLimit_loop_idle (Z.to_nat (cachedFolders c - maxEntries c)) now c Hwf) as Hl.
  rewrite Z2Nat.id in Hl by lia. by rewrite Z.max_r by lia.
Qed.

(** ** The effective TTL *)

Lemma ttl_halves_range n : 0 ≤ n → 2 ≤ ttl_halves n ≤ 40.
Proof.
  intros Hn. unfold ttl_halves. cbn zeta.
  assert (H0 : 0 ≤ round53 n).
  { unfold round53. destruct (Z.ltb_spec n 0); [lia|].
    pose proof (round53_pos_mono 0 n ltac:(lia)). unfold round53_pos in H0 at 1. simpl in H0. lia. }
  assert (H2 : 2 ≤ round53 (2 + round53 n)).
  { unfold round53 at 1. destruct (Z.ltb_spec (2 + round53 n) 0); [lia|].
    pose proof (round53_pos_mono 2 (2 + round53 n) ltac:(lia)) as Hm.
    unfold round53_pos in Hm at 1. simpl in Hm. lia. }
  destruct (Z.ltb_spec 40 (round53 (2 + round53 n))); lia.
Qed.

Lemma ttl_halves_mono a b : 0 ≤ a ≤ b → ttl_halves a ≤ ttl_halves b.
Proof.
  intros Hab. assert (Hm : ∀ x y, 0 ≤ x ≤ y → 0 ≤ round53 x ≤ round53 y).
  { intros x y ?. unfold round53. destruct (Z.ltb_spec x 0), (Z.ltb_spec y 0); try lia.
    pose proof (round53_pos_mono x y ltac:(lia)). pose proof (round53_pos_mono 0 x ltac:(lia)) as Hx.
    unfold round53_pos in Hx at 1. simpl in Hx. lia. }
  unfold ttl_halves. cbn zeta.
  pose proof (Hm a b ltac:(lia)). pose proof (Hm (2 + round53 a) (2 + round53 b) ltac:(lia)).
  destruct (Z.ltb_spec 40 (round53 (2 + round53 a))), (Z.ltb_spec 40 (round53 (2 + round53 b))); lia.
Qed.

(** For a base TTL the float64 holds exactly (twenty times the base is under 2^52 ns,
    a base of up to 62 hours), the conversion loses nothing. *)
Lemma effectiveTTL_exact base n :
  0 ≤ base → base * 40 < 2 ^ 53 → 0 ≤ n → effectiveTTL base n = base * ttl_halves n / 2.
Proof.
  intros Hb Hb2 Hn. pose proof (ttl_halves_range n Hn) as Hh. unfold effectiveTTL. cbn zeta.
  rewrite (round53_small base) by lia. rewrite round53_small by nia.
  rewrite Z.quot_div_nonneg by nia.
  assert (0 ≤ base * ttl_halves n / 2 < 2 ^ 53).
  { split; [apply Z.div_pos; nia|apply Z.div_lt_upper_bound; nia]. }
  destruct (Z.leb_spec (- 2 ^ 63) (base * ttl_halves n / 2)), (Z.ltb_spec (base * ttl_halves n / 2) (2 ^ 63));
    simpl; lia.
Qed.

(** ** Properties *)

(** C25: sweeping the whole TTL ring does exactly what the full scan it replaced
    does: each cached folder decays once and loses its list under the same
    condition, with the same counters, provided every listed folder is
    scheduled somewhere in the ring. *)
Theorem ring_sweep_parity now c :
  cache_wf c → ring_covers c → IsZero (lastSweep c) = false →
  ttlBucketCount * ttlBucketWidth < time_Sub now (lastSweep c) →
  let r := sweepExpiredBuckets now c in
  let f := evictExpiredChildrenFullScan now c in
  (∀ l, deref r l = deref f l) ∧ evictions r = evictions f ∧
  cachedFolders r = cachedFolders f ∧ inodes r = inodes f.
Proof.
  intros Hwf Hcov Hz Hj. destruct (full_ring_view now c Hwf Hcov Hj Hz) as (L&HN&V&Hin&Hall).
  apply (swept_view_agree now c L _ _ _ V (fullScan_view now c Hwf) HN (wf_locs_NoDup c Hwf)).
  intros l Hf. split.
  - intros HL. destruct (Hin l HL) as [_ [id Hid]].
    apply list_elem_of_fmap. exists (id, l). split; [done|]. by apply elem_of_map_to_list.
  - intros Hl. apply list_elem_of_fmap in Hl as ([id l']&->&Hl%elem_of_map_to_list). by apply (Hall id).
Qed.

Lemma wf_set_lastSweep t c : cache_wf c → cache_wf (set_lastSweep t c).
Proof. assert (H : cache_ext c (set_lastSweep t c)) by (by apply ext_same). apply H. Qed.
Lemma wf_set_maxEntries n c : cache_wf c → cache_wf (set_maxEntries n c).
Proof. assert (H : cache_ext c (set_maxEntries n c)) by (by apply ext_same). apply H. Qed.

(** A cache holding one listed folder, populated at the instant 1000 s. *)
Definition example_cache : InodeCache :=
  set_lastSweep (1000 * Second)
    (populate_children (1000 * Second) "a" None true [] NewInodeCache).2.

Lemma example_cache_wf : cache_wf example_cache.
Proof.
  unfold example_cache. apply wf_set_lastSweep. apply ext_populate, wf_new.
Qed.

Lemma example_cache_get id l : Get example_cache id = Some l → id = "a" ∧ l = 0%N.
Proof.
  assert (E : inodes example_cache = {["a" := 0%N]}) by (vm_compute; reflexivity).
  unfold Get. rewrite E. by intros [<- <-]%lookup_singleton_Some.
Qed.

Lemma example_cache_covers : ring_covers example_cache.
Proof.
  intros id l [-> ->]%example_cache_get _.
  exists 10%nat, [mkTtlEntry "a" (1090 * Second)], (mkTtlEntry "a" (1090 * Second)).
  split; [lia|]. split; [vm_compute; reflexivity|]. split; [by left|done].
Qed.

Lemma ring_sweep_parity_witness :
  let now := 1200 * Second in
  deref (sweepExpiredBuckets now example_cache) 0%N =
  deref (evictExpiredChildrenFullScan now example_cache) 0%N.
Proof.
  refine (proj1 (ring_sweep_parity (1200 * Second) example_cache example_cache_wf
                   example_cache_covers _ _) 0%N).
  - vm_compute. reflexivity.
  - vm_compute. reflexivity.
Defined.

(** The number of folders of the cache that have their list. *)
Definition listed_folders (c : InodeCache) : Z :=
  Z.of_nat (length (List.filter (λ l, IsChildrenFetched (deref c l)) (map_to_list (inodes c)).*2)).

Lemma filter_length_ext {A} (P Q : A → bool) (L : list A) :
  (∀ x, x ∈ L → Q x = P x) → length (List.filter Q L) = length (List.filter P L).
Proof.
  induction L as [|x L IH]; intros HQ; [done|]. cbn [List.filter]. rewrite (HQ x) by left.
  destruct (P x); simpl; rewrite IH; try done; intros y Hy; apply HQ; by right.
Qed.
Lemma filter_length_drop `{EqDecision A} (P Q : A → bool) (L : list A) l :
  NoDup L → l ∈ L → P l = true → Q l = false → (∀ x, x ≠ l → Q x = P x) →
  length (List.filter P L) = S (length (List.filter Q L)).
Proof.
  intros HN Hl HP HQ Hne. induction HN as [|x L Hx HN IH]; [by apply elem_of_nil in Hl|]. cbn [List.filter].
  destruct (decide (x = l)) as [->|Hxl].
  - rewrite HP, HQ. simpl. f_equal. symmetry. apply filter_length_ext. intros y Hy. apply Hne. by intros ->.
  - apply elem_of_cons in Hl as [->|Hl]; [done|]. rewrite Hne by done. destruct (P x); simpl; by rewrite IH.
Qed.

Lemma filter_length_le {A} (P Q : A → bool) (L : list A) :
  (∀ x, Q x = true → P x = true) → (length (List.filter Q L) ≤ length (List.filter P L))%nat.
Proof.
  intros HQ. induction L as [|x L IH]; [done|]. cbn [List.filter]. pose proof (HQ x) as Hx.
  destruct (Q x); [rewrite Hx by done; simpl; lia|]. destruct (P x); simpl; lia.
Qed.

Lemma listed_evict_one c id l :
  cache_wf c → Get c id = Some l → IsChildrenFetched (deref c l) = true →
  listed_folders (evict_one l c) = listed_folders c - 1.
Proof.
  intros Hwf Hl Hf. destruct (wf_get c id l Hwf Hl) as [Hv _]. unfold listed_folders.
  change (inodes (evict_one l c)) with (inodes c).
  rewrite (filter_length_drop (λ k, IsChildrenFetched (deref c k)) (λ k, IsChildrenFetched (deref (evict_one l c) k)) _ l); [lia|..].
  - by apply wf_locs_NoDup.
  - apply list_elem_of_fmap. exists (id, l). split; [done|]. by apply elem_of_map_to_list.
  - exact Hf.
  - change (deref (evict_one l c) l) with (deref (upd l EvictChildren c) l). by rewrite deref_upd_eq.
  - intros k Hk. change (deref (evict_one l c) k) with (deref (upd l EvictChildren c) k). by rewrite deref_upd_ne by congruence.
Qed.

(** The counter goes down with the number of lists. *)
Lemma sizeLimit_loop_counts n now c :
  cache_wf c → cachedFolders (sizeLimit_loop n now c) - cachedFolders c = listed_folders (sizeLimit_loop n now c) - listed_folders c.
Proof.
  revert c. induction n as [|n IH]; intros c Hwf; [simpl; lia|].
  cbn [sizeLimit_loop]. unfold popEvictableCandidate.
  destruct (popEvictable_loop_idle (S (Len (evictionHeap c))) now c) as (h&Hc&Hr).
  destruct (popEvictableCandidate_loop _ now c) as [[[id s]|] c1]; simpl in Hc, Hr; subst c1;
    [|change (listed_folders (set_evictionHeap h c)) with (listed_folders c); change (cachedFolders (set_evictionHeap h c)) with (cachedFolders c); lia].
  destruct Hr as (l&Hl&Hev). change (Get (set_evictionHeap h c) id) with (Get c id). rewrite Hl.
  destruct (sizeEvictable_spec _ _ Hev) as [Hf _].
  assert (Hwf1 : cache_wf (set_evictionHeap h c)) by (assert (He : cache_ext c (set_evictionHeap h c)) by (by apply ext_same); by apply He).
  pose proof (listed_evict_one (set_evictionHeap h c) id l Hwf1 Hl Hf) as E.
  assert (Hwf2 : cache_wf (evict_one l (set_evictionHeap h c))) by (by apply ext_evict_one).
  specialize (IH _ Hwf2). rewrite E in IH. change (listed_folders (set_evictionHeap h c)) with (listed_folders c) in IH.
  change (cachedFolders (evict_one l (set_evictionHeap h c))) with (cachedFolders c + -1) in IH. lia.
Qed.
Lemma sizeLimit_counts now c :
  cache_wf c → cachedFolders (evictChildrenBySizeLimit now c) - cachedFolders c = listed_folders (evictChildrenBySizeLimit now c) - listed_folders c.
Proof.
  intros Hwf. unfold evictChildrenBySizeLimit. destruct (maxEntries c <=? 0); [lia|].
  destruct (cachedFolders c <=? maxEntries c); [lia|by apply sizeLimit_loop_counts].
Qed.

(** C24: the size eviction only takes the list of a folder that has been idle for
    the grace period and leaves every other inode untouched. The counter of cached
    folders goes down by one for each list it takes, and by no more than the
    counter exceeds the limit; so, as long as the counter is exact, it never brings
    the number of folders that have their list under the limit. (A removed folder
    is still counted, see the finding on [RemoveChild]; then more lists than that
    are taken.) *)
Theorem size_eviction_idle_only now c :
  cache_wf c →
  let c' := evictChildrenBySizeLimit now c in
  (∀ l, deref c' l ≠ deref c l →
     deref c' l = EvictChildren (deref c l) ∧
     sizeEvictIdleGrace ≤ time_Sub now (childrenLastAccess (deref c l))) ∧
  inodes c' = inodes c ∧
  listed_folders c - listed_folders c' = cachedFolders c - cachedFolders c' ∧
  0 ≤ listed_folders c - listed_folders c' ≤ Z.max 0 (cachedFolders c - maxEntries c) ∧
  (cachedFolders c = listed_folders c → maxEntries c ≤ listed_folders c → maxEntries c ≤ listed_folders c').
Proof.
  intros Hwf. destruct (sizeLimit_idle now c Hwf) as (Hi&Hn&_&Hd). pose proof (sizeLimit_counts now c Hwf). cbn zeta.
  assert (listed_folders (evictChildrenBySizeLimit now c) ≤ listed_folders c).
  { unfold listed_folders. rewrite Hi. apply inj_le, filter_length_le. intros l. by destruct (Hd l) as [->|(-> & _)]. }
  split_and!; [|done|lia..].
  intros l Hne. by destruct (Hd l) as [?|(?&_&?&_)].
Qed.

(** Two listed folders, a limit of one, a thousand seconds later: one list goes. *)
Definition two_listed : InodeCache :=
  set_maxEntries 1 (populate_children (1000 * Second) "b" None true [] example_cache).2.

Lemma size_eviction_idle_only_witness :
  let c' := evictChildrenBySizeLimit (2000 * Second) two_listed in
  inodes c' = inodes two_listed ∧ listed_folders two_listed = 2 ∧ listed_folders c' = 1 ∧ 1 ≤ listed_folders c'.
Proof.
  destruct (size_eviction_idle_only (2000 * Second) two_listed) as (_ & Hi & _ & _ & Hm).
  { apply wf_set_maxEntries, ext_populate, example_cache_wf. }
  split; [exact Hi|]. split; [vm_compute; reflexivity|]. split; [vm_compute; reflexivity|].
  apply Hm; [vm_compute; reflexivity|vm_compute; discriminate].
Defined.

(** The candidate popped for size eviction is a least one, in score and then
    age, among the current entries of the heap; only stale entries are dropped
    on the way, an active candidate goes back into the heap, and the heap order
    is kept. *)
Theorem popEvictableCandidate_least now c :
  heap_num (evictionHeap c) → heap_ordered (evictionHeap c) →
  popped now c (popEvictableCandidate now c).1 (popEvictableCandidate now c).2.
Proof. intros Hn Ho. apply popEvictable_loop_spec; [simpl; lia|done|done]. Qed.

Lemma popEvictableCandidate_least_witness :
  (popEvictableCandidate (2000 * Second) example_cache).1 =
    Some ("a", S754_finite false 4503599627370496 (-52)) ∧
  popped (2000 * Second) example_cache (popEvictableCandidate (2000 * Second) example_cache).1
    (popEvictableCandidate (2000 * Second) example_cache).2.
Proof.
  split; [vm_compute; reflexivity|].
  apply popEvictableCandidate_least.
  - assert (E : evictionHeap example_cache =
      [mkEvictionEntry "a" (S754_finite false 4503599627370496 (-52)) (1000 * Second) 1])
      by (vm_compute; reflexivity).
    unfold heap_num. rewrite E. by apply Forall_singleton.
  - intros k Hk. exfalso. vm_compute in Hk. lia.
Defined.

(** The effective TTL of a base TTL of at most 62 hours is the base times
    1 + n/2, capped at 20: it is between the base and 20 times the base, never
    decreases with the access count, and follows the formula up to the cap. *)
Theorem effectiveTTL_bounds base a b :
  0 ≤ base → base * 40 < 2 ^ 53 → 0 ≤ a ≤ b →
  base ≤ effectiveTTL base a ∧ effectiveTTL base b ≤ 20 * base ∧
  effectiveTTL base a ≤ effectiveTTL base b ∧
  (a ≤ 38 → effectiveTTL base a = base * (2 + a) / 2) ∧
  (38 ≤ b → effectiveTTL base b = 20 * base).
Proof.
  intros H0 H1 Hab. rewrite !effectiveTTL_exact by lia.
  pose proof (ttl_halves_range a ltac:(lia)). pose proof (ttl_halves_range b ltac:(lia)).
  pose proof (ttl_halves_mono a b Hab).
  split; [apply Z.div_le_lower_bound; nia|].
  split; [apply Z.div_le_upper_bound; nia|].
  split; [apply Z.div_le_mono; nia|]. split.
  - intros Ha. unfold ttl_halves. cbn zeta. rewrite (round53_small a), round53_small by lia.
    destruct (Z.ltb_spec 40 (2 + a)); [lia|done].
  - intros Hb. assert (Hh : 40 ≤ ttl_halves 38) by (vm_compute; discriminate).
    pose proof (ttl_halves_mono 38 b ltac:(lia)).
    replace (ttl_halves b) with 40 by lia. symmetry. apply Z.div_unique with 0; lia.
Qed.

Lemma effectiveTTL_bounds_witness :
  effectiveTTL (60 * Second) 4 = 180 * Second ∧ effectiveTTL (60 * Second) 1000 ≤ 20 * (60 * Second).
Proof.
  split; [vm_compute; reflexivity|].
  apply (effectiveTTL_bounds (60 * Second) 4 1000); vm_compute; try split; discriminate || reflexivity.
Defined.
