(* ===== verification/CacheTheorems.v ===== *)
(** The metadata cache as a state machine: every operation is a step, and the
    invariant holds in every reachable state. Listing a folder, resolving a
    path, the offline fallback and the local-to-remote ID swap. *)

From Stdlib Require Import SpecFloat ZifyNat.
From S2P Require Export CacheSweep.

#[local] Open Scope Z_scope.

(** ** Steps *)

(** The clock of a single operation. *)
#[global] Instance time_clock : Clock Time := λ t, t.

(** One operation of the cache, or a write to an inode through a pointer its
    holder kept: the FUSE nodes and the delta sync change everything but the ID
    this way. After an upload that created an item, the upload manager also writes
    the ID of the inode in place and then calls [MoveID], without a lock over the
    two ([upload_manager.go], [processSession]): with [atomic], no other operation
    comes between them; without, such a write is a step of its own. *)
Inductive cache_step (atomic : bool) : InodeCache → InodeCache → Prop :=
  | step_Insert now i c : cache_step atomic c (Insert now (Some (alloc i c).1) (alloc i c).2)
  | step_Insert_ptr now l c : opt_ok (valid c) l → cache_step atomic c (Insert now l c)
  | step_Delete id c : cache_step atomic c (Delete id c)
  | step_InsertChild pid i c :
      cache_step atomic c (InsertChild pid (Some (alloc i c).1) (alloc i c).2)
  | step_RemoveChild pid id c : cache_step atomic c (RemoveChild pid id c)
  | step_MoveID old new c : cache_step atomic c (MoveID old new c)
  | step_MoveChild now p1 p2 id c : cache_step atomic c (MoveChild now p1 p2 id c)
  | step_Invalidate now id c : cache_step atomic c (Invalidate now id c)
  | step_InvalidateAll now c : cache_step atomic c (InvalidateAll now c)
  | step_getChildren now pid fetch d c : opt_ok fetch_ok fetch →
      cache_step atomic c (getChildren pid fetch d (now, c)).2.2
  | step_sweep now c : cache_step atomic c (sweep now c)
  | step_fullScan now c : cache_step atomic c (evictExpiredChildrenFullScan now c)
  | step_SetOffline v c : cache_step atomic c (SetOffline v c)
  | step_SetBaseTTL d c : cache_step atomic c (SetBaseTTL d c)
  | step_SetMaxEntries n c : cache_step atomic c (SetMaxEntries n c)
  | step_update l f c : (∀ i, ID (f i) = ID i) → cache_step atomic c (upd l f c)
  | step_publish old new f c : (∀ i, ID (f i) = ID i) →
      cache_step atomic c (MoveID old new
        match Get c old with Some l => upd l (λ i, SetID new (f i)) c | None => c end)
  | step_write_ID l f c : atomic = false → cache_step atomic c (upd l f c).

(** Writing the new ID first makes no difference to [MoveID]. *)
Lemma MoveID_publish old new l f c :
  Get c old = Some l → MoveID old new (upd l (λ i, SetID new (f i)) c) = MoveID old new (upd l f c).
Proof.
  intros Hl. unfold MoveID, Get, upd in *. cbn zeta. simpl. rewrite Hl.
  rewrite !alter_alter_eq. done.
Qed.

Lemma ext_publish old new f c :
  (∀ i, ID (f i) = ID i) →
  cache_ext c (MoveID old new match Get c old with Some l => upd l (λ i, SetID new (f i)) c | None => c end).
Proof.
  intros Hf. destruct (Get c old) as [l|] eqn:Hl; [|apply ext_MoveID].
  rewrite MoveID_publish by done. etrans; [by apply (ext_upd c l f)|apply ext_MoveID].
Qed.

(** A step keeps the weaker invariant, and the stronger one unless it is a write
    of an ID of its own. *)
Lemma cache_step_ok atomic c c' : cache_step atomic c c' →
  (cache_ok c → cache_ok c') ∧ (atomic = true → cache_wf c → cache_wf c').
Proof.
  intros Hs. cut (cache_ext c c' ∨ atomic = false ∧ ∃ l f, c' = upd l f c).
  { intros [[[? ?] _]|[-> (l & f & ->)]]; [by split|]. split; [apply ok_upd|done]. }
  destruct Hs; [left..|right; eauto].
  - etrans; [apply (ext_alloc c i)|]. apply ext_Insert. apply alloc_spec.
  - by apply ext_Insert.
  - apply ext_Delete.
  - etrans; [apply (ext_alloc c i)|]. apply ext_InsertChild. apply alloc_spec.
  - apply ext_RemoveChild.
  - apply ext_MoveID.
  - apply ext_MoveChild.
  - apply ext_Invalidate.
  - apply ext_InvalidateAll.
  - by apply ext_getChildren.
  - apply ext_sweep.
  - apply ext_fullScan.
  - by apply ext_same.
  - by apply ext_same.
  - by apply ext_same.
  - by apply ext_upd.
  - by apply ext_publish.
Qed.

(** C7: in every state that the operations of the cache can reach, together with
    the writes to the inodes that other components make through their pointers,
    the swap of an ID by the upload manager included, every ID of the map leads to
    an inode, no ID is both dirty and deleted, the ring keeps its 60 buckets and
    every TTL entry is in the bucket of its expiry. As long as no operation comes
    between the upload manager's write of a new ID and its [MoveID], each ID of the
    map also leads to an inode of that very ID. *)
Theorem cache_reachable_wf c :
  (rtc (cache_step false) NewInodeCache c → cache_ok c) ∧
  (rtc (cache_step true) NewInodeCache c → cache_wf c).
Proof.
  split; intros Hr.
  - apply (rtc_invariant (cache_step false) cache_ok NewInodeCache c); [|apply wf_ok, wf_new|exact Hr].
    intros a b Ha Hs. exact (proj1 (cache_step_ok _ a b Hs) Ha).
  - apply (rtc_invariant (cache_step true) cache_wf NewInodeCache c); [|apply wf_new|exact Hr].
    intros a b Ha Hs. exact (proj2 (cache_step_ok _ a b Hs) eq_refl Ha).
Qed.

Definition example_folder (id pid : string) : Inode :=
  SetParentID pid (inode_of_item (set_item_Folder (Some zero_Folder)
    (set_item_Name id (set_item_ID id zero_DriveItem)))).

(** A folder made offline whose upload swaps its ID; and the state in the middle
    of the swap, in which the map leads the old ID to an inode of the new one. *)
Definition offline_folder : InodeCache :=
  Insert 5 (Some (alloc (example_folder "local-1" "root") NewInodeCache).1) (alloc (example_folder "local-1" "root") NewInodeCache).2.

Lemma cache_reachable_wf_witness :
  cache_wf (MoveID "local-1" "X" (upd 0%N (λ i, SetID "X" i) offline_folder)) ∧
  cache_ok (upd 0%N (SetID "X") offline_folder) ∧
  ((λ l, ID (deref (upd 0%N (SetID "X") offline_folder) l)) <$> Get (upd 0%N (SetID "X") offline_folder) "local-1") = Some "X".
Proof.
  assert (Hg : Get offline_folder "local-1" = Some 0%N) by (vm_compute; reflexivity).
  assert (H1 : ∀ b, cache_step b NewInodeCache offline_folder) by (intros b; apply (step_Insert b 5 (example_folder "local-1" "root"))).
  split; [|split; [|vm_compute; reflexivity]].
  - pose proof (step_publish true "local-1" "X" (λ i, i) offline_folder (λ i, eq_refl)) as H2. rewrite Hg in H2.
    exact (proj2 (cache_reachable_wf _) (rtc_l _ _ _ _ (H1 true) (rtc_once _ _ H2))).
  - exact (proj1 (cache_reachable_wf _) (rtc_l _ _ _ _ (H1 false)
      (rtc_once _ _ (step_write_ID false 0%N (SetID "X") offline_folder eq_refl)))).
Defined.

(** ** Population *)

Section population.
Implicit Types c : InodeCache.

(** The inode [populate_one] makes of an item. *)
Definition child_inode (pid : string) (item : DriveItem) : Inode :=
  let i := inode_of_item item in
  if bool_decide (ParentID i = "") then SetParentID pid i else i.

Lemma child_inode_ID pid item : ID (child_inode pid item) = item_ID item.
Proof. unfold child_inode. cbn zeta. by case_bool_decide. Qed.
Lemma child_inode_Name pid item : Name (child_inode pid item) = item_Name item.
Proof. unfold child_inode. cbn zeta. by case_bool_decide. Qed.
Lemma child_inode_ParentID pid item :
  ParentID (child_inode pid item) =
  if bool_decide (ParentID (inode_of_item item) = "") then pid else ParentID (inode_of_item item).
Proof. unfold child_inode. cbn zeta. by case_bool_decide. Qed.

(** Old pointers keep their objects through the population loop. *)
Lemma populate_loop_old pid d items c ids m :
  cache_wf c →
  let s := foldl (populate_one pid d) (c, ids, m) items in
  (∀ l, valid c l → deref s.1.1 l = deref c l) ∧
  s.1.2 = ids ++ (item_ID <$> items) ∧ cachedFolders s.1.1 = cachedFolders c ∧
  baseTTL s.1.1 = baseTTL c ∧ evictions s.1.1 = evictions c.
Proof.
  revert c ids m. induction items as [|it items IH]; intros c ids m Hwf; cbn zeta.
  { simpl. by rewrite app_nil_r. }
  cbn [foldl]. set (s1 := populate_one pid d (c, ids, m) it).
  assert (Hs1 : s1 = (s1.1.1, ids ++ [item_ID it], s1.2)).
  { unfold s1, populate_one. cbn zeta. fold (child_inode pid it).
    destruct d; simpl; by rewrite child_inode_ID. }
  assert (Hext : cache_ext c s1.1.1) by apply (ext_populate_one pid d (c, ids, m) it).
  assert (Hold : ∀ l, valid c l → deref s1.1.1 l = deref c l).
  { intros l Hl. rewrite <- (deref_alloc_old c (child_inode pid it) l Hwf Hl).
    unfold s1, populate_one. cbn zeta. fold (child_inode pid it). by destruct d. }
  rewrite Hs1. destruct (IH s1.1.1 (ids ++ [item_ID it]) s1.2) as (H1&H2&H3&H4&H5); [by apply Hext|].
  split; [|split; [|split; [|split]]].
  - intros l Hl. rewrite H1; [by apply Hold|by apply Hext].
  - rewrite H2, <- app_assoc. done.
  - rewrite H3. unfold s1, populate_one. cbn zeta. by destruct d.
  - rewrite H4. unfold s1, populate_one. cbn zeta. by destruct d.
  - rewrite H5. unfold s1, populate_one. cbn zeta. by destruct d.
Qed.

(** What the population leaves: each fetched item is in the map, under its ID,
    as the inode made of it (when the IDs are distinct), and the child map
    leads its name to it (when the names are distinct). *)
Lemma populate_loop_new pid d items c ids m :
  cache_wf c → NoDup (item_ID <$> items) → NoDup (item_Name <$> items) →
  let s := foldl (populate_one pid d) (c, ids, m) items in
  (∀ item, item ∈ items → ∃ l, Get s.1.1 (item_ID item) = Some l ∧
    deref s.1.1 l = child_inode pid item ∧ s.2 !! item_Name item = Some l) ∧
  (∀ id, id ∉ item_ID <$> items → Get s.1.1 id = Get c id) ∧
  (∀ n, n ∉ item_Name <$> items → s.2 !! n = m !! n).
Proof.
  revert c ids m. induction items as [|it items IH]; intros c ids m Hwf HN1 HN2; cbn zeta.
  { split; [|done]. intros item Hi. by apply elem_of_nil in Hi. }
  rewrite !fmap_cons in HN1, HN2. apply NoDup_cons in HN1 as [Hn1 HN1]. apply NoDup_cons in HN2 as [Hn2 HN2].
  cbn [foldl]. set (s1 := populate_one pid d (c, ids, m) it).
  assert (Hext : cache_ext c s1.1.1) by apply (ext_populate_one pid d (c, ids, m) it).
  assert (Hnew : valid s1.1.1 (nextLoc c) ∧ deref s1.1.1 (nextLoc c) = child_inode pid it ∧
    (∀ id, Get s1.1.1 id = if decide (id = item_ID it) then Some (nextLoc c) else Get c id) ∧
    (∀ n, s1.2 !! n = if decide (n = item_Name it) then Some (nextLoc c) else m !! n)).
  { unfold s1, populate_one. cbn zeta. fold (child_inode pid it).
    destruct (alloc_spec c (child_inode pid it)) as [Hv Hd].
    split; [by destruct d|]. split; [by destruct d|]. split.
    - intros id. unfold Get. destruct d; simpl; rewrite child_inode_ID;
        (case_decide as E; [subst; by rewrite lookup_insert_eq|by rewrite lookup_insert_ne]).
    - intros n. simpl. rewrite child_inode_Name.
      case_decide as E; [subst; by rewrite lookup_insert_eq|by rewrite lookup_insert_ne]. }
  destruct Hnew as (Hv&Hd&HG&Hm).
  destruct s1 as [[c1 ids1] m1]. simpl in *.
  assert (Hwf1 : cache_wf c1) by (by apply Hext).
  destruct (IH c1 ids1 m1 Hwf1 HN1 HN2) as (H1&H2&H3).
  destruct (populate_loop_old pid d items c1 ids1 m1 Hwf1) as (Hold&_).
  cbn zeta in *. destruct (foldl (populate_one pid d) (c1, ids1, m1) items) as [[c2 ids2] m2].
  simpl in *. split; [|split].
  - intros item [->|Hin]%elem_of_cons; [|by apply H1]. exists (nextLoc c).
    rewrite H2, HG, decide_True by done. split; [done|].
    rewrite Hold by done. split; [done|]. by rewrite H3, Hm, decide_True.
  - intros id [Hne Hn]%not_elem_of_cons. by rewrite H2, HG, decide_False.
  - intros n [Hne Hn]%not_elem_of_cons. by rewrite H3, Hm, decide_False.
Qed.
End population.

(** ** The listed folder *)

Lemma registerTTL_view l c l' :
  deref (registerTTL l c) l' = deref c l' ∧ inodes (registerTTL l c) = inodes c ∧
  baseTTL (registerTTL l c) = baseTTL c ∧ (valid (registerTTL l c) l' ↔ valid c l').
Proof. unfold registerTTL. by destruct (negb _). Qed.
Lemma updateEvictionEntry_view l now c l' :
  deref (updateEvictionEntry l now c) l' = deref c l' ∧
  inodes (updateEvictionEntry l now c) = inodes c ∧
  baseTTL (updateEvictionEntry l now c) = baseTTL c ∧
  (valid (updateEvictionEntry l now c) l' ↔ valid c l').
Proof. unfold updateEvictionEntry. by destruct (negb _). Qed.

(** The parent inode after a population. *)
Definition listed (now : Time) (ids : list string) (n : Z) (i : Inode) : Inode :=
  SetSubdir n (BumpChildrenAccess now (SetChildren now (Some ids) i)).

Lemma populate_children_parent now pid p d items c :
  cache_wf c → Get c pid = Some p → pid ∉ item_ID <$> items → NoDup (item_ID <$> items) →
  NoDup (item_Name <$> items) →
  let r := populate_children now pid (Some p) d items c in
  (∃ n, deref r.2 p = listed now (item_ID <$> items) n (deref c p)) ∧
  Get r.2 pid = Some p ∧ baseTTL r.2 = baseTTL c ∧
  (∀ item, item ∈ items → ∃ l, Get r.2 (item_ID item) = Some l ∧
     deref r.2 l = child_inode pid item ∧ r.1 !! item_Name item = Some l) ∧
  (∀ n, n ∉ item_Name <$> items → r.1 !! n = None).
Proof.
  intros Hwf Hp Hpid HN1 HN2. destruct (wf_get c pid p Hwf Hp) as [Hv Hid].
  unfold populate_children. cbn zeta.
  destruct (populate_loop_old pid d items c [] ∅ Hwf) as (Hold&Hids&_&Hbase&_).
  destruct (populate_loop_new pid d items c [] ∅ Hwf HN1 HN2) as (Hnew&HG&Hm).
  pose proof (ext_populate_loop pid d items (c, [], ∅)) as Hext.
  cbn zeta in *. destruct (foldl _ _ items) as [[c1 ids] m]. simpl in *. subst ids.
  assert (Hwf1 : cache_wf c1) by (by apply Hext).
  assert (Hv1 : valid c1 p) by (by apply Hext).
  set (cb := upd p (BumpChildrenAccess now) (upd p (SetChildren now (Some (item_ID <$> items))) c1)).
  set (c2 := updateEvictionEntry p now (registerTTL p cb)).
  set (c3 := if IsChildrenFetched (deref c1 p) then c2 else addCached 1 c2).
  set (c4 := if d then markDirty pid c3 else c3).
  assert (Hview : ∀ l, deref c4 l = deref cb l ∧ inodes c4 = inodes c1 ∧ baseTTL c4 = baseTTL c1 ∧
      (valid c4 l ↔ valid cb l)).
  { intros l. destruct (updateEvictionEntry_view p now (registerTTL p cb) l) as (U1&U2&U3&U4).
    destruct (registerTTL_view p cb l) as (R1&R2&R3&R4).
    assert (Hc4 : deref c4 l = deref c2 l ∧ inodes c4 = inodes c2 ∧ baseTTL c4 = baseTTL c2 ∧
      (valid c4 l ↔ valid c2 l)).
    { subst c4 c3. by destruct d, (IsChildrenFetched (deref c1 p)). }
    destruct Hc4 as (K1&K2&K3&K4). rewrite K1, K2, K3, K4. subst c2.
    rewrite U1, U2, U3, U4, R1, R2, R3, R4. done. }
  assert (Hvb : valid cb p) by (apply valid_upd, valid_upd; done).
  assert (Hdp : ∀ l, l ≠ p → deref cb l = deref c1 l).
  { intros. subst cb. by rewrite !deref_upd_ne. }
  split; [|split; [|split; [|split]]].
  - exists (count_dirs c4 m). rewrite deref_upd_eq by (by apply Hview).
    destruct (Hview p) as (->&_). subst cb.
    rewrite deref_upd_eq by (by apply valid_upd). rewrite deref_upd_eq by done.
    by rewrite Hold.
  - unfold Get. simpl. destruct (Hview p) as (_&->&_). by rewrite <- Hp, <- HG.
  - simpl. destruct (Hview p) as (_&_&->&_). done.
  - intros item Hin. destruct (Hnew item Hin) as (l&Hl&Hd&Hml). exists l.
    assert (Hne : l ≠ p).
    { intros ->. apply Hpid. replace pid with (item_ID item); [by apply list_elem_of_fmap_2|].
      apply (wf_inj c1 _ _ p); [done|done|]. by rewrite <- Hp, <- HG. }
    split; [|split; [|done]].
    + unfold Get. simpl. by destruct (Hview p) as (_&->&_).
    + rewrite deref_upd_ne by done. destruct (Hview l) as (->&_). by rewrite Hdp.
  - intros n Hn. by rewrite Hm, lookup_empty.
Qed.

(** [buildChildMap] over listed IDs with distinct names. *)
Lemma buildChildMap_spec c items (m : gmap string N) :
  (∀ item, item ∈ items → ∃ l, Get c (item_ID item) = Some l ∧ Name (deref c l) = item_Name item) →
  NoDup (item_Name <$> items) →
  let r := foldl (λ m id, match Get c id with Some l => <[Name (deref c l) := l]> m | None => m end)
             m (item_ID <$> items) in
  (∀ item l, item ∈ items → Get c (item_ID item) = Some l → r !! item_Name item = Some l) ∧
  (∀ n, n ∉ item_Name <$> items → r !! n = m !! n).
Proof.
  revert m. induction items as [|it items IH]; intros m Hall HN; cbn zeta.
  { split; [|done]. intros item l Hi. by apply elem_of_nil in Hi. }
  rewrite !fmap_cons in *. apply NoDup_cons in HN as [Hn HN]. cbn [foldl].
  destruct (Hall it) as (l0&Hl0&Hname); [by left|]. rewrite Hl0, Hname.
  destruct (IH (<[item_Name it := l0]> m)) as [H1 H2]; [intros; apply Hall; by right|done|].
  split.
  - intros item l [->|Hin]%elem_of_cons Hl; [|by apply H1].
    rewrite H2 by done. rewrite lookup_insert_eq. congruence.
  - intros n [Hne Hn']%not_elem_of_cons. rewrite H2 by done. by rewrite lookup_insert_ne.
Qed.

Lemma effectiveTTL_ge_base base n :
  0 ≤ base → base * 40 < 2 ^ 53 → 0 ≤ n → base ≤ effectiveTTL base n.
Proof.
  intros. rewrite effectiveTTL_exact by done. pose proof (ttl_halves_range n ltac:(done)).
  apply Z.div_le_lower_bound; nia.
Qed.

(** A folder that is cached but not fresh is listed through the fetcher:
    the caller gets one inode per fetched item, under its name and with the
    folder as its parent when Graph gave none. Until the base TTL has passed
    since, listing it again gives the same inodes without any query, whatever
    the fetcher is. *)
Theorem listing_then_hit {W} `{Clock W} pid p f d w w' c c1 items :
  cache_wf c1 → Get c pid = Some p → Get c1 pid = Some p →
  fresh_listing (w_now w) c (Some p) = None →
  f pid (w, set_misses (u64 (misses c + 1)) c) = (inr items, (w', c1)) →
  NoDup (item_ID <$> items) → NoDup (item_Name <$> items) → pid ∉ item_ID <$> items →
  0 ≤ baseTTL c1 → baseTTL c1 * 40 < 2 ^ 53 →
  ∃ m c2, getChildren pid (Some f) d (w, c) = (inr m, (w', c2)) ∧
    (∀ item, item ∈ items → ∃ l, m !! item_Name item = Some l ∧ deref c2 l = child_inode pid item) ∧
    (∀ n, n ∉ item_Name <$> items → m !! n = None) ∧
    ∀ w2 fetch d2, 0 ≤ w_now w2 - w_now w' < baseTTL c1 →
      ∃ c3, getChildren pid fetch d2 (w2, c2) = (inr m, (w2, c3)) ∧ hits c3 = u64 (hits c2 + 1).
Proof.
  intros Hwf Hp Hp1 Hfresh Hf HN1 HN2 Hpid Hb0 Hb1.
  destruct (populate_children_parent (w_now w') pid p d items c1 Hwf Hp1 Hpid HN1 HN2)
    as ((n&Hpar)&Hgp&Hbase&Hnew&Hdom).
  exists (populate_children (w_now w') pid (Some p) d items c1).1,
    (populate_children (w_now w') pid (Some p) d items c1).2.
  unfold getChildren at 1. rewrite Hp, Hfresh, Hf.
  destruct (populate_children (w_now w') pid (Some p) d items c1) as [m c2]. cbn [fst snd] in *.
  split; [done|]. split; [|split; [done|]].
  { intros item Hin. destruct (Hnew item Hin) as (l&?&?&?). eauto. }
  intros w2 fetch d2 Hw. unfold getChildren. rewrite Hgp.
  assert (Hhit : fresh_listing (w_now w2) c2 (Some p) = Some p).
  { unfold fresh_listing, isChildrenFresh. simpl. rewrite Hpar, Hbase. simpl.
    pose proof (effectiveTTL_ge_base (baseTTL c1) (u64 (childrenAccessCount (deref c1 p) + 1))
      Hb0 Hb1 (proj1 (u64_range _))).
    destruct (Z.ltb_spec (time_Sub (w_now w2) (w_now w'))
      (effectiveTTL (baseTTL c1) (u64 (childrenAccessCount (deref c1 p) + 1)))); [done|].
    exfalso. unfold time_Sub in *. lia. }
  rewrite Hhit.
  set (c3 := updateEvictionEntry p (w_now w2) (registerTTL p (upd p (BumpChildrenAccess (w_now w2))
    (set_hits (u64 (hits c2 + 1)) c2)))).
  exists c3. split; [|subst c3; unfold updateEvictionEntry, registerTTL; by repeat case_match].
  f_equal. f_equal.
  set (cb := upd p (BumpChildrenAccess (w_now w2)) (set_hits (u64 (hits c2 + 1)) c2)) in *.
  assert (Hview : ∀ l, deref c3 l = deref cb l ∧ inodes c3 = inodes c2).
  { intros l. destruct (updateEvictionEntry_view p (w_now w2) (registerTTL p cb) l) as (E1&E2&_).
    destruct (registerTTL_view p cb l) as (E3&E4&_). subst c3. split; [congruence|].
    etrans; [exact E2|exact E4]. }
  assert (Hvp : valid c2 p).
  { unfold valid. destruct (store c2 !! p) eqn:E; [by eexists|].
    exfalso. unfold deref in Hpar. rewrite E in Hpar. simpl in Hpar. discriminate Hpar. }
  assert (Hch : children (deref c3 p) = Some (item_ID <$> items)).
  { destruct (Hview p) as [-> _]. subst cb. rewrite deref_upd_eq by done.
    change (deref (set_hits (u64 (hits c2 + 1)) c2) p) with (deref c2 p). by rewrite Hpar. }
  rewrite Hch. simpl. unfold buildChildMap.
  destruct (buildChildMap_spec c3 items ∅) as [HB1 HB2]; [|done|].
  { intros item Hin. destruct (Hnew item Hin) as (l&Hl&Hd&_). exists l.
    destruct (Hview l) as [Hdl Hi]. unfold Get in *. rewrite Hi. split; [done|].
    rewrite Hdl. destruct (decide (l = p)) as [->|Hne].
    - subst cb. rewrite deref_upd_eq by done.
      change (deref (set_hits (u64 (hits c2 + 1)) c2) p) with (deref c2 p). rewrite Hd.
      apply child_inode_Name.
    - subst cb. rewrite deref_upd_ne by done.
      change (deref (set_hits (u64 (hits c2 + 1)) c2) l) with (deref c2 l). rewrite Hd.
      apply child_inode_Name. }
  apply map_eq. intros k. destruct (decide (k ∈ item_Name <$> items)) as [Hk|Hk].
  - apply list_elem_of_fmap in Hk as (item&->&Hin). destruct (Hnew item Hin) as (l&Hl&_&Hm).
    rewrite Hm. apply HB1; [done|]. unfold Get in *. by destruct (Hview l) as [_ ->].
  - rewrite Hdom by done. by rewrite HB2, lookup_empty.
Qed.

Definition example_file (id : string) : DriveItem :=
  set_item_Name id (set_item_ID id zero_DriveItem).
Definition unlisted_cache : InodeCache :=
  Insert 5 (Some (alloc (example_folder "a" "root") NewInodeCache).1)
    (alloc (example_folder "a" "root") NewInodeCache).2.

Lemma unlisted_cache_wf : cache_wf unlisted_cache.
Proof.
  apply ext_Insert; [apply alloc_spec|]. apply wf_alloc, wf_new.
Qed.
Lemma wf_set_misses n c : cache_wf c → cache_wf (set_misses n c).
Proof. assert (H : cache_ext c (set_misses n c)) by (by apply ext_same). apply H. Qed.

Lemma listing_then_hit_witness :
  let f : ChildrenFetcher Time := λ _ s, (inr [example_file "f1"; example_file "f2"], s) in
  ∃ m c2, getChildren "a" (Some f) true (100, unlisted_cache) = (inr m, (100, c2)) ∧
    (∀ item, item ∈ [example_file "f1"; example_file "f2"] →
       ∃ l, m !! item_Name item = Some l ∧ deref c2 l = child_inode "a" item) ∧
    (∀ n, n ∉ item_Name <$> [example_file "f1"; example_file "f2"] → m !! n = None) ∧
    ∀ w2 fetch d2, 0 ≤ w_now w2 - w_now 100 < baseTTL (set_misses 1 unlisted_cache) →
      ∃ c3, getChildren "a" fetch d2 (w2, c2) = (inr m, (w2, c3)) ∧ hits c3 = u64 (hits c2 + 1).
Proof.
  apply (listing_then_hit (W := Time) "a" 0%N
           (λ _ s, (inr [example_file "f1"; example_file "f2"], s)) true 100 100 unlisted_cache
           (set_misses 1 unlisted_cache) [example_file "f1"; example_file "f2"]).
  - apply wf_set_misses, unlisted_cache_wf.
  - vm_compute. reflexivity.
  - vm_compute. reflexivity.
  - vm_compute. reflexivity.
  - reflexivity.
  - apply (bool_decide_unpack _). vm_compute. exact I.
  - apply (bool_decide_unpack _). vm_compute. exact I.
  - apply (bool_decide_unpack _). vm_compute. exact I.
  - vm_compute. discriminate.
  - vm_compute. reflexivity.
Defined.

(** ** Sweeps keep the items *)

(** The map and the item behind every pointer are those of [c]. *)
Definition same_items (c c' : InodeCache) : Prop :=
  inodes c' = inodes c ∧ ∀ l, DriveItem_of (deref c' l) = DriveItem_of (deref c l).

#[global] Instance same_items_preorder : PreOrder same_items.
Proof. split; [by split|]. intros a b c [H1 H2] [H3 H4]. split; [congruence|]. intros l. by rewrite H4. Qed.

Lemma same_items_upd l f c :
  (∀ i, DriveItem_of (f i) = DriveItem_of i) → same_items c (upd l f c).
Proof.
  intros Hf. split; [done|]. intros l'. unfold deref, upd. simpl.
  destruct (decide (l = l')) as [->|]; [|by rewrite lookup_alter_ne].
  rewrite lookup_alter_eq. destruct (store c !! l'); [apply Hf|done].
Qed.
Lemma same_items_evict_one l c : same_items c (evict_one l c).
Proof. apply (same_items_upd l EvictChildren c). done. Qed.

Lemma same_items_processTTLEntry now e c p : same_items c (processTTLEntry now e (c, p)).1.
Proof.
  unfold processTTLEntry. cbn zeta. destruct (Get c _) as [l|]; [|done].
  destruct (negb _); [done|]. case_bool_decide; [done|].
  assert (H0 : same_items c (upd l DecayChildrenAccess c)) by by apply same_items_upd.
  case_match; simpl; (etrans; [exact H0|]); [|apply same_items_evict_one].
  split; [apply registerTTL_view; done|]. intros l'. by destruct (registerTTL_view l (upd l DecayChildrenAccess c) l') as [-> _].
Qed.

Lemma same_items_sweepBucket i now s : same_items s.1 (sweepBucket i now s).1.
Proof.
  destruct s as [c p]. unfold sweepBucket. simpl.
  set (entries := default [] _). clearbody entries.
  transitivity (set_ttlBuckets (<[Z.to_nat i := []]> (ttlBuckets c)) c); [done|].
  generalize (set_ttlBuckets (<[Z.to_nat i := []]> (ttlBuckets c)) c). clear c. intros c. revert c p.
  induction entries as [|e es IH]; intros c p; [done|]. cbn [foldl].
  etrans; [apply (same_items_processTTLEntry now e c p)|].
  destruct (processTTLEntry now e (c, p)) as [c1 p1]. apply IH.
Qed.

Lemma same_items_sweep now c : cache_wf c → same_items c (sweep now c).
Proof.
  intros Hwf. unfold sweep.
  assert (H1 : same_items c (sweepExpiredBuckets now c)).
  { unfold sweepExpiredBuckets. cbn zeta. set (s := if _ <? _ then _ else _).
    enough (Hs : same_items c s.1) by (destruct Hs; by split). subst s. case_match.
    - generalize (seqZ 0 ttlBucketCount). intros l. change c with (c, (∅ : gset string)).1 at 1.
      generalize (c, (∅ : gset string)). induction l as [|i l IH]; intros s; [done|]. cbn [foldl].
      etrans; [apply same_items_sweepBucket|apply IH].
    - generalize (time_Add (if IsZero (lastSweep c) then time_Add now (- ttlBucketWidth) else lastSweep c)
                    ttlBucketWidth) as t.
      change c with (c, (∅ : gset string)).1 at 1.
      generalize (c, (∅ : gset string)), 60%nat. intros s n. revert s.
      induction n as [|n IH]; intros s t; [reflexivity|]. cbn [sweep_loop].
      destruct (time_After t now); [reflexivity|].
      etrans; [apply same_items_sweepBucket|apply IH]. }
  etrans; [exact H1|].
  assert (Hwf1 : cache_wf (sweepExpiredBuckets now c)) by (by apply ext_sweepExpiredBuckets).
  destruct (sizeLimit_idle now _ Hwf1) as (Hi&_&_&Hd). split; [exact Hi|].
  intros l. destruct (Hd l) as [->|[-> _]]; done.
Qed.

Lemma ItemsByParent_elem pid c item :
  item ∈ ItemsByParent pid c ↔
  ∃ id l, Get c id = Some l ∧ ParentID (deref c l) = pid ∧ DriveItem_of (deref c l) = item.
Proof.
  unfold ItemsByParent. rewrite list_elem_of_omap. split.
  - intros ([id l]&Hin%elem_of_map_to_list&H). simpl in H. case_bool_decide; simplify_eq.
    by exists id, l.
  - intros (id&l&Hl&Hp&Hi). exists (id, l). split; [by apply elem_of_map_to_list|]. simpl.
    rewrite bool_decide_true by done. by rewrite Hi.
Qed.

Lemma ItemsByParent_same pid c c' : same_items c c' → ItemsByParent pid c' = ItemsByParent pid c.
Proof.
  intros [H1 H2]. unfold ItemsByParent. rewrite H1. apply list_omap_ext.
  induction (map_to_list (inodes c)) as [|kl m IH]; constructor; [|done].
  unfold ParentID. by rewrite !H2.
Qed.

(** The offline fallback is complete: whatever sweeps ran since a folder was
    listed, and even if they evicted its list, the items the fetcher gave are
    still found by their parent. *)
Theorem offline_fallback_complete now now' pid p d items c :
  cache_wf c → Get c pid = Some p → pid ∉ item_ID <$> items → NoDup (item_ID <$> items) →
  NoDup (item_Name <$> items) → (∀ item, item ∈ items → item_Parent item = None) →
  let c' := sweep now' (populate_children now pid (Some p) d items c).2 in
  ∀ item, item ∈ items →
    set_item_Parent (Some (mkDriveItemParent "" pid "" "")) item ∈ ItemsByParent pid c'.
Proof.
  intros Hwf Hp Hpid HN1 HN2 Hpar c' item Hin.
  destruct (populate_children_parent now pid p d items c Hwf Hp Hpid HN1 HN2) as (_&_&_&Hnew&_).
  assert (Hwf' : cache_wf (populate_children now pid (Some p) d items c).2) by (by apply ext_populate).
  subst c'. rewrite (ItemsByParent_same pid _ _ (same_items_sweep now' _ Hwf')).
  apply ItemsByParent_elem. destruct (Hnew item Hin) as (l&Hl&Hd&_).
  exists (item_ID item), l. split; [done|]. rewrite Hd. unfold child_inode. cbn zeta.
  rewrite bool_decide_true; [done|]. unfold ParentID. simpl. by rewrite (Hpar item Hin).
Qed.

Lemma offline_fallback_complete_witness :
  set_item_Parent (Some (mkDriveItemParent "" "a" "" "")) (example_file "f1") ∈
    ItemsByParent "a" (sweep (9999 * Second)
      (populate_children 100 "a" (Some 0%N) true [example_file "f1"; example_file "f2"] unlisted_cache).2).
Proof.
  apply (offline_fallback_complete 100 (9999 * Second) "a" 0%N true
           [example_file "f1"; example_file "f2"] unlisted_cache).
  - apply unlisted_cache_wf.
  - vm_compute. reflexivity.
  - apply (bool_decide_unpack _). vm_compute. exact I.
  - apply (bool_decide_unpack _). vm_compute. exact I.
  - apply (bool_decide_unpack _). vm_compute. exact I.
  - intros item [->|[->|[]%elem_of_nil]%elem_of_cons]%elem_of_cons; reflexivity.
  - by left.
Defined.

(** ** The local-to-remote ID swap *)

(** After the first upload of a local item, its inode is found under the
    remote ID and no longer under the local one, it is the same object with the
    new ID, the parent's list has the new ID in place of the old one, and the
    dirty tracking removes the old entry from disk and writes the new one. *)
Theorem MoveID_swaps old new l c :
  cache_wf c → Get c old = Some l → old ≠ new →
  let c' := MoveID old new c in
  Get c' new = Some l ∧ Get c' old = None ∧ (∀ id, id ≠ old → id ≠ new → Get c' id = Get c id) ∧
  ID (deref c' l) = new ∧ Name (deref c' l) = Name (deref c l) ∧
  (∀ p, ParentID (deref c l) ≠ "" → Get c (ParentID (deref c l)) = Some p → p ≠ l →
     ParentID (deref c l) ≠ new →
     children (deref c' p) = replace_first old new <$> children (deref c p)) ∧
  new ∈ dirty c' ∧ (ParentID (deref c l) ≠ old → old ∈ deleted c').
Proof.
  intros Hwf Hl Hne. destruct (wf_get c old l Hwf Hl) as [Hv Hid].
  unfold MoveID. cbn zeta. rewrite Hl, (bool_decide_false (old = new)) by done.
  set (c1 := markDirty new (markDeleted old (inodes_Delete old (inodes_Store new l (upd l (SetID new) c))))).
  assert (Hd1 : deref c1 l = SetID new (deref c l)) by apply (deref_upd_eq c l (SetID new) Hv).
  assert (Hd2 : ∀ l', l' ≠ l → deref c1 l' = deref c l')
    by (intros l' ?; by apply (deref_upd_ne c l l' (SetID new))).
  assert (HG : ∀ id, Get c1 id = if decide (id = old) then None else if decide (id = new) then Some l
      else Get c id).
  { intros id. unfold Get. simpl. case_decide as E1; [by subst; apply lookup_delete_eq|].
    rewrite lookup_delete_ne by done. case_decide as E2; [by subst; apply lookup_insert_eq|].
    by rewrite lookup_insert_ne. }
  assert (Hpid : ParentID (deref c1 l) = ParentID (deref c l)) by (by rewrite Hd1).
  rewrite Hpid.
  assert (Hset : new ∈ dirty c1 ∧ old ∈ deleted c1) by (simpl; set_solver).
  (** The state after the parent's list is updated, if it is. *)
  set (c' := if bool_decide _ then _ else _).
  assert (Hc' : inodes c' = inodes c1 ∧ new ∈ dirty c' ∧
    (ParentID (deref c l) ≠ old → old ∈ deleted c') ∧
    (∀ l', ID (deref c' l') = ID (deref c1 l') ∧ Name (deref c' l') = Name (deref c1 l')) ∧
    (∀ p, ParentID (deref c l) ≠ "" → Get c (ParentID (deref c l)) = Some p → p ≠ l →
       ParentID (deref c l) ≠ new →
       children (deref c' p) = replace_first old new <$> children (deref c p))).
  { destruct Hset as [Hs1 Hs2]. subst c'. case_bool_decide as Ep.
    { by split_and!. }
    destruct (Get c1 (ParentID (deref c l))) as [p1|] eqn:Hp1.
    - set (f := λ i, set_children (replace_first old new <$> children i) i).
      assert (Hdd : ∀ l', deref (markDirty (ParentID (deref c l)) (upd p1 f c1)) l' = deref (upd p1 f c1) l')
        by done.
      split_and!; [done|by apply elem_of_union_r|intros; apply elem_of_difference; split; [done|by apply not_elem_of_singleton]| |].
      + intros l'. rewrite Hdd. destruct (decide (p1 = l')) as [->|]; [|by rewrite deref_upd_ne].
        unfold deref, upd. simpl. rewrite lookup_alter_eq. by destruct (_ !! l').
      + intros p _ Hp Hpl Hpn. rewrite Hdd. rewrite HG in Hp1.
        assert (ParentID (deref c l) ≠ old) by (intros E; rewrite E, Hl in Hp; congruence).
        rewrite !decide_False in Hp1 by done. rewrite Hp in Hp1. injection Hp1 as <-.
        rewrite deref_upd_eq; [by rewrite Hd2|].
        apply (valid_upd c l (SetID new)). by apply (wf_get c (ParentID (deref c l))).
    - split_and!; try done. intros p _ Hp Hpl Hpn. exfalso. rewrite HG in Hp1.
      assert (ParentID (deref c l) ≠ old) by (intros E; rewrite E, Hl in Hp; congruence).
      rewrite !decide_False in Hp1 by done. congruence. }
  destruct Hc' as (Hi&Hdirty&Hdel&Hsame&Hch).
  assert (HG' : ∀ id, Get c' id = Get c1 id) by (intros; unfold Get; by rewrite Hi).
  rewrite !HG', !HG, (decide_False (P := new = old)), decide_True, decide_True by done.
  split; [done|]. split; [done|]. split; [intros id ??; by rewrite HG', HG, !decide_False|].
  destruct (Hsame l) as [-> ->]. rewrite Hd1. split; [done|]. split; [done|]. done.
Qed.

Lemma MoveID_swaps_witness :
  let c := Insert 5 (Some (alloc (example_folder "local-1" "root") NewInodeCache).1)
             (alloc (example_folder "local-1" "root") NewInodeCache).2 in
  Get (MoveID "local-1" "X" c) "X" = Some 0%N.
Proof.
  apply (MoveID_swaps "local-1" "X" 0%N
    (Insert 5 (Some (alloc (example_folder "local-1" "root") NewInodeCache).1)
             (alloc (example_folder "local-1" "root") NewInodeCache).2)).
  - apply ext_Insert; [apply alloc_spec|]. apply wf_alloc, wf_new.
  - vm_compute. reflexivity.
  - discriminate.
Defined.

(** [MoveID] with the same ID twice does not keep the inode where it is: the
    key is stored and then deleted, so the item disappears from the cache while
    its ID is marked dirty. *)
Theorem MoveID_same_drops id l c :
  cache_wf c → Get c id = Some l → Get (MoveID id id c) id = None ∧ id ∈ dirty (MoveID id id c).
Proof.
  intros Hwf Hl. unfold MoveID. cbn zeta. rewrite Hl, (bool_decide_true (id = id)) by done.
  set (c1 := markDirty id _). assert (H1 : Get c1 id = None ∧ id ∈ dirty c1).
  { split; [apply lookup_delete_eq|simpl; set_solver]. }
  destruct H1 as [H1 H2]. case_bool_decide; [by split|].
  destruct (Get c1 (ParentID (deref c1 l))) as [p|]; [|by split].
  split; [exact H1|]. clear -H2. simpl in *. set_solver.
Qed.

Lemma MoveID_same_drops_witness : Get (MoveID "a" "a" unlisted_cache) "a" = None.
Proof.
  apply (MoveID_same_drops "a" 0%N unlisted_cache unlisted_cache_wf). vm_compute. reflexivity.
Defined.
