(* ===== verification/CachePersist.v ===== *)
(** The persistence of the metadata cache in BoltDB (internal/fs/cache.go,
    from [sortedKeys] on): serialization of the whole tree and of the dirty
    inodes, restoration at start-up, the delta link and the upload sessions.

    bbolt is a third-party library: the class [Bolt] has the operations the
    code calls on a database of type [D], and [BoltLaws] what its
    documentation promises of them. *)

From Stdlib Require Import String.
From stdpp Require Import sorting.
From S2P Require Export CacheTheorems.

#[local] Open Scope Z_scope.

(** A stored value: a JSON document ([None] when the bytes are no JSON, as the
    empty value is), or plain text. *)
Inductive bval :=
  | VJson (j : option json)
  | VText (s : string).

(** Operations within a transaction, and its commit. *)
Class Bolt (D : Type) := {
  bolt_bucket : D → string → bool;
  bolt_create : string → D → error + D;
  bolt_get : D → string → string → option bval;
  bolt_put : string → string → bval → D → error + D;
  bolt_delete : string → string → D → error + D;
  bolt_foreach : D → string → list (string * bval);
  bolt_commit : D → D → option error;
}.

Class BoltLaws (D : Type) `{Bolt D} := {
  put_get b k v d d' : bolt_put b k v d = inr d' →
    ∀ b' k', bolt_get d' b' k' = if decide (b' = b ∧ k' = k) then Some v else bolt_get d b' k';
  put_bucket b k v d d' b' : bolt_put b k v d = inr d' → bolt_bucket d' b' = bolt_bucket d b';
  delete_get b k d d' : bolt_delete b k d = inr d' →
    ∀ b' k', bolt_get d' b' k' = if decide (b' = b ∧ k' = k) then None else bolt_get d b' k';
  delete_bucket b k d d' b' : bolt_delete b k d = inr d' → bolt_bucket d' b' = bolt_bucket d b';
  foreach_get d b k v : (k, v) ∈ bolt_foreach d b ↔ bolt_get d b k = Some v;
  foreach_keys d b : NoDup (bolt_foreach d b).*1;
}.

(** The length of the text of a JSON document. *)
Class JsonLen := json_len : option json → Z.

Definition boltBucketMetadata : string := "metadata".
Definition boltBucketDelta : string := "delta".
Definition boltBucketUploads : string := "uploads".
Definition serializeDirtyBatchSize : nat := 500.

(** [sortedKeys]. *)
Definition sortedKeys (set : gset string) : list string := merge_sort string_le (elements set).

(** The batches of [n] the loops of [SerializeDirty] cut a list in. *)
Fixpoint batches_fuel {A} (fuel n : nat) (l : list A) : list (list A) :=
  match fuel, l with
  | O, _ | _, [] => []
  | S fuel, _ => take n l :: batches_fuel fuel n (drop n l)
  end.
Definition batches {A} (n : nat) (l : list A) : list (list A) := batches_fuel (length l) n l.

Section persist.
Context {D : Type} `{Bolt D} `{TimeText} `{JsonLen}.
Local Open Scope go_scope.

(** The database ([c.db], nil before [InitBoltDB] and after [Close]) and the
    cache. *)
Definition PState : Type := D * InodeCache.

(** [db.Update(fn)]: the transaction is committed when [fn] succeeds, rolled
    back when it fails or when the commit does. What [fn] did to the cache
    stays. *)
Definition db_Update (fn : SE PState error unit) : SE PState error unit := λ '(d, c),
  match fn (d, c) with
  | (inl e, (_, c')) => (inl e, (d, c'))
  | (inr _, (d', c')) =>
      match bolt_commit d d' with
      | Some e => (inl e, (d, c'))
      | None => (inr tt, (d', c'))
      end
  end.

(** A method that does nothing without a database. *)
Definition with_db {A} (none : A) (m : SE PState error A) : SE (option D * InodeCache) error A :=
  λ '(db, c),
    match db with
    | None => (inr none, (None, c))
    | Some d => let '(r, (d, c)) := m (d, c) in (r, (Some d, c))
    end.

Definition se_error {S} (r : option error) : SE S error unit :=
  match r with Some e => se_fail e | None => se_ret tt end.
Fixpoint se_iter {S A} (f : A → SE S error unit) (l : list A) : SE S error unit :=
  match l with
  | [] => se_ret tt
  | a :: l => let* _ := f a in se_iter f l
  end.

Definition bucket_Put (b k : string) (v : bval) : SE PState error unit := λ '(d, c),
  match bolt_put b k v d with
  | inl e => (inl e, (d, c))
  | inr d' => (inr tt, (d', c))
  end.
Definition bucket_Delete (b k : string) : SE PState error unit := λ '(d, c),
  match bolt_delete b k d with
  | inl e => (inl e, (d, c))
  | inr d' => (inr tt, (d', c))
  end.
(** [tx.Bucket(b) == nil]. *)
Definition need_bucket (b : string) (e : error) : SE PState error unit :=
  let* s := se_get in if bolt_bucket s.1 b then se_ret tt else se_fail e.
Definition add_bytes (n : Z) : SE PState error unit :=
  se_modify (λ '(d, c), (d, set_serializedBytes (u64 (serializedBytes c + n)) c)).

Definition metadata_missing : error := EMsg "metadata bucket not found".
Definition errBucketMissing (bucket : string) : error :=
  EMsg ("bucket " +:+ Quote bucket +:+ " does not exist").

(** *** SerializeAll *)

(** Passes 1 and 2: the IDs to persist. *)
Definition toPersist (c : InodeCache) : gset string :=
  let ls := (map_to_list (inodes c)).*2 in
  let pass1 := omap (λ l, let i := deref c l in
    if IsChildrenFetched i || negb (bool_decide (ParentID i = "")) then Some (ID i) else None) ls in
  let childIDs := ls ≫= λ l, default [] (children (deref c l)) in
  list_to_set pass1 ∪ list_to_set (filter (λ id, is_Some (Get c id)) childIDs).

(** Pass 3 for one ID: a failing [Put] is logged and skipped. *)
Definition persist_one (id : string) : SE PState error unit :=
  let* s := se_get in
  match Get s.2 id with
  | None => se_ret tt
  | Some l =>
      let data := AsJSON (deref s.2 l) in
      try* r := bucket_Put boltBucketMetadata id (VJson data) in
      match r with
      | inl _ => se_ret tt
      | inr _ => add_bytes (json_len data)
      end
  end.

Definition SerializeAll_db : SE PState error unit :=
  let* _ := db_Update (
    let* _ := need_bucket boltBucketMetadata metadata_missing in
    let* s := se_get in
    se_iter persist_one (elements (toPersist s.2))) in
  se_modify (λ '(d, c), (d, set_deleted ∅ (set_dirty ∅ c))).
Definition SerializeAll : SE (option D * InodeCache) error unit := with_db tt SerializeAll_db.

(** *** SerializeDirty *)

(** A dirty ID within its batch: gone from memory, its entry is dropped; an
    orphan without a list is skipped; anything else is rewritten. *)
Definition dirty_one (id : string) : SE PState error unit :=
  let* s := se_get in
  match Get s.2 id with
  | None => bucket_Delete boltBucketMetadata id
  | Some l =>
      let i := deref s.2 l in
      if negb (IsChildrenFetched i) && bool_decide (ParentID i = "") then se_ret tt else
      let data := AsJSON i in
      let* _ := bucket_Put boltBucketMetadata id (VJson data) in
      add_bytes (json_len data)
  end.

(** One batch: a transaction, and its IDs marked again if it fails. *)
Definition batch_tx (one : string → SE PState error unit) (remark : string → InodeCache → InodeCache)
    (firstErr : option error) (batch : list string) : SE PState error (option error) :=
  try* r := db_Update (
    let* _ := need_bucket boltBucketMetadata metadata_missing in se_iter one batch) in
  match r with
  | inr _ => se_ret firstErr
  | inl e =>
      let* _ := se_modify (λ '(d, c), (d, foldl (λ c id, remark id c) c batch)) in
      se_ret (match firstErr with None => Some e | Some _ => firstErr end)
  end.

Fixpoint run_batches (one : string → SE PState error unit)
    (remark : string → InodeCache → InodeCache) (firstErr : option error)
    (bs : list (list string)) : SE PState error (option error) :=
  match bs with
  | [] => se_ret firstErr
  | b :: bs => let* e := batch_tx one remark firstErr b in run_batches one remark e bs
  end.

Definition SerializeDirty_db : SE PState error unit :=
  let* s := se_get in
  let dirty := dirty s.2 in
  let deleted := deleted s.2 in
  let* _ := se_modify (λ '(d, c), (d, set_deleted ∅ (set_dirty ∅ c))) in
  if bool_decide (dirty = ∅) && bool_decide (deleted = ∅) then se_ret tt else
  let* e := run_batches dirty_one markDirty None
              (batches serializeDirtyBatchSize (sortedKeys dirty)) in
  let* e := run_batches (bucket_Delete boltBucketMetadata) markDeleted e
              (batches serializeDirtyBatchSize (sortedKeys deleted)) in
  se_error e.
Definition SerializeDirty : SE (option D * InodeCache) error unit := with_db tt SerializeDirty_db.

(** *** DeserializeFromDisk *)

(** The callback of [ForEach]: memory wins over disk. *)
Definition restore_one (now : Time) (kv : string * bval) (c : InodeCache) : InodeCache :=
  let data := match kv.2 with VJson j => j | VText _ => None end in
  match NewInodeJSON data with
  | inl _ => c
  | inr inode =>
      match Get c kv.1 with
      | Some _ => c
      | None =>
          let '(l, c) := alloc inode c in
          let c := updateEvictionEntry l now (registerTTL l (inodes_Store kv.1 l c)) in
          if IsChildrenFetched inode then addCached 1 c else c
      end
  end.
Definition DeserializeFromDisk (now : Time) : SE PState error unit :=
  let* s := se_get in
  if bolt_bucket s.1 boltBucketMetadata
  then se_modify (λ '(d, c),
         (d, foldl (λ c kv, restore_one now kv c) c (bolt_foreach d boltBucketMetadata)))
  else se_ret tt.

(** [initBoltDB], given what [bolt.Open] returns: [timeout] tells a lock held
    by another instance ([ErrTimeout]). *)
Definition InitBoltDB (now : Time) (dbPath : string) (opened : (error * bool) + D)
    (c : InodeCache) : error + (option D * InodeCache) :=
  match opened with
  | inl (e, true) =>
      inl (EWrap ("BoltDB at " +:+ dbPath +:+ " is locked by another running instance (double mount?): only one mount can use a cache directory at a time; close the other instance or use a different --cache-dir: ") e "")
  | inl (e, false) => inl (EWrap ("error opening BoltDB at " +:+ dbPath +:+ ": ") e "")
  | inr d =>
      let create b : SE PState error unit := λ '(d, c),
        match bolt_create b d with inl e => (inl e, (d, c)) | inr d' => (inr tt, (d', c)) end in
      match db_Update (let* _ := create boltBucketMetadata in
                       let* _ := create boltBucketDelta in create boltBucketUploads) (d, c) with
      | (inl e, _) => inl (EWrap "error creando buckets en BoltDB: " e "")
      | (inr _, s) => let '(_, (d, c)) := DeserializeFromDisk now s in inr (Some d, c)
      end
  end.

(** *** The delta link and the upload sessions *)

Definition GetDeltaLink (db : option D) : string :=
  match db with
  | None => ""
  | Some d =>
      if bolt_bucket d boltBucketDelta then
        match bolt_get d boltBucketDelta "link" with
        | Some (VText s) => s
        | _ => ""
        end
      else ""
  end.

(** The logged failures of the delta and upload buckets leave the state. *)
Definition logged (m : SE PState error unit) (s : option D * InodeCache) : option D * InodeCache :=
  (with_db tt m s).2.
Definition SetDeltaLink (link : string) : option D * InodeCache → option D * InodeCache :=
  logged (db_Update (let* _ := need_bucket boltBucketDelta (errBucketMissing boltBucketDelta) in
                     bucket_Put boltBucketDelta "link" (VText link))).
Definition SaveUploadSession (id : string) (data : option json) :
    option D * InodeCache → option D * InodeCache :=
  logged (db_Update (let* _ := need_bucket boltBucketUploads (errBucketMissing boltBucketUploads) in
                     bucket_Put boltBucketUploads id (VJson data))).
Definition DeleteUploadSession (id : string) : option D * InodeCache → option D * InodeCache :=
  logged (db_Update (let* _ := need_bucket boltBucketUploads (errBucketMissing boltBucketUploads) in
                     bucket_Delete boltBucketUploads id)).
Definition LoadUploadSessions (db : option D) : list (string * option json) :=
  match db with
  | None => []
  | Some d =>
      if bolt_bucket d boltBucketUploads then
        (λ kv, (kv.1, match kv.2 with VJson j => j | VText _ => None end)) <$>
          bolt_foreach d boltBucketUploads
      else []
  end.

(** [Close], given what [db.Close] returns: the tree is written, whatever the
    outcome of that, and the database is dropped unless closing it fails. *)
Definition Close (close_err : option error) : SE (option D * InodeCache) error unit := λ '(db, c),
  match db with
  | None => (inr tt, (None, c))
  | Some d =>
      let '(_, (db, c)) := SerializeAll (Some d, c) in
      match close_err with
      | Some e => (inl (EWrap "error cerrando BoltDB: " e ""), (db, c))
      | None => (inr tt, (None, c))
      end
  end.
End persist.

(** ** What a serialization writes, and what a restart reads back *)

Section roundtrip.
Context {D : Type} `{BoltLaws D} `{TimeText} `{JsonLen}.
Implicit Types c : InodeCache.

(** The caches that differ only by the byte counter. *)
Definition same_tree c c' : Prop := inodes c' = inodes c ∧ store c' = store c.

Lemma same_tree_views c c' : same_tree c c' → (∀ id, Get c' id = Get c id) ∧ ∀ l, deref c' l = deref c l.
Proof. intros [E1 E2]. unfold Get, deref. by rewrite E1, E2. Qed.

(** [Put] accepts the keys [ids] of the metadata bucket. *)
Definition puts_accepted (ids : gset string) : Prop :=
  ∀ id v d, id ∈ ids → ∃ d', bolt_put boltBucketMetadata id v d = inr d'.

(** The database holds, for [id], what [c] has in memory. *)
Definition on_disk (c : InodeCache) (d : D) (id : string) : Prop :=
  ∀ l, Get c id = Some l → bolt_get d boltBucketMetadata id = Some (VJson (AsJSON (deref c l))).

Lemma persist_one_spec c0 id d c ids :
  same_tree c0 c → puts_accepted ids → id ∈ ids →
  ∃ d' c', persist_one id (d, c) = (inr tt, (d', c')) ∧ same_tree c0 c' ∧ on_disk c0 d' id ∧
    (∀ b k, (b, k) ≠ (boltBucketMetadata, id) → bolt_get d' b k = bolt_get d b k) ∧
    (∀ b, bolt_bucket d' b = bolt_bucket d b) ∧ dirty c' = dirty c ∧ deleted c' = deleted c.
Proof.
  intros Hst Hput Hid. destruct (same_tree_views _ _ Hst) as [HG Hd].
  unfold persist_one, se_bind, se_get, on_disk. cbn [snd fst]. rewrite HG.
  destruct (Get c0 id) as [l|] eqn:Hl; [|by exists d, c].
  unfold se_try, bucket_Put. destruct (Hput id (VJson (AsJSON (deref c l))) d Hid) as [d' Hd'].
  rewrite Hd'. exists d', (set_serializedBytes (u64 (serializedBytes c + json_len (AsJSON (deref c l)))) c).
  split; [done|]. split; [done|]. split.
  { intros l' [= <-]. rewrite (put_get _ _ _ _ _ Hd'), decide_True by done. by rewrite Hd. }
  split; [|split; [intros b; by apply (put_bucket _ _ _ _ _ b Hd')|done]].
  intros b k Hne. rewrite (put_get _ _ _ _ _ Hd'). rewrite decide_False; [done|].
  intros [-> ->]. by apply Hne.
Qed.

Lemma persist_iter c0 ids l d c :
  same_tree c0 c → puts_accepted ids → (∀ id, id ∈ l → id ∈ ids) → NoDup l →
  ∃ d' c', se_iter persist_one l (d, c) = (inr tt, (d', c')) ∧ same_tree c0 c' ∧
    (∀ id, id ∈ l → on_disk c0 d' id) ∧
    (∀ b k, (b ≠ boltBucketMetadata ∨ k ∉ l) → bolt_get d' b k = bolt_get d b k) ∧
    (∀ b, bolt_bucket d' b = bolt_bucket d b).
Proof.
  intros Hst Hput. revert d c Hst. induction l as [|id l IH]; intros d c Hst Hin HN.
  { exists d, c. split_and!; try done. intros id Hid. by apply elem_of_nil in Hid. }
  apply NoDup_cons in HN as [Hn HN].
  destruct (persist_one_spec c0 id d c ids Hst Hput) as (d1&c1&E1&Hst1&Ho1&Hb1&Hk1&_);
    [apply Hin; by left|].
  destruct (IH d1 c1 Hst1) as (d2&c2&E2&Hst2&Ho2&Hb2&Hk2); [intros; apply Hin; by right|done|].
  exists d2, c2. split; [simpl; unfold se_bind; by rewrite E1|]. split; [done|].
  split; [|split].
  - intros id' [->|Hid']%elem_of_cons; [|by apply Ho2].
    intros l' Hl'. rewrite Hb2 by (by right). by apply Ho1.
  - intros b k Hbk. rewrite Hb2, Hb1; [done| |].
    + intros [= -> ->]. destruct Hbk as [?|Hk]; [done|]. apply Hk. by left.
    + destruct Hbk as [?|Hk]; [by left|right]. intros ?. apply Hk. by right.
  - intros b. by rewrite Hk2.
Qed.

Lemma persist_one_dirty id d c r d' c' :
  persist_one id (d, c) = (r, (d', c')) → dirty c' = dirty c ∧ deleted c' = deleted c.
Proof.
  unfold persist_one, se_bind, se_get, se_try, bucket_Put. cbn [fst snd].
  destruct (Get c id); [|by intros [= _ _ <-]].
  destruct (bolt_put _ _ _ _); simpl; by intros [= _ _ <-].
Qed.
Lemma persist_iter_dirty l d c r d' c' :
  se_iter persist_one l (d, c) = (r, (d', c')) → dirty c' = dirty c ∧ deleted c' = deleted c.
Proof.
  revert d c. induction l as [|id l IH]; intros d c; simpl; [by intros [= _ _ <-]|].
  unfold se_bind. destruct (persist_one id (d, c)) as [r1 [d1 c1]] eqn:E1.
  apply persist_one_dirty in E1 as [<- <-].
  destruct r1; [by intros [= _ _ <-]|apply IH].
Qed.

(** A successful [SerializeAll]: every inode of the browsed tree is on disk,
    and nothing is dirty any more. *)
Lemma SerializeAll_writes c d :
  bolt_bucket d boltBucketMetadata = true → puts_accepted (toPersist c) →
  ∃ d' r c', SerializeAll_db (d, c) = (r, (d', c')) ∧ same_tree c c' ∧
    (∀ b, bolt_bucket d' b = bolt_bucket d b) ∧
    (r = inr tt → dirty c' = ∅ ∧ deleted c' = ∅ ∧
      (∀ id, id ∈ toPersist c → on_disk c d' id)) ∧
    (r ≠ inr tt → d' = d ∧ dirty c' = dirty c ∧ deleted c' = deleted c ∧ ∃ d1 e, bolt_commit d d1 = Some e).
Proof.
  intros Hb Hput.
  destruct (persist_iter c (toPersist c) (elements (toPersist c)) d c) as (d1&c1&E1&Hst&Ho&_&Hbk);
    [done|done|intros id; by rewrite elem_of_elements|apply NoDup_elements|].
  assert (Hdd : dirty c1 = dirty c ∧ deleted c1 = deleted c) by (by eapply persist_iter_dirty).
  assert (Htx : (let* _ := need_bucket boltBucketMetadata metadata_missing in
                 let* s := se_get in se_iter persist_one (elements (toPersist s.2)))%go (d, c) =
                (inr tt, (d1, c1))).
  { unfold need_bucket, se_bind, se_get. cbn [fst snd]. rewrite Hb. exact E1. }
  unfold SerializeAll_db, db_Update. unfold se_bind at 1. rewrite Htx.
  destruct (bolt_commit d d1) as [e|] eqn:Hc.
  - exists d, (inl e), c1. split; [done|]. split; [done|]. split; [done|]. split; [done|].
    intros _. destruct Hdd. eauto 10.
  - exists d1, (inr tt), (set_deleted ∅ (set_dirty ∅ c1)). split; [done|]. split; [done|].
    split; [done|]. split; [|done]. intros _. split; [done|]. split; [done|]. intros id Hid. apply Ho.
    by apply elem_of_elements.
Qed.

(** Pointers are fresh and the map's pointers are allocated. *)
Definition ptr_ok c : Prop :=
  (∀ l, valid c l → (l < nextLoc c)%N) ∧ ∀ id l, Get c id = Some l → valid c l.

Lemma restore_one_spec now kv c :
  ptr_ok c → ptr_ok (restore_one now kv c) ∧
  (∀ id l, Get c id = Some l → Get (restore_one now kv c) id = Some l ∧
     deref (restore_one now kv c) l = deref c l) ∧
  (∀ id, id ≠ kv.1 → Get (restore_one now kv c) id = Get c id) ∧
  (∀ j i, kv.2 = VJson j → NewInodeJSON j = inr i → Get c kv.1 = None →
     ∃ l, Get (restore_one now kv c) kv.1 = Some l ∧ deref (restore_one now kv c) l = i).
Proof.
  intros [Hf Hv]. destruct kv as [k v]. unfold restore_one. cbn [fst snd].
  destruct (NewInodeJSON _) as [e|i] eqn:Ei.
  { split_and!; try done. intros j i -> Hi. congruence. }
  destruct (Get c k) as [l0|] eqn:Hk; [by split_and!|].
  unfold alloc. cbv beta iota zeta. set (c1 := inodes_Store k (nextLoc c) _).
  set (c2 := updateEvictionEntry (nextLoc c) now (registerTTL (nextLoc c) c1)).
  assert (Hst : ∀ c', c' = c2 ∨ c' = addCached 1 c2 →
    store c' = store c1 ∧ inodes c' = inodes c1 ∧ nextLoc c' = nextLoc c1).
  { intros c' Hc'. assert (store c2 = store c1 ∧ inodes c2 = inodes c1 ∧ nextLoc c2 = nextLoc c1).
    { subst c2. unfold updateEvictionEntry, registerTTL. by repeat case_match. }
    destruct Hc' as [->| ->]; done. }
  set (c3 := if IsChildrenFetched i then addCached 1 c2 else c2).
  destruct (Hst c3) as (E1&E2&E3); [subst c3; destruct (IsChildrenFetched i); auto|].
  assert (Hne : ∀ l, valid c l → nextLoc c ≠ l) by (intros l ?%Hf; lia).
  assert (HG : ∀ id, Get c3 id = if decide (id = k) then Some (nextLoc c) else Get c id).
  { intros id. unfold Get. rewrite E2. simpl. case_decide as E; [subst; apply lookup_insert_eq|].
    by apply lookup_insert_ne. }
  assert (Hd : ∀ l, deref c3 l = if decide (l = nextLoc c) then i else deref c l).
  { intros l. unfold deref. rewrite E1. simpl. case_decide as E; [subst; by rewrite lookup_insert_eq|].
    by rewrite lookup_insert_ne. }
  assert (Hval : ∀ l, valid c3 l ↔ l = nextLoc c ∨ valid c l).
  { intros l. unfold valid. rewrite E1. simpl. destruct (decide (l = nextLoc c)) as [->|].
    - rewrite lookup_insert_eq. split; eauto.
    - rewrite lookup_insert_ne by done. intuition. }
  split; [split|split; [|split]].
  - intros l. rewrite Hval, E3. simpl. intros [->|Hl%Hf]; lia.
  - intros id l. rewrite HG, Hval. case_decide; [intros [= <-]; by left|]. intros ?%Hv. by right.
  - intros id l Hl. rewrite HG, Hd. rewrite decide_False by (intros ->; congruence).
    split; [done|]. by rewrite decide_False by (apply not_eq_sym, Hne; eauto).
  - intros id ?. by rewrite HG, decide_False.
  - intros j i' Ej Hi' _. exists (nextLoc c). rewrite HG, Hd, !decide_True by done.
    split; [done|]. rewrite Ej in Ei. congruence.
Qed.

Lemma restore_all now kvs c :
  ptr_ok c → NoDup kvs.*1 →
  (∀ id l, Get c id = Some l → Get (foldl (λ c kv, restore_one now kv c) c kvs) id = Some l ∧
     deref (foldl (λ c kv, restore_one now kv c) c kvs) l = deref c l) ∧
  (∀ k j i, (k, VJson j) ∈ kvs → NewInodeJSON j = inr i → Get c k = None →
     ∃ l, Get (foldl (λ c kv, restore_one now kv c) c kvs) k = Some l ∧
          deref (foldl (λ c kv, restore_one now kv c) c kvs) l = i).
Proof.
  revert c. induction kvs as [|kv kvs IH]; intros c Hok HN.
  { split; [done|]. intros k j i Hin. by apply elem_of_nil in Hin. }
  rewrite fmap_cons in HN. apply NoDup_cons in HN as [Hn HN]. cbn [foldl].
  destruct (restore_one_spec now kv c Hok) as (Hok1&Hkeep&Hother&Hnew).
  destruct (IH _ Hok1 HN) as [HA HB]. split.
  - intros id l Hl. destruct (Hkeep id l Hl) as [K1 K2]. destruct (HA id l K1) as [K3 K4].
    split; [done|]. by rewrite K4.
  - intros k j i Hin Hi Hk. apply elem_of_cons in Hin as [<-|Hin].
    + destruct (Hnew j i eq_refl Hi Hk) as (l&Hl&Hd). destruct (HA _ _ Hl) as [K3 K4].
      exists l. split; [done|]. by rewrite K4.
    + apply (HB k j i Hin Hi). rewrite Hother; [done|]. intros ->. apply Hn.
      apply list_elem_of_fmap. by exists (kv.1, VJson j).
Qed.

(** The browsed tree, read back from a database that holds it. *)
Definition in_tree (i : Inode) : Prop := IsChildrenFetched i = true ∨ ParentID i ≠ "".
Lemma tree_restored now d c c0 :
  cache_wf c → (∀ id, id ∈ toPersist c → on_disk c d id) → ptr_ok c0 → (∀ id, Get c0 id = None) →
  let c2 := foldl (λ c kv, restore_one now kv c) c0 (bolt_foreach d boltBucketMetadata) in
  ∀ id l, Get c id = Some l → in_tree (deref c l) → inode_json_ok (deref c l) → is_Some (AsJSON (deref c l)) →
  ∃ l2, Get c2 id = Some l2 ∧ deref c2 l2 = trunc_ms (deref c l).
Proof.
  intros Hwf Hdisk Hok0 Hnone c2 id l Hl Htree Hjs [j Hj].
  assert (Hin : id ∈ toPersist c).
  { unfold toPersist. apply elem_of_union_l, elem_of_list_to_set, list_elem_of_omap.
    exists l. split; [apply list_elem_of_fmap; exists (id, l); split; [done|by apply elem_of_map_to_list]|].
    cbn zeta. destruct (wf_get c id l Hwf Hl) as [_ ->].
    destruct Htree as [->|Hp]; [done|]. rewrite (bool_decide_false _ Hp). by rewrite orb_true_r. }
  destruct (restore_all now (bolt_foreach d boltBucketMetadata) c0 Hok0 (foreach_keys d boltBucketMetadata)) as [_ Hnew].
  apply (Hnew id (Some j)); [|by apply NewInodeJSON_AsJSON|done].
  apply foreach_get. rewrite (Hdisk id Hin l Hl). by rewrite Hj.
Qed.

(** *** Batches *)

Lemma batches_concat {A} n (l : list A) : (0 < n)%nat → concat (batches n l) = l.
Proof.
  intros Hn. unfold batches. assert (Hf : (length l ≤ length l)%nat) by lia. revert Hf.
  generalize (length l) at 2 3 as fuel. intros fuel. revert l.
  induction fuel as [|fuel IH]; intros l Hf; destruct l as [|a l]; simpl in *; try done; try lia.
  destruct n as [|n]; [lia|]. simpl. f_equal. rewrite IH; [apply take_drop|].
  rewrite length_drop. lia.
Qed.

Lemma sortedKeys_perm s : sortedKeys s ≡ₚ elements s.
Proof. apply merge_sort_Permutation. Qed.

(** What processing one ID in a transaction must do: on success [P] holds of
    it, and of the database only its key may change. *)
Definition one_ok (c0 : InodeCache) (one : string → SE (PState (D := D)) error unit)
    (P : D → string → Prop) : Prop :=
  (∀ d d' id, bolt_get d' boltBucketMetadata id = bolt_get d boltBucketMetadata id →
     P d id → P d' id) ∧
  ∀ id d c, same_tree c0 c → ∃ r d' c', one id (d, c) = (r, (d', c')) ∧ same_tree c0 c' ∧
    dirty c' = dirty c ∧ deleted c' = deleted c ∧
    (r = inr tt → P d' id ∧
      ∀ k, k ≠ id → bolt_get d' boltBucketMetadata k = bolt_get d boltBucketMetadata k).

Lemma one_iter c0 one P l d c :
  one_ok c0 one P → same_tree c0 c → NoDup l →
  ∃ r d' c', se_iter one l (d, c) = (r, (d', c')) ∧ same_tree c0 c' ∧
    dirty c' = dirty c ∧ deleted c' = deleted c ∧
    (r = inr tt → (∀ id, id ∈ l → P d' id) ∧
      ∀ k, k ∉ l → bolt_get d' boltBucketMetadata k = bolt_get d boltBucketMetadata k).
Proof.
  intros [HP Hone]. revert d c. induction l as [|id l IH]; intros d c Hst HN.
  { exists (inr tt), d, c. split_and!; try done. intros _. split; [|done].
    intros id Hid. by apply elem_of_nil in Hid. }
  apply NoDup_cons in HN as [Hn HN]. cbn [se_iter]. unfold se_bind.
  destruct (Hone id d c Hst) as (r1&d1&c1&->&Hst1&<-&<-&HO1).
  destruct r1 as [e|[]]; [by exists (inl e), d1, c1|].
  destruct (HO1 eq_refl) as [HP1 Hk1].
  destruct (IH d1 c1 Hst1 HN) as (r2&d2&c2&->&Hst2&<-&<-&HO2).
  exists r2, d2, c2. split_and!; try done. intros ->. destruct (HO2 eq_refl) as [HP2 Hk2]. split.
  - intros id' [->|Hid']%elem_of_cons; [|by apply HP2]. by apply (HP d1); [apply Hk2|].
  - intros k [Hne Hk]%not_elem_of_cons. by rewrite Hk2, Hk1.
Qed.

(** A batch succeeds as a whole, or leaves the database and marks its IDs. *)
Lemma batch_spec c0 one P remark fe b d c :
  one_ok c0 one P → same_tree c0 c → NoDup b → (∀ id c, same_tree c (remark id c)) →
  ∃ fe' d' c', batch_tx one remark fe b (d, c) = (inr fe', (d', c')) ∧ same_tree c0 c' ∧
    (∀ k, k ∉ b → bolt_get d' boltBucketMetadata k = bolt_get d boltBucketMetadata k) ∧
    ((fe' = fe ∧ dirty c' = dirty c ∧ deleted c' = deleted c ∧ ∀ id, id ∈ b → P d' id) ∨
     (fe' ≠ None ∧ d' = d ∧ ∃ c1, dirty c1 = dirty c ∧ deleted c1 = deleted c ∧
        c' = foldl (λ c id, remark id c) c1 b)).
Proof.
  intros Hone Hst HN Hrm.
  assert (Hfold : ∀ b c1, same_tree c0 c1 → same_tree c0 (foldl (λ c id, remark id c) c1 b)).
  { intros b'. induction b' as [|id b' IH]; intros c1 Hst1; [done|]. apply IH.
    destruct Hst1 as [E1 E2], (Hrm id c1) as [E3 E4]. split; congruence. }
  assert (Hfail : ∀ e c1, same_tree c0 c1 → dirty c1 = dirty c → deleted c1 = deleted c →
    ∃ fe' d' c', ((inr (match fe with None => Some e | Some _ => fe end) : error + option error),
        (d, foldl (λ c id, remark id c) c1 b)) = (inr fe', (d', c')) ∧ same_tree c0 c' ∧
    (∀ k, k ∉ b → bolt_get d' boltBucketMetadata k = bolt_get d boltBucketMetadata k) ∧
    ((fe' = fe ∧ dirty c' = dirty c ∧ deleted c' = deleted c ∧ ∀ id, id ∈ b → P d' id) ∨
     (fe' ≠ None ∧ d' = d ∧ ∃ c1, dirty c1 = dirty c ∧ deleted c1 = deleted c ∧
        c' = foldl (λ c id, remark id c) c1 b))).
  { intros e c1 Hst1 E1 E2. exists (match fe with None => Some e | Some _ => fe end), d, (foldl (λ c id, remark id c) c1 b).
    split; [done|]. split; [by apply Hfold|]. split; [done|]. right. split; [by destruct fe|].
    split; [done|]. by exists c1. }
  unfold batch_tx, se_try, db_Update, need_bucket. unfold se_bind, se_get, se_ret, se_fail, se_modify.
  cbn [fst snd]. destruct (bolt_bucket d boltBucketMetadata); [|by apply Hfail].
  destruct (one_iter c0 one P b d c Hone Hst HN) as (r&d1&c1&->&Hst1&E1&E2&HO1).
  destruct r as [e|[]]; [by apply Hfail|].
  destruct (HO1 eq_refl) as [HP1 Hk1].
  destruct (bolt_commit d d1) as [e|]; [by apply Hfail|].
  exists fe, d1, c1. split; [done|]. split; [done|]. split; [done|]. by left.
Qed.

(** After all the batches of a pass, each ID is done or marked again. *)
Lemma run_batches_spec c0 one P remark (marked : InodeCache → gset string) fe bs d c :
  one_ok c0 one P → same_tree c0 c → NoDup (concat bs) → (∀ id c, same_tree c (remark id c)) →
  (∀ c c', dirty c' = dirty c → deleted c' = deleted c → marked c' = marked c) →
  (∀ id c, marked (remark id c) = {[id]} ∪ marked c) →
  (∀ id k c, k ≠ id → k ∈ dirty c → k ∈ dirty (remark id c)) →
  ∃ fe' d' c', run_batches one remark fe bs (d, c) = (inr fe', (d', c')) ∧ same_tree c0 c' ∧
    (∀ k, k ∉ concat bs → bolt_get d' boltBucketMetadata k = bolt_get d boltBucketMetadata k) ∧
    marked c ⊆ marked c' ∧ (∀ id, id ∈ concat bs → P d' id ∨ id ∈ marked c') ∧
    (fe' = None → fe = None ∧ dirty c' = dirty c ∧ deleted c' = deleted c) ∧
    (∀ k, k ∉ concat bs → k ∈ dirty c → k ∈ dirty c').
Proof.
  intros Hone Hst HN Hrm Hmk Hadd Hkp. revert fe d c Hst HN.
  induction bs as [|b bs IH]; intros fe d c Hst HN.
  { exists fe, d, c. split_and!; try done. intros id Hid. by apply elem_of_nil in Hid. }
  simpl in HN. apply NoDup_app in HN as (HN1&Hdisj&HN2). cbn [run_batches]. unfold se_bind.
  destruct (batch_spec c0 one P remark fe b d c Hone Hst HN1 Hrm) as (fe1&d1&c1&->&Hst1&Hk1&Hor).
  destruct (IH fe1 d1 c1 Hst1 HN2) as (fe2&d2&c2&->&Hst2&Hk2&Hsub&Hdone&Hnone&Hkeep).
  assert (Hfold : ∀ b c, marked (foldl (λ c id, remark id c) c b) = list_to_set b ∪ marked c).
  { intros b'. induction b' as [|id b' IHb]; intros c'; [simpl; set_solver|].
    cbn [foldl]. rewrite IHb, Hadd. set_solver. }
  exists fe2, d2, c2. split; [done|]. split; [done|]. simpl.
  split; [intros k [? ?]%not_elem_of_app; by rewrite Hk2, Hk1|].
  destruct Hor as [(->&E1&E2&HP)|(Hne&->&c3&E1&E2&->)].
  - split; [by rewrite <- (Hmk c c1 E1 E2)|]. split.
    + intros id [Hid|Hid]%elem_of_app; [|by apply Hdone]. left. apply (proj1 Hone d1); [|by apply HP].
      apply Hk2. intros ?. by apply (Hdisj id).
    + split; [intros E; by destruct (Hnone E) as (->&->&->)|].
      intros k [_ Hk]%not_elem_of_app Hd. apply Hkeep; [done|by rewrite E1].
  - rewrite Hfold, (Hmk c c3 E1 E2) in Hsub. split; [set_solver|]. split.
    + intros id [Hid|Hid]%elem_of_app; [|by apply Hdone]. right. set_solver.
    + split; [intros E; by destruct (Hnone E) as (->&_)|].
      intros k [Hkb Hk]%not_elem_of_app Hd. apply Hkeep; [done|].
      rewrite <- E1 in Hd. revert Hd Hkb. clear -Hkp. revert c3.
      induction b as [|id b IHb]; intros c3 Hd Hkb; [done|]. apply not_elem_of_cons in Hkb as [? ?].
      cbn [foldl]. apply IHb; [by apply Hkp|done].
Qed.
End roundtrip.

(** ** What a serialization leaves alone *)

Section frame.
Context {D : Type} `{BoltLaws D} `{TimeText} `{JsonLen}.
Abbreviation PS := (PState (D := D)).

(** The other buckets, the tree in memory and the mode. *)
Record frame (s s' : PS) : Prop := {
  fr_get b k : b ≠ boltBucketMetadata → bolt_get s'.1 b k = bolt_get s.1 b k;
  fr_bucket b : bolt_bucket s'.1 b = bolt_bucket s.1 b;
  fr_tree : same_tree s.2 s'.2;
  fr_offline : IsOffline s'.2 = IsOffline s.2;
}.
#[global] Instance frame_preorder : PreOrder frame.
Proof.
  split; [by intros s; constructor|]. intros s1 s2 s3 [A1 A2 [A3 A3'] A4] [B1 B2 [B3 B3'] B4].
  constructor; [|congruence|split|]; try congruence. intros b k Hb. by rewrite B1, A1.
Qed.
Definition framed {A} (m : SE PS error A) : Prop := ∀ s, frame s (m s).2.

Lemma framed_bind {A B} (m : SE PS error A) (k : A → SE PS error B) :
  framed m → (∀ a, framed (k a)) → framed (se_bind m k).
Proof.
  intros Hm Hk s. unfold se_bind. specialize (Hm s). destruct (m s) as [[e|a] s1]; [done|]. etrans; [exact Hm|apply Hk].
Qed.
Lemma framed_try {A B} (m : SE PS error A) (k : error + A → SE PS error B) :
  framed m → (∀ a, framed (k a)) → framed (se_try m k).
Proof. intros Hm Hk s. unfold se_try. specialize (Hm s). destruct (m s) as [r s1]. etrans; [exact Hm|apply Hk]. Qed.
Lemma framed_get : framed se_get.
Proof. by intros s. Qed.
Lemma framed_ret {A} (a : A) : framed (se_ret a).
Proof. by intros s. Qed.
Lemma framed_put k v : framed (bucket_Put boltBucketMetadata k v).
Proof.
  intros [d c]. unfold bucket_Put. destruct (bolt_put _ _ _ _) as [e|d'] eqn:E; [done|]. constructor; try done; cbn.
  - intros b k' Hb. rewrite (put_get _ _ _ _ _ E), decide_False; [done|]. by intros [? _].
  - intros b. by apply (put_bucket _ _ _ _ _ _ E).
Qed.
Lemma framed_delete k : framed (bucket_Delete boltBucketMetadata k).
Proof.
  intros [d c]. unfold bucket_Delete. destruct (bolt_delete _ _ _) as [e|d'] eqn:E; [done|]. constructor; try done; cbn.
  - intros b k' Hb. rewrite (delete_get _ _ _ _ E), decide_False; [done|]. by intros [? _].
  - intros b. by apply (delete_bucket _ _ _ _ _ E).
Qed.
Lemma framed_update m : framed m → framed (db_Update m).
Proof.
  intros Hm [d c]. unfold db_Update. specialize (Hm (d, c)). destruct (m (d, c)) as [[e|[]] [d' c']].
  - by constructor; [| |apply Hm|apply Hm].
  - destruct (bolt_commit d d'); [|done]. by constructor; [| |apply Hm|apply Hm].
Qed.
Lemma framed_modify (f : InodeCache → InodeCache) : (∀ c, same_tree c (f c) ∧ IsOffline (f c) = IsOffline c) →
  framed (se_modify (λ '(d, c), (d, f c))).
Proof. intros Hf [d c]. destruct (Hf c). by constructor. Qed.
Lemma framed_iter {A} (f : A → SE PS error unit) l : (∀ a, framed (f a)) → framed (se_iter f l).
Proof. intros Hf. induction l as [|a l IH]; [by intros s|]. apply framed_bind; [apply Hf|intros _; exact IH]. Qed.
Lemma framed_bucket b e : framed (need_bucket b e).
Proof. intros s. unfold need_bucket, se_bind, se_get. by destruct (bolt_bucket _ _). Qed.
Lemma framed_bytes n : framed (add_bytes n).
Proof. by apply framed_modify. Qed.
Create HintDb framed discriminated.
#[local] Hint Resolve framed_bind framed_try framed_get framed_ret framed_put framed_delete framed_update framed_iter
  framed_bucket framed_bytes : framed.

Lemma framed_batches one remark fe bs : (∀ id, framed (one id)) →
  (∀ id c, same_tree c (remark id c) ∧ IsOffline (remark id c) = IsOffline c) → framed (run_batches one remark fe bs).
Proof.
  intros Hone Hre. revert fe. induction bs as [|b bs IH]; intros fe; [by intros s|]. cbn [run_batches].
  apply framed_bind; [|by intros]. unfold batch_tx. apply framed_try; [auto 6 with framed|].
  intros [e|[]]; [|apply framed_ret]. apply framed_bind; [|intros _; apply framed_ret]. apply framed_modify.
  intros c. clear -Hre. revert c. induction b as [|id b IH]; intros c; cbn [foldl]; [done|].
  destruct (IH (remark id c)) as [[T1 T2] ->], (Hre id c) as [[T3 T4] ->]. split; [|done]. split; congruence.
Qed.

Lemma SerializeDirty_framed : framed SerializeDirty_db.
Proof.
  unfold SerializeDirty_db. apply framed_bind; [apply framed_get|]. intros s0.
  apply framed_bind; [by apply framed_modify|]. intros _. destruct (_ && _); [apply framed_ret|]. apply framed_bind.
  - apply framed_batches; [|done]. intros id. unfold dirty_one. apply framed_bind; [apply framed_get|]. intros s.
    destruct (Get s.2 id) as [l|]; [|apply framed_delete]. cbv zeta. destruct (_ && _); [apply framed_ret|]. auto with framed.
  - intros e. apply framed_bind; [apply framed_batches; [apply framed_delete|done]|]. by intros [e'|] s.
Qed.
Lemma SerializeAll_framed : framed SerializeAll_db.
Proof.
  unfold SerializeAll_db. apply framed_bind; [|intros _; by apply framed_modify]. apply framed_update, framed_bind;
    [apply framed_bucket|]. intros _. apply framed_bind; [apply framed_get|]. intros s. apply framed_iter. intros id.
  unfold persist_one. apply framed_bind; [apply framed_get|]. intros s'. destruct (Get s'.2 id) as [l|]; [|apply framed_ret].
  cbv zeta. apply framed_try; [apply framed_put|]. intros [e|u]; [apply framed_ret|apply framed_bytes].
Qed.
End frame.

(** A database for the examples: a finite map, every operation succeeding. *)
Record MapDB := mkMapDB { md_buckets : gset string; md_data : gmap (string * string) bval }.

#[global] Instance MapDB_Bolt : Bolt MapDB := {
  bolt_bucket d b := bool_decide (b ∈ md_buckets d);
  bolt_create b d := inr (mkMapDB ({[b]} ∪ md_buckets d) (md_data d));
  bolt_get d b k := md_data d !! (b, k);
  bolt_put b k v d := inr (mkMapDB (md_buckets d) (<[(b, k) := v]> (md_data d)));
  bolt_delete b k d := inr (mkMapDB (md_buckets d) (delete (b, k) (md_data d)));
  bolt_foreach d b := omap (λ kv, if decide (kv.1.1 = b) then Some (kv.1.2, kv.2) else None)
                        (map_to_list (md_data d));
  bolt_commit _ _ := None;
}.

#[global] Instance MapDB_BoltLaws : BoltLaws MapDB.
Proof.
  split; simpl.
  - intros b k v d d' [= <-] b' k'. simpl. case_decide as E.
    + destruct E as [-> ->]. by rewrite lookup_insert_eq.
    + rewrite lookup_insert_ne; [done|]. intros [= -> ->]. by apply E.
  - by intros b k v d d' b' [= <-].
  - intros b k d d' [= <-] b' k'. simpl. case_decide as E.
    + destruct E as [-> ->]. by rewrite lookup_delete_eq.
    + rewrite lookup_delete_ne; [done|]. intros [= -> ->]. by apply E.
  - by intros b k d d' b' [= <-].
  - intros d b k v. rewrite list_elem_of_omap. split.
    + intros ([[b' k'] v']&Hin%elem_of_map_to_list&Hs). simpl in Hs. case_decide; simplify_eq. done.
    + intros Hg. exists ((b, k), v). split; [by apply elem_of_map_to_list|]. simpl. by rewrite decide_True.
  - intros d b. pose proof (NoDup_fst_map_to_list (md_data d)) as HN.
    induction (map_to_list (md_data d)) as [|[[b' k'] v'] m IH]; simpl in *; [constructor|].
    apply NoDup_cons in HN as [Hn HN]. case_decide; simpl; [|by apply IH]. subst b'.
    constructor; [|by apply IH]. intros Hin. apply Hn.
    apply list_elem_of_fmap in Hin as ([k2 v2]&->&Hin). apply list_elem_of_omap in Hin as ([[b3 k3] v3]&Hin&Hs).
    simpl in Hs. case_decide; simplify_eq. apply list_elem_of_fmap. by exists ((b, k2), v2).
Qed.

Definition example_db : MapDB := mkMapDB {[ "metadata"; "delta"; "uploads" ]} ∅.
#[global] Instance example_TimeText : TimeText := λ t, Some (pretty t).
#[global] Instance example_JsonLen : JsonLen := λ _, 1.

(** ** Properties *)

(** C12: what a full serialization wrote is what a restart reads back: when the
    database has its metadata bucket and accepts every [Put], and the transaction
    commits, every inode of the browsed tree (a listed folder, or an item with a
    parent) that has a JSON form, with texts in UTF-8 and counters within their
    widths, comes back in the empty cache of the new process under its ID, with its
    metadata, its list, its flags and its counters; only the two instants lose what
    is below a millisecond. (A [Put] that fails is logged and skipped, and the
    serialization still succeeds: see [failed_Put_is_lost].) *)
Theorem persistence_roundtrip {D} `{BoltLaws D} `{TimeText} `{JsonLen} now d d' c c' :
  cache_wf c → bolt_bucket d boltBucketMetadata = true → puts_accepted (D := D) (toPersist c) →
  SerializeAll_db (d, c) = (inr tt, (d', c')) →
  ∃ c2, DeserializeFromDisk now (d', NewInodeCache) = (inr tt, (d', c2)) ∧
    ∀ id l, Get c id = Some l → in_tree (deref c l) → inode_json_ok (deref c l) → is_Some (AsJSON (deref c l)) →
      ∃ l2, Get c2 id = Some l2 ∧ deref c2 l2 = trunc_ms (deref c l).
Proof.
  intros Hwf Hb Hput Hser.
  destruct (SerializeAll_writes c d Hb Hput) as (d1&r&c1&E&Hst&Hbk&Hok&_).
  rewrite Hser in E. injection E as <- <- <-. destruct (Hok eq_refl) as (_&_&Hdisk).
  unfold DeserializeFromDisk, se_bind, se_get. cbn [fst snd]. rewrite Hbk, Hb.
  eexists. split; [reflexivity|]. apply tree_restored; [done|done| |done].
  split; [apply wf_new|]. intros id l. by apply (wf_get _ id l wf_new).
Qed.

Lemma persistence_roundtrip_witness :
  let c := example_cache in
  let s := SerializeAll_db (example_db, c) in
  ∃ c2, DeserializeFromDisk 7 (s.2.1, NewInodeCache) = (inr tt, (s.2.1, c2)) ∧
    ∀ id l, Get c id = Some l → in_tree (deref c l) → inode_json_ok (deref c l) → is_Some (AsJSON (deref c l)) →
      ∃ l2, Get c2 id = Some l2 ∧ deref c2 l2 = trunc_ms (deref c l).
Proof.
  apply (persistence_roundtrip 7 example_db (SerializeAll_db (example_db, example_cache)).2.1
           example_cache (SerializeAll_db (example_db, example_cache)).2.2).
  - apply example_cache_wf.
  - reflexivity.
  - intros id v d _. eexists. reflexivity.
  - vm_compute. reflexivity.
Defined.

(** A failing [Put] does not fail the serialization, which then leaves neither an
    entry nor a mark. *)
#[local] Instance refusing_Bolt : Bolt MapDB := {
  bolt_bucket := bolt_bucket (Bolt := MapDB_Bolt); bolt_create := bolt_create (Bolt := MapDB_Bolt);
  bolt_get := bolt_get (Bolt := MapDB_Bolt); bolt_put _ _ _ _ := inl (EMsg "value too large");
  bolt_delete := bolt_delete (Bolt := MapDB_Bolt); bolt_foreach := bolt_foreach (Bolt := MapDB_Bolt);
  bolt_commit := bolt_commit (Bolt := MapDB_Bolt);
}.
Example failed_Put_is_lost :
  let '(r, (d, c)) := SerializeAll_db (H := refusing_Bolt) (example_db, markDirty "a" example_cache) in
  r = inr tt ∧ md_data d = ∅ ∧ dirty c = ∅.
Proof. vm_compute. done. Qed.
#[local] Remove Hints refusing_Bolt : typeclass_instances.

(** An inode the cache does not save: it has neither a list nor a parent. *)
Definition orphan (i : Inode) : Prop := IsChildrenFetched i = false ∧ ParentID i = "".
#[global] Instance orphan_dec i : Decision (orphan i).
Proof. unfold orphan. apply _. Defined.

(** What an incremental serialization of the cache [c] makes of the entry of a dirty
    ID, from [d0] to [d]: gone when the ID is not cached any more; left as it was
    when its inode is an orphan; and else the JSON text of its inode. *)
Definition dirty_done {D} `{Bolt D} `{TimeText} (c : InodeCache) (d0 d : D) (id : string) : Prop :=
  match Get c id with
  | None => bolt_get d boltBucketMetadata id = None
  | Some l =>
      if decide (orphan (deref c l)) then bolt_get d boltBucketMetadata id = bolt_get d0 boltBucketMetadata id
      else bolt_get d boltBucketMetadata id = Some (VJson (AsJSON (deref c l)))
  end.
(** The part of it that the pass itself establishes. *)
Definition dirty_written {D} `{Bolt D} `{TimeText} (c : InodeCache) (d : D) (id : string) : Prop :=
  match Get c id with
  | None => bolt_get d boltBucketMetadata id = None
  | Some l => ¬ orphan (deref c l) → bolt_get d boltBucketMetadata id = Some (VJson (AsJSON (deref c l)))
  end.

Lemma orphan_test i : negb (IsChildrenFetched i) && bool_decide (ParentID i = "") = bool_decide (orphan i).
Proof.
  destruct (decide (orphan i)) as [[E1 E2]|Ho].
  - rewrite E1, (bool_decide_eq_true_2 (orphan i)), (bool_decide_eq_true_2 (ParentID i = "")) by done. done.
  - rewrite (bool_decide_eq_false_2 (orphan i)) by done. destruct (IsChildrenFetched i) eqn:E; [done|]. simpl. apply bool_decide_eq_false_2.
    intros E2. by apply Ho.
Qed.

Lemma dirty_one_ok {D} `{BoltLaws D} `{TimeText} `{JsonLen} c0 : one_ok (D := D) c0 dirty_one (dirty_written c0).
Proof.
  split.
  { intros d d' id E. unfold dirty_written. destruct (Get c0 id); by rewrite E. }
  intros id d c Hst. destruct (same_tree_views _ _ Hst) as [HG Hd].
  unfold dirty_one, dirty_written, se_bind, se_get, bucket_Delete, bucket_Put. cbn [fst snd].
  rewrite HG. destruct (Get c0 id) as [l|] eqn:Hl.
  - rewrite Hd, orphan_test. case_bool_decide; [by exists (inr tt), d, c|].
    destruct (bolt_put _ _ _ _) as [e|d'] eqn:Ep; [by exists (inl e), d, c|].
    eexists _, d', _. split; [reflexivity|]. split; [done|]. split; [done|]. split; [done|].
    intros _. split.
    + intros _. by rewrite (put_get _ _ _ _ _ Ep), decide_True.
    + intros k Hk. rewrite (put_get _ _ _ _ _ Ep), decide_False; [done|]. by intros [_ ?].
  - destruct (bolt_delete _ _ _) as [e|d'] eqn:Ep; [by exists (inl e), d, c|].
    exists (inr tt), d', c. split_and!; try done. intros _. split.
    + by rewrite (delete_get _ _ _ _ Ep), decide_True.
    + intros k Hk. rewrite (delete_get _ _ _ _ Ep), decide_False; [done|]. by intros [_ ?].
Qed.

(** No pass over dirty IDs touches the entry of an orphan. *)
Section orphan.
Context {D : Type} `{BoltLaws D} `{TimeText} `{JsonLen} (c0 : InodeCache) (id : string) (l0 : N).
Context (Hid : Get c0 id = Some l0) (Horphan : orphan (deref c0 l0)).
(** A computation that changes neither the tree nor the entry. *)
Definition spares {A} (m : SE (PState (D := D)) error A) : Prop := ∀ s, same_tree c0 s.2 →
  same_tree c0 (m s).2.2 ∧ bolt_get (m s).2.1 boltBucketMetadata id = bolt_get s.1 boltBucketMetadata id.

Lemma spares_bind {A B} (m : SE (PState (D := D)) error A) (k : A → SE (PState (D := D)) error B) :
  spares m → (∀ a, spares (k a)) → spares (se_bind m k).
Proof using Type.
  intros Hm Hk s Hs. unfold se_bind. destruct (Hm s Hs) as [T1 T2]. destruct (m s) as [[e|a] s1]; [done|].
  destruct (Hk a s1 T1) as [T3 T4]. split; [exact T3|]. cbn [snd] in T2. congruence.
Qed.
Lemma spares_dirty_one k : spares (dirty_one k).
Proof using All.
  intros [d c] Hst. destruct (same_tree_views _ _ Hst) as [HG Hd].
  unfold dirty_one, se_bind, se_get, bucket_Delete, bucket_Put. cbn [fst snd]. rewrite HG.
  destruct (decide (k = id)) as [->|Hk].
  - rewrite Hid, Hd, orphan_test, bool_decide_true by done. done.
  - destruct (Get c0 k) as [l|].
    + destruct (_ && _); [done|]. destruct (bolt_put _ _ _ _) as [e|d'] eqn:Ep; [done|]. split; [exact Hst|].
      cbn. rewrite (put_get _ _ _ _ _ Ep), decide_False; [done|]. by intros [_ ?].
    + destruct (bolt_delete _ _ _) as [e|d'] eqn:Ep; [done|]. split; [exact Hst|].
      cbn. rewrite (delete_get _ _ _ _ Ep), decide_False; [done|]. by intros [_ ?].
Qed.
Lemma spares_batch fe b : spares (batch_tx dirty_one markDirty fe b).
Proof using All.
  assert (Hiter : spares (se_iter dirty_one b)).
  { induction b as [|k b IH]; [by intros s|]. by apply spares_bind; [apply spares_dirty_one|intros []]. }
  intros [d c] Hst. unfold batch_tx, se_try, db_Update, need_bucket. unfold se_bind, se_get, se_ret, se_fail, se_modify. cbn [fst snd].
  assert (Hmark : ∀ c1, same_tree c0 c1 → same_tree c0 (foldl (λ c id, markDirty id c) c1 b)).
  { clear Hiter. induction b as [|k b IH]; intros c1 T1; [done|]. by apply IH. }
  destruct (bolt_bucket d boltBucketMetadata); cbn; [|split; [by apply Hmark|done]].
  destruct (Hiter (d, c) Hst) as [T1 T2]. destruct (se_iter dirty_one b (d, c)) as [[e|[]] [d1 c1]]; cbn in *.
  - split; [by apply Hmark|done].
  - destruct (bolt_commit d d1); cbn; [split; [by apply Hmark|done]|by split].
Qed.
Lemma spares_batches bs fe : spares (run_batches dirty_one markDirty fe bs).
Proof using All.
  revert fe. induction bs as [|b bs IH]; intros fe; [by intros s|]. apply spares_bind; [apply spares_batch|intros fe'; apply IH].
Qed.
End orphan.

Lemma delete_one_ok {D} `{BoltLaws D} c0 :
  one_ok (D := D) c0 (bucket_Delete boltBucketMetadata)
    (λ d id, bolt_get d boltBucketMetadata id = None).
Proof.
  split; [by intros d d' id ->|]. intros id d c Hst. unfold bucket_Delete.
  destruct (bolt_delete _ _ _) as [e|d'] eqn:Ep; [by exists (inl e), d, c|].
  exists (inr tt), d', c. split_and!; try done. intros _. split.
  - by rewrite (delete_get _ _ _ _ Ep), decide_True.
  - intros k Hk. rewrite (delete_get _ _ _ _ Ep), decide_False; [done|]. by intros [_ ?].
Qed.

(** C14: an incremental serialization loses no mark: whichever batches fail, each
    dirty ID is dirty again, or its entry on disk is what its state in memory asks
    for: gone when it is not cached any more, left as it was when its inode is an
    orphan (without a list and a parent, which the cache never saves, even when an
    older entry is there), and else the JSON text of its inode. Each deleted ID is
    either gone from disk or marked deleted again; the other keys of the bucket are
    untouched, and a success leaves nothing marked. *)
Theorem SerializeDirty_no_loss {D} `{BoltLaws D} `{TimeText} `{JsonLen} d c :
  dirty c ## deleted c →
  ∃ r d' c', SerializeDirty_db (D := D) (d, c) = (r, (d', c')) ∧
    (∀ id, id ∈ dirty c → dirty_done c d d' id ∨ id ∈ dirty c') ∧
    (∀ id, id ∈ deleted c → bolt_get d' boltBucketMetadata id = None ∨ id ∈ deleted c') ∧
    (∀ id, id ∉ dirty c ∪ deleted c →
       bolt_get d' boltBucketMetadata id = bolt_get d boltBucketMetadata id) ∧
    (r = inr tt → dirty c' = ∅ ∧ deleted c' = ∅).
Proof.
  intros Hdis. unfold SerializeDirty_db, se_bind, se_get, se_modify. cbn [fst snd].
  set (c0 := set_deleted ∅ (set_dirty ∅ c)).
  destruct (bool_decide (dirty c = ∅) && bool_decide (deleted c = ∅)) eqn:Ee.
  { apply andb_prop in Ee as [E1%bool_decide_eq_true E2%bool_decide_eq_true].
    exists (inr tt), d, c0. split; [done|]. rewrite E1, E2.
    split; [intros id Hid; by apply elem_of_empty in Hid|].
    split; [intros id Hid; by apply elem_of_empty in Hid|]. done. }
  assert (Hcat : ∀ s : gset string, concat (batches serializeDirtyBatchSize (sortedKeys s)) ≡ₚ elements s).
  { intros s. rewrite batches_concat by (unfold serializeDirtyBatchSize; lia). apply sortedKeys_perm. }
  destruct (run_batches_spec c dirty_one (dirty_written c) markDirty dirty None
    (batches serializeDirtyBatchSize (sortedKeys (dirty c))) d c0)
    as (e1&d1&c1&Er1&Hst1&Hk1&_&Hd1&Hn1&_); [apply dirty_one_ok|done|..].
  { rewrite Hcat. apply NoDup_elements. }
  { done. }
  { done. }
  { done. }
  { intros. by apply elem_of_union_r. }
  assert (Hspare : ∀ id l, Get c id = Some l → orphan (deref c l) →
    bolt_get d1 boltBucketMetadata id = bolt_get d boltBucketMetadata id).
  { intros id l Hl Ho. pose proof (spares_batches c id l Hl Ho (batches serializeDirtyBatchSize (sortedKeys (dirty c))) None (d, c0)
      ltac:(done)) as [_ Hs]. by rewrite Er1 in Hs. }
  rewrite Er1.
  destruct (run_batches_spec c (bucket_Delete boltBucketMetadata)
    (λ d id, bolt_get d boltBucketMetadata id = None) markDeleted deleted e1
    (batches serializeDirtyBatchSize (sortedKeys (deleted c))) d1 c1)
    as (e2&d2&c2&->&Hst2&Hk2&_&Hd2&Hn2&Hkp); [apply delete_one_ok|done|..].
  { rewrite Hcat. apply NoDup_elements. }
  { done. }
  { done. }
  { done. }
  { intros. apply elem_of_difference. split; [done|by apply not_elem_of_singleton]. }
  assert (Hkeep : ∀ id, id ∉ deleted c → id ∈ dirty c1 → id ∈ dirty c2).
  { intros id Hid. apply Hkp. by rewrite Hcat, elem_of_elements. }
  exists (match e2 with Some e => inl e | None => inr tt end), d2, c2.
  split; [by destruct e2|]. split; [|split; [|split]].
  - intros id Hid. assert (Hnd : id ∉ deleted c) by (intros ?; by apply (Hdis id)).
    destruct (Hd1 id) as [HP|HP]; [by rewrite Hcat, elem_of_elements| |right; by apply Hkeep].
    left. assert (Hsame : bolt_get d2 boltBucketMetadata id = bolt_get d1 boltBucketMetadata id)
      by (apply Hk2; by rewrite Hcat, elem_of_elements).
    unfold dirty_done. unfold dirty_written in HP. destruct (Get c id) as [l|] eqn:Hl; [|congruence].
    destruct (decide (orphan (deref c l))) as [Ho|Ho]; [rewrite Hsame; by apply (Hspare id l)|rewrite Hsame; by apply HP].
  - intros id Hid. apply Hd2. by rewrite Hcat, elem_of_elements.
  - intros id [Hn1' Hn2']%not_elem_of_union. rewrite Hk2, Hk1; [done|..]; by rewrite Hcat, elem_of_elements.
  - destruct e2; [done|]. intros _. destruct (Hn2 eq_refl) as (->&->&->).
    by destruct (Hn1 eq_refl) as (_&->&->).
Qed.

Lemma SerializeDirty_no_loss_witness :
  ∃ r d' c', SerializeDirty_db (example_db, example_cache) = (r, (d', c')) ∧
    (∀ id, id ∈ dirty example_cache → dirty_done example_cache example_db d' id ∨ id ∈ dirty c') ∧
    (∀ id, id ∈ deleted example_cache → bolt_get d' boltBucketMetadata id = None ∨ id ∈ deleted c') ∧
    (∀ id, id ∉ dirty example_cache ∪ deleted example_cache →
       bolt_get d' boltBucketMetadata id = bolt_get example_db boltBucketMetadata id) ∧
    (r = inr tt → dirty c' = ∅ ∧ deleted c' = ∅).
Proof. apply (SerializeDirty_no_loss example_db example_cache). apply example_cache_wf. Defined.
