(* ===== verification/QuickXorHash.v ===== *)
(** The quickXorHash of file contents (internal/graph/quickxorhash and
    internal/graph/hashes.go): the block-wise implementation, its equivalence
    with feeding the bytes one at a time, and with the definition of the hash
    as an exclusive or of rotated bytes. *)

From S2P Require Export GoStrings.

#[local] Open Scope Z_scope.

(** ** The implementation *)

Definition BlockSize : Z := 64.
Definition HashSize : nat := 20.
Definition widthInBits : Z := 160.
Definition dataSize : nat := 1760.

Record quickXorHash := mkQuickXorHash { qx_data : list Z; qx_size : Z }.

Definition New : quickXorHash := mkQuickXorHash (replicate dataSize 0) 0.

(** [xorBytes(dst, src)]: the common prefix is combined, its length returned. *)
Fixpoint xorBytes (dst src : list Z) : list Z * nat :=
  match dst, src with
  | d :: dst, s :: src => let '(l, n) := xorBytes dst src in (Z.lxor d s :: l, S n)
  | _, _ => (dst, 0%nat)
  end.

(** [xorBytes(q.data[off:], src)]. *)
Definition xor_from (off : nat) (data src : list Z) : list Z * nat :=
  let '(l, n) := xorBytes (drop off data) src in (take off data ++ l, n).

(** The loop over the whole blocks of [Write], then the rest. *)
Fixpoint write_blocks (fuel : nat) (data p : list Z) : list Z :=
  match fuel with
  | O => (xorBytes data p).1
  | S fuel =>
      if (dataSize <=? length p)%nat then
        let '(data, n) := xorBytes data p in write_blocks fuel data (drop n p)
      else (xorBytes data p).1
  end.

(** [Write]: it never fails and reports [len(p)]. Each whole block takes one
    turn of the loop: [length p] turns are enough. *)
Definition Write (q : quickXorHash) (p : list Z) : quickXorHash :=
  let lastRemain := Z.to_nat (qx_size q mod Z.of_nat dataSize) in
  let '(data, i) := if (lastRemain =? 0)%nat then (qx_data q, 0%nat)
                    else xor_from lastRemain (qx_data q) p in
  let data := if (i =? length p)%nat then data else write_blocks (length p) data (drop i p) in
  mkQuickXorHash data (u64 (qx_size q + Z.of_nat (length p))).

(** [h[i] ^= b]. *)
Definition xor_at (i : nat) (b : Z) (h : list Z) : list Z := alter (λ x, Z.lxor x b) i h.

Definition checkSum_step (data : list Z) (h : list Z) (i : nat) : list Z :=
  let shift := (Z.of_nat i * 11) mod 160 in
  let shiftBytes := Z.to_nat (shift / 8) in
  let shiftBits := shift mod 8 in
  let shifted := Z.shiftl (data !!! i) shiftBits in
  xor_at (S shiftBytes) (u8 (Z.shiftr shifted 8)) (xor_at shiftBytes (u8 shifted) h).

Definition length_step (d : Z) (h : list Z) (i : nat) : list Z :=
  xor_at (HashSize - 8 + i) (u8 (Z.shiftr d (8 * Z.of_nat i))) h.

Definition checkSum (q : quickXorHash) : list Z :=
  let h := foldl (checkSum_step (qx_data q)) (replicate (S HashSize) 0) (seq 0 dataSize) in
  let h := xor_at 0 (h !!! HashSize) h in
  foldl (length_step (qx_size q)) h (seq 0 8).

(** [(q *quickXorHash) Sum(b)] and the one-shot [Sum(data)]. *)
Definition hash_Sum (q : quickXorHash) (b : list Z) : list Z := b ++ take HashSize (checkSum q).
Definition Sum (data : list Z) : list Z := take HashSize (checkSum (Write New data)).

(** internal/graph/hashes.go; the stream is the sequence of chunks [io.Copy]
    reads from it. *)
Definition SumQuickXORHash (data : list Z) : string := base64_EncodeToString (Sum data).
Definition QuickXORHashStream (chunks : list (list Z)) (err : option error) : error + string :=
  match err with
  | Some e => inl e
  | None => inr (base64_EncodeToString (hash_Sum (foldl Write New chunks) []))
  end.

(** ** Feeding the bytes one at a time *)

Definition absorb (q : quickXorHash) (b : Z) : quickXorHash :=
  mkQuickXorHash (xor_at (Z.to_nat (qx_size q mod Z.of_nat dataSize)) b (qx_data q))
    (u64 (qx_size q + 1)).

(** Combining [p] into the block from position [k] on, wrapping around. *)
Fixpoint absorb_data (data : list Z) (k : nat) (p : list Z) : list Z :=
  match p with
  | [] => data
  | b :: p => absorb_data (xor_at (k mod dataSize)%nat b data) (S k) p
  end.

#[local] Opaque dataSize.

Lemma dataSize_pos : (0 < dataSize)%nat.
Proof. apply Nat.ltb_lt. vm_compute. done. Qed.

Lemma xor_at_length i b h : length (xor_at i b h) = length h.
Proof. apply length_alter. Qed.

Lemma absorb_data_length data k p : length (absorb_data data k p) = length data.
Proof. revert data k. induction p as [|b p IH]; intros; simpl; [done|]. by rewrite IH, xor_at_length. Qed.

Lemma absorb_data_app data k p r :
  absorb_data data k (p ++ r) = absorb_data (absorb_data data k p) (k + length p) r.
Proof.
  revert data k. induction p as [|b p IH]; intros data k; simpl; [by rewrite Nat.add_0_r|].
  rewrite IH. by rewrite Nat.add_succ_r.
Qed.

Lemma absorb_data_split n data k p :
  absorb_data data k p =
  absorb_data (absorb_data data k (take n p)) (k + n `min` length p) (drop n p).
Proof. by rewrite <- length_take, <- absorb_data_app, take_drop. Qed.

Lemma absorb_data_mod data k p : absorb_data data k p = absorb_data data (k mod dataSize) p.
Proof.
  assert (H : ∀ p data k k', (k mod dataSize = k' mod dataSize)%nat →
    absorb_data data k p = absorb_data data k' p).
  { clear. induction p as [|b p IH]; intros data k k' E; [done|]. cbn [absorb_data]. rewrite E.
    apply IH. rewrite <- (Nat.Div0.add_mod_idemp_r 1 k), <- (Nat.Div0.add_mod_idemp_r 1 k'). by rewrite E. }
  apply H. symmetry. apply Nat.Div0.mod_mod.
Qed.

(** [xorBytes] combines as many bytes as the shorter side has. *)
Lemma xorBytes_snd dst src : (xorBytes dst src).2 = (length dst `min` length src)%nat.
Proof.
  revert src. induction dst as [|d dst IH]; intros [|s src]; simpl; try done.
  specialize (IH src). destruct (xorBytes dst src). simpl in *. by rewrite IH.
Qed.

Lemma xor_at_app_r i b l k : xor_at (length l + i) b (l ++ k) = l ++ xor_at i b k.
Proof.
  unfold xor_at. induction l as [|a l IH]; simpl; [done|]. f_equal. exact IH.
Qed.

(** Combining from offset [off] without passing the end of the block. *)
Lemma xorBytes_absorb off pre dst src :
  length pre = off → (off + length dst)%nat = dataSize →
  pre ++ (xorBytes dst src).1 = absorb_data (pre ++ dst) off (take (length dst) src).
Proof.
  revert off pre src. induction dst as [|d dst IH]; intros off pre [|s src] Hoff Hlen; simpl in *; try done.
  specialize (IH (S off) (pre ++ [Z.lxor d s]) src).
  destruct (xorBytes dst src) as [l n]. simpl in *.
  rewrite Nat.mod_small by lia.
  replace (xor_at off s (pre ++ d :: dst)) with ((pre ++ [Z.lxor d s]) ++ dst).
  - rewrite <- IH by (rewrite ?length_app; simpl; lia). by rewrite <- app_assoc.
  - rewrite <- (Nat.add_0_r off), <- Hoff, xor_at_app_r. simpl. by rewrite <- app_assoc.
Qed.

Lemma xorBytes_0 data p :
  length data = dataSize → (xorBytes data p).1 = absorb_data data 0 (take dataSize p).
Proof.
  intros Hl. pose proof (xorBytes_absorb 0 [] data p eq_refl) as H. simpl in H.
  rewrite Hl in H. by apply H.
Qed.

Lemma write_blocks_absorb fuel data p :
  length data = dataSize → (length p ≤ fuel)%nat →
  write_blocks fuel data p = absorb_data data 0 p.
Proof.
  revert data p. induction fuel as [|fuel IH]; intros data p Hl Hf.
  { cbn [write_blocks]. rewrite xorBytes_0 by done. rewrite take_ge; [done|]. pose proof dataSize_pos. lia. }
  cbn [write_blocks]. destruct (Nat.leb_spec dataSize (length p)) as [Hp|Hp].
  - pose proof (xorBytes_0 data p Hl) as H1. pose proof (xorBytes_snd data p) as H2.
    destruct (xorBytes data p) as [data' n]. simpl in H1, H2.
    rewrite Hl, Nat.min_l in H2 by done. subst n data'.
    rewrite IH; [|by rewrite absorb_data_length|rewrite length_drop; pose proof dataSize_pos; lia].
    rewrite (absorb_data_split dataSize data 0 p), Nat.min_l by done.
    rewrite (absorb_data_mod _ (0 + dataSize)). by rewrite Nat.add_0_l, Nat.Div0.mod_same.
  - rewrite xorBytes_0 by done. by rewrite take_ge by lia.
Qed.

(** A well-formed hash state: the block has its size, the counter is a uint64. *)
Definition hash_wf (q : quickXorHash) : Prop :=
  length (qx_data q) = dataSize ∧ 0 ≤ qx_size q < 2 ^ 64.

Lemma Write_absorb_data q p :
  hash_wf q →
  Write q p = mkQuickXorHash
    (absorb_data (qx_data q) (Z.to_nat (qx_size q mod Z.of_nat dataSize)) p)
    (u64 (qx_size q + Z.of_nat (length p))).
Proof.
  intros [Hl Hs]. unfold Write. set (k := Z.to_nat (qx_size q mod Z.of_nat dataSize)).
  assert (Hk : (k < dataSize)%nat).
  { pose proof (Z.mod_pos_bound (qx_size q) (Z.of_nat dataSize)). subst k. pose proof dataSize_pos. lia. }
  destruct (Nat.eqb_spec k 0) as [E|E].
  - f_equal. rewrite E. destruct (Nat.eqb_spec 0 (length p)) as [Hp|Hp].
    + by destruct p.
    + rewrite drop_0. by apply write_blocks_absorb.
  - unfold xor_from.
    pose proof (xorBytes_absorb k (take k (qx_data q)) (drop k (qx_data q)) p) as H1.
    pose proof (xorBytes_snd (drop k (qx_data q)) p) as H2.
    destruct (xorBytes (drop k (qx_data q)) p) as [l n]. simpl in H1, H2.
    rewrite take_drop, length_take, length_drop, Hl in H1. rewrite length_drop, Hl in H2.
    rewrite H1 by lia. f_equal. destruct (Nat.eqb_spec n (length p)) as [Hn|Hn].
    + rewrite take_ge; [done|lia].
    + assert (Hn' : n = (dataSize - k)%nat) by lia. subst n.
      rewrite write_blocks_absorb; [|by rewrite absorb_data_length|rewrite length_drop; lia].
      rewrite (absorb_data_split (dataSize - k) (qx_data q) k p), Nat.min_l by lia.
      rewrite (absorb_data_mod _ (k + _)).
      replace (k + (dataSize - k))%nat with dataSize by lia.
      by rewrite Nat.Div0.mod_same.
Qed.

Lemma New_wf : hash_wf New.
Proof. split; [apply length_replicate|done]. Qed.

Lemma Write_wf q p : hash_wf q → hash_wf (Write q p).
Proof.
  intros Hq. rewrite Write_absorb_data by done. split; simpl.
  - rewrite absorb_data_length. apply Hq.
  - apply u64_range.
Qed.

(** Writing two pieces is writing their concatenation, as long as the counter
    does not wrap around. *)
Lemma Write_app q p r :
  hash_wf q → qx_size q + Z.of_nat (length p) < 2 ^ 64 →
  Write (Write q p) r = Write q (p ++ r).
Proof.
  intros Hq Hs. pose proof (Write_wf q p Hq) as Hq'. pose proof (proj2 Hq) as Hpos.
  rewrite (Write_absorb_data (Write q p)), !Write_absorb_data by done. cbn [qx_data qx_size].
  rewrite absorb_data_app, length_app. rewrite (u64_small (qx_size q + _)) by lia. f_equal.
  - rewrite absorb_data_mod. rewrite (absorb_data_mod _ (_ + length p)). f_equal.
    pose proof dataSize_pos as Hd. apply Nat2Z.inj. rewrite !Nat2Z.inj_mod, Nat2Z.inj_add.
    rewrite !Z2Nat.id by (apply Z.mod_pos_bound; lia).
    rewrite Z.mod_mod by lia. by rewrite Z.add_mod_idemp_l by lia.
  - f_equal. lia.
Qed.

(** ** The definition of the hash

    The 160-bit little-endian value of the hash is the exclusive or of the
    bytes of the contents, the [j]th rotated left by [11 * j] bits, and of the
    length of the contents in its most significant 64 bits. *)

Definition rotl160 (x s : Z) : Z :=
  Z.lxor (Z.land (Z.shiftl x s) (Z.ones 160)) (Z.shiftr x (160 - s)).

Fixpoint rot_sum (k : nat) (l : list Z) : Z :=
  match l with
  | [] => 0
  | b :: l => Z.lxor (rotl160 b ((11 * Z.of_nat k) mod 160)) (rot_sum (S k) l)
  end.

Definition quickXorHash_spec (data : list Z) : Z :=
  Z.lxor (rot_sum 0 data) (Z.shiftl (Z.of_nat (length data)) 96).

(** The value of little-endian bytes. *)
Fixpoint le_val (h : list Z) : Z :=
  match h with [] => 0 | b :: h => Z.lxor b (Z.shiftl (le_val h) 8) end.

Definition byte (b : Z) : Prop := 0 ≤ b < 2 ^ 8.

(** *** Bit vectors *)

Lemma lxor_bounded n a b : 0 ≤ n → 0 ≤ a < 2 ^ n → 0 ≤ b < 2 ^ n → 0 ≤ Z.lxor a b < 2 ^ n.
Proof.
  intros Hn Ha Hb. assert (H0 : 0 ≤ Z.lxor a b) by (apply Z.lxor_nonneg; lia). split; [done|].
  apply Z.bounded_iff_bits_nonneg; [lia..|]. intros l Hl. rewrite Z.lxor_spec.
  rewrite (proj1 (Z.bounded_iff_bits_nonneg n a Hn (proj1 Ha)) (proj2 Ha)) by done.
  by rewrite (proj1 (Z.bounded_iff_bits_nonneg n b Hn (proj1 Hb)) (proj2 Hb)).
Qed.

Lemma shiftl_lxor_distr a b s : Z.shiftl (Z.lxor a b) s = Z.lxor (Z.shiftl a s) (Z.shiftl b s).
Proof. apply Z.shiftl_lxor. Qed.

Lemma lxor_swap a b c : Z.lxor a (Z.lxor b c) = Z.lxor b (Z.lxor a c).
Proof. by rewrite <- !Z.lxor_assoc, (Z.lxor_comm a b). Qed.

Lemma land_lxor_distr a b c : Z.land (Z.lxor a b) c = Z.lxor (Z.land a c) (Z.land b c).
Proof.
  apply Z.bits_inj'. intros n _. rewrite ?Z.land_spec, ?Z.lxor_spec, ?Z.land_spec.
  by destruct (Z.testbit a n), (Z.testbit b n), (Z.testbit c n).
Qed.

Lemma rotl160_lxor a b s : rotl160 (Z.lxor a b) s = Z.lxor (rotl160 a s) (rotl160 b s).
Proof.
  unfold rotl160. rewrite Z.shiftl_lxor, Z.shiftr_lxor, land_lxor_distr, !Z.lxor_assoc.
  f_equal. apply lxor_swap.
Qed.

(** Folding the bits past the width back to the start rotates a byte. *)
Definition fold160 (x : Z) : Z := Z.lxor (Z.land x (Z.ones 160)) (Z.shiftr x 160).

Lemma fold160_lxor a b : fold160 (Z.lxor a b) = Z.lxor (fold160 a) (fold160 b).
Proof.
  unfold fold160. rewrite Z.shiftr_lxor, land_lxor_distr, !Z.lxor_assoc. f_equal. apply lxor_swap.
Qed.

Lemma fold160_shiftl b s : 0 ≤ s < 160 → fold160 (Z.shiftl b s) = rotl160 b s.
Proof. intros Hs. unfold fold160, rotl160. f_equal. rewrite Z.shiftr_shiftl_r by lia. done. Qed.

Lemma fold160_id x : 0 ≤ x < 2 ^ 160 → fold160 x = x.
Proof.
  intros Hx. unfold fold160. rewrite Z.land_ones, Z.mod_small, Z.shiftr_div_pow2, Z.div_small by done.
  apply Z.lxor_0_r.
Qed.

Lemma fold160_top x : fold160 (Z.shiftl x 160) = x.
Proof.
  unfold fold160. rewrite Z.land_ones, Z.shiftl_mul_pow2, Z.mod_mul by done.
  by rewrite Z.shiftr_div_pow2, Z.div_mul.
Qed.

(** *** Little-endian values *)

Lemma le_val_app l r : le_val (l ++ r) = Z.lxor (le_val l) (Z.shiftl (le_val r) (8 * Z.of_nat (length l))).
Proof.
  induction l as [|b l IH]; [by rewrite Z.shiftl_0_r|]. cbn [app le_val length].
  rewrite IH, Z.shiftl_lxor, Z.shiftl_shiftl by lia. rewrite Z.lxor_assoc.
  do 3 f_equal. lia.
Qed.

Lemma le_val_bounds l : Forall byte l → 0 ≤ le_val l < 2 ^ (8 * Z.of_nat (length l)).
Proof.
  induction 1 as [|b l Hb Hl IH]; [done|]. cbn [le_val length].
  set (n := 8 * Z.of_nat (length l)) in *. assert (0 ≤ n) by (unfold n; lia).
  replace (8 * Z.of_nat (S (length l))) with (n + 8) by (unfold n; lia).
  apply lxor_bounded; [lia| |].
  - destruct Hb. split; [done|]. eapply Z.lt_le_trans; [done|]. apply Z.pow_le_mono_r; lia.
  - rewrite Z.shiftl_mul_pow2, Z.pow_add_r by lia. nia.
Qed.

Lemma le_val_xor_at i b h :
  (i < length h)%nat → le_val (xor_at i b h) = Z.lxor (le_val h) (Z.shiftl b (8 * Z.of_nat i)).
Proof.
  revert i. induction h as [|c h IH]; intros [|i] Hi; cbn [length] in Hi; [lia..| |].
  - unfold xor_at. cbn [le_val alter list_alter]. rewrite Z.shiftl_0_r, !Z.lxor_assoc. f_equal.
    apply Z.lxor_comm.
  - change (xor_at (S i) b (c :: h)) with (c :: xor_at i b h). cbn [le_val].
    rewrite IH by lia. rewrite Z.shiftl_lxor, Z.shiftl_shiftl, Z.lxor_assoc by lia.
    do 3 f_equal. lia.
Qed.

Lemma byte_lxor a b : byte a → byte b → byte (Z.lxor a b).
Proof. apply lxor_bounded. lia. Qed.

Lemma byte_u8 z : byte (u8 z).
Proof. pose proof (u8_range z). done. Qed.

Lemma xor_at_byte i b h : byte b → Forall byte h → Forall byte (xor_at i b h).
Proof.
  intros Hb Hh. unfold xor_at. revert i. induction Hh as [|c h Hc Hh IH]; intros [|i]; [done..| |].
  - change (Forall byte (Z.lxor c b :: h)). auto using byte_lxor.
  - change (Forall byte (c :: alter (λ x, Z.lxor x b) i h)). auto.
Qed.

(** The low 20 bytes and the last byte of a 21-byte value. *)
Lemma le_val_fold h :
  length h = S HashSize → Forall byte h →
  le_val (take HashSize (xor_at 0 (h !!! HashSize) h)) = fold160 (le_val h).
Proof.
  intros Hl Hb. destruct (lookup_lt_is_Some_2 h HashSize) as [x Hx]; [lia|].
  rewrite (list_lookup_total_correct _ _ _ Hx).
  assert (E : h = take HashSize h ++ [x]).
  { rewrite <- (take_drop_middle h HashSize x Hx) at 1. f_equal. f_equal.
    apply nil_length_inv. rewrite length_drop. lia. }
  set (l := take HashSize h) in *. assert (Hll : length l = HashSize) by (unfold l; rewrite length_take; lia).
  clearbody l. subst h. apply Forall_app in Hb as [Hbl Hbx]. apply Forall_singleton in Hbx.
  pose proof (le_val_bounds l Hbl) as Hv. rewrite Hll in Hv. change (8 * Z.of_nat HashSize) with 160 in Hv.
  replace (take HashSize (xor_at 0 x (l ++ [x]))) with (xor_at 0 x l).
  2: { destruct l as [|b l]; [done|]. unfold xor_at. simpl. simpl in Hll. f_equal.
       injection Hll as Hll. rewrite <- Hll. by rewrite take_app_length. }
  rewrite le_val_xor_at by (rewrite Hll; unfold HashSize; lia). rewrite Z.shiftl_0_r.
  rewrite le_val_app, Hll. change (8 * Z.of_nat HashSize) with 160. cbn [le_val].
  rewrite Z.shiftl_0_l, Z.lxor_0_r. rewrite fold160_lxor, fold160_top. f_equal. symmetry. by apply fold160_id.
Qed.

(** *** The checksum of the block *)

(** What [checkSum] accumulates over the block before it folds it. *)
Fixpoint shift_sum (k : nat) (l : list Z) : Z :=
  match l with
  | [] => 0
  | b :: l => Z.lxor (Z.shiftl b ((11 * Z.of_nat k) mod 160)) (shift_sum (S k) l)
  end.

Lemma fold160_shift_sum k l : fold160 (shift_sum k l) = rot_sum k l.
Proof.
  revert k. induction l as [|b l IH]; intros k; [done|]. cbn [shift_sum rot_sum].
  rewrite fold160_lxor, IH, fold160_shiftl by (apply Z.mod_pos_bound; lia). done.
Qed.

(** The two bytes one byte of the block is spread over. *)
Lemma checkSum_step_val data h i b :
  length h = S HashSize → data !! i = Some b → byte b →
  le_val (checkSum_step data h i) =
  Z.lxor (le_val h) (Z.shiftl b ((11 * Z.of_nat i) mod 160)).
Proof.
  intros Hl Hi [Hb0 Hb]. unfold checkSum_step. rewrite (list_lookup_total_correct _ _ _ Hi).
  rewrite (Z.mul_comm (Z.of_nat i)). set (s := (11 * Z.of_nat i) mod 160).
  assert (Hs : 0 ≤ s < 160) by (apply Z.mod_pos_bound; lia). clearbody s.
  pose proof (Z.div_mod s 8 ltac:(lia)) as Hdm. pose proof (Z.mod_pos_bound s 8 ltac:(lia)) as Hm.
  assert (Hq : 0 ≤ s / 8 < 20) by (split; [apply Z.div_pos|apply Z.div_lt_upper_bound]; lia).
  set (q := s / 8) in *. set (r := s mod 8) in *. clearbody q r.
  rewrite !le_val_xor_at by (rewrite ?xor_at_length, Hl; unfold HashSize; lia).
  rewrite Z.lxor_assoc. f_equal.
  rewrite Nat2Z.inj_succ, Z2Nat.id by lia.
  set (x := Z.shiftl b r).
  assert (Hx : 0 ≤ x < 2 ^ 16).
  { unfold x. rewrite Z.shiftl_mul_pow2 by lia. pose proof (Z.pow_le_mono_r 2 r 8 ltac:(lia) ltac:(lia)).
    pose proof (Z.pow_pos_nonneg 2 r). nia. }
  assert (Hlow : u8 x = Z.land x (Z.ones 8)) by (rewrite Z.land_ones; [done|lia]).
  assert (Hhigh : u8 (Z.shiftr x 8) = Z.shiftr x 8).
  { apply u8_small. rewrite Z.shiftr_div_pow2 by lia. split; [apply Z.div_pos; lia|].
    apply Z.div_lt_upper_bound; lia. }
  rewrite Hlow, Hhigh. replace (Z.shiftl b s) with (Z.shiftl x (8 * q)).
  2: { unfold x. rewrite Z.shiftl_shiftl by lia. f_equal. lia. }
  replace (8 * Z.succ q) with (8 + 8 * q) by lia. rewrite <- Z.shiftl_shiftl by lia.
  rewrite <- Z.shiftl_lxor. f_equal.
  rewrite <- Z.ldiff_ones_r by lia. apply Z.bits_inj'. intros n _.
  rewrite Z.lxor_spec, Z.land_spec, Z.ldiff_spec. by destruct (Z.testbit x n), (Z.testbit (Z.ones 8) n).
Qed.

(** A state of [checkSum]: 21 bytes. *)
Definition sum_ok (h : list Z) : Prop := length h = S HashSize ∧ Forall byte h.

Lemma checkSum_step_ok data h i : sum_ok h → sum_ok (checkSum_step data h i).
Proof.
  intros [Hl Hb]. split; unfold checkSum_step; [by rewrite !xor_at_length|].
  auto using xor_at_byte, byte_u8.
Qed.

Lemma checkSum_fold_val pre l h :
  sum_ok h → Forall byte l →
  sum_ok (foldl (checkSum_step (pre ++ l)) h (seq (length pre) (length l))) ∧
  le_val (foldl (checkSum_step (pre ++ l)) h (seq (length pre) (length l))) =
  Z.lxor (le_val h) (shift_sum (length pre) l).
Proof.
  intros Hh Hl. revert pre h Hh. induction Hl as [|b l Hb Hl IH]; intros pre h Hh.
  { cbn. by rewrite Z.lxor_0_r. }
  cbn [length seq foldl shift_sum]. specialize (IH (pre ++ [b]) (checkSum_step (pre ++ b :: l) h (length pre))).
  rewrite <- app_assoc, length_app, Nat.add_1_r in IH. simpl app in IH.
  destruct IH as [IH1 IH2]; [by apply checkSum_step_ok|]. split; [done|]. rewrite IH2.
  rewrite (checkSum_step_val _ _ _ b); [by rewrite Z.lxor_assoc|apply Hh| |done].
  by rewrite lookup_app_r, Nat.sub_diag by lia.
Qed.

(** The length, byte by byte. *)
Lemma land_ones_step d n :
  0 ≤ n → Z.lxor (Z.land d (Z.ones n)) (Z.shiftl (Z.land (Z.shiftr d n) (Z.ones 8)) n) =
  Z.land d (Z.ones (n + 8)).
Proof.
  intros Hn. apply Z.bits_inj'. intros i Hi.
  rewrite Z.lxor_spec, !Z.land_spec, Z.shiftl_spec by done. rewrite !Z.testbit_ones by lia.
  destruct (decide (i < n)).
  - rewrite (Z.testbit_neg_r _ (i - n)) by lia.
    rewrite (proj2 (Z.ltb_lt i n)), (proj2 (Z.ltb_lt i (n + 8))), (proj2 (Z.leb_le 0 i)) by lia.
    by destruct (Z.testbit d i).
  - rewrite Z.land_spec, Z.shiftr_spec, Z.testbit_ones by lia. replace (i - n + n) with i by lia.
    rewrite (proj2 (Z.ltb_ge i n)) by lia. rewrite !(proj2 (Z.leb_le 0 _)) by lia.
    destruct (Z.ltb_spec (i - n) 8), (Z.ltb_spec i (n + 8)); try lia; by destruct (Z.testbit d i).
Qed.

Lemma length_fold_val d h n :
  (n ≤ 8)%nat → length h = HashSize →
  length (foldl (length_step d) h (seq 0 n)) = HashSize ∧
  le_val (foldl (length_step d) h (seq 0 n)) =
  Z.lxor (le_val h) (Z.shiftl (Z.land d (Z.ones (8 * Z.of_nat n))) 96).
Proof.
  intros Hn Hl. induction n as [|n IH].
  { split; [done|]. change (Z.ones (8 * Z.of_nat 0)) with 0.
    by rewrite Z.land_0_r, Z.shiftl_0_l, Z.lxor_0_r. }
  destruct IH as [IHl IH]; [lia|]. rewrite seq_S, foldl_app. cbn [foldl]. unfold length_step at 1 3.
  rewrite xor_at_length. split; [done|].
  rewrite le_val_xor_at by (rewrite IHl; unfold HashSize; lia). rewrite IH, Z.lxor_assoc. f_equal.
  unfold u8. rewrite <- (Z.land_ones _ 8) by done.
  replace (8 * Z.of_nat (HashSize - 8 + (0 + n))) with (8 * Z.of_nat n + 96) by (unfold HashSize; lia).
  rewrite <- Z.shiftl_shiftl by lia. rewrite <- Z.shiftl_lxor, Nat.add_0_l, land_ones_step by lia.
  do 3 f_equal. lia.
Qed.

Lemma take_xor_at n i b h : (i < n)%nat → take n (xor_at i b h) = xor_at i b (take n h).
Proof.
  revert n i. induction h as [|c h IH]; intros [|n] [|i] Hi; try lia; [done..|].
  change (c :: take n (xor_at i b h) = c :: xor_at i b (take n h)). f_equal. apply IH. lia.
Qed.

Lemma take_length_fold d h n :
  (n ≤ 8)%nat →
  take HashSize (foldl (length_step d) h (seq 0 n)) = foldl (length_step d) (take HashSize h) (seq 0 n).
Proof.
  intros Hn. induction n as [|n IH]; [done|]. rewrite seq_S, !foldl_app. cbn [foldl].
  unfold length_step at 1 3. rewrite take_xor_at by (unfold HashSize; lia). f_equal. apply IH. lia.
Qed.

(** The value of the checksum of a state. *)
Lemma checkSum_val q :
  hash_wf q → Forall byte (qx_data q) →
  length (take HashSize (checkSum q)) = HashSize ∧
  le_val (take HashSize (checkSum q)) = Z.lxor (rot_sum 0 (qx_data q)) (Z.shiftl (qx_size q) 96).
Proof.
  intros [Hl Hs] Hb. unfold checkSum. rewrite take_length_fold by lia.
  assert (H0 : sum_ok (replicate (S HashSize) 0)).
  { split; [done|]. by apply Forall_replicate. }
  pose proof (checkSum_fold_val [] (qx_data q) _ H0 Hb) as [Hok Hv].
  simpl app in *. cbn [length] in Hok, Hv. rewrite Hl in Hok, Hv.
  set (h := foldl _ _ (seq 0 dataSize)) in *. clearbody h.
  destruct (length_fold_val (qx_size q) (take HashSize (xor_at 0 (h !!! HashSize) h)) 8) as [H1 H2]; [lia| |].
  { rewrite length_take, xor_at_length, (proj1 Hok). unfold HashSize. lia. }
  split; [done|]. rewrite H2. rewrite le_val_fold by apply Hok. rewrite Hv, fold160_lxor, fold160_shift_sum.
  replace (fold160 (le_val (replicate (S HashSize) 0))) with 0 by (by vm_compute).
  rewrite Z.lxor_0_l. f_equal. f_equal. rewrite Z.land_ones by lia. by apply Z.mod_small.
Qed.

(** *** Absorbing bytes *)

Lemma rot_sum_xor_at k i b l :
  (i < length l)%nat →
  rot_sum k (xor_at i b l) = Z.lxor (rot_sum k l) (rotl160 b ((11 * Z.of_nat (k + i)) mod 160)).
Proof.
  revert k i. induction l as [|c l IH]; intros k [|i] Hi; cbn [length] in Hi; try lia.
  - change (xor_at 0 b (c :: l)) with (Z.lxor c b :: l). cbn [rot_sum].
    rewrite rotl160_lxor, Nat.add_0_r, !Z.lxor_assoc. f_equal. apply Z.lxor_comm.
  - change (xor_at (S i) b (c :: l)) with (c :: xor_at i b l). cbn [rot_sum].
    rewrite IH, Z.lxor_assoc by lia. do 4 f_equal. lia.
Qed.

(** The period of the rotation divides the size of the block. *)
Lemma rotation_period k :
  (11 * Z.of_nat (k mod dataSize)) mod 160 = (11 * Z.of_nat k) mod 160.
Proof.
  rewrite Nat2Z.inj_mod. replace (Z.of_nat dataSize) with (11 * 160) by (by vm_compute).
  rewrite (Z.div_mod (Z.of_nat k) (11 * 160)) at 2 by lia.
  rewrite Z.mul_add_distr_l.
  replace (11 * (11 * 160 * (Z.of_nat k / (11 * 160)))) with (121 * (Z.of_nat k / (11 * 160)) * 160) by lia.
  rewrite Z.add_comm, Z.mod_add by lia. done.
Qed.

Lemma absorb_data_rot_sum data k p :
  length data = dataSize →
  rot_sum 0 (absorb_data data k p) = Z.lxor (rot_sum 0 data) (rot_sum k p).
Proof.
  intros Hl. revert data k Hl. induction p as [|b p IH]; intros data k Hl; cbn [absorb_data rot_sum].
  - by rewrite Z.lxor_0_r.
  - rewrite IH by (by rewrite xor_at_length). pose proof dataSize_pos.
    rewrite rot_sum_xor_at by (rewrite Hl; apply Nat.mod_upper_bound; lia).
    rewrite Nat.add_0_l, rotation_period. apply Z.lxor_assoc.
Qed.

Lemma absorb_data_byte data k p :
  Forall byte data → Forall byte p → Forall byte (absorb_data data k p).
Proof.
  intros Hd Hp. revert data k Hd. induction Hp as [|b p Hb Hp IH]; intros; [done|].
  apply IH. by apply xor_at_byte.
Qed.

Lemma rot_sum_zeros k n : rot_sum k (replicate n 0) = 0.
Proof.
  revert k. induction n as [|n IH]; intros k; [done|]. cbn [replicate rot_sum]. rewrite IH.
  unfold rotl160. by rewrite Z.shiftl_0_l, Z.shiftr_0_l.
Qed.

Lemma foldl_Write_app q chunks :
  hash_wf q → qx_size q + Z.of_nat (length (concat chunks)) < 2 ^ 64 →
  foldl Write q chunks = Write q (concat chunks).
Proof.
  revert q. induction chunks as [|c cs IH]; intros q Hq Hs; simpl in *.
  - rewrite Write_absorb_data by done. destruct q as [d s], Hq as [Hl Hr]. simpl in *.
    by rewrite Z.add_0_r, u64_small.
  - rewrite length_app in Hs. pose proof (proj2 Hq). rewrite IH.
    + apply Write_app; [done|lia].
    + by apply Write_wf.
    + rewrite Write_absorb_data by done. cbn [qx_size]. rewrite u64_small; lia.
Qed.

Lemma stream_hash chunks :
  Z.of_nat (length (concat chunks)) < 2 ^ 64 →
  base64_EncodeToString (hash_Sum (foldl Write New chunks) []) = SumQuickXORHash (concat chunks).
Proof.
  intros H. unfold SumQuickXORHash, hash_Sum, Sum. rewrite app_nil_l.
  by rewrite foldl_Write_app by (apply New_wf || done).
Qed.

(** The repository's own test vectors. *)
Example quickxor_vector_0 : SumQuickXORHash [] = "AAAAAAAAAAAAAAAAAAAAAAAAAAA="%string.
Proof. by vm_compute. Qed.

Example quickxor_vector_5 :
  SumQuickXORHash [120; 5; 121; 218; 161] = "eChAHrQRCgAAAAAABQAAAAAAAAA="%string.
Proof. by vm_compute. Qed.

(** ** Properties *)

(** Hashing a stream gives the hash of its whole contents, however the
    reader cuts it into chunks (up to the 2^64 bytes the counter holds). *)
Theorem quickxor_stream_chunks chunks :
  Z.of_nat (length (concat chunks)) < 2 ^ 64 →
  QuickXORHashStream chunks None = inr (SumQuickXORHash (concat chunks)).
Proof.
  intros H. unfold QuickXORHashStream. by rewrite stream_hash.
Qed.

Lemma quickxor_stream_chunks_witness :
  QuickXORHashStream [[104; 101]; []; [108; 108; 111]] None = inr (SumQuickXORHash [104; 101; 108; 108; 111]).
Proof. apply (quickxor_stream_chunks [[104; 101]; []; [108; 108; 111]]). reflexivity. Defined.

(** C26: the optimised block-wise hash is the hash as it is defined: 20 bytes
    whose little-endian value is the exclusive or of the bytes of the contents,
    the [j]th one rotated left by [11 * j] bits in 160, and of the length in
    the most significant 64 bits. *)
Theorem quickxor_reference data :
  Forall byte data → Z.of_nat (length data) < 2 ^ 64 →
  length (Sum data) = HashSize ∧ le_val (Sum data) = quickXorHash_spec data.
Proof.
  intros Hb Hs. unfold Sum, quickXorHash_spec.
  assert (Hn : Forall byte (qx_data New)) by (by apply Forall_replicate).
  pose proof (Write_absorb_data New data New_wf) as Hw.
  assert (Hwf : hash_wf (Write New data)) by apply Write_wf, New_wf.
  assert (Hby : Forall byte (qx_data (Write New data))).
  { rewrite Hw. by apply absorb_data_byte. }
  destruct (checkSum_val _ Hwf Hby) as [Hlen Hv]. split; [done|]. rewrite Hv, Hw. cbn [qx_data qx_size].
  rewrite absorb_data_rot_sum by apply New_wf. cbn [New qx_data qx_size].
  rewrite rot_sum_zeros, Z.lxor_0_l. change (Z.to_nat _) with 0%nat. rewrite Z.add_0_l, u64_small by lia. done.
Qed.

Lemma quickxor_reference_witness :
  length (Sum [104; 101; 108; 108; 111]) = HashSize ∧
  le_val (Sum [104; 101; 108; 108; 111]) = quickXorHash_spec [104; 101; 108; 108; 111].
Proof.
  apply (quickxor_reference [104; 101; 108; 108; 111]); [|reflexivity].
  repeat constructor; discriminate.
Defined.
