(* ===== verification/GoOS.v ===== *)
(** The file system calls of package [os] the code makes, on a model disk:
    names lead to file objects, descriptors refer to objects (an unlinked file
    lives on while it is open), every write stamps the clock, and any call may
    fail: the disk carries the script of the faults to come. *)

From stdpp Require Export sorting.
From S2P Require Export GoStrings.

#[local] Open Scope Z_scope.

Record FileObj := mkFileObj { fo_data : list Z; fo_modTime : Time }.
Record FileDesc := mkFileDesc { fd_obj : nat; fd_pos : nat }.

(** A fault: the error, and how many bytes were transferred before it. *)
Record Fault := mkFault { flt_err : Z; flt_done : nat }.

Record Disk := mkDisk {
  d_objs : gmap nat FileObj;
  d_names : gmap string nat;
  d_dirs : gset string;
  d_fds : gmap nat FileDesc;
  d_next : nat;
  d_now : Time;
  d_faults : list (option Fault);
}.

Definition set_d_objs v d := mkDisk v (d_names d) (d_dirs d) (d_fds d) (d_next d) (d_now d) (d_faults d).
Definition set_d_names v d := mkDisk (d_objs d) v (d_dirs d) (d_fds d) (d_next d) (d_now d) (d_faults d).
Definition set_d_dirs v d := mkDisk (d_objs d) (d_names d) v (d_fds d) (d_next d) (d_now d) (d_faults d).
Definition set_d_fds v d := mkDisk (d_objs d) (d_names d) (d_dirs d) v (d_next d) (d_now d) (d_faults d).
Definition set_d_next v d := mkDisk (d_objs d) (d_names d) (d_dirs d) (d_fds d) v (d_now d) (d_faults d).
Definition set_d_faults v d := mkDisk (d_objs d) (d_names d) (d_dirs d) (d_fds d) (d_next d) (d_now d) v.

(** The metadata [Stat] returns. *)
Record FileInfo := mkInfo { fi_ModTime : Time; fi_Size : Z; fi_IsDir : bool }.

Definition dir_info : FileInfo := mkInfo zeroTime 4096 true.
Definition file_info (o : FileObj) : FileInfo := mkInfo (fo_modTime o) (Z.of_nat (length (fo_data o))) false.

(** A [*os.PathError]. *)
Definition PathError (op path : string) (errno : Z) : error := EWrap (op +:+ " " +:+ path +:+ ": ") (EErrno errno) "".
Definition os_ErrClosed := ESentinel "file already closed".
Definition os_ErrNotExist := ESentinel "file does not exist".

(** [os.IsNotExist]. *)
Definition os_IsNotExist (e : error) : bool :=
  match e with
  | EErrno n | EWrap _ (EErrno n) _ => n =? ENOENT
  | ESentinel _ => bool_decide (e = os_ErrNotExist)
  | _ => false
  end.

(** A call: the fault the script has for it, else its effect. *)
Definition sys {A} (op path : string) (m : Disk → (error + A) * Disk) (d : Disk) : (error + A) * Disk :=
  match d_faults d with
  | [] => m d
  | None :: fs => m (set_d_faults fs d)
  | Some f :: fs => (inl (PathError op path (flt_err f)), set_d_faults fs d)
  end.

(** The directory of a path, and its last component. *)
Definition path_Dir (p : string) : string :=
  match reverse (Split p slash) with
  | _ :: rest => Clean (Join (reverse rest) slash)
  | [] => "."
  end.
Definition path_Base (p : string) : string := default p (last (Split p slash)).

(** [filepath.Join(dir, name)]: empty elements are left out. *)
Definition filepath_Join (dir name : string) : string :=
  if decide (dir = "") then (if decide (name = "") then "" else Clean name)
  else if decide (name = "") then Clean dir else Clean (dir +:+ "/" +:+ name).

(** [filepath.IsLocal] on Unix. *)
Definition filepath_IsLocal (p : string) : bool :=
  if HasPrefix p "/" || bool_decide (p = "") then false
  else
    let hasDots := existsb (λ s, bool_decide (s = dot) || bool_decide (s = dotdot)) (split_chars slash (chars p)) in
    let p := if hasDots then Clean p else p in
    negb (bool_decide (p = "..") || HasPrefix p "../").

(** ** Paths *)

Definition os_Stat (path : string) : Disk → (error + FileInfo) * Disk :=
  sys "stat" path (λ d,
    if decide (path ∈ d_dirs d) then (inr dir_info, d)
    else match d_names d !! path ≫= λ o, d_objs d !! o with
         | Some f => (inr (file_info f), d)
         | None => (inl (PathError "stat" path ENOENT), d)
         end).

(** [os.Remove]: a file (a directory is never removed this way here: it would
    have to be empty; the model refuses). *)
Definition os_Remove (path : string) : Disk → (error + unit) * Disk :=
  sys "remove" path (λ d,
    if decide (path ∈ d_dirs d) then (inl (PathError "remove" path ENOTEMPTY), d)
    else match d_names d !! path with
         | Some _ => (inr tt, set_d_names (delete path (d_names d)) d)
         | None => (inl (PathError "remove" path ENOENT), d)
         end).

Definition os_MkdirAll (path : string) : Disk → (error + unit) * Disk :=
  sys "mkdir" path (λ d,
    match d_names d !! path with
    | Some _ => (inl (PathError "mkdir" path ENOTDIR), d)
    | None => (inr tt, set_d_dirs ({[ path ]} ∪ d_dirs d) d)
    end).

(** [os.OpenFile(path, O_RDWR|O_CREATE, 0600)]: a descriptor at offset 0. *)
Definition open_obj (o : nat) (d : Disk) : nat * Disk :=
  (d_next d, set_d_next (S (d_next d)) (set_d_fds (<[d_next d := mkFileDesc o 0]> (d_fds d)) d)).
Definition create_obj (path : string) (d : Disk) : nat * Disk :=
  let o := d_next d in
  (o, set_d_next (S o) (set_d_names (<[path := o]> (d_names d))
        (set_d_objs (<[o := mkFileObj [] (d_now d)]> (d_objs d)) d))).
Definition os_OpenFile (path : string) : Disk → (error + nat) * Disk :=
  sys "open" path (λ d,
    if decide (path ∈ d_dirs d) then (inl (PathError "open" path EISDIR), d)
    else match d_names d !! path with
         | Some o => let '(fd, d) := open_obj o d in (inr fd, d)
         | None =>
             if decide (path_Dir path ∈ d_dirs d) then
               let '(o, d) := create_obj path d in
               let '(fd, d) := open_obj o d in (inr fd, d)
             else (inl (PathError "open" path ENOENT), d)
         end).

(** [os.Open]: read only, nothing is created (a directory is refused: its
    descriptor could only fail to be read). *)
Definition os_Open (path : string) : Disk → (error + nat) * Disk :=
  sys "open" path (λ d,
    if decide (path ∈ d_dirs d) then (inl (PathError "open" path EISDIR), d)
    else match d_names d !! path with
         | Some o => let '(fd, d) := open_obj o d in (inr fd, d)
         | None => (inl (PathError "open" path ENOENT), d)
         end).

(** [os.ReadDir]: the files and directories of [dir], in name order. *)
Record DirEntry := mkDirEntry { de_Name : string; de_IsDir : bool }.
Definition dir_files (dir : string) (d : Disk) : list string :=
  filter (λ p, path_Dir p = dir) ((map_to_list (d_names d)).*1).
Definition dir_subdirs (dir : string) (d : Disk) : list string :=
  filter (λ p, path_Dir p = dir ∧ p ≠ dir) (elements (d_dirs d)).
Definition os_ReadDir (dir : string) : Disk → (error + list DirEntry) * Disk :=
  sys "open" dir (λ d,
    if decide (dir ∈ d_dirs d) then
      (inr ((λ p, mkDirEntry (path_Base p) (bool_decide (p ∈ d_dirs d))) <$>
              merge_sort string_le (dir_files dir d ++ dir_subdirs dir d)), d)
    else (inl (PathError "open" dir ENOENT), d)).

(** [os.CreateTemp(dir, pattern)]: a name no other file or directory has. *)
Definition temp_name (dir prefix : string) (n : nat) : string := dir +:+ "/" +:+ prefix +:+ pretty n.
Definition used_paths (d : Disk) : gset string := dom (d_names d) ∪ d_dirs d.
Fixpoint fresh_temp (fuel : nat) (dir prefix : string) (n : nat) (d : Disk) : string :=
  match fuel with
  | O => temp_name dir prefix n
  | S fuel =>
      if decide (temp_name dir prefix n ∈ used_paths d) then fresh_temp fuel dir prefix (S n) d
      else temp_name dir prefix n
  end.
Definition os_CreateTemp (dir prefix : string) : Disk → (error + (nat * string)) * Disk :=
  sys "open" dir (λ d,
    if decide (dir ∈ d_dirs d) then
      let path := fresh_temp (size (used_paths d)) dir prefix (d_next d) d in
      let '(o, d) := create_obj path d in
      let '(fd, d) := open_obj o d in (inr (fd, path), d)
    else (inl (PathError "open" dir ENOENT), d)).

(** ** Descriptors *)

Definition fd_file (fd : nat) (d : Disk) : option (FileDesc * FileObj) :=
  f ← d_fds d !! fd; o ← d_objs d !! fd_obj f; Some (f, o).

Definition with_fd {A} (op : string) (fd : nat) (m : FileDesc → FileObj → Disk → (error + A) * Disk) :
    Disk → (error + A) * Disk := λ d,
  match fd_file fd d with
  | None => (inl os_ErrClosed, d)
  | Some _ => sys op "" (λ d, match fd_file fd d with
                              | Some (f, o) => m f o d
                              | None => (inl os_ErrClosed, d) end) d
  end.

Definition set_pos (fd : nat) (f : FileDesc) (pos : nat) (d : Disk) : Disk :=
  set_d_fds (<[fd := mkFileDesc (fd_obj f) pos]> (d_fds d)) d.
Definition set_data (o : nat) (data : list Z) (d : Disk) : Disk :=
  set_d_objs (<[o := mkFileObj data (d_now d)]> (d_objs d)) d.

Definition file_Stat (fd : nat) : Disk → (error + FileInfo) * Disk :=
  with_fd "stat" fd (λ _ o d, (inr (file_info o), d)).
Definition file_Seek (fd : nat) (pos : nat) : Disk → (error + unit) * Disk :=
  with_fd "seek" fd (λ f _ d, (inr tt, set_pos fd f pos d)).
Definition file_Truncate (fd : nat) (size : nat) : Disk → (error + unit) * Disk :=
  with_fd "truncate" fd (λ f o d,
    (inr tt, set_data (fd_obj f) (take size (fo_data o) ++ replicate (size - length (fo_data o)) 0) d)).
Definition file_Sync (fd : nat) : Disk → (error + unit) * Disk := with_fd "sync" fd (λ _ _ d, (inr tt, d)).
(** [Close] releases the descriptor even when it reports an error. *)
Definition file_Close (fd : nat) (d : Disk) : (error + unit) * Disk :=
  let '(r, d) := with_fd "close" fd (λ _ _ d, (inr tt, d)) d in
  (r, set_d_fds (delete fd (d_fds d)) d).

(** Overwriting from position [pos] on; a gap is filled with zeros. *)
Definition splice (pos : nat) (p data : list Z) : list Z :=
  take pos data ++ replicate (pos - length data) 0 ++ p ++ drop (pos + length p) data.

(** A write that may stop short: how many bytes went through, and the error. *)
Definition raw_write (fd : nat) (pos : option nat) (p : list Z) (d : Disk) : nat * option error * Disk :=
  match fd_file fd d with
  | None => (0%nat, Some os_ErrClosed, d)
  | Some (f, o) =>
      let '(n, e, d) := match d_faults d with
        | [] => (length p, None, d)
        | None :: fs => (length p, None, set_d_faults fs d)
        | Some flt :: fs => (flt_done flt `min` length p, Some (PathError "write" "" (flt_err flt)), set_d_faults fs d)
        end%nat in
      let at_ := default (fd_pos f) pos in
      let d := if (n =? 0)%nat then d else set_data (fd_obj f) (splice at_ (take n p) (fo_data o)) d in
      (n, e, match pos with None => set_pos fd f (at_ + n) d | Some _ => d end)
  end.
Definition file_Write (fd : nat) (p : list Z) (d : Disk) : nat * option error * Disk := raw_write fd None p d.
(** [WriteAt]; a negative offset is refused before any call. *)
Definition file_WriteAt (fd : nat) (p : list Z) (off : Z) (d : Disk) : nat * option error * Disk :=
  if off <? 0 then (0%nat, Some (EWrap "writeat : " (EMsg "negative offset") ""), d)
  else raw_write fd (Some (Z.to_nat off)) p d.

(** [io.ReadAll(fd)]: from the current position to the end. *)
Definition file_ReadAll (fd : nat) : Disk → (error + list Z) * Disk :=
  with_fd "read" fd (λ f o d,
    (inr (drop (fd_pos f) (fo_data o)), set_pos fd f (max (fd_pos f) (length (fo_data o))) d)).

(** [io.Copy(fd, reader)], piece by piece. *)
Fixpoint file_CopyFrom (fd : nat) (chunks : list (list Z)) (err : option error) (written : Z) (d : Disk) :
    Z * option error * Disk :=
  match chunks with
  | [] => (written, err, d)
  | p :: chunks =>
      let '(n, e, d) := file_Write fd p d in
      let written := written + Z.of_nat n in
      match e with
      | Some e => (written, Some e, d)
      | None => file_CopyFrom fd chunks err written d
      end
  end.

(** [os.WriteFile(path, data, 0600)]: create or truncate, write, close. *)
Definition os_WriteFile (path : string) (data : list Z) (d : Disk) : (error + unit) * Disk :=
  match os_OpenFile path d with
  | (inl e, d) => (inl e, d)
  | (inr fd, d) =>
      let d := match fd_file fd d with Some (f, o) => set_data (fd_obj f) [] d | None => d end in
      let '(_, e, d) := file_Write fd data d in
      let '(c, d) := file_Close fd d in
      (match e with Some e => inl e | None => c end, d)
  end.
