(* ===== verification/ContentCache.v ===== *)
(** The content cache (internal/fs/content_cache.go, content_eviction.go): file
    contents on disk, the open descriptors, and the index by which the oldest
    closed files are evicted.

    Each operation runs under the mutexes the code takes ([lockFor(id)] and
    [evictMu]), as one step; the eviction goroutine is a step of its own that
    can run once [evicting] is set. *)

From S2P Require Export GoOS Heap QuickXorHash.

#[local] Open Scope Z_scope.

(** ** The eviction index *)

Record evictEntry := mkEvictEntry {
  ev_id : string; ev_path : string; ev_modTime : Time; ev_size : Z; ev_index : Z }.
#[global] Instance evictEntry_inhabited : Inhabited evictEntry := populate (mkEvictEntry "" "" 0 0 (-1)).

Definition set_ev_index (i : Z) (e : evictEntry) : evictEntry :=
  mkEvictEntry (ev_id e) (ev_path e) (ev_modTime e) (ev_size e) i.

(** The heap is a slice of pointers into the store of entries. *)
Record evictHeap := mkEvictHeap { eh_heap : list nat; eh_store : gmap nat evictEntry }.

Definition deref_entry (l : nat) (h : evictHeap) : evictEntry := default inhabitant (eh_store h !! l).
Definition upd_entry (l : nat) (f : evictEntry → evictEntry) (h : evictHeap) : evictHeap :=
  mkEvictHeap (eh_heap h) (<[l := f (deref_entry l h)]> (eh_store h)).

(** [Less]: by modification time, then by path. *)
Definition evict_less (a b : evictEntry) : bool :=
  if ev_modTime a =? ev_modTime b then string_lt (ev_path a) (ev_path b)
  else time_Before (ev_modTime a) (ev_modTime b).

Definition evict_Swap (i j : nat) (h : evictHeap) : evictHeap :=
  let h := mkEvictHeap (swapl i j (eh_heap h)) (eh_store h) in
  let h := upd_entry (eh_heap h !!! i) (set_ev_index (Z.of_nat i)) h in
  upd_entry (eh_heap h !!! j) (set_ev_index (Z.of_nat j)) h.
Definition evict_Push (l : nat) (h : evictHeap) : evictHeap :=
  let h := upd_entry l (set_ev_index (Z.of_nat (length (eh_heap h)))) h in
  mkEvictHeap (eh_heap h ++ [l]) (eh_store h).
Definition evict_Pop (h : evictHeap) : nat * evictHeap :=
  let last := (length (eh_heap h) - 1)%nat in
  let l := eh_heap h !!! last in
  let h := upd_entry l (set_ev_index (-1)) h in
  (l, mkEvictHeap (take last (eh_heap h)) (eh_store h)).

#[global] Instance evictHeap_heap : HeapInterface evictHeap nat := {
  Len h := length (eh_heap h);
  Less h i j := evict_less (deref_entry (eh_heap h !!! i) h) (deref_entry (eh_heap h !!! j) h);
  Swap := evict_Swap;
  heap_Push := evict_Push;
  heap_Pop := evict_Pop;
}.

(** ** The cache *)

(** [disk] is the file system; [evictNext] the next entry to allocate. *)
Record ContentCache := mkContentCache {
  directory : string;
  fds : gmap string nat;
  maxSize : Z;
  totalSize : Z;
  evicting : bool;
  evictionHeap : evictHeap;
  evictEntries : gmap string nat;
  evictNext : nat;
  closed : bool;
  disk : Disk;
}.

Definition set_fds v c := mkContentCache (directory c) v (maxSize c) (totalSize c) (evicting c)
  (evictionHeap c) (evictEntries c) (evictNext c) (closed c) (disk c).
Definition set_maxSize v c := mkContentCache (directory c) (fds c) v (totalSize c) (evicting c)
  (evictionHeap c) (evictEntries c) (evictNext c) (closed c) (disk c).
Definition set_totalSize v c := mkContentCache (directory c) (fds c) (maxSize c) v (evicting c)
  (evictionHeap c) (evictEntries c) (evictNext c) (closed c) (disk c).
Definition set_evicting v c := mkContentCache (directory c) (fds c) (maxSize c) (totalSize c) v
  (evictionHeap c) (evictEntries c) (evictNext c) (closed c) (disk c).
Definition set_evictionHeap v c := mkContentCache (directory c) (fds c) (maxSize c) (totalSize c) (evicting c)
  v (evictEntries c) (evictNext c) (closed c) (disk c).
Definition set_evictEntries v c := mkContentCache (directory c) (fds c) (maxSize c) (totalSize c) (evicting c)
  (evictionHeap c) v (evictNext c) (closed c) (disk c).
Definition set_evictNext v c := mkContentCache (directory c) (fds c) (maxSize c) (totalSize c) (evicting c)
  (evictionHeap c) (evictEntries c) v (closed c) (disk c).
Definition set_closed v c := mkContentCache (directory c) (fds c) (maxSize c) (totalSize c) (evicting c)
  (evictionHeap c) (evictEntries c) (evictNext c) v (disk c).
Definition set_disk v c := mkContentCache (directory c) (fds c) (maxSize c) (totalSize c) (evicting c)
  (evictionHeap c) (evictEntries c) (evictNext c) (closed c) v.

Definition ErrCacheClosed := ESentinel "content cache is closed".

(** A computation of the cache; a system call is one on its disk. *)
Abbreviation CC A := (SE ContentCache error A).
Definition syscall {A} (m : Disk → (error + A) * Disk) : CC A := λ c,
  let '(r, d) := m (disk c) in (r, set_disk d c).

(** [contentPath]. *)
Definition sanitize (id : string) : string :=
  let safe := ReplaceAll id "000"%char "" in
  if filepath_IsLocal safe then safe else hex_EncodeToString (byte_of <$> chars id).
Definition contentPath (c : ContentCache) (id : string) : string := filepath_Join (directory c) (sanitize id).

Definition addTotal (n : Z) (c : ContentCache) : ContentCache := set_totalSize (i64 (totalSize c + n)) c.

(** ** internal/fs/content_eviction.go *)

(** A new entry for [path], pushed on the heap. *)
Definition index_entry (id path : string) (info : FileInfo) (c : ContentCache) : ContentCache :=
  let l := evictNext c in
  let h := upd_entry l (λ _, mkEvictEntry id path (fi_ModTime info) (fi_Size info) (-1)) (evictionHeap c) in
  set_evictionHeap (Push h l) (set_evictEntries (<[path := l]> (evictEntries c)) (set_evictNext (S l) c)).

(** [trackFileInfoLocked]. *)
Definition trackFileInfoLocked (id path : string) (info : FileInfo) (c : ContentCache) : ContentCache :=
  match evictEntries c !! path with
  | None => addTotal (fi_Size info) (index_entry id path info c)
  | Some l =>
      let c := addTotal (fi_Size info - ev_size (deref_entry l (evictionHeap c))) c in
      let h := upd_entry l (λ e, mkEvictEntry id (ev_path e) (fi_ModTime info) (fi_Size info) (ev_index e)) (evictionHeap c) in
      let i := ev_index (deref_entry l h) in
      set_evictionHeap (if 0 <=? i then Fix h (Z.to_nat i) else Push h l) c
  end.

#[local] Open Scope go_scope.
#[local] Open Scope Z_scope.

Definition trackFileLocked (id : string) : CC unit := λ c,
  let path := contentPath c id in
  (let* info := syscall (os_Stat path) in se_modify (trackFileInfoLocked id path info)) c.

Definition trackOpenFileLocked (id path : string) (fd : nat) : CC unit := λ c,
  match evictEntries c !! path with
  | Some _ => (inr tt, c)
  | None => (let* info := syscall (file_Stat fd) in se_modify (trackFileInfoLocked id path info)) c
  end.

Definition forgetEvictionEntryLocked (path : string) (c : ContentCache) : ContentCache :=
  match evictEntries c !! path with
  | None => c
  | Some l =>
      let i := ev_index (deref_entry l (evictionHeap c)) in
      let h := if 0 <=? i then (Remove (evictionHeap c) (Z.to_nat i)).2 else evictionHeap c in
      set_evictEntries (delete path (evictEntries c)) (set_evictionHeap h c)
  end.

Definition IsOpen (c : ContentCache) (id : string) : bool := bool_decide (is_Some (fds c !! id)).

Definition evictEntryIsOpen (c : ContentCache) (e : evictEntry) : bool :=
  (bool_decide (ev_id e ≠ "") && IsOpen c (ev_id e))
  || existsb (λ kv, bool_decide (contentPath c kv.1 = ev_path e)) (map_to_list (fds c)).

(** The loop of [initializeEvictionIndex]. [entry.Info()] is a call. *)
Definition initialize_one (entry : DirEntry) (tc : Z * ContentCache) : Z * ContentCache :=
  let '(total, c) := tc in
  if de_IsDir entry then (total, c) else
  let path := filepath_Join (directory c) (de_Name entry) in
  match syscall (os_Stat path) c with
  | (inl _, c) => (total, c)
  | (inr info, c) => (total + fi_Size info, index_entry (de_Name entry) path info c)
  end.
Definition initializeEvictionIndex : CC unit := λ c,
  (let* entries := syscall (os_ReadDir (directory c)) in
   λ c,
     let c := set_evictionHeap (mkEvictHeap [] ∅) (set_evictEntries ∅ c) in
     let '(total, c) := foldl (λ tc e, initialize_one e tc) (0, c) entries in
     (inr tt, set_totalSize (i64 total) c)) c.

(** One turn of the loop of [evictBySize]: the popped entry is dropped when it
    is stale, deferred when it is open or cannot be removed, removed else. *)
Definition evict_turn (deferred : list nat) (c : ContentCache) : list nat * ContentCache :=
  let '(l, h) := Pop (evictionHeap c) in
  let c := set_evictionHeap h c in
  let e := deref_entry l h in
  if bool_decide (evictEntries c !! ev_path e ≠ Some l) then (deferred, c)
  else if evictEntryIsOpen c e then (deferred ++ [l], c)
  else match syscall (os_Remove (ev_path e)) c with
       | (inl err, c) =>
           if os_IsNotExist err then
             (deferred, addTotal (- ev_size e) (set_evictEntries (delete (ev_path e) (evictEntries c)) c))
           else (deferred ++ [l], c)
       | (inr _, c) => (deferred, addTotal (- ev_size e) (set_evictEntries (delete (ev_path e) (evictEntries c)) c))
       end.
(** Every turn pops an entry: as many turns as entries are enough. *)
Fixpoint evict_loop (fuel : nat) (deferred : list nat) (c : ContentCache) : list nat * ContentCache :=
  match fuel with
  | O => (deferred, c)
  | S fuel =>
      if (maxSize c <? totalSize c) && negb (Len (evictionHeap c) =? 0)%nat then
        let '(deferred, c) := evict_turn deferred c in evict_loop fuel deferred c
      else (deferred, c)
  end.
Definition evictBySize (c : ContentCache) : ContentCache :=
  if (maxSize c <=? 0) || (totalSize c <=? maxSize c) || (Len (evictionHeap c) =? 0)%nat then c
  else
    let '(deferred, c) := evict_loop (Len (evictionHeap c)) [] c in
    set_evictionHeap (foldl Push (evictionHeap c) deferred) c.

(** ** internal/fs/content_cache.go *)

Definition NewContentCache (directory : string) (d : Disk) : (error + ContentCache) * Disk :=
  match os_MkdirAll directory d with
  | (inl e, d) => (inl e, d)
  | (inr _, d) =>
      let c := mkContentCache directory ∅ 0 0 false (mkEvictHeap [] ∅) ∅ 0 false d in
      match initializeEvictionIndex c with
      | (inl e, c) => (inl e, disk c)
      | (inr _, c) => (inr c, disk c)
      end
  end.

(** [if c.closed.Load() { return ErrCacheClosed }]. *)
Definition unless_closed {A} (m : CC A) : CC A := λ c, if closed c then (inl ErrCacheClosed, c) else m c.

(** [Open]: the shared descriptor. When the new file cannot be indexed it is
    closed again (and the errors joined; the model keeps the first). *)
Definition Open (id : string) : CC nat := λ c,
  match fds c !! id with
  | Some fd => (inr fd, c)
  | None =>
      let path := contentPath c id in
      match syscall (os_OpenFile path) c with
      | (inl e, c) => (inl e, c)
      | (inr fd, c) =>
          let c := set_fds (<[id := fd]> (fds c)) c in
          match trackOpenFileLocked id path fd c with
          | (inr _, c) => (inr fd, c)
          | (inl e, c) =>
              let c := set_fds (delete id (fds c)) c in
              let '(_, c) := syscall (file_Close fd) c in (inl e, c)
          end
      end
  end.

(** [maybeEvict]: start the eviction goroutine unless one is in flight. *)
Definition maybeEvict (c : ContentCache) : ContentCache :=
  if maxSize c <=? 0 then c else set_evicting true c.
(** What the goroutine does when it runs. *)
Definition evict_goroutine (c : ContentCache) : ContentCache := set_evicting false (evictBySize c).
Definition ForceEvict (c : ContentCache) : ContentCache := evictBySize c.

Definition Insert (id : string) (content : list Z) : CC unit :=
  unless_closed (λ c,
    (let* _ := syscall (os_WriteFile (contentPath c id) content) in
     let* _ := trackFileLocked id in
     se_modify maybeEvict) c).

(** [io.Copy] into a descriptor: the bytes copied, the error if any. *)
Definition copy_into (fd : nat) (chunks : list (list Z)) (err : option error) : CC (Z * option error) := λ c,
  let '(n, e, d) := file_CopyFrom fd chunks err 0 (disk c) in (inr (n, e), set_disk d c).

(** [InsertStream]: the bytes written and the error; [chunks] and [err] are
    what the reader yields. *)
Definition InsertStream (id : string) (chunks : list (list Z)) (err : option error) (c : ContentCache) :
    (Z * option error) * ContentCache :=
  if closed c then ((0, Some ErrCacheClosed), c) else
  match (let* fd := Open id in
         let* _ := syscall (file_Seek fd 0) in
         let* _ := syscall (file_Truncate fd 0) in
         copy_into fd chunks err) c with
  | (inl e, c) => ((0, Some e), c)
  | (inr (n, Some e), c) => ((0, Some e), c)
  | (inr (n, None), c) =>
      match trackFileLocked id c with
      | (inl e, c) => ((n, Some e), c)
      | (inr _, c) => ((n, None), maybeEvict c)
      end
  end.

(** [closeLocked]: whether to evict. *)
Definition closeLocked (id : string) (c : ContentCache) : bool * ContentCache :=
  match fds c !! id with
  | None => (false, c)
  | Some fd =>
      let c := set_fds (delete id (fds c)) c in
      let path := contentPath c id in
      let c := match syscall (file_Stat fd) c with
               | (inl _, c) => c
               | (inr info, c) => trackFileInfoLocked id path info c
               end in
      let '(_, c) := syscall (file_Sync fd) c in
      let '(_, c) := syscall (file_Close fd) c in
      ((0 <? maxSize c) && (maxSize c <? totalSize c), c)
  end.
Definition Close (id : string) (c : ContentCache) : ContentCache :=
  let '(shouldEvict, c) := closeLocked id c in if shouldEvict then maybeEvict c else c.

(** [Size]: 0 when the file does not exist. *)
Definition Size (id : string) (c : ContentCache) : Z * ContentCache :=
  let by_path c := match syscall (os_Stat (contentPath c id)) c with
                   | (inl _, c) => (0, c)
                   | (inr info, c) => (fi_Size info, c)
                   end in
  match fds c !! id with
  | Some fd => match syscall (file_Stat fd) c with
               | (inr info, c) => (fi_Size info, c)
               | (inl _, c) => by_path c
               end
  | None => by_path c
  end.

Definition Delete (id : string) : CC unit :=
  unless_closed (λ c,
    let '(prevSize, c) := Size id c in
    let '(_, c) := closeLocked id c in
    let path := contentPath c id in
    let accounted := (λ l, ev_size (deref_entry l (evictionHeap c))) <$> evictEntries c !! path in
    let '(r, c) := syscall (os_Remove path) c in
    match r, accounted with
    | inr _, _ =>
        let removedSize := default prevSize accounted in
        (inr tt, addTotal (- removedSize) (forgetEvictionEntryLocked path c))
    | inl err, Some size =>
        if os_IsNotExist err then (inl err, addTotal (- size) (forgetEvictionEntryLocked path c))
        else (inl err, c)
    | inl err, None => (inl err, c)
    end).

Definition HasContent (id : string) (c : ContentCache) : bool * ContentCache :=
  if IsOpen c id then (true, c)
  else match syscall (os_Stat (contentPath c id)) c with
       | (inl _, c) => (false, c)
       | (inr _, c) => (true, c)
       end.

(** [WriteAt]: the bytes written and the error. *)
Definition WriteAt (id : string) (data : list Z) (off : Z) (c : ContentCache) : (Z * option error) * ContentCache :=
  if closed c then ((0, Some ErrCacheClosed), c) else
  let '(prevSize, c) := Size id c in
  match Open id c with
  | (inl e, c) => ((0, Some e), c)
  | (inr fd, c) =>
      let '(n, err, d) := file_WriteAt fd data off (disk c) in
      let c := set_disk d c in
      let n := Z.of_nat n in
      match err with
      | Some e => ((n, Some e), c)
      | None =>
          match trackFileLocked id c with
          | (inl e, c) => ((n, Some e), c)
          | (inr _, c) => ((n, None), if prevSize <? i64 (off + n) then maybeEvict c else c)
          end
      end
  end.

(** [ReadAll]: [None] is nil. *)
Definition ReadAll (id : string) (c : ContentCache) : option (list Z) * ContentCache :=
  match (let* fd := Open id in
         let* _ := syscall (file_Seek fd 0) in
         syscall (file_ReadAll fd)) c with
  | (inl _, c) => (None, c)
  | (inr data, c) => (Some data, c)
  end.

Definition snapshotsDir (c : ContentCache) : string := filepath_Join (directory c) "snapshots".

(** The copy of [Snapshot], from its creation on: a failed copy or close
    removes the file, an empty one leaves none. *)
Definition snapshot_copy (fd tmp : nat) (path : string) : CC (string * Z) := λ c,
  let '(data, c) := syscall (file_ReadAll fd) c in
  let '(n, copyErr, d) := match data with
    | inl e => (0, Some e, disk c)
    | inr data => file_CopyFrom tmp [data] None 0 (disk c)
    end in
  let '(closeR, c) := syscall (file_Close tmp) (set_disk d c) in
  let remove c := (syscall (os_Remove path) c).2 in
  match copyErr, closeR with
  | Some e, _ => (inl e, remove c)
  | None, inl e => (inl e, remove c)
  | None, inr _ => if n =? 0 then (inr ("", 0), remove c) else (inr (path, n), c)
  end.

Definition Snapshot (id : string) : CC (string * Z) := λ c,
  let '(has, c) := HasContent id c in
  if negb has then (inl os_ErrNotExist, c) else
  (let* fd := Open id in
   let* _ := syscall (file_Seek fd 0) in
   let* _ := syscall (os_MkdirAll (snapshotsDir c)) in
   let* t := syscall (os_CreateTemp (snapshotsDir c) "snapshot-") in
   snapshot_copy fd t.1 t.2) c.

(** [SumQuickXorHash]: [None] is [("", false)]. *)
Definition SumQuickXorHash (id : string) (c : ContentCache) : option string * ContentCache :=
  let '(has, c) := HasContent id c in
  if negb has then (None, c) else
  match (let* fd := Open id in
         let* _ := syscall (file_Seek fd 0) in
         syscall (file_ReadAll fd)) c with
  | (inl _, c) => (None, c)
  | (inr data, c) => (Some (base64_EncodeToString (hash_Sum (Write New data) [])), c)
  end.

Definition SetMaxSize (maxBytes : Z) (c : ContentCache) : ContentCache := set_maxSize maxBytes c.
Definition TotalSize (c : ContentCache) : Z := totalSize c.

Definition usage_one (entry : DirEntry) (tc : Z * ContentCache) : Z * ContentCache :=
  let '(total, c) := tc in
  if de_IsDir entry then (total, c) else
  match syscall (os_Stat (filepath_Join (directory c) (de_Name entry))) c with
  | (inl _, c) => (total, c)
  | (inr info, c) => (i64 (total + fi_Size info), c)
  end.
Definition TotalDiskUsage (c : ContentCache) : Z * ContentCache :=
  match syscall (os_ReadDir (directory c)) c with
  | (inl _, c) => (totalSize c, c)
  | (inr entries, c) => foldl (λ tc e, usage_one e tc) (0, c) entries
  end.

Definition close_one (kv : string * nat) (c : ContentCache) : ContentCache :=
  let '(_, c) := syscall (file_Sync kv.2) c in
  let '(_, c) := syscall (file_Close kv.2) c in
  set_fds (delete kv.1 (fds c)) c.
Definition CloseAll (c : ContentCache) : ContentCache :=
  let c := set_closed true c in
  foldl (λ c kv, close_one kv c) c (map_to_list (fds c)).
