(* ===== verification/ContentProofs.v ===== *)
(** The theorems about the content cache: the laws of its eviction heap, the
    accounting invariant of the index, what eviction removes and keeps, and
    what reads see after writes. *)

From Stdlib Require Import OrderedTypeEx.
From S2P Require Export ContentCache.

#[local] Open Scope Z_scope.

(** ** The order of the eviction heap *)

(** An element of the heap: the pointer, and its entry without the position. *)
Definition elem : Type := nat * evictEntry.
Definition norm (e : evictEntry) : evictEntry := set_ev_index 0 e.
Definition evict_lt (a b : elem) : bool := evict_less a.2 b.2.

Lemma string_compare_lt s t : String.compare s t = Lt ↔ string_lt s t = true.
Proof. unfold string_lt, String.ltb. by destruct (String.compare s t). Qed.

Lemma string_lt_trans r s t : string_lt r s = true → string_lt s t = true → string_lt r t = true.
Proof.
  rewrite <- !string_compare_lt. change String.compare with String_as_OT.cmp.
  rewrite !String_as_OT.cmp_lt. apply String_as_OT.lt_trans.
Qed.

Lemma string_lt_asym s t : string_lt s t = true → string_lt t s = false.
Proof. unfold string_lt, String.ltb. rewrite (String.compare_antisym t s). by destruct (String.compare s t). Qed.

Lemma string_lt_total s t : string_lt s t = false → string_lt t s = false → s = t.
Proof.
  unfold string_lt, String.ltb. rewrite (String.compare_antisym t s).
  destruct (String.compare s t) eqn:E; try done. intros _ _. by apply String.compare_eq_iff.
Qed.

#[global] Instance evict_lt_StrictWeak : StrictWeak evict_lt.
Proof.
  assert (Hs : ∀ r s t, string_lt s r = false → string_lt t s = false → string_lt t r = false).
  { intros r s t H1 H2. destruct (string_lt t r) eqn:E; [|done].
    destruct (string_lt r s) eqn:E'; [by rewrite (string_lt_trans _ _ _ E E') in H2|].
    rewrite (string_lt_total r s E' H1) in E. congruence. }
  unfold evict_lt, evict_less, time_Before. split.
  - intros [? a] [? b]; cbn [snd]. rewrite (Z.eqb_sym (ev_modTime b)).
    destruct (Z.eqb_spec (ev_modTime a) (ev_modTime b)); [apply string_lt_asym|lia].
  - intros [? a] [? b] [? c]; cbn [snd].
    destruct (Z.eqb_spec (ev_modTime b) (ev_modTime a)), (Z.eqb_spec (ev_modTime c) (ev_modTime b)),
      (Z.eqb_spec (ev_modTime c) (ev_modTime a)); try lia. apply Hs.
Qed.

(** ** The laws of the heap *)

Definition elem_of_loc (h : evictHeap) (l : nat) : elem := (l, norm (deref_entry l h)).
Definition elems (h : evictHeap) : list elem := elem_of_loc h <$> eh_heap h.

(** No pointer twice, and every entry knows its position. *)
Definition heap_idx (h : evictHeap) : Prop :=
  NoDup (eh_heap h) ∧ ∀ i l, eh_heap h !! i = Some l → ev_index (deref_entry l h) = Z.of_nat i.

Lemma deref_upd_entry l k f h :
  deref_entry k (upd_entry l f h) = if decide (k = l) then f (deref_entry l h) else deref_entry k h.
Proof.
  unfold deref_entry, upd_entry. cbn [eh_store]. case_decide as E; subst.
  - by rewrite lookup_insert_eq.
  - by rewrite lookup_insert_ne.
Qed.

Lemma norm_upd_index l k i h : norm (deref_entry k (upd_entry l (set_ev_index i) h)) = norm (deref_entry k h).
Proof. rewrite deref_upd_entry. by case_decide; subst. Qed.

Lemma elems_upd_index l i h : elems (upd_entry l (set_ev_index i) h) = elems h.
Proof.
  unfold elems, elem_of_loc. cbn [eh_heap upd_entry]. apply list_fmap_ext. intros _ k _.
  by rewrite norm_upd_index.
Qed.

Lemma lookup_total_swapl (i j k : nat) (l : list nat) :
  (i < length l)%nat → (j < length l)%nat →
  swapl i j l !!! k = if decide (k = i) then l !!! j else if decide (k = j) then l !!! i else l !!! k.
Proof. apply swapl_lookup. Qed.

Lemma fmap_swapl {A B} `{Inhabited A, Inhabited B} (f : A → B) i j l :
  (i < length l)%nat → (j < length l)%nat → f <$> swapl i j l = swapl i j (f <$> l).
Proof.
  intros Hi Hj. unfold swapl. rewrite !list_fmap_insert. by rewrite !(list_lookup_total_fmap f) by done.
Qed.

Lemma NoDup_lookup_total (l : list nat) i j :
  NoDup l → (i < length l)%nat → (j < length l)%nat → l !!! i = l !!! j → i = j.
Proof.
  intros Hn Hi Hj E. eapply (NoDup_lookup l); [done|by apply list_lookup_lookup_total_lt|].
  rewrite E. by apply list_lookup_lookup_total_lt.
Qed.

Lemma Swap_index i j h l :
  ev_index (deref_entry l (evict_Swap i j h)) =
  if decide (l = swapl i j (eh_heap h) !!! j) then Z.of_nat j
  else if decide (l = swapl i j (eh_heap h) !!! i) then Z.of_nat i
  else ev_index (deref_entry l h).
Proof.
  unfold evict_Swap. cbv zeta. rewrite !deref_upd_entry. cbn [eh_heap upd_entry].
  repeat case_decide; try done; by subst.
Qed.

Lemma heap_idx_Swap h i j :
  heap_idx h → (i < length (eh_heap h))%nat → (j < length (eh_heap h))%nat → heap_idx (evict_Swap i j h).
Proof.
  intros [Hn Hx] Hi Hj. pose proof (swapl_length i j (eh_heap h)) as Hlen.
  assert (Hn' : NoDup (swapl i j (eh_heap h))) by (by rewrite swapl_perm).
  split; [done|]. intros k l Hk. change (swapl i j (eh_heap h) !! k = Some l) in Hk.
  pose proof (lookup_lt_Some _ _ _ Hk) as Hlt. apply list_lookup_total_correct in Hk as <-.
  rewrite Swap_index. case_decide as E1; [by apply NoDup_lookup_total in E1; [subst|done|lia..]|].
  case_decide as E2; [by apply NoDup_lookup_total in E2; [subst|done|lia..]|].
  rewrite swapl_lookup by done. rewrite !decide_False by congruence.
  apply Hx, list_lookup_lookup_total_lt. lia.
Qed.

Lemma heap_idx_Pop h : heap_idx h → (0 < length (eh_heap h))%nat → heap_idx (evict_Pop h).2.
Proof.
  intros [Hn Hx] Hl. set (n := (length (eh_heap h) - 1)%nat).
  assert (Hsplit : eh_heap h = take n (eh_heap h) ++ [eh_heap h !!! n]).
  { rewrite <- (take_drop_middle (eh_heap h) n (eh_heap h !!! n)) at 1
      by (apply list_lookup_lookup_total_lt; unfold n; lia).
    f_equal. rewrite drop_ge by (unfold n; lia). done. }
  rewrite Hsplit in Hn. apply NoDup_app in Hn as (Hn & Hd & _).
  split; [done|]. intros i l Hi. 
  change (deref_entry l (evict_Pop h).2) with (deref_entry l (upd_entry (eh_heap h !!! n) (set_ev_index (-1)) h)).
  change (take n (eh_heap h) !! i = Some l) in Hi.
  rewrite deref_upd_entry. rewrite decide_False.
  - apply lookup_take_Some in Hi as [Hi _]. by apply Hx.
  - intros ->. apply (Hd (eh_heap h !!! n)); [by eapply list_elem_of_lookup_2|by left].
Qed.

#[global] Instance evictHeap_laws :
  HeapLaws evictHeap nat elem heap_idx elems (λ h l, elem_of_loc h l) evict_lt.
Proof.
  split.
  - intros h. unfold elems. by rewrite length_fmap.
  - intros h i j _ Hi Hj. simpl in *. unfold elems. by rewrite !(list_lookup_total_fmap (elem_of_loc h)) by done.
  - intros h i j. apply heap_idx_Swap.
  - intros h i j Hi Hj. simpl in *. unfold evict_Swap. rewrite !elems_upd_index.
    unfold elems. cbn [eh_heap]. by rewrite <- (fmap_swapl (elem_of_loc h)).
  - intros h l. simpl. unfold evict_Push, elems. cbn [eh_heap]. rewrite fmap_app. f_equal.
    + apply list_fmap_ext. intros _ k _. unfold elem_of_loc. f_equal. apply norm_upd_index.
    + unfold elem_of_loc. simpl. f_equal. f_equal. apply norm_upd_index.
  - intros h. apply heap_idx_Pop.
  - intros h Hl. simpl in *. unfold evict_Pop, elems. cbn [fst snd eh_heap].
    set (n := (length (eh_heap h) - 1)%nat).
    rewrite <- (take_drop_middle (eh_heap h) n (eh_heap h !!! n)) at 1
      by (apply list_lookup_lookup_total_lt; unfold n; lia).
    rewrite drop_ge by (unfold n; lia). rewrite fmap_app. f_equal.
    apply list_fmap_ext. intros _ k _. unfold elem_of_loc. f_equal. symmetry. apply norm_upd_index.
Qed.

(** ** The index *)

Definition sizes (es : list elem) : Z := sum_Z ((λ x, ev_size x.2) <$> es).

(** The entries of the heap and [deferred] ones (popped, to be pushed back)
    are exactly those the map knows, each under its path. *)
Record index_wf (h : evictHeap) (deferred : list elem) (es : gmap string nat) (next : nat) : Prop := {
  iw_idx : heap_idx h;
  iw_ord : heap_ok evict_lt (elems h) (Len h);
  iw_known l e : (l, e) ∈ elems h ++ deferred → es !! ev_path e = Some l;
  iw_listed p l : es !! p = Some l → ∃ e, (l, e) ∈ elems h ++ deferred ∧ ev_path e = p;
  iw_nodup : NoDup ((elems h ++ deferred).*1);
  iw_next l e : (l, e) ∈ elems h ++ deferred → (l < next)%nat;
}.

(** The invariant of the cache between two operations: the index is in order,
    and [totalSize] is the sum of the sizes it holds. *)
Record cc_wf (c : ContentCache) : Prop := {
  wf_index : index_wf (evictionHeap c) [] (evictEntries c) (evictNext c);
  wf_total : totalSize c = i64 (sizes (elems (evictionHeap c)));
}.

Lemma i64_add_l a b : i64 (i64 a + b) = i64 (a + b).
Proof.
  unfold i64. f_equal. replace ((a + 2 ^ 63) mod 2 ^ 64 - 2 ^ 63 + b + 2 ^ 63) with
    ((a + 2 ^ 63) mod 2 ^ 64 + b) by lia.
  rewrite Z.add_mod_idemp_l by lia. f_equal. lia.
Qed.

Lemma sizes_perm es fs : es ≡ₚ fs → sizes es = sizes fs.
Proof. intros H. unfold sizes. apply sum_Z_perm. by rewrite H. Qed.

Lemma sizes_cons x es : sizes (x :: es) = ev_size x.2 + sizes es.
Proof. done. Qed.

Lemma elems_fst h : (elems h).*1 = eh_heap h.
Proof.
  unfold elems. rewrite <- list_fmap_compose. unfold compose. simpl. apply list_fmap_id.
Qed.

Lemma elem_elems h l e : (l, e) ∈ elems h ↔ l ∈ eh_heap h ∧ e = norm (deref_entry l h).
Proof.
  unfold elems, elem_of_loc. rewrite list_elem_of_fmap. split.
  - intros (k & [= -> ->] & Hk). done.
  - intros [Hl ->]. eauto.
Qed.

(** The elements do not see the update of an entry outside the heap. *)
Lemma elems_upd_outside l f h : l ∉ eh_heap h → elems (upd_entry l f h) = elems h.
Proof.
  intros Hl. unfold elems, elem_of_loc. cbn [upd_entry eh_heap]. apply list_fmap_ext.
  intros i k Hk. f_equal. rewrite deref_upd_entry. rewrite decide_False; [done|].
  intros ->. apply Hl. by eapply list_elem_of_lookup_2.
Qed.

Lemma heap_idx_upd_outside l f h : l ∉ eh_heap h → heap_idx h → heap_idx (upd_entry l f h).
Proof.
  intros Hl [Hn Hx]. split; [done|]. intros i k Hk. rewrite deref_upd_entry, decide_False; [by apply Hx|].
  intros ->. apply Hl. by eapply list_elem_of_lookup_2.
Qed.

(** Pushing an entry that is not in the heap. *)
Lemma Push_elems h l :
  l ∉ eh_heap h → heap_idx h → heap_ok evict_lt (elems h) (Len h) →
  heap_idx (Push h l) ∧ elems (Push h l) ≡ₚ elem_of_loc h l :: elems h ∧
  heap_ok evict_lt (elems (Push h l)) (Len (Push h l)).
Proof.
  intros Hl [Hn Hx] Ho.
  destruct (Push_correct (elems := elems) (lt := evict_lt) h l) as (H1 & H2 & H3).
  - split; cbn.
    + apply NoDup_app. split; [done|]. split; [|apply NoDup_singleton].
      intros k Hk Hk'. apply list_elem_of_singleton in Hk'. by subst.
    + intros i k Hk. change (ev_index (deref_entry k (upd_entry l (set_ev_index (Z.of_nat (length (eh_heap h)))) h)) = Z.of_nat i).
      rewrite deref_upd_entry. apply lookup_app_Some in Hk as [Hk|[Hi Hk]].
      * rewrite decide_False; [by apply Hx|]. intros ->. apply Hl. by eapply list_elem_of_lookup_2.
      * apply list_lookup_singleton_Some in Hk as [Hk <-]. rewrite decide_True by done. simpl. lia.
  - split; [done|]. split; [done|]. by apply H3.
Qed.

(** The parts of [index_wf] that only see which elements there are. *)
Lemma index_wf_perm h d es next h' d' :
  index_wf h d es next → elems h' ++ d' ≡ₚ elems h ++ d → heap_idx h' →
  heap_ok evict_lt (elems h') (Len h') → index_wf h' d' es next.
Proof.
  intros [H1 H2 H3 H4 H5 H6] Hp Hi Ho. split; try done.
  - intros l e. rewrite Hp. apply H3.
  - intros p l Hl. destruct (H4 p l Hl) as (e & He & <-). exists e. by rewrite Hp.
  - by rewrite Hp.
  - intros l e. rewrite Hp. apply H6.
Qed.

Lemma index_wf_outside h d es next : index_wf h d es next → next ∉ eh_heap h.
Proof.
  intros Hw Hin. assert (He : (next, norm (deref_entry next h)) ∈ elems h ++ d).
  { apply elem_of_app. left. by apply elem_elems. }
  apply (iw_next _ _ _ _ Hw) in He. lia.
Qed.

(** A new path is added to the index. *)
Lemma index_wf_add h es next e :
  index_wf h [] es next → es !! ev_path e = None →
  let h' := Push (upd_entry next (λ _, e) h) next in
  index_wf h' [] (<[ev_path e := next]> es) (S next) ∧ sizes (elems h') = ev_size e + sizes (elems h).
Proof.
  intros Hw Hnone. pose proof (index_wf_outside _ _ _ _ Hw) as Hout. set (h0 := upd_entry next (λ _, e) h).
  assert (He0 : elems h0 = elems h) by (by apply elems_upd_outside).
  assert (HL : Len h0 = Len h) by done.
  destruct (Push_elems h0 next) as (Hi & Hp & Ho); [done|by apply heap_idx_upd_outside, Hw| |].
  { rewrite He0, HL. apply Hw. }
  assert (Hd : deref_entry next h0 = e) by (unfold h0; by rewrite deref_upd_entry, decide_True).
  unfold elem_of_loc in Hp. rewrite Hd, He0 in Hp. cbv zeta. fold h0. split.
  2: { rewrite (sizes_perm _ _ Hp). by rewrite sizes_cons. }
  destruct Hw as [H1 H2 H3 H4 H5 H6]. rewrite app_nil_r in *. split; try done; rewrite ?app_nil_r.
  - intros l e'. rewrite Hp, elem_of_cons. intros [[= -> ->]|Hin]; [by rewrite lookup_insert_eq|].
    apply H3 in Hin. rewrite lookup_insert_ne; [done|]. intros E. rewrite E in Hnone. congruence.
  - intros p l Hl. destruct (decide (p = ev_path e)) as [->|Hne].
    + rewrite lookup_insert_eq in Hl. injection Hl as <-. exists (norm e). rewrite Hp. split; [left|done].
    + rewrite lookup_insert_ne in Hl by done. destruct (H4 p l Hl) as (e' & He' & <-).
      exists e'. rewrite Hp. split; [by right|done].
  - rewrite Hp. cbn [fmap list_fmap fst]. apply NoDup_cons. split; [|done].
    change (list_fmap _ _ fst (elems h)) with ((elems h).*1). by rewrite elems_fst.
  - intros l e'. rewrite Hp, elem_of_cons. intros [[= -> ->]|Hin]; [lia|]. apply H6 in Hin. lia.
Qed.

(** The position an entry knows is where it is. *)
Lemma heap_idx_index h l :
  heap_idx h → l ∈ eh_heap h →
  ∃ i, ev_index (deref_entry l h) = Z.of_nat i ∧ eh_heap h !! i = Some l ∧ (i < Len h)%nat.
Proof.
  intros [_ Hx] Hl. apply list_elem_of_lookup in Hl as [i Hi]. exists i.
  split; [by apply Hx|]. split; [done|]. by eapply lookup_lt_Some.
Qed.

Lemma elems_upd_inside h l i f :
  heap_idx h → eh_heap h !! i = Some l →
  elems (upd_entry l f h) = <[i := (l, norm (f (deref_entry l h)))]> (elems h).
Proof.
  intros [Hn _] Hi. unfold elems. cbn [upd_entry eh_heap]. apply list_eq. intros k.
  destruct (decide (k = i)) as [->|Hk].
  - rewrite list_lookup_insert_eq by (rewrite length_fmap; by eapply lookup_lt_Some).
    rewrite list_lookup_fmap, Hi. simpl. unfold elem_of_loc. by rewrite deref_upd_entry, decide_True.
  - rewrite list_lookup_insert_ne, !list_lookup_fmap by done.
    destruct (eh_heap h !! k) as [l'|] eqn:E; [|done]. simpl. unfold elem_of_loc. do 2 f_equal.
    rewrite deref_upd_entry, decide_False; [done|]. intros ->. by apply Hk, (NoDup_lookup (eh_heap h) k i l).
Qed.

Lemma insert_perm {A} (l : list A) i x y :
  l !! i = Some x → ∃ rest, l ≡ₚ x :: rest ∧ <[i := y]> l ≡ₚ y :: rest.
Proof.
  intros Hi. exists (take i l ++ drop (S i) l). split.
  - rewrite <- (take_drop_middle l i x Hi) at 1. symmetry. apply Permutation_middle.
  - rewrite insert_take_drop by (by eapply lookup_lt_Some). symmetry. apply Permutation_middle.
Qed.

(** The metadata of a listed path changes; its place in the heap is repaired. *)
Lemma index_wf_update h es next l f :
  index_wf h [] es next → l ∈ eh_heap h →
  (∀ e, ev_path (f e) = ev_path e ∧ ev_index (f e) = ev_index e) →
  let h0 := upd_entry l f h in
  let h' := Fix h0 (Z.to_nat (ev_index (deref_entry l h0))) in
  index_wf h' [] es next ∧
  sizes (elems h') = sizes (elems h) + (ev_size (f (deref_entry l h)) - ev_size (deref_entry l h)).
Proof.
  intros Hw Hl Hf h0 h'. pose proof (iw_idx _ _ _ _ Hw) as Hidx.
  destruct (heap_idx_index h l Hidx Hl) as (i & Hix & Hi & Hlt).
  pose proof (elems_upd_inside h l i f Hidx Hi) as He0. fold h0 in He0.
  assert (Hidx0 : heap_idx h0).
  { split; [apply Hidx|]. intros k l' Hk. unfold h0. rewrite deref_upd_entry.
    case_decide as E; [subst; rewrite (proj2 (Hf _))|]; by apply Hidx. }
  assert (Hpos : Z.to_nat (ev_index (deref_entry l h0)) = i).
  { unfold h0. rewrite deref_upd_entry, decide_True, (proj2 (Hf _)), Hix by done. lia. }
  unfold h'. rewrite Hpos.
  destruct (Fix_correct (elems := elems) (lt := evict_lt) h0 i Hidx0) as [(Hi' & Hp & HL) Ho]; [exact Hlt|].
  assert (Hx : elems h !! i = Some (l, norm (deref_entry l h))).
  { unfold elems. by rewrite list_lookup_fmap, Hi. }
  destruct (insert_perm _ i _ (l, norm (f (deref_entry l h))) Hx) as (rest & Hr1 & Hr).
  assert (Hr2 : elems (Fix h0 i) ≡ₚ (l, norm (f (deref_entry l h))) :: rest).
  { rewrite Hp, He0. exact Hr. }
  split.
  2: { rewrite (sizes_perm _ _ Hr1), (sizes_perm _ _ Hr2), !sizes_cons. simpl. lia. }
  destruct Hw as [H1 H2 H3 H4 H5 H6]. rewrite app_nil_r in *.
  pose proof (proj1 (Hf (deref_entry l h))) as Hpath. split; rewrite ?app_nil_r.
  - done.
  - apply Ho. rewrite He0. apply heap_but_insert; [done| |done].
    rewrite <- (Len_spec h). done.
  - intros k e. rewrite Hr2, elem_of_cons. intros [[= -> ->]|Hin].
    + cbn [norm set_ev_index ev_path]. rewrite Hpath.
      apply (H3 l (norm (deref_entry l h))). rewrite Hr1. by left.
    + apply H3. rewrite Hr1. by right.
  - intros p k Hk. destruct (H4 p k Hk) as (e & He & <-). rewrite Hr1, elem_of_cons in He.
    destruct He as [[= -> ->]|Hin].
    + exists (norm (f (deref_entry l h))). rewrite Hr2. split; [by left|exact Hpath].
    + exists e. rewrite Hr2. split; [by right|done].
  - rewrite Hr2. rewrite Hr1 in H5. exact H5.
  - intros k e. rewrite Hr2, elem_of_cons. intros [[= -> ->]|Hin].
    + apply (H6 l (norm (deref_entry l h))). rewrite Hr1. by left.
    + eapply H6. rewrite Hr1. by right.
Qed.

(** ** The heap algorithms only move entries: they change positions, no data *)

Definition same_data (h h' : evictHeap) : Prop := ∀ l, norm (deref_entry l h') = norm (deref_entry l h).

Lemma same_data_trans h1 h2 h3 : same_data h1 h2 → same_data h2 h3 → same_data h1 h3.
Proof. intros H1 H2 l. by rewrite H2. Qed.

Lemma same_data_Swap i j h : same_data h (evict_Swap i j h).
Proof. intros l. unfold evict_Swap. cbv zeta. by rewrite !norm_upd_index. Qed.

Lemma same_data_up fuel h j : same_data h (up_fuel fuel h j).
Proof.
  revert h j. induction fuel as [|fuel IH]; intros h j; [done|]. cbn [up_fuel]. destruct (_ || _); [done|].
  eapply same_data_trans; [apply same_data_Swap|apply IH].
Qed.

Lemma same_data_down fuel h i n : same_data h (down_fuel fuel h i n).
Proof.
  revert h i. induction fuel as [|fuel IH]; intros h i; [done|]. cbn [down_fuel].
  destruct (_ <=? _)%nat; [done|]. destruct (negb _); [done|].
  eapply same_data_trans; [apply same_data_Swap|apply IH].
Qed.

Lemma same_data_heap_Pop h : same_data h (evict_Pop h).2.
Proof. intros l. apply norm_upd_index. Qed.

Lemma same_data_heap_Push l h : same_data h (evict_Push l h).
Proof. intros k. apply norm_upd_index. Qed.

Lemma same_data_Pop h : same_data h (Pop h).2.
Proof.
  unfold Pop. eapply same_data_trans; [|apply same_data_heap_Pop].
  eapply same_data_trans; [apply same_data_Swap|apply same_data_down].
Qed.

Lemma same_data_Push h l : same_data h (Push h l).
Proof. unfold Push. eapply same_data_trans; [apply same_data_heap_Push|apply same_data_up]. Qed.

Lemma same_data_restore h i n : same_data h (if down_moves h i n then down h i n else up h i).
Proof. destruct (down_moves h i n); [apply same_data_down|apply same_data_up]. Qed.

Lemma same_data_Remove h i : same_data h (Remove h i).2.
Proof.
  unfold Remove. destruct (_ =? i)%nat; [apply same_data_heap_Pop|].
  eapply same_data_trans; [|apply same_data_heap_Pop].
  eapply same_data_trans; [apply same_data_Swap|apply same_data_restore].
Qed.

Lemma same_data_elem h h' l : same_data h h' → elem_of_loc h' l = elem_of_loc h l.
Proof. intros H. unfold elem_of_loc. by rewrite H. Qed.

(** What [Pop] and [Remove] take out, in terms of the heap they started from. *)
Lemma Pop_elems h :
  heap_idx h → heap_ok evict_lt (elems h) (Len h) → (0 < Len h)%nat →
  let '(l, h') := Pop h in
  heap_idx h' ∧ heap_ok evict_lt (elems h') (Len h') ∧ elems h ≡ₚ elem_of_loc h l :: elems h' ∧
  (∀ y, y ∈ elems h → Heap.le evict_lt (elem_of_loc h l) y).
Proof.
  intros Hi Ho Hl. pose proof (Pop_correct (elems := elems) (lt := evict_lt) h Hi Hl) as Hc.
  destruct (Pop h) as [l h'] eqn:E. destruct Hc as (hd & (Hid & Hpd & _) & Hi' & Hp & Hm).
  assert (Hv : elem_of_loc hd l = elem_of_loc h l).
  { assert (Hin : elem_of_loc hd l ∈ elems h) by (rewrite Hp; by left).
    unfold elem_of_loc in Hin. apply elem_elems in Hin as [_ He]. unfold elem_of_loc. by rewrite He. }
  rewrite Hv in Hp, Hm. destruct (Hm Ho). done.
Qed.

Lemma Remove_elems h i l :
  heap_idx h → heap_ok evict_lt (elems h) (Len h) → eh_heap h !! i = Some l →
  heap_idx (Remove h i).2 ∧ heap_ok evict_lt (elems (Remove h i).2) (Len (Remove h i).2) ∧
  elems h ≡ₚ elem_of_loc h l :: elems (Remove h i).2.
Proof.
  intros Hi Ho Hl. pose proof (Remove_correct (elems := elems) (lt := evict_lt) h i Hi) as Hc.
  destruct (Remove h i) as [l' h']. destruct Hc as (hd & _ & Hi' & Hp & Hv & Hm); [by eapply lookup_lt_Some|].
  assert (Hx : elems h !!! i = elem_of_loc h l).
  { apply list_lookup_total_correct. unfold elems. by rewrite list_lookup_fmap, Hl. }
  rewrite Hv, Hx in Hp. split; [done|]. split; [by apply Hm|done].
Qed.

(** An entry leaves the index with its path. *)
Lemma index_wf_del h' d es next l e :
  (∀ k e', (k, e') ∈ elems h' ++ d → es !! ev_path e' = Some k) →
  (∀ p k, es !! p = Some k → ∃ e', ((k, e') = (l, e) ∨ (k, e') ∈ elems h' ++ d) ∧ ev_path e' = p) →
  l ∉ (elems h' ++ d).*1 → NoDup ((elems h' ++ d).*1) →
  (∀ k e', (k, e') ∈ elems h' ++ d → (k < next)%nat) →
  heap_idx h' → heap_ok evict_lt (elems h') (Len h') → es !! ev_path e = Some l →
  index_wf h' d (delete (ev_path e) es) next.
Proof.
  intros H3 H4 Hl H5 H6 Hi Ho He. split; try done.
  - intros k e' Hin. pose proof (H3 k e' Hin) as Hk. rewrite lookup_delete_ne; [done|].
    intros E. rewrite <- E, He in Hk. injection Hk as <-. apply Hl. apply list_elem_of_fmap. by exists (l, e').
  - intros p k Hk. apply lookup_delete_Some in Hk as [Hne Hk].
    destruct (H4 p k Hk) as (e' & [[= -> ->]|Hin] & <-); [done|]. eauto.
Qed.

Lemma index_wf_uncons h d es next l h' :
  index_wf h d es next → elems h ≡ₚ elem_of_loc h l :: elems h' → heap_idx h' →
  heap_ok evict_lt (elems h') (Len h') →
  index_wf h' d (delete (ev_path (deref_entry l h)) es) next ∧ es !! ev_path (deref_entry l h) = Some l.
Proof.
  intros [H1 H2 H3 H4 H5 H6] Hp Hi Ho.
  assert (Hall : elems h ++ d ≡ₚ elem_of_loc h l :: (elems h' ++ d)) by (by rewrite Hp).
  assert (He : es !! ev_path (norm (deref_entry l h)) = Some l).
  { apply (H3 l). rewrite Hall. by left. }
  split; [|done]. change (ev_path (deref_entry l h)) with (ev_path (norm (deref_entry l h))).
  rewrite Hall in H5. cbn [fmap list_fmap fst elem_of_loc] in H5. apply NoDup_cons in H5 as [Hl H5].
  apply (index_wf_del h' d es next l); try done.
  - intros k e' Hin. apply H3. rewrite Hall. by right.
  - intros p k Hk. destruct (H4 p k Hk) as (e' & Hin & Hpath). rewrite Hall, elem_of_cons in Hin. eauto.
  - intros k e' Hin. eapply H6. rewrite Hall. by right.
Qed.

(** ** Every operation keeps the accounting invariant *)

Definition keeps {A} (m : ContentCache → A * ContentCache) : Prop := ∀ c, cc_wf c → cc_wf (m c).2.

(** The invariant only sees the index. *)
Lemma cc_wf_same c c' :
  evictionHeap c' = evictionHeap c → evictEntries c' = evictEntries c → evictNext c' = evictNext c →
  totalSize c' = totalSize c → cc_wf c → cc_wf c'.
Proof. intros E1 E2 E3 E4 [H1 H2]. split; rewrite ?E1, ?E2, ?E3, ?E4; done. Qed.

Lemma keeps_bind {A B} (m : CC A) (f : A → CC B) : keeps m → (∀ a, keeps (f a)) → keeps (se_bind m f).
Proof.
  intros Hm Hf c Hc. specialize (Hm c Hc). unfold se_bind. destruct (m c) as [[e|a] c']; [done|]. by apply Hf.
Qed.

Lemma keeps_syscall {A} (m : Disk → (error + A) * Disk) : keeps (syscall m).
Proof.
  intros c Hc. unfold syscall. destruct (m (disk c)) as [r d]. by apply (cc_wf_same c).
Qed.

Lemma wf_syscall {A} (m : Disk → (error + A) * Disk) c r c' : syscall m c = (r, c') → cc_wf c → cc_wf c'.
Proof. intros E Hc. pose proof (keeps_syscall m c Hc) as H. by rewrite E in H. Qed.

Lemma wf_set_fds v c : cc_wf c → cc_wf (set_fds v c).
Proof. by apply cc_wf_same. Qed.
Lemma wf_set_disk v c : cc_wf c → cc_wf (set_disk v c).
Proof. by apply cc_wf_same. Qed.

Lemma wf_maybeEvict c : cc_wf c → cc_wf (maybeEvict c).
Proof. unfold maybeEvict. case_match; [done|]. by apply cc_wf_same. Qed.

(** [totalSize] follows the sum of the sizes. *)
Lemma wf_total_add c s n :
  index_wf (evictionHeap c) [] (evictEntries c) (evictNext c) → totalSize c = i64 (i64 s + n) →
  sizes (elems (evictionHeap c)) = s + n → cc_wf c.
Proof. intros Hw Ht Hs. split; [done|]. by rewrite Ht, Hs, i64_add_l. Qed.

Lemma wf_trackFileInfo id path info c : cc_wf c → cc_wf (trackFileInfoLocked id path info c).
Proof.
  intros [Hw Ht]. unfold trackFileInfoLocked. destruct (evictEntries c !! path) as [l|] eqn:El.
  - destruct (iw_listed _ _ _ _ Hw _ _ El) as (e & Hin & Hpath). rewrite app_nil_r in Hin.
    apply elem_elems in Hin as [Hl ->]. cbn [evictionHeap addTotal set_totalSize].
    set (f := λ e, mkEvictEntry id (ev_path e) (fi_ModTime info) (fi_Size info) (ev_index e)).
    destruct (index_wf_update _ _ _ l f Hw Hl) as [Hw' Hs]; [done|].
    destruct (heap_idx_index _ _ (iw_idx _ _ _ _ Hw) Hl) as (i & Hix & _).
    assert (Hpos : ev_index (deref_entry l (upd_entry l f (evictionHeap c))) = Z.of_nat i).
    { by rewrite deref_upd_entry, decide_True. }
    rewrite Hpos in *. destruct (Z.leb_spec 0 (Z.of_nat i)); [|lia].
    eapply (wf_total_add _ _ (fi_Size info - ev_size (deref_entry l (evictionHeap c)))).
    + exact Hw'.
    + cbn. by rewrite Ht.
    + exact Hs.
  - destruct (index_wf_add _ _ _ (mkEvictEntry id path (fi_ModTime info) (fi_Size info) (-1)) Hw El) as [Hw' Hs].
    unfold index_entry. eapply (wf_total_add _ (sizes (elems (evictionHeap c))) (fi_Size info)).
    + exact Hw'.
    + cbn. by rewrite Ht.
    + etransitivity; [exact Hs|]. simpl. lia.
Qed.

Lemma keeps_trackFile id : keeps (trackFileLocked id).
Proof.
  intros c. unfold trackFileLocked. apply keeps_bind; [apply keeps_syscall|].
  intros info c' Hc. by apply wf_trackFileInfo.
Qed.

Lemma keeps_trackOpenFile id path fd : keeps (trackOpenFileLocked id path fd).
Proof.
  intros c Hc. unfold trackOpenFileLocked. destruct (evictEntries c !! path); [done|].
  apply keeps_bind; [apply keeps_syscall| |done]. intros info c' Hc'. by apply wf_trackFileInfo.
Qed.

Lemma wf_forget path l c :
  evictEntries c !! path = Some l → cc_wf c →
  cc_wf (addTotal (- ev_size (deref_entry l (evictionHeap c))) (forgetEvictionEntryLocked path c)).
Proof.
  intros El [Hw Ht]. unfold forgetEvictionEntryLocked. rewrite El.
  destruct (iw_listed _ _ _ _ Hw _ _ El) as (e & Hin & Hpath). rewrite app_nil_r in Hin.
  apply elem_elems in Hin as [Hl ->]. cbn [norm set_ev_index ev_path] in Hpath.
  destruct (heap_idx_index _ _ (iw_idx _ _ _ _ Hw) Hl) as (i & Hix & Hi & _).
  rewrite Hix. destruct (Z.leb_spec 0 (Z.of_nat i)); [|lia]. rewrite Nat2Z.id.
  destruct (Remove_elems _ i l (iw_idx _ _ _ _ Hw) (iw_ord _ _ _ _ Hw) Hi) as (Hi' & Ho' & Hp).
  destruct (index_wf_uncons _ _ _ _ l _ Hw Hp Hi' Ho') as [Hw' _]. rewrite Hpath in Hw'.
  eapply (wf_total_add _ (sizes (elems (evictionHeap c)))); [exact Hw'|cbn; by rewrite Ht|].
  rewrite (sizes_perm _ _ Hp), sizes_cons. simpl. lia.
Qed.

Lemma keeps_Open id : keeps (Open id).
Proof.
  intros c Hc. unfold Open. destruct (fds c !! id); [done|].
  destruct (syscall (os_OpenFile _) c) as [[e|fd] c1] eqn:E1; [by eapply wf_syscall|].
  pose proof (wf_syscall _ _ _ _ E1 Hc) as H1.
  pose proof (keeps_trackOpenFile id (contentPath c id) fd (set_fds (<[id:=fd]> (fds c1)) c1) (wf_set_fds _ _ H1)) as H2.
  destruct (trackOpenFileLocked _ _ _ _) as [[e|[]] c2]; [|done]. simpl in H2.
  destruct (syscall (file_Close fd) _) as [r c3] eqn:E3. simpl.
  eapply wf_syscall; [exact E3|]. by apply wf_set_fds.
Qed.

Lemma keeps_unless_closed {A} (m : CC A) : keeps m → keeps (unless_closed m).
Proof. intros Hm c Hc. unfold unless_closed. destruct (closed c); [done|]. by apply Hm. Qed.

Lemma keeps_modify (f : ContentCache → ContentCache) :
  (∀ c, cc_wf c → cc_wf (f c)) → keeps (se_modify (E := error) f).
Proof. intros Hf c Hc. by apply Hf. Qed.

Lemma keeps_Insert id content : keeps (Insert id content).
Proof.
  apply keeps_unless_closed. intros c. apply keeps_bind; [apply keeps_syscall|]. intros _.
  apply keeps_bind; [apply keeps_trackFile|]. intros _. apply keeps_modify, wf_maybeEvict.
Qed.

Lemma keeps_InsertStream id chunks err : keeps (InsertStream id chunks err).
Proof.
  intros c Hc. unfold InsertStream. destruct (closed c); [done|].
  set (m := se_bind (Open id) _). assert (Hm : keeps m).
  { apply keeps_bind; [apply keeps_Open|]. intros fd. apply keeps_bind; [apply keeps_syscall|]. intros _.
    apply keeps_bind; [apply keeps_syscall|]. intros _ c' Hc'. unfold copy_into.
    destruct (file_CopyFrom _ _ _ _ _) as [[n e] d]. by apply wf_set_disk. }
  specialize (Hm c Hc). destruct (m c) as [[e|[n [e|]]] c1]; [done..|].
  pose proof (keeps_trackFile id c1 Hm) as Ht. destruct (trackFileLocked id c1) as [[e|[]] c2]; [done|].
  by apply wf_maybeEvict.
Qed.

Lemma keeps_closeLocked id : keeps (closeLocked id).
Proof.
  intros c Hc. unfold closeLocked. destruct (fds c !! id) as [fd|]; [|done].
  destruct (syscall (file_Stat fd) _) as [r c1] eqn:E1.
  assert (H1 : cc_wf c1) by (eapply wf_syscall; [exact E1|by apply wf_set_fds]).
  set (c2 := match r with inl _ => c1 | inr info => _ end).
  assert (H2 : cc_wf c2) by (unfold c2; destruct r; [done|by apply wf_trackFileInfo]).
  replace (let (s, c3) := (r, c1) in match s with inl _ => c3 | inr info => _ end) with c2 by (by destruct r).
  destruct (syscall (file_Sync fd) c2) as [? c3] eqn:E3. destruct (syscall (file_Close fd) c3) as [? c4] eqn:E4.
  eapply wf_syscall; [exact E4|]. by eapply wf_syscall.
Qed.

Lemma wf_Close id c : cc_wf c → cc_wf (Close id c).
Proof.
  intros Hc. unfold Close. pose proof (keeps_closeLocked id c Hc) as H.
  destruct (closeLocked id c) as [[] c1]; [by apply wf_maybeEvict|done].
Qed.

Lemma keeps_Size id : keeps (Size id).
Proof.
  intros c Hc. unfold Size. destruct (fds c !! id) as [fd|].
  - destruct (syscall (file_Stat fd) c) as [[e|info] c1] eqn:E1; simpl; [|by eapply wf_syscall].
    destruct (syscall (os_Stat _) c1) as [[e'|info] c2] eqn:E2; simpl;
      (eapply wf_syscall; [exact E2|]; by eapply wf_syscall).
  - destruct (syscall (os_Stat _) c) as [[e'|info] c2] eqn:E2; simpl; by eapply wf_syscall.
Qed.

Lemma keeps_HasContent id : keeps (HasContent id).
Proof.
  intros c Hc. unfold HasContent. destruct (IsOpen c id); [done|].
  destruct (syscall (os_Stat _) c) as [[e'|info] c2] eqn:E2; by eapply wf_syscall.
Qed.

Lemma keeps_WriteAt id data off : keeps (WriteAt id data off).
Proof.
  intros c Hc. unfold WriteAt. destruct (closed c); [done|].
  pose proof (keeps_Size id c Hc) as H1. destruct (Size id c) as [prev c1]. simpl in H1.
  pose proof (keeps_Open id c1 H1) as H2. destruct (Open id c1) as [[e|fd] c2]; [done|]. simpl in H2.
  destruct (file_WriteAt fd data off (disk c2)) as [[n [e|]] d]; [by apply wf_set_disk|].
  pose proof (keeps_trackFile id (set_disk d c2) (wf_set_disk _ _ H2)) as H3.
  destruct (trackFileLocked id _) as [[e|[]] c3]; [done|]. simpl. case_match; [by apply wf_maybeEvict|done].
Qed.

(** Opening, rewinding and a system call on the descriptor. *)
Lemma keeps_read {A} id (m : nat → CC A) :
  (∀ fd, keeps (m fd)) →
  keeps (se_bind (Open id) (λ fd, se_bind (syscall (file_Seek fd 0)) (λ _, m fd))).
Proof.
  intros Hm. apply keeps_bind; [apply keeps_Open|]. intros fd.
  apply keeps_bind; [apply keeps_syscall|]. intros _. apply Hm.
Qed.

Lemma keeps_ReadAll id : keeps (ReadAll id).
Proof.
  intros c Hc. unfold ReadAll.
  pose proof (keeps_read id (λ fd, syscall (file_ReadAll fd)) (λ _, keeps_syscall _) c Hc) as H.
  by destruct (se_bind _ _ c) as [[e|d] c1].
Qed.

Lemma keeps_snapshot_copy fd tmp path : keeps (snapshot_copy fd tmp path).
Proof.
  intros c Hc. unfold snapshot_copy. destruct (syscall (file_ReadAll fd) c) as [data c1] eqn:E1.
  pose proof (wf_syscall _ _ _ _ E1 Hc) as H1.
  destruct (match data with inl _ => _ | inr _ => _ end) as [[n copyErr] d].
  destruct (syscall (file_Close tmp) (set_disk d c1)) as [closeR c2] eqn:E2.
  assert (H2 : cc_wf c2) by (eapply wf_syscall; [exact E2|by apply wf_set_disk]).
  assert (H3 : cc_wf (syscall (os_Remove path) c2).2) by by apply keeps_syscall.
  repeat case_match; done.
Qed.

Lemma keeps_Snapshot id : keeps (Snapshot id).
Proof.
  intros c Hc. unfold Snapshot. pose proof (keeps_HasContent id c Hc) as H1.
  destruct (HasContent id c) as [[] c1]; [|done]. simpl in *.
  apply (keeps_read id (λ fd, se_bind (syscall (os_MkdirAll _)) _)); [|done]. intros fd.
  apply keeps_bind; [apply keeps_syscall|]. intros _.
  apply keeps_bind; [apply keeps_syscall|]. intros t. apply keeps_snapshot_copy.
Qed.

Lemma keeps_SumQuickXorHash id : keeps (SumQuickXorHash id).
Proof.
  intros c Hc. unfold SumQuickXorHash. pose proof (keeps_HasContent id c Hc) as H1.
  destruct (HasContent id c) as [[] c1]; [|done]. cbn [negb snd] in *.
  pose proof (keeps_read id (λ fd, syscall (file_ReadAll fd)) (λ _, keeps_syscall _) c1 H1) as H.
  by destruct (se_bind _ _ c1) as [[e|d] c2].
Qed.

(** Operations that leave the names of the disk alone and forget no path. *)
Definition grows (c c' : ContentCache) : Prop :=
  directory c' = directory c ∧ d_names (disk c') = d_names (disk c) ∧
  ∀ p, is_Some (evictEntries c !! p) → is_Some (evictEntries c' !! p).

Lemma grows_refl c : grows c c.
Proof. done. Qed.
Lemma grows_trans c1 c2 c3 : grows c1 c2 → grows c2 c3 → grows c1 c3.
Proof. intros (E1&E2&E3) (F1&F2&F3). split; [congruence|]. split; [congruence|auto]. Qed.

(** A call that keeps the names. *)
Definition keeps_names {A} (m : Disk → (error + A) * Disk) : Prop := ∀ d, d_names (m d).2 = d_names d.

Lemma names_sys {A} op path (m : Disk → (error + A) * Disk) : keeps_names m → keeps_names (sys op path m).
Proof.
  intros Hm d. unfold sys. destruct (d_faults d) as [|[f|] fs]; [apply Hm|done|]. by rewrite Hm.
Qed.

Lemma names_with_fd {A} op fd (m : FileDesc → FileObj → Disk → (error + A) * Disk) :
  (∀ f o, keeps_names (m f o)) → keeps_names (with_fd op fd m).
Proof.
  intros Hm d. unfold with_fd. destruct (fd_file fd d); [|done]. apply names_sys. intros d'.
  destruct (fd_file fd d') as [[f o]|]; [apply Hm|done].
Qed.

Lemma names_Stat path : keeps_names (os_Stat path).
Proof. apply names_sys. intros d. by repeat case_match. Qed.
Lemma names_file_Stat fd : keeps_names (file_Stat fd).
Proof. by apply names_with_fd. Qed.
Lemma names_Sync fd : keeps_names (file_Sync fd).
Proof. by apply names_with_fd. Qed.
Lemma names_Close fd : keeps_names (file_Close fd).
Proof.
  intros d. unfold file_Close.
  pose proof (names_with_fd "close" fd (λ _ _ d, (inr (A := error) tt, d)) (λ _ _ _, eq_refl) d) as H.
  by destruct (with_fd _ _ _ d).
Qed.

Lemma grows_syscall {A} (m : Disk → (error + A) * Disk) c r c' :
  keeps_names m → syscall m c = (r, c') → grows c c'.
Proof.
  unfold syscall. intros Hm. specialize (Hm (disk c)). destruct (m (disk c)). intros [= <- <-]. by split.
Qed.

Lemma grows_track id path info c : grows c (trackFileInfoLocked id path info c).
Proof.
  unfold trackFileInfoLocked, index_entry. destruct (evictEntries c !! path) eqn:E; [done|].
  split; [done|]. split; [done|]. intros p Hp. cbn. destruct (decide (p = path)) as [->|].
  - by rewrite lookup_insert_eq.
  - by rewrite lookup_insert_ne.
Qed.

Lemma grows_Size id c : grows c (Size id c).2.
Proof.
  unfold Size. destruct (fds c !! id) as [fd|].
  - destruct (syscall (file_Stat fd) c) as [[e|info] c1] eqn:E1; apply grows_syscall in E1; try apply names_file_Stat;
      [|done].
    destruct (syscall (os_Stat _) c1) as [[e'|info] c2] eqn:E2; apply grows_syscall in E2; try apply names_Stat;
      by eapply grows_trans.
  - destruct (syscall (os_Stat _) c) as [[e'|info] c2] eqn:E2; apply grows_syscall in E2; try apply names_Stat; done.
Qed.

Lemma grows_closeLocked id c : grows c (closeLocked id c).2.
Proof.
  unfold closeLocked. destruct (fds c !! id) as [fd|]; [|done].
  destruct (syscall (file_Stat fd) _) as [r c1] eqn:E1. apply grows_syscall in E1; [|apply names_file_Stat].
  set (c2 := match r with inl _ => c1 | inr info => _ end).
  assert (H2 : grows c c2).
  { eapply grows_trans; [exact E1|]. unfold c2. destruct r; [done|apply grows_track]. }
  replace (let (s, c3) := (r, c1) in match s with inl _ => c3 | inr info => _ end) with c2 by (by destruct r).
  destruct (syscall (file_Sync fd) c2) as [? c3] eqn:E3. apply grows_syscall in E3; [|apply names_Sync].
  destruct (syscall (file_Close fd) c3) as [? c4] eqn:E4. apply grows_syscall in E4; [|apply names_Close].
  eapply grows_trans; [exact H2|]. by eapply grows_trans.
Qed.

(** What [Delete] needs: a file it removes is in the index (files outside it
    are only left behind by a failed [Stat], or live in subdirectories). *)
Definition delete_indexed (id : string) (c : ContentCache) : Prop :=
  is_Some (evictEntries c !! contentPath c id) ∨ d_names (disk c) !! contentPath c id = None.

(** A file the disk does not have is not removed. *)
Lemma Remove_absent path d d' : d_names d !! path = None → os_Remove path d ≠ (inr tt, d').
Proof.
  intros Hn. unfold os_Remove, sys. destruct (d_faults d) as [|[f|] fs]; [|done|].
  - destruct (decide _); [done|]. by rewrite Hn.
  - cbn [d_dirs d_names set_d_faults]. destruct (decide _); [done|]. by rewrite Hn.
Qed.

Lemma wf_Delete id c : delete_indexed id c → cc_wf c → cc_wf (Delete id c).2.
Proof.
  intros Hd Hc. unfold Delete, unless_closed. destruct (closed c); [done|].
  pose proof (keeps_Size id c Hc) as H1. pose proof (grows_Size id c) as G1.
  destruct (Size id c) as [prev c1]. simpl in H1, G1.
  pose proof (keeps_closeLocked id c1 H1) as H2. pose proof (grows_closeLocked id c1) as G2.
  destruct (closeLocked id c1) as [b c2]. simpl in H2, G2.
  destruct (grows_trans _ _ _ G1 G2) as (Ed & En & Ee).
  assert (Hp : contentPath c2 id = contentPath c id) by (unfold contentPath; by rewrite Ed).
  destruct (syscall (os_Remove (contentPath c2 id)) c2) as [r c3] eqn:E3.
  pose proof (wf_syscall _ _ _ _ E3 H2) as H3.
  assert (Hsame : evictEntries c3 = evictEntries c2 ∧ evictionHeap c3 = evictionHeap c2).
  { unfold syscall in E3. destruct (os_Remove _ _). by injection E3 as _ <-. }
  destruct Hsame as [Hes Hhp].
  destruct (evictEntries c2 !! contentPath c2 id) as [l|] eqn:El; cbn [fmap option_fmap option_map default].
  - rewrite <- Hes in El. rewrite <- Hhp. pose proof (wf_forget _ l c3 El H3) as Hf.
    destruct r as [e|[]]; [destruct (os_IsNotExist e)|]; done.
  - destruct r as [e|[]]; [done|]. exfalso.
    destruct Hd as [Hd|Hd]; [apply Ee in Hd; rewrite Hp in El; rewrite El in Hd; by destruct Hd|].
    rewrite <- En, <- Hp in Hd. unfold syscall in E3.
    destruct (os_Remove (contentPath c2 id) (disk c2)) as [r d] eqn:Er. injection E3 as -> _.
    by apply (Remove_absent _ _ d) in Hd.
Qed.

(** ** Eviction *)

(** What eviction leaves alone: everything but the index, the total and the
    names of the files it removes. *)
Definition evict_frame (c c' : ContentCache) : Prop :=
  directory c' = directory c ∧ fds c' = fds c ∧ maxSize c' = maxSize c ∧ closed c' = closed c ∧
  evicting c' = evicting c ∧ evictNext c' = evictNext c ∧ d_dirs (disk c') = d_dirs (disk c) ∧
  d_objs (disk c') = d_objs (disk c) ∧ d_fds (disk c') = d_fds (disk c).

Lemma evict_frame_refl c : evict_frame c c.
Proof. by repeat split. Qed.
Lemma evict_frame_trans c1 c2 c3 : evict_frame c1 c2 → evict_frame c2 c3 → evict_frame c1 c3.
Proof. unfold evict_frame. intros H1 H2. destruct_and!. split_and!; congruence. Qed.

Lemma open_frame c c' e : evict_frame c c' → evictEntryIsOpen c' e = evictEntryIsOpen c e.
Proof.
  intros (Ed & Ef & _). unfold evictEntryIsOpen, IsOpen, contentPath. by rewrite Ed, Ef.
Qed.

Lemma open_norm c e : evictEntryIsOpen c (norm e) = evictEntryIsOpen c e.
Proof. done. Qed.

(** The entries of pointers. *)
Definition entries_of (h : evictHeap) (ls : list nat) : list elem := elem_of_loc h <$> ls.

Lemma entries_same h h' ls : same_data h h' → entries_of h' ls = entries_of h ls.
Proof. intros H. apply list_fmap_ext. intros _ l _. by apply same_data_elem. Qed.

(** The state of the loop: the index with the deferred entries, and its total. *)
Record evict_inv (ds : list nat) (c : ContentCache) : Prop := {
  ei_index : index_wf (evictionHeap c) (entries_of (evictionHeap c) ds) (evictEntries c) (evictNext c);
  ei_total : totalSize c = i64 (sizes (elems (evictionHeap c) ++ entries_of (evictionHeap c) ds));
}.

(** What one turn does with the least entry [l] of the heap. *)
Definition turn_spec (ds : list nat) (c : ContentCache) (l : nat) (ds' : list nat) (c' : ContentCache) : Prop :=
  let e := norm (deref_entry l (evictionHeap c)) in
  evict_inv ds' c' ∧ evict_frame c c' ∧ same_data (evictionHeap c) (evictionHeap c') ∧
  Len (evictionHeap c) = S (Len (evictionHeap c')) ∧
  elems (evictionHeap c) ≡ₚ (l, e) :: elems (evictionHeap c') ∧
  (∀ y, y ∈ elems (evictionHeap c) → Heap.le evict_lt (l, e) y) ∧
  ((ds' = ds ++ [l] ∧ evictEntries c' = evictEntries c ∧ d_names (disk c') = d_names (disk c) ∧
    (evictEntryIsOpen c e = true ∨ d_faults (disk c) ≠ [] ∨ ev_path e ∈ d_dirs (disk c))) ∨
   (ds' = ds ∧ evictEntryIsOpen c e = false ∧ evictEntries c' = delete (ev_path e) (evictEntries c) ∧
    (d_faults (disk c) = [] → ev_path e ∉ d_dirs (disk c)) ∧
    (d_names (disk c') = d_names (disk c) ∨ d_names (disk c') = delete (ev_path e) (d_names (disk c))) ∧
    (d_faults (disk c) = [] → d_names (disk c') = delete (ev_path e) (d_names (disk c))))) ∧
  (d_faults (disk c) = [] → d_faults (disk c') = []).

(** The outcome of [os.Remove]: its error, and the names left. *)
Lemma Remove_cases path d r d' :
  os_Remove path d = (r, d') →
  d_dirs d' = d_dirs d ∧ d_objs d' = d_objs d ∧ d_fds d' = d_fds d ∧
  (d_faults d = [] → d_faults d' = []) ∧
  match r with
  | inr _ => d_names d' = delete path (d_names d) ∧ path ∉ d_dirs d
  | inl e => d_names d' = d_names d ∧
      (d_faults d = [] → (os_IsNotExist e = true ∧ d_names d !! path = None ∧ path ∉ d_dirs d) ∨
                         (os_IsNotExist e = false ∧ path ∈ d_dirs d))
  end.
Proof.
  unfold os_Remove, sys. destruct (d_faults d) as [|[f|] fs] eqn:Ef.
  - destruct (decide (path ∈ d_dirs d)); [intros [= <- <-]; rewrite Ef; eauto 10|].
    destruct (d_names d !! path) eqn:En; intros [= <- <-]; simpl; rewrite ?Ef; eauto 10.
  - intros [= <- <-]. simpl. by split_and!.
  - cbn [d_dirs d_names set_d_faults]. destruct (decide (path ∈ d_dirs d)); [intros [= <- <-]; by split_and!|].
    destruct (d_names d !! path) eqn:En; intros [= <- <-]; simpl; by split_and!.
Qed.

Lemma sizes_app a b : sizes (a ++ b) = sizes a + sizes b.
Proof. unfold sizes. by rewrite fmap_app, sum_Z_app. Qed.

(** The entry goes to the deferred ones. *)
Lemma evict_inv_defer ds c l h' :
  evict_inv ds c → same_data (evictionHeap c) h' → heap_idx h' → heap_ok evict_lt (elems h') (Len h') →
  elems (evictionHeap c) ≡ₚ elem_of_loc (evictionHeap c) l :: elems h' →
  ∀ c', evictionHeap c' = h' → evictEntries c' = evictEntries c → evictNext c' = evictNext c →
  totalSize c' = totalSize c → evict_inv (ds ++ [l]) c'.
Proof.
  intros [Hw Ht] Hs Hi Ho Hp c' Eh Ee En Et.
  assert (Hperm : elems h' ++ entries_of h' (ds ++ [l]) ≡ₚ
    elems (evictionHeap c) ++ entries_of (evictionHeap c) ds).
  { rewrite (entries_same _ _ _ Hs). unfold entries_of. rewrite fmap_app, Hp, app_assoc. simpl.
    symmetry. apply Permutation_cons_append. }
  split; rewrite Eh, ?Ee, ?En, ?Et.
  - by eapply index_wf_perm.
  - rewrite Ht. f_equal. by apply sizes_perm.
Qed.

(** The entry leaves the index, and its size the total. *)
Lemma evict_inv_drop ds c l h' :
  evict_inv ds c → same_data (evictionHeap c) h' → heap_idx h' → heap_ok evict_lt (elems h') (Len h') →
  elems (evictionHeap c) ≡ₚ elem_of_loc (evictionHeap c) l :: elems h' →
  ∀ c', evictionHeap c' = h' →
  evictEntries c' = delete (ev_path (deref_entry l (evictionHeap c))) (evictEntries c) →
  evictNext c' = evictNext c →
  totalSize c' = i64 (totalSize c + - ev_size (deref_entry l (evictionHeap c))) → evict_inv ds c'.
Proof.
  intros [Hw Ht] Hs Hi Ho Hp c' Eh Ee En Et.
  destruct (index_wf_uncons _ _ _ _ l h' Hw Hp Hi Ho) as [Hw' _].
  split; rewrite Eh, ?Ee, ?En, ?Et, (entries_same _ _ _ Hs).
  - done.
  - rewrite Ht, i64_add_l. f_equal. rewrite !sizes_app, (sizes_perm _ _ Hp), sizes_cons. simpl. lia.
Qed.

Lemma evict_turn_ok ds c :
  evict_inv ds c → (0 < Len (evictionHeap c))%nat →
  let '(ds', c') := evict_turn ds c in ∃ l, turn_spec ds c l ds' c'.
Proof.
  intros Hinv HL. pose proof (ei_index _ _ Hinv) as Hw.
  pose proof (Pop_elems _ (iw_idx _ _ _ _ Hw) (iw_ord _ _ _ _ Hw) HL) as Hpop.
  pose proof (same_data_Pop (evictionHeap c)) as Hs. unfold evict_turn.
  destruct (Pop (evictionHeap c)) as [l h'] eqn:Ep. simpl in Hs. destruct Hpop as (Hi & Ho & Hp & Hmin).
  assert (Hlen : Len (evictionHeap c) = S (Len h')).
  { rewrite !(Len_spec (elems := elems)). by rewrite Hp. }
  set (e := norm (deref_entry l (evictionHeap c))).
  assert (Hpath : ev_path (deref_entry l h') = ev_path e) by (unfold e; by rewrite <- Hs).
  assert (Hsize : ev_size (deref_entry l h') = ev_size (deref_entry l (evictionHeap c))).
  { change (ev_size (norm (deref_entry l h')) = ev_size e). by rewrite Hs. }
  destruct (index_wf_uncons _ _ _ _ l h' Hw Hp Hi Ho) as [_ Hes]. change (evictEntries c !! ev_path e = Some l) in Hes.
  cbn [evictEntries set_evictionHeap]. rewrite Hpath, bool_decide_false by (rewrite Hes; tauto).
  assert (Hopen : evictEntryIsOpen (set_evictionHeap h' c) (deref_entry l h') = evictEntryIsOpen c e).
  { unfold e. rewrite <- Hs. done. }
  rewrite Hopen. destruct (evictEntryIsOpen c e) eqn:Eo.
  - exists l. unfold turn_spec. fold e. rewrite Eo. split; [by eapply (evict_inv_defer ds c l h')|]. split; [done|]. do 4 (split; [done|]).
    split; [|done]. left. eauto.
  - unfold syscall. destruct (os_Remove (ev_path e) _) as [r d'] eqn:Er.
    cbn [disk set_evictionHeap] in Er. destruct (Remove_cases _ _ _ _ Er) as (Hd1 & Hd2 & Hd3 & Hf & Hr).
    rewrite Hsize.
    assert (Hdrop : evict_inv ds (addTotal (- ev_size (deref_entry l (evictionHeap c)))
      (set_evictEntries (delete (ev_path e) (evictEntries c)) (set_disk d' (set_evictionHeap h' c))))).
    { by eapply (evict_inv_drop ds c l h'). }
    destruct r as [err|[]]; [destruct (os_IsNotExist err) eqn:Enx|]; cbn [negb].
    + exists l. unfold turn_spec. fold e. rewrite Eo. split; [done|]. split; [done|]. do 4 (split; [done|]). split; [|done]. right.
      destruct Hr as [Hn Hr]. split; [done|]. split; [done|]. split; [done|]. split.
      { intros Hnf. destruct (Hr Hnf) as [(_&_&?)|[? _]]; [done|congruence]. }
      split; [by left|]. intros Hnf. destruct (Hr Hnf) as [(_&Hnone&_)|[? _]]; [|congruence].
      simpl. rewrite Hn. by rewrite delete_id.
    + exists l. unfold turn_spec. fold e. rewrite Eo. split; [by eapply (evict_inv_defer ds c l h')|]. split; [done|]. do 4 (split; [done|]). split; [|done].
      left. destruct Hr as [Hn Hr]. split; [done|]. split; [done|]. split; [done|]. right.
      destruct (d_faults (disk c)) eqn:Enf; [right|by left].
      destruct (Hr eq_refl) as [(?&_)|[_ ?]]; [congruence|done].
    + exists l. unfold turn_spec. fold e. rewrite Eo. split; [done|]. split; [done|]. do 4 (split; [done|]). split; [|done]. right.
      destruct Hr as [Hn Hr]. split; [done|]. split; [done|]. split; [done|]. split; [done|]. split; [by right|done].
Qed.

(** An entry eviction may not touch: a file for which there is an open descriptor,
    found by the ID of the entry or by the path of the descriptor's ID; or the name
    of a directory. *)
Definition protected (c : ContentCache) (e : evictEntry) : Prop :=
  (∃ id, is_Some (fds c !! id) ∧ (id ≠ "" ∧ id = ev_id e ∨ contentPath c id = ev_path e)) ∨
  ev_path e ∈ d_dirs (disk c).

Lemma evictEntryIsOpen_spec c e : evictEntryIsOpen c e = true ↔
  ∃ id, is_Some (fds c !! id) ∧ (id ≠ "" ∧ id = ev_id e ∨ contentPath c id = ev_path e).
Proof.
  unfold evictEntryIsOpen, IsOpen. rewrite orb_true_iff, andb_true_iff, !bool_decide_eq_true, existsb_exists. split.
  - intros [[Hne Ho]|([id f] & Hin & Hp%bool_decide_eq_true)]; [by exists (ev_id e); auto|].
    apply list_elem_of_In, elem_of_map_to_list in Hin. exists id. split; [by eexists|by right].
  - intros (id & [f Hf] & [[Hne ->]|Hp]); [left; by split; [|eexists]|right]. exists (id, f).
    split; [by apply list_elem_of_In, elem_of_map_to_list|by apply bool_decide_eq_true].
Qed.

Lemma protected_frame c c' e : evict_frame c c' → protected c' e ↔ protected c e.
Proof.
  intros Hf. unfold protected. rewrite <-!evictEntryIsOpen_spec, (open_frame c c') by done. destruct Hf as (_&_&_&_&_&_&->&_). done.
Qed.

(** From [c] to [c'], without faults: what became of the name [p]. *)
Definition name_spec (c c' : ContentCache) (p : string) : Prop :=
  (evictEntries c' !! p = evictEntries c !! p ∧ d_names (disk c') !! p = d_names (disk c) !! p) ∨
  (evictEntries c' !! p = None ∧ d_names (disk c') !! p = None ∧
   ∃ l e, (l, e) ∈ elems (evictionHeap c) ∧ ev_path e = p ∧ ¬ protected c e ∧
     ∀ y, y ∈ elems (evictionHeap c') → Heap.le evict_lt (l, e) y).

Record loop_spec (ds : list nat) (c : ContentCache) (ds' : list nat) (c' : ContentCache) : Prop := {
  ls_inv : evict_inv ds' c';
  ls_frame : evict_frame c c';
  ls_data : same_data (evictionHeap c) (evictionHeap c');
  ls_sub : ∀ x, x ∈ elems (evictionHeap c') → x ∈ elems (evictionHeap c);
  ls_faults : d_faults (disk c) = [] → d_faults (disk c') = [];
  ls_names : d_faults (disk c) = [] → ∀ p, name_spec c c' p;
  ls_deferred : d_faults (disk c) = [] → ∃ more, ds' = ds ++ more ∧
    ∀ l, l ∈ more → protected c (norm (deref_entry l (evictionHeap c)));
}.

Lemma loop_spec_refl ds c : evict_inv ds c → loop_spec ds c ds c.
Proof.
  intros H. split; try done. { intros _ p. by left. }
  intros _. exists []. rewrite app_nil_r. split; [done|]. intros l Hl. by apply elem_of_nil in Hl.
Qed.

Lemma loop_spec_turn ds c l ds1 c1 : turn_spec ds c l ds1 c1 → loop_spec ds c ds1 c1.
Proof.
  intros (Hi & Hf & Hd & _ & Hp & Hmin & Hcase & Hfl). split; try done.
  - intros x Hx. rewrite Hp. by right.
  - intros Hnf p. destruct Hcase as [(-> & Ee & En & _)|(-> & Ho & Ee & Hdir & _ & En)].
    + left. by rewrite Ee, En.
    + specialize (En Hnf). unfold name_spec. rewrite Ee, En.
      destruct (decide (p = ev_path (norm (deref_entry l (evictionHeap c))))) as [->|Hne].
      * right. rewrite !lookup_delete_eq. split; [done|]. split; [done|].
        exists l, (norm (deref_entry l (evictionHeap c))).
        split; [rewrite Hp; by left|]. split; [done|]. split.
        { intros [Hpr|Hpr]; [apply evictEntryIsOpen_spec in Hpr; congruence|by apply Hdir]. }
        intros y Hy. apply Hmin. rewrite Hp. by right.
      * left. by rewrite !lookup_delete_ne.
  - intros Hnf. destruct Hcase as [(-> & _ & _ & Hpr)|(-> & _)].
    + exists [l]. split; [done|]. intros k Hk. apply list_elem_of_singleton in Hk as ->.
      destruct Hpr as [?|[?|?]]; [by left; apply evictEntryIsOpen_spec|done|by right].
    + exists []. rewrite app_nil_r. split; [done|]. intros k Hk. by apply elem_of_nil in Hk.
Qed.

Lemma loop_spec_trans ds c ds1 c1 ds2 c2 :
  loop_spec ds c ds1 c1 → loop_spec ds1 c1 ds2 c2 → loop_spec ds c ds2 c2.
Proof.
  intros H1 H2. pose proof (ls_frame _ _ _ _ H1) as Hf1. split.
  - apply H2.
  - eapply evict_frame_trans; [exact Hf1|apply H2].
  - eapply same_data_trans; [apply H1|apply H2].
  - intros x Hx. by apply (ls_sub _ _ _ _ H1), (ls_sub _ _ _ _ H2).
  - intros Hnf. by apply (ls_faults _ _ _ _ H2), (ls_faults _ _ _ _ H1).
  - intros Hnf p. pose proof (ls_faults _ _ _ _ H1 Hnf) as Hnf1.
    destruct (ls_names _ _ _ _ H2 Hnf1 p) as [[Ee En]|(Ee & En & l & e & Hin & Hpath & Hpr & Hle)].
    + destruct (ls_names _ _ _ _ H1 Hnf p) as [[Ee1 En1]|(Ee1 & En1 & l & e & Hin & Hpath & Hpr & Hle)].
      * left. by rewrite Ee, En.
      * right. rewrite Ee, En. split; [done|]. split; [done|]. exists l, e. do 3 (split; [done|]).
        intros y Hy. by apply Hle, (ls_sub _ _ _ _ H2).
    + right. split; [done|]. split; [done|]. exists l, e. split; [by apply (ls_sub _ _ _ _ H1)|].
      split; [done|]. split; [by rewrite <- (protected_frame c c1)|done].
  - intros Hnf. pose proof (ls_faults _ _ _ _ H1 Hnf) as Hnf1.
    destruct (ls_deferred _ _ _ _ H1 Hnf) as (m1 & -> & Hm1).
    destruct (ls_deferred _ _ _ _ H2 Hnf1) as (m2 & -> & Hm2).
    exists (m1 ++ m2). rewrite app_assoc. split; [done|]. intros l Hl. apply elem_of_app in Hl as [Hl|Hl].
    + by apply Hm1.
    + rewrite <- (ls_data _ _ _ _ H1 l). rewrite <- (protected_frame c c1) by done. by apply Hm2.
Qed.

Lemma evict_loop_ok fuel ds c :
  evict_inv ds c → (Len (evictionHeap c) ≤ fuel)%nat →
  let '(ds', c') := evict_loop fuel ds c in
  loop_spec ds c ds' c' ∧ (totalSize c' ≤ maxSize c' ∨ Len (evictionHeap c') = 0%nat).
Proof.
  revert ds c. induction fuel as [|fuel IH]; intros ds c Hinv Hf; cbn [evict_loop].
  { split; [by apply loop_spec_refl|right; lia]. }
  destruct (Z.ltb_spec (maxSize c) (totalSize c)) as [Hgt|]; cbn [andb].
  2: { split; [by apply loop_spec_refl|by left]. }
  destruct (Nat.eqb_spec (Len (evictionHeap c)) 0) as [E|E]; cbn [negb].
  { split; [by apply loop_spec_refl|by right]. }
  pose proof (evict_turn_ok ds c Hinv ltac:(lia)) as Ht.
  destruct (evict_turn ds c) as [ds1 c1]. destruct Ht as [l Ht].
  pose proof (loop_spec_turn _ _ _ _ _ Ht) as H1. destruct Ht as (Hi & _ & _ & HL & _).
  specialize (IH ds1 c1 Hi ltac:(lia)). destruct (evict_loop fuel ds1 c1) as [ds2 c2].
  destruct IH as [H2 Hend]. split; [by eapply loop_spec_trans|done].
Qed.

(** Pushing the deferred entries back. *)
Lemma push_deferred ds h es next :
  index_wf h (entries_of h ds) es next →
  let h' := foldl Push h ds in
  index_wf h' [] es next ∧ same_data h h' ∧ elems h' ≡ₚ elems h ++ entries_of h ds.
Proof.
  revert h. induction ds as [|l ds IH]; intros h Hw; simpl.
  { split; [done|]. split; [done|]. by rewrite app_nil_r. }
  assert (Hl : l ∉ eh_heap h).
  { pose proof (iw_nodup _ _ _ _ Hw) as Hn. rewrite fmap_app in Hn. apply NoDup_app in Hn as (_ & Hn & _).
    intros Hl. rewrite <- elems_fst in Hl. apply (Hn l Hl). by left. }
  destruct (Push_elems h l Hl (iw_idx _ _ _ _ Hw) (iw_ord _ _ _ _ Hw)) as (Hi & Hp & Ho).
  pose proof (same_data_Push h l) as Hs.
  assert (Hperm : elems (Push h l) ++ entries_of (Push h l) ds ≡ₚ elems h ++ entries_of h (l :: ds)).
  { rewrite (entries_same _ _ _ Hs), Hp. cbn [entries_of fmap list_fmap]. simpl. apply Permutation_middle. }
  destruct (IH (Push h l)) as (Hw' & Hs' & Hp'); [by eapply index_wf_perm|].
  split; [done|]. split; [by eapply same_data_trans|]. by rewrite Hp'.
Qed.

Lemma wf_evict_inv c : cc_wf c → evict_inv [] c.
Proof. intros [Hw Ht]. split; [done|]. cbn. by rewrite app_nil_r. Qed.

Lemma wf_evictBySize c : cc_wf c → cc_wf (evictBySize c).
Proof.
  intros Hc. unfold evictBySize. destruct (_ || _); [done|].
  pose proof (evict_loop_ok (Len (evictionHeap c)) [] c (wf_evict_inv c Hc) ltac:(lia)) as Hl.
  destruct (evict_loop _ [] c) as [ds c1]. destruct Hl as [Hl _]. destruct (ls_inv _ _ _ _ Hl) as [Hw Ht].
  destruct (push_deferred ds _ _ _ Hw) as (Hw' & _ & Hp).
  split; [done|]. cbn [totalSize set_evictionHeap evictionHeap]. rewrite Ht. f_equal.
  symmetry. by apply sizes_perm.
Qed.
