(* ===== verification/ContentTheorems.v ===== *)
(** The properties of the content cache: accounting in every reachable state,
    eviction, and what is read after a write or from a snapshot. *)

From S2P Require Export ContentProofs.

#[local] Open Scope Z_scope.

(** ** Eviction *)

(** C23: eviction without disk errors. The accounting invariant is kept; the
    total ends within the limit unless only files with an open descriptor (or names
    of directories) are left; descriptors, contents and open files are not
    touched; a file is either left alone in index and disk, or gone from both,
    and then no descriptor was open for it and it was not newer than any evictable
    file that stayed. *)
Theorem evictBySize_spec c :
  cc_wf c → d_faults (disk c) = [] →
  let c' := evictBySize c in
  cc_wf c' ∧ evict_frame c c' ∧
  (0 < maxSize c → totalSize c' ≤ maxSize c ∨
     ∀ l e, (l, e) ∈ elems (evictionHeap c') → protected c e) ∧
  ∀ l e, (l, e) ∈ elems (evictionHeap c) →
    (evictEntries c' !! ev_path e = Some l ∧ d_names (disk c') !! ev_path e = d_names (disk c) !! ev_path e) ∨
    (evictEntries c' !! ev_path e = None ∧ d_names (disk c') !! ev_path e = None ∧ ¬ protected c e ∧
     ∀ y, y ∈ elems (evictionHeap c') → ¬ protected c y.2 → Heap.le evict_lt (l, e) y).
Proof.
  intros Hc Hnf c'. split; [by apply wf_evictBySize|]. unfold c', evictBySize.
  assert (Hknown : ∀ l e, (l, e) ∈ elems (evictionHeap c) → evictEntries c !! ev_path e = Some l).
  { intros l e Hin. apply (iw_known _ _ _ _ (wf_index _ Hc)). by rewrite app_nil_r. }
  destruct (_ || _) eqn:Eg.
  { split; [done|]. split; [|intros l e Hin; left; by rewrite (Hknown l e)].
    intros Hm. destruct (Z.leb_spec (totalSize c) (maxSize c)) as [|Hgt]; [by left|].
    destruct (Z.leb_spec (maxSize c) 0); [lia|]. right. intros l e Hin. cbn [orb] in Eg. apply Nat.eqb_eq in Eg.
    rewrite (Len_spec (elems := elems)) in Eg. apply nil_length_inv in Eg. rewrite Eg in Hin.
    by apply elem_of_nil in Hin. }
  pose proof (evict_loop_ok (Len (evictionHeap c)) [] c (wf_evict_inv c Hc) ltac:(lia)) as Hl.
  destruct (evict_loop _ [] c) as [ds c1]. destruct Hl as [Hl Hend].
  destruct (ls_inv _ _ _ _ Hl) as [Hw Ht]. destruct (push_deferred ds _ _ _ Hw) as (Hw' & Hs' & Hp).
  pose proof (ls_frame _ _ _ _ Hl) as Hf. set (c2 := set_evictionHeap _ c1).
  split; [done|].
  assert (Hds : ∀ l e, (l, e) ∈ entries_of (evictionHeap c1) ds → protected c e).
  { intros l e Hin. apply list_elem_of_fmap in Hin as (k & [= -> ->] & Hk).
    rewrite (ls_data _ _ _ _ Hl). destruct (ls_deferred _ _ _ _ Hl Hnf) as (more & -> & Hm). by apply Hm. }
  split.
  - intros Hm. change (totalSize c2) with (totalSize c1).
    destruct Hend as [Hend|Hend]; [left; by rewrite <- (proj1 (proj2 (proj2 Hf)))|right].
    intros l e Hin. change (evictionHeap c2) with (foldl Push (evictionHeap c1) ds) in Hin.
    rewrite Hp, elem_of_app in Hin. destruct Hin as [Hin|Hin]; [|by eapply Hds].
    rewrite (Len_spec (elems := elems)) in Hend. apply nil_length_inv in Hend. rewrite Hend in Hin.
    by apply elem_of_nil in Hin.
  - intros l e Hin. change (evictEntries c2) with (evictEntries c1). change (disk c2) with (disk c1).
    destruct (ls_names _ _ _ _ Hl Hnf (ev_path e)) as [[Ee En]|(Ee & En & l' & e' & Hin' & Hpath & Hpr & Hle)].
    + left. rewrite Ee, En. split; [by apply Hknown|done].
    + right. assert (Hll : l' = l).
      { pose proof (Hknown l' e' Hin') as K. rewrite Hpath, (Hknown l e Hin) in K. congruence. }
      subst l'. assert (e' = e).
      { apply elem_elems in Hin as [_ ->]. by apply elem_elems in Hin' as [_ ->]. }
      subst e'. split; [done|]. split; [done|]. split; [done|]. intros [k f] Hy Hyp.
      change (evictionHeap c2) with (foldl Push (evictionHeap c1) ds) in Hy.
      rewrite Hp, elem_of_app in Hy. destruct Hy as [Hy|Hy]; [by apply Hle|]. by apply Hds in Hy.
Qed.

(** Three files of 10 bytes; the oldest is open, the limit is 15 bytes. *)
Definition example_disk : Disk :=
  mkDisk {[ 0%nat := mkFileObj (replicate 10 0) 100; 1%nat := mkFileObj (replicate 10 0) 200;
            2%nat := mkFileObj (replicate 10 0) 300 ]}
    {[ "/c/a" := 0%nat; "/c/b" := 1%nat; "/c/d" := 2%nat ]} {[ "/c" ]} ∅ 3 400 [].
Definition example_content : ContentCache :=
  match NewContentCache "/c" example_disk with
  | (inr c, _) => SetMaxSize 15 (Open "a" c).2
  | (inl _, d) => mkContentCache "/c" ∅ 0 0 false (mkEvictHeap [] ∅) ∅ 0 false d
  end.

Example evict_example :
  let c' := evictBySize example_content in
  d_names (disk c') = {[ "/c/a" := 0%nat ]} ∧ totalSize c' = 10 ∧ elements (dom (evictEntries c')) = ["/c/a"].
Proof. split_and!; vm_compute; reflexivity. Qed.

(** ** Accounting *)

Lemma wf_index_fresh id path info c total :
  evictEntries c !! path = None → cc_wf (set_totalSize (i64 total) c) →
  cc_wf (set_totalSize (i64 (total + fi_Size info)) (index_entry id path info c)).
Proof.
  intros El [Hw Ht]. cbn in Hw, Ht.
  destruct (index_wf_add _ _ _ (mkEvictEntry id path (fi_ModTime info) (fi_Size info) (-1)) Hw El) as [Hw' Hs].
  unfold index_entry. eapply (wf_total_add _ (sizes (elems (evictionHeap c))) (fi_Size info)).
  - exact Hw'.
  - cbn. rewrite <- Ht. by rewrite i64_add_l.
  - etransitivity; [exact Hs|]. simpl. lia.
Qed.

Lemma wf_initialize_loop entries total c :
  NoDup ((λ e, filepath_Join (directory c) (de_Name e)) <$> entries) →
  (∀ e, e ∈ entries → evictEntries c !! filepath_Join (directory c) (de_Name e) = None) →
  cc_wf (set_totalSize (i64 total) c) →
  let '(total', c') := foldl (λ tc e, initialize_one e tc) (total, c) entries in
  cc_wf (set_totalSize (i64 total') c').
Proof.
  revert total c. induction entries as [|e entries IH]; intros total c Hn Hnone Hc; [done|]. simpl.
  cbn [fmap list_fmap] in Hn. apply NoDup_cons in Hn as [He Hn].
  assert (Hnone' : ∀ e', e' ∈ entries → evictEntries c !! filepath_Join (directory c) (de_Name e') = None).
  { intros e' He'. apply Hnone. by right. }
  destruct (de_IsDir e); [by apply IH|].
  destruct (syscall (os_Stat _) c) as [r c1] eqn:E1.
  assert (Hsame : directory c1 = directory c ∧ evictEntries c1 = evictEntries c ∧
    cc_wf (set_totalSize (i64 total) c1)).
  { unfold syscall in E1. destruct (os_Stat _ _). injection E1 as _ <-. split; [done|]. split; [done|].
    eapply cc_wf_same; [..|exact Hc]; done. }
  destruct Hsame as (Hd & Hes & Hc1). destruct r as [err|info].
  - apply IH; rewrite ?Hd, ?Hes; done.
  - apply IH; cbn [index_entry directory set_evictionHeap set_evictEntries set_evictNext evictEntries]; rewrite ?Hd, ?Hes.
    + done.
    + intros e' He'. rewrite lookup_insert_ne; [by apply Hnone'|]. intros E. apply He. rewrite E.
      apply list_elem_of_fmap. eauto.
    + apply wf_index_fresh; [|done]. rewrite Hes. apply Hnone. by left.
Qed.

(** The names [os.ReadDir] lists are distinct. *)
Definition listing_distinct (dir : string) (d : Disk) : Prop :=
  ∀ entries d', os_ReadDir dir d = (inr entries, d') →
    NoDup ((λ e, filepath_Join dir (de_Name e)) <$> entries).

Lemma wf_NewContentCache dir d c d' :
  listing_distinct dir (os_MkdirAll dir d).2 → NewContentCache dir d = (inr c, d') → cc_wf c.
Proof.
  intros Hd. unfold NewContentCache. destruct (os_MkdirAll dir d) as [[e|[]] d1]; [done|]. simpl in Hd.
  unfold initializeEvictionIndex, se_bind, syscall. cbn [directory disk].
  specialize (Hd). unfold listing_distinct in Hd.
  destruct (os_ReadDir dir d1) as [[e|entries] d2]; [done|]. specialize (Hd _ _ eq_refl).
  match goal with |- context [foldl _ (0, ?c0) _] => set (c1 := c0) end.
  assert (Hc1 : cc_wf (set_totalSize (i64 0) c1)).
  { split; [|done]. constructor; cbn [elems eh_heap fmap list_fmap app c1 set_totalSize evictionHeap
      set_evictionHeap set_evictEntries evictEntries evictNext].
    - split; [constructor|done].
    - intros k Hk. cbn in Hk. lia.
    - intros l e He. by apply elem_of_nil in He.
    - intros p l. by rewrite lookup_empty.
    - constructor.
    - intros l e He. by apply elem_of_nil in He. }
  pose proof (wf_initialize_loop entries 0 c1 Hd (λ _ _, lookup_empty _) Hc1) as Hl.
  destruct (foldl _ (0, c1) entries) as [total c2]. by intros [= <- _].
Qed.

Lemma wf_CloseAll c : cc_wf c → cc_wf (CloseAll c).
Proof.
  intros Hc. unfold CloseAll. assert (H0 : cc_wf (set_closed true c)) by (by apply (cc_wf_same c)).
  revert H0. generalize (set_closed true c). intros c0.
  generalize (map_to_list (fds c0)). intros kvs. revert c0.
  induction kvs as [|kv kvs IH]; intros c0 H0; [done|]. simpl. apply IH. unfold close_one.
  destruct (syscall (file_Sync kv.2) c0) as [? c1] eqn:E1. destruct (syscall (file_Close kv.2) c1) as [? c2] eqn:E2.
  apply wf_set_fds. eapply wf_syscall; [exact E2|]. by eapply wf_syscall.
Qed.

(** A step of the cache: an operation, the eviction goroutine, or anything
    that happens to the disk outside of it (writes through an open descriptor,
    time passing, faults to come). *)
Inductive content_step : ContentCache → ContentCache → Prop :=
  | step_Open id c : content_step c (Open id c).2
  | step_Insert id content c : content_step c (Insert id content c).2
  | step_InsertStream id chunks err c : content_step c (InsertStream id chunks err c).2
  | step_Close id c : content_step c (Close id c)
  | step_Delete id c : delete_indexed id c → content_step c (Delete id c).2
  | step_WriteAt id data off c : content_step c (WriteAt id data off c).2
  | step_ReadAll id c : content_step c (ReadAll id c).2
  | step_Snapshot id c : content_step c (Snapshot id c).2
  | step_SumQuickXorHash id c : content_step c (SumQuickXorHash id c).2
  | step_HasContent id c : content_step c (HasContent id c).2
  | step_Size id c : content_step c (Size id c).2
  | step_SetMaxSize n c : content_step c (SetMaxSize n c)
  | step_ForceEvict c : content_step c (ForceEvict c)
  | step_evict_goroutine c : evicting c = true → content_step c (evict_goroutine c)
  | step_CloseAll c : content_step c (CloseAll c)
  | step_disk d c : content_step c (set_disk d c).

Lemma wf_SetMaxSize n c : cc_wf c → cc_wf (SetMaxSize n c).
Proof. by apply cc_wf_same. Qed.

Lemma content_step_wf c c' : cc_wf c → content_step c c' → cc_wf c'.
Proof.
  intros Hc Hs. destruct Hs.
  - by apply keeps_Open.
  - by apply keeps_Insert.
  - by apply keeps_InsertStream.
  - by apply wf_Close.
  - by apply wf_Delete.
  - by apply keeps_WriteAt.
  - by apply keeps_ReadAll.
  - by apply keeps_Snapshot.
  - by apply keeps_SumQuickXorHash.
  - by apply keeps_HasContent.
  - by apply keeps_Size.
  - by apply (cc_wf_same c).
  - by apply wf_evictBySize.
  - by apply (cc_wf_same (evictBySize c)), wf_evictBySize.
  - by apply wf_CloseAll.
  - by apply wf_set_disk.
Qed.

(** C11: in every state the content cache reaches, whatever the disk does, the
    eviction index holds one entry per indexed path, each knowing its position
    in a well-ordered heap, and [totalSize] is the sum of the entries' sizes.
    Deletions are of indexed (or missing) files. *)
Theorem content_accounting dir d c0 d' c :
  listing_distinct dir (os_MkdirAll dir d).2 → NewContentCache dir d = (inr c0, d') →
  rtc content_step c0 c → cc_wf c.
Proof.
  intros Hd Hn. apply rtc_invariant; [apply content_step_wf|by eapply wf_NewContentCache].
Qed.

Lemma example_listing : listing_distinct "/c" (os_MkdirAll "/c" example_disk).2.
Proof.
  intros entries d'. vm_compute. intros [= <- _]. repeat constructor; vm_compute; 
    (intros H; repeat (apply elem_of_cons in H as [H|H]; [discriminate|]); by apply elem_of_nil in H).
Qed.

Lemma example_content_wf : cc_wf example_content.
Proof.
  unfold example_content. destruct (NewContentCache "/c" example_disk) as [[e|c] d] eqn:E.
  { by vm_compute in E. }
  apply wf_SetMaxSize, keeps_Open. by eapply wf_NewContentCache; [apply example_listing|].
Qed.

Lemma evictBySize_spec_witness :
  cc_wf (evictBySize example_content) ∧
  (totalSize (evictBySize example_content) ≤ maxSize example_content ∨
     ∀ l e, (l, e) ∈ elems (evictionHeap (evictBySize example_content)) → protected example_content e).
Proof.
  destruct (evictBySize_spec example_content example_content_wf) as (H1 & _ & H2 & _);
    [vm_compute; reflexivity|].
  split; [exact H1|]. apply H2. vm_compute. reflexivity.
Defined.

Lemma content_accounting_witness :
  ∃ c0 d', NewContentCache "/c" example_disk = (inr c0, d') ∧
    cc_wf (Delete "b" (WriteAt "a" [1; 2; 3] 8 (SetMaxSize 15 c0)).2).2.
Proof.
  destruct (NewContentCache "/c" example_disk) as [[e|c0] d'] eqn:E; [vm_compute in E; discriminate|].
  exists c0, d'. split; [reflexivity|].
  apply (content_accounting "/c" example_disk c0 d'); [apply example_listing|exact E|].
  eapply rtc_l; [apply (step_SetMaxSize 15)|]. eapply rtc_l; [apply (step_WriteAt "a" [1; 2; 3] 8)|].
  eapply rtc_once, step_Delete. vm_compute in E. injection E as <- _. left. vm_compute. eexists. reflexivity.
Defined.

(** A file the index missed (its [Info] failed at startup) is not counted, yet
    its size is subtracted when it is deleted: the total drifts below the sum. *)
Example delete_unindexed_drifts :
  ∃ c, (NewContentCache "/c" (set_d_faults [None; None; Some (mkFault EIO 0)] example_disk)).1 = inr c ∧
    totalSize c = 20 ∧ totalSize (Delete "a" c).2 = 10 ∧
    sizes (elems (evictionHeap (Delete "a" c).2)) = 20.
Proof. eexists. split; [vm_compute; reflexivity|]. split_and!; vm_compute; reflexivity. Qed.

(** ** What reads see *)

Definition fd_data (fd : nat) (d : Disk) : option (list Z) := (λ x, fo_data x.2) <$> fd_file fd d.

(** The contents of [id]: through its open descriptor, else by its path. *)
Definition content_of (id : string) (c : ContentCache) : list Z :=
  default [] (match fds c !! id with
  | Some fd => fd_data fd (disk c)
  | None => d_names (disk c) !! contentPath c id ≫= λ o, fo_data <$> d_objs (disk c) !! o
  end).

(** A disk without faults to come, whose names and descriptors lead to
    objects; new objects are numbered above them. *)
Record disk_ok (d : Disk) : Prop := {
  do_faults : d_faults d = [];
  do_names p o : d_names d !! p = Some o → is_Some (d_objs d !! o);
  do_fds fd f : d_fds d !! fd = Some f → is_Some (d_objs d !! fd_obj f);
  do_next o : is_Some (d_objs d !! o) → (o < d_next d)%nat;
  do_fdnext fd : is_Some (d_fds d !! fd) → (fd < d_next d)%nat;
}.
Definition content_ok (c : ContentCache) : Prop :=
  closed c = false ∧ disk_ok (disk c) ∧ ∀ id fd, fds c !! id = Some fd → is_Some (d_fds (disk c) !! fd).

Lemma sys_ok {A} op path (m : Disk → (error + A) * Disk) d : d_faults d = [] → sys op path m d = m d.
Proof. unfold sys. by intros ->. Qed.

Lemma with_fd_ok {A} op fd (m : FileDesc → FileObj → Disk → (error + A) * Disk) d f o :
  d_faults d = [] → fd_file fd d = Some (f, o) → with_fd op fd m d = m f o d.
Proof. intros Hf E. unfold with_fd. rewrite E, sys_ok by done. by rewrite E. Qed.

Lemma fd_data_file fd d data : fd_data fd d = Some data → ∃ f o, fd_file fd d = Some (f, o) ∧ fo_data o = data.
Proof. unfold fd_data. intros H. apply fmap_Some in H as ([f o] & E & ->). eauto. Qed.

Lemma fd_file_open o d f : d_objs d !! o = Some f → fd_file (open_obj o d).1 (open_obj o d).2 = Some (mkFileDesc o 0, f).
Proof. intros Ho. unfold fd_file. simpl. rewrite lookup_insert_eq. simpl. by rewrite Ho. Qed.

(** Opening gives a descriptor on the contents. *)
Lemma Open_content id c fd c' :
  content_ok c → Open id c = (inr fd, c') →
  fds c' !! id = Some fd ∧ fd_data fd (disk c') = Some (content_of id c) ∧
  d_faults (disk c') = [] ∧ closed c' = false ∧ directory c' = directory c.
Proof.
  intros (Hcl & Hok & Hfds). unfold Open, content_of. destruct (fds c !! id) as [fd0|] eqn:Ef.
  { intros [= <- <-]. split; [done|]. split; [|by split_and!; [apply Hok|..]].
    destruct (Hfds _ _ Ef) as [f Hf]. destruct (do_fds _ Hok _ _ Hf) as [o Ho].
    unfold fd_data, fd_file. rewrite Hf. simpl. by rewrite Ho. }
  unfold syscall at 1, os_OpenFile. rewrite sys_ok by apply Hok.
  destruct (decide (contentPath c id ∈ d_dirs (disk c))); [done|].
  assert (Hgo : ∀ d fd0, d_faults d = [] → fd_data fd0 d = Some (default [] (d_names (disk c) !! contentPath c id ≫= λ o, fo_data <$> d_objs (disk c) !! o)) →
    (match trackOpenFileLocked id (contentPath c id) fd0 (set_fds (<[id := fd0]> (fds c)) (set_disk d c)) with
     | (inr _, c) => (inr fd0, c)
     | (inl e, c) => let c := set_fds (delete id (fds c)) c in let '(_, c) := syscall (file_Close fd0) c in (inl e, c)
     end) = (inr fd, c') →
    fds c' !! id = Some fd ∧ fd_data fd (disk c') = Some (default [] (d_names (disk c) !! contentPath c id ≫= λ o, fo_data <$> d_objs (disk c) !! o)) ∧
    d_faults (disk c') = [] ∧ closed c' = false ∧ directory c' = directory c).
  { intros d fd0 Hf Hd. unfold trackOpenFileLocked. cbn [evictEntries set_fds set_disk].
    destruct (evictEntries c !! contentPath c id).
    - intros [= <- <-]. cbn. rewrite lookup_insert_eq. by split_and!.
    - unfold se_bind, syscall at 1. cbn [disk set_fds set_disk].
      destruct (fd_data_file _ _ _ Hd) as (f & o & Ho & _).
      unfold file_Stat. rewrite (with_fd_ok _ _ _ _ _ _ Hf Ho). intros [= <- <-].
      unfold trackFileInfoLocked. cbn [evictEntries set_fds set_disk].
      case_match; cbn; rewrite lookup_insert_eq; by split_and!. }
  destruct (d_names (disk c) !! contentPath c id) as [o|] eqn:En.
  - destruct (do_names _ Hok _ _ En) as [f Hf]. pose proof (fd_file_open o (disk c) f Hf) as Hfd.
    destruct (open_obj o (disk c)) as [fd0 d] eqn:Eo. intros E.
    apply (Hgo d fd0); [injection Eo as _ <-; apply Hok| |exact E].
    simpl in Hfd. unfold fd_data. rewrite Hfd. simpl. by rewrite Hf.
  - destruct (decide (path_Dir (contentPath c id) ∈ d_dirs (disk c))); [|done].
    destruct (create_obj (contentPath c id) (disk c)) as [o d] eqn:Ec.
    assert (Hf : d_objs d !! o = Some (mkFileObj [] (d_now (disk c)))).
    { injection Ec as <- <-. cbn. apply lookup_insert_eq. }
    pose proof (fd_file_open o d _ Hf) as Hfd. destruct (open_obj o d) as [fd0 d'] eqn:Eo. intros E.
    apply (Hgo d' fd0); [injection Eo as _ <-; injection Ec as _ <-; apply Hok| |exact E].
    simpl in Hfd. unfold fd_data. by rewrite Hfd.
Qed.

(** Writing through a descriptor, without faults. *)
Definition written (pos : nat) (p data : list Z) : list Z :=
  if decide (p = []) then data else splice pos p data.

Lemma raw_write_ok fd pos p d f o :
  d_faults d = [] → fd_file fd d = Some (f, o) →
  ∃ d', raw_write fd pos p d = (length p, None, d') ∧ d_faults d' = [] ∧
    fd_file fd d' = Some (mkFileDesc (fd_obj f) (match pos with None => fd_pos f + length p | Some _ => fd_pos f end),
      if decide (p = []) then o else mkFileObj (splice (default (fd_pos f) pos) p (fo_data o)) (d_now d)).
Proof.
  intros Hf Ho. unfold raw_write. rewrite Ho, Hf.
  unfold fd_file in Ho. destruct (d_fds d !! fd) as [f0|] eqn:Ef; [|done]. simpl in Ho.
  destruct (d_objs d !! fd_obj f0) as [o0|] eqn:Eo; [|done]. injection Ho as -> ->.
  assert (Hp : (length p =? 0)%nat = bool_decide (p = [])) by (by destruct p). rewrite Hp, firstn_all.
  eexists. split; [done|]. unfold fd_file. destruct pos as [pos|]; simpl.
  - destruct (decide (p = [])) as [->|Hne].
    + rewrite bool_decide_true by done. rewrite Ef. simpl. rewrite Eo. by destruct f.
    + rewrite bool_decide_false by done. simpl. rewrite Ef. simpl. rewrite lookup_insert_eq. by destruct f.
  - destruct (decide (p = [])) as [->|Hne].
    + rewrite bool_decide_true by done. simpl. rewrite lookup_insert_eq. simpl. by rewrite Eo.
    + rewrite bool_decide_false by done. simpl. rewrite lookup_insert_eq. simpl. by rewrite lookup_insert_eq.
Qed.

(** The index does not touch what is read. *)
Definition same_content (c c' : ContentCache) : Prop :=
  fds c' = fds c ∧ disk c' = disk c ∧ directory c' = directory c.

Lemma same_content_track id path info c : same_content c (trackFileInfoLocked id path info c).
Proof. unfold trackFileInfoLocked. by case_match. Qed.
Lemma same_content_maybeEvict c : same_content c (maybeEvict c).
Proof. unfold maybeEvict. by case_match. Qed.

Lemma trackFile_ok id c r c' :
  d_faults (disk c) = [] → trackFileLocked id c = (r, c') → same_content c c'.
Proof.
  intros Hf. unfold trackFileLocked, se_bind, syscall, os_Stat. rewrite sys_ok by done.
  assert (Hs : ∀ d : Disk, set_disk (disk c) c = c) by (by destruct c).
  destruct (decide _); [|destruct (d_names (disk c) !! contentPath c id ≫= _)]; intros [= <- <-];
    rewrite ?(Hs (disk c)); try apply same_content_track; done.
Qed.

Lemma ReadAll_open id fd data c :
  d_faults (disk c) = [] → fds c !! id = Some fd → fd_data fd (disk c) = Some data →
  (ReadAll id c).1 = Some data.
Proof.
  intros Hf Hfd Hd. destruct (fd_data_file _ _ _ Hd) as (f & o & Ho & <-).
  unfold ReadAll, Open, se_bind at 1. rewrite Hfd. unfold se_bind, syscall at 1.
  unfold file_Seek. rewrite (with_fd_ok _ _ _ _ _ _ Hf Ho).
  unfold syscall, file_ReadAll. cbn [disk set_disk].
  assert (Ho' : fd_file fd (set_pos fd f 0 (disk c)) = Some (mkFileDesc (fd_obj f) 0, o)).
  { unfold fd_file in *. destruct (d_fds (disk c) !! fd) as [f0|]; [|done]. simpl in *. rewrite lookup_insert_eq. simpl.
    destruct (d_objs (disk c) !! fd_obj f0) eqn:Eo; simpl in Ho; [|done]. injection Ho as <- <-. by rewrite Eo. }
  rewrite (with_fd_ok _ _ _ _ (mkFileDesc (fd_obj f) 0) o); [by rewrite drop_0|done|done].
Qed.

Lemma content_ok_Size id c : content_ok c → content_ok (Size id c).2 ∧ content_of id (Size id c).2 = content_of id c.
Proof.
  intros Hc. pose proof (do_faults _ (proj1 (proj2 Hc))) as Hf.
  assert (Hs : set_disk (disk c) c = c) by (by destruct c).
  assert (E : (Size id c).2 = c); [|by rewrite E].
  assert (Hp : (syscall (os_Stat (contentPath c id)) c).2 = c).
  { unfold syscall, os_Stat. rewrite sys_ok by done. destruct (decide _); [exact Hs|].
    destruct (d_names (disk c) !! contentPath c id ≫= _); exact Hs. }
  unfold Size. destruct (fds c !! id) as [fd|] eqn:Ef.
  - destruct (proj2 (proj2 Hc) _ _ Ef) as [f Hfd]. destruct (do_fds _ (proj1 (proj2 Hc)) _ _ Hfd) as [o Ho].
    assert (Hff : fd_file fd (disk c) = Some (f, o)) by (unfold fd_file; rewrite Hfd; simpl; by rewrite Ho).
    unfold syscall at 1, file_Stat. rewrite (with_fd_ok _ _ _ _ _ _ Hf Hff). exact Hs.
  - by destruct (syscall (os_Stat _) c) as [[e|i] c1].
Qed.

(** Without disk errors, a write at an offset that the cache acknowledges
    wrote all its bytes, and what is read afterwards is the old contents
    overwritten there (zeros filling a gap). *)
Theorem WriteAt_read_back id data off c n c' :
  content_ok c → 0 ≤ off → WriteAt id data off c = ((n, None), c') →
  n = Z.of_nat (length data) ∧
  (ReadAll id c').1 = Some (written (Z.to_nat off) data (content_of id c)).
Proof.
  intros Hc Hoff. unfold WriteAt. rewrite (proj1 Hc).
  destruct (content_ok_Size id c Hc) as [Hc1 Hco]. destruct (Size id c) as [prev c1]. cbn [snd] in *.
  destruct (Open id c1) as [[e|fd] c2] eqn:Eo; [done|].
  destruct (Open_content _ _ _ _ Hc1 Eo) as (Hfd & Hd & Hf & Hcl & _). rewrite Hco in Hd.
  destruct (fd_data_file _ _ _ Hd) as (f & o & Ho & Hdata).
  unfold file_WriteAt. destruct (Z.ltb_spec off 0); [lia|].
  destruct (raw_write_ok fd (Some (Z.to_nat off)) data (disk c2) f o Hf Ho) as (d' & -> & Hf' & Ho').
  destruct (trackFileLocked id (set_disk d' c2)) as [[e|[]] c3] eqn:Et; [done|].
  pose proof (trackFile_ok _ (set_disk d' c2) _ _ Hf' Et) as Ht.
  intros E. injection E as <- <-. split; [done|].
  assert (Hsame : same_content (set_disk d' c2) (if prev <? i64 (off + Z.of_nat (length data)) then maybeEvict c3 else c3)).
  { destruct (_ <? _); [|done]. destruct Ht as (E1 & E2 & E3), (same_content_maybeEvict c3) as (F1 & F2 & F3).
    split_and!; congruence. }
  destruct Hsame as (E1 & E2 & _). apply (ReadAll_open id fd).
  - by rewrite E2.
  - by rewrite E1.
  - rewrite E2. unfold fd_data. cbn [disk set_disk]. rewrite Ho'. simpl. f_equal. unfold written.
    destruct (decide (data = [])); simpl; by rewrite Hdata.
Qed.

Lemma example_content_ok : content_ok example_content.
Proof.
  split; [reflexivity|]. split.
  - split; [vm_compute; reflexivity|..].
    + intros p o Hp. apply elem_of_map_to_list in Hp.
      assert (H : Forall (λ po, bool_decide (is_Some (d_objs (disk example_content) !! po.2)) = true)
        (map_to_list (d_names (disk example_content)))) by (vm_compute; repeat constructor).
      rewrite Forall_forall in H. by apply H in Hp; apply bool_decide_eq_true in Hp.
    + intros fd f Hp. apply elem_of_map_to_list in Hp.
      assert (H : Forall (λ po, bool_decide (is_Some (d_objs (disk example_content) !! fd_obj po.2)) = true)
        (map_to_list (d_fds (disk example_content)))) by (vm_compute; repeat constructor).
      rewrite Forall_forall in H. by apply H in Hp; apply bool_decide_eq_true in Hp.
    + intros o [x Ho]. apply elem_of_map_to_list in Ho.
      assert (H : Forall (λ po, (po.1 <? d_next (disk example_content))%nat = true)
        (map_to_list (d_objs (disk example_content)))) by (vm_compute; repeat constructor).
      rewrite Forall_forall in H. apply H in Ho. by apply Nat.ltb_lt in Ho.
    + intros o [x Ho]. apply elem_of_map_to_list in Ho.
      assert (H : Forall (λ po, (po.1 <? d_next (disk example_content))%nat = true)
        (map_to_list (d_fds (disk example_content)))) by (vm_compute; repeat constructor).
      rewrite Forall_forall in H. apply H in Ho. by apply Nat.ltb_lt in Ho.
  - intros id fd Hp. apply elem_of_map_to_list in Hp.
    assert (H : Forall (λ po, bool_decide (is_Some (d_fds (disk example_content) !! po.2)) = true)
      (map_to_list (fds example_content))) by (vm_compute; repeat constructor).
    rewrite Forall_forall in H. by apply H in Hp; apply bool_decide_eq_true in Hp.
Qed.

Lemma WriteAt_read_back_witness :
  (ReadAll "b" (WriteAt "b" [7; 8] 9 example_content).2).1 =
    Some (written 9 [7; 8] (content_of "b" example_content)) ∧
  content_of "b" example_content = replicate 10 0.
Proof.
  split; [|vm_compute; reflexivity].
  destruct (WriteAt "b" [7; 8] 9 example_content) as [[n e] c'] eqn:E.
  assert (He : e = None).
  { change e with (n, e, c').1.2. rewrite <- E. vm_compute. reflexivity. }
  subst e. exact (proj2 (WriteAt_read_back "b" [7; 8] 9 example_content n c' example_content_ok ltac:(lia) E)).
Defined.

(** ** Snapshots *)

Lemma temp_name_inj dir prefix n m : temp_name dir prefix n = temp_name dir prefix m → n = m.
Proof.
  unfold temp_name. intros E. repeat apply (inj (String.append _)) in E. by apply (inj pretty) in E.
Qed.

(** [os.CreateTemp] finds a name the disk does not have. *)
Lemma fresh_temp_free fuel dir prefix n d :
  (∃ k, (n ≤ k ≤ n + fuel)%nat ∧ temp_name dir prefix k ∉ used_paths d) →
  fresh_temp fuel dir prefix n d ∉ used_paths d.
Proof.
  revert n. induction fuel as [|fuel IH]; intros n (k & Hk & Hf); cbn [fresh_temp].
  { by replace n with k by lia. }
  case_decide as En; [|done]. apply IH. exists k. split; [|done]. destruct (decide (k = n)) as [->|]; [done|lia].
Qed.

Lemma temp_name_exists dir prefix n (used : gset string) :
  ∃ k, (n ≤ k ≤ n + size used)%nat ∧ temp_name dir prefix k ∉ used.
Proof.
  set (ns := seq n (S (size used))).
  destruct (decide (Forall (λ k, temp_name dir prefix k ∈ used) ns)) as [Hall|Hnot].
  - exfalso. assert (Hn : NoDup (temp_name dir prefix <$> ns)).
    { apply NoDup_fmap_2; [intros a b; apply temp_name_inj|apply NoDup_seq]. }
    assert (Hsub : (temp_name dir prefix <$> ns) ⊆ elements used).
    { intros p Hp. apply list_elem_of_fmap in Hp as (k & -> & Hk). apply elem_of_elements.
      rewrite Forall_forall in Hall. by apply Hall. }
    pose proof (NoDup_submseteq _ _ Hn Hsub) as Hlen. apply submseteq_length in Hlen.
    rewrite length_fmap in Hlen. unfold ns in Hlen. rewrite length_seq in Hlen.
    change (length (elements used)) with (size used) in Hlen. lia.
  - apply not_Forall_Exists in Hnot; [|apply _]. apply Exists_exists in Hnot as (k & Hk & Hns).
    apply elem_of_seq in Hk. exists k. split; [lia|done].
Qed.

Lemma fresh_temp_fresh dir prefix n d : fresh_temp (size (used_paths d)) dir prefix n d ∉ used_paths d.
Proof. apply fresh_temp_free, temp_name_exists. Qed.
Lemma fresh_temp_nonempty fuel dir prefix n d : fresh_temp fuel dir prefix n d ≠ "".
Proof.
  revert n. assert (Hn : ∀ n, temp_name dir prefix n ≠ "").
  { intros n E. apply (f_equal chars) in E. unfold temp_name in E. rewrite !chars_app in E.
    change (chars "/") with ["/"%char] in E. by destruct (chars dir). }
  induction fuel as [|fuel IH]; intros n; cbn [fresh_temp]; [apply Hn|]. case_decide; [apply IH|apply Hn].
Qed.

(** Reading everything from the start, without faults. *)
Lemma file_ReadAll_ok fd d f o :
  d_faults d = [] → fd_file fd d = Some (f, o) → fd_pos f = 0%nat →
  file_ReadAll fd d = (inr (fo_data o), set_pos fd f (length (fo_data o)) d).
Proof.
  intros Hf Ho Hp. unfold file_ReadAll. rewrite (with_fd_ok _ _ _ _ _ _ Hf Ho), Hp. by rewrite drop_0.
Qed.

(** Names and object numbers only grow. *)
Definition disk_grows (d d' : Disk) : Prop :=
  used_paths d ⊆ used_paths d' ∧ (d_next d ≤ d_next d')%nat ∧
  (∀ o, is_Some (d_objs d' !! o) → (o < d_next d')%nat) ∧
  (∀ fd, is_Some (d_fds d' !! fd) → (fd < d_next d')%nat).

Lemma OpenFile_grows path d r d' :
  disk_ok d → os_OpenFile path d = (r, d') → disk_grows d d' ∧ d_faults d' = [].
Proof.
  intros Hok. unfold os_OpenFile. rewrite sys_ok by apply Hok.
  assert (Hrefl : disk_grows d d) by (split; [done|]; split; [lia|]; split; apply Hok).
  destruct (decide (path ∈ d_dirs d)); [intros [= <- <-]; split; [done|apply Hok]|].
  destruct (d_names d !! path) as [o|].
  - intros [= <- <-]. split; [|apply Hok]. split; [done|]. split; [simpl; lia|].
    split; intros o' Ho'; simpl in *; [apply (do_next _ Hok) in Ho'; lia|].
    apply lookup_insert_is_Some' in Ho' as [<-|Ho']; [lia|]. apply (do_fdnext _ Hok) in Ho'. lia.
  - destruct (decide _); intros [= <- <-]; (split; [|apply Hok]); [|done].
    split; [|split; [|split]]; simpl; [|lia|..].
    + unfold used_paths. simpl. rewrite dom_insert_L. set_solver.
    + intros o' Ho'. destruct (decide (o' = d_next d)) as [->|]; [lia|]. rewrite lookup_insert_ne in Ho' by done.
      apply (do_next _ Hok) in Ho'. lia.
    + intros fd Hfd. apply lookup_insert_is_Some' in Hfd as [<-|Hfd]; [lia|]. apply (do_fdnext _ Hok) in Hfd. lia.
Qed.

Lemma Open_grows id c fd c' : content_ok c → Open id c = (inr fd, c') → disk_grows (disk c) (disk c').
Proof.
  intros (_ & Hok & _). unfold Open. destruct (fds c !! id) as [fd0|].
  { intros [= _ <-]. split; [done|]. split; [lia|]. split; apply Hok. }
  unfold syscall at 1. destruct (os_OpenFile (contentPath c id) (disk c)) as [[e|fd1] d] eqn:Eo; [done|].
  destruct (OpenFile_grows _ _ _ _ Hok Eo) as [Hg Hf].
  unfold trackOpenFileLocked. cbn [evictEntries set_fds set_disk].
  destruct (evictEntries c !! contentPath c id); [by intros [= _ <-]|].
  unfold se_bind, syscall at 1, file_Stat. cbn [disk set_fds set_disk].
  destruct (fd_file fd1 d) as [[f o]|] eqn:Eff.
  - rewrite (with_fd_ok _ _ _ _ _ _ Hf Eff). intros [= _ <-].
    unfold trackFileInfoLocked. cbn [evictEntries set_fds set_disk]. by case_match.
  - unfold with_fd at 1. rewrite Eff. by destruct (syscall (file_Close fd1) _).
Qed.

(** The copy into the temporary file. *)
Lemma snapshot_copy_ok fd tmp path c f o data tf to :
  d_faults (disk c) = [] → fd_file fd (disk c) = Some (f, o) → fd_pos f = 0%nat → fo_data o = data →
  fd_file tmp (disk c) = Some (tf, mkFileObj [] to) → fd_pos tf = 0%nat → tmp ≠ fd → data ≠ [] →
  ∃ c', snapshot_copy fd tmp path c = (inr (path, Z.of_nat (length data)), c') ∧
    d_faults (disk c') = [] ∧ d_dirs (disk c') = d_dirs (disk c) ∧
    d_names (disk c') = d_names (disk c) ∧ fo_data <$> d_objs (disk c') !! fd_obj tf = Some data.
Proof.
  intros Hf Ho Hp <- Ht Htp Hne Hdata. unfold snapshot_copy, syscall at 1.
  rewrite (file_ReadAll_ok _ _ _ _ Hf Ho Hp). cbn [disk set_disk].
  set (d1 := set_pos fd f (length (fo_data o)) (disk c)).
  assert (Ht1 : fd_file tmp d1 = Some (tf, mkFileObj [] to)).
  { unfold fd_file in *. simpl. by rewrite lookup_insert_ne. }
  unfold file_CopyFrom, file_Write.
  destruct (raw_write_ok tmp None (fo_data o) d1 tf _ Hf Ht1) as (d2 & Ew & Hf2 & Hfile).
  assert (Hn2 : d_names d2 = d_names (disk c) ∧ d_dirs d2 = d_dirs (disk c)).
  { unfold raw_write in Ew. rewrite Ht1, (Hf : d_faults d1 = []) in Ew. cbv zeta in Ew.
    destruct (length (fo_data o) =? 0)%nat; by injection Ew as <-. }
  destruct Hn2 as [Hn2 Hd2].
  rewrite Ew. cbv zeta. rewrite Z.add_0_l.
  unfold syscall at 1, file_Close. cbn [disk set_disk].
  rewrite (with_fd_ok _ _ _ _ _ _ Hf2 Hfile).
  destruct (Z.eqb_spec (Z.of_nat (length (fo_data o))) 0) as [E|_]; [by destruct (fo_data o)|].
  eexists. split; [done|]. split; [exact Hf2|]. split; [exact Hd2|]. split; [exact Hn2|].
  rewrite decide_False in Hfile by done. unfold fd_file in Hfile.
  destruct (d_fds d2 !! tmp) as [g|]; [|done]. simpl in Hfile.
  destruct (d_objs d2 !! fd_obj g) as [o2|] eqn:Eo2; [|done]. injection Hfile as -> ->.
  simpl. simpl in Eo2. rewrite Eo2. simpl. rewrite Htp. simpl. unfold splice.
  by rewrite firstn_O, drop_nil, app_nil_r, ?app_nil_l.
Qed.

(** An empty copy leaves no file behind. *)
Lemma snapshot_copy_empty fd tmp path c f o tf to p n c' :
  d_faults (disk c) = [] → fd_file fd (disk c) = Some (f, o) → fd_pos f = 0%nat → fo_data o = [] →
  fd_file tmp (disk c) = Some (tf, mkFileObj [] to) → tmp ≠ fd →
  snapshot_copy fd tmp path c = (inr (p, n), c') → n = 0.
Proof.
  intros Hf Ho Hp Hdata Ht Hne. unfold snapshot_copy, syscall at 1.
  rewrite (file_ReadAll_ok _ _ _ _ Hf Ho Hp). cbn [disk set_disk]. rewrite Hdata.
  set (d1 := set_pos _ _ _ (disk c)).
  assert (Ht1 : fd_file tmp d1 = Some (tf, mkFileObj [] to)).
  { unfold fd_file in *. simpl. by rewrite lookup_insert_ne. }
  unfold file_CopyFrom, file_Write.
  destruct (raw_write_ok tmp None [] d1 tf _ Hf Ht1) as (d2 & -> & Hf2 & Hfile). cbn [length].
  unfold syscall at 1, file_Close. cbn [disk set_disk].
  rewrite (with_fd_ok _ _ _ _ _ _ Hf2 Hfile). simpl. congruence.
Qed.

Lemma HasContent_same id c : content_ok c → (HasContent id c).2 = c.
Proof.
  intros Hc. pose proof (do_faults _ (proj1 (proj2 Hc))) as Hf.
  assert (Hs : set_disk (disk c) c = c) by (by destruct c).
  unfold HasContent. destruct (IsOpen c id); [done|]. unfold syscall, os_Stat. rewrite sys_ok by done.
  destruct (decide _); [exact Hs|].
  destruct (d_names (disk c) !! contentPath c id ≫= _); exact Hs.
Qed.

(** A snapshot that is not empty, without disk errors. *)
Lemma Snapshot_spec id c path n c' :
  content_ok c → Snapshot id c = (inr (path, n), c') → n ≠ 0 →
  ∃ o, path ≠ "" ∧ (path ∉ used_paths (disk c)) ∧ d_objs (disk c) !! o = None ∧
    d_faults (disk c') = [] ∧ (path ∉ d_dirs (disk c')) ∧
    d_names (disk c') !! path = Some o ∧ fo_data <$> d_objs (disk c') !! o = Some (content_of id c) ∧
    n = Z.of_nat (length (content_of id c)).
Proof.
  intros Hc. unfold Snapshot. rewrite (surjective_pairing (HasContent id c)), HasContent_same by done.
  destruct (HasContent id c).1; cbn [negb]; [|done].
  unfold se_bind at 1. destruct (Open id c) as [[e|fd] c1] eqn:Eo; [done|].
  destruct (Open_content _ _ _ _ Hc Eo) as (_ & Hd & Hf & _). pose proof (Open_grows _ _ _ _ Hc Eo) as Hg.
  destruct (fd_data_file _ _ _ Hd) as (f & o & Ho & Hdata).
  unfold se_bind at 1, syscall at 1, file_Seek. rewrite (with_fd_ok _ _ _ _ _ _ Hf Ho).
  set (d2 := set_pos fd f 0 (disk c1)).
  unfold se_bind at 1, syscall at 1, os_MkdirAll. rewrite sys_ok by done.
  destruct (d_names (disk (set_disk d2 c1)) !! snapshotsDir c); [done|].
  unfold se_bind, syscall at 1, os_CreateTemp. rewrite sys_ok by done.
  destruct (decide _) as [_|]; [|done]. cbn [disk set_disk fst snd].
  set (d3 := set_d_dirs _ d2). pose proof (fresh_temp_fresh (snapshotsDir c) "snapshot-" (d_next d3) d3) as Hfree.
  set (tpath := fresh_temp _ _ _ _ d3) in *. unfold create_obj, open_obj. cbn [fst snd d_next].
  match goal with |- context [snapshot_copy fd ?t tpath ?cc] => set (tmp := t); set (c4 := cc) end.
  destruct Hg as (Hgn & Hgx & Hgo & Hgf).
  assert (Hfdlt : (fd < d_next (disk c1))%nat).
  { apply Hgf. unfold fd_file in Ho. by destruct (d_fds (disk c1) !! fd). }
  assert (Holt : (fd_obj f < d_next (disk c1))%nat).
  { apply Hgo. unfold fd_file in Ho. destruct (d_fds (disk c1) !! fd) as [g|]; [|done]. simpl in Ho.
    destruct (d_objs (disk c1) !! fd_obj g) eqn:Eg; [|done]. injection Ho as -> _. by rewrite Eg. }
  assert (Hfd4 : fd_file fd (disk c4) = Some (mkFileDesc (fd_obj f) 0, o)).
  { unfold fd_file in *. cbn. rewrite lookup_insert_ne, lookup_insert_eq by lia. cbn.
    rewrite lookup_insert_ne by lia. destruct (d_fds (disk c1) !! fd) as [g|]; [|done]. simpl in Ho.
    destruct (d_objs (disk c1) !! fd_obj g) eqn:Eg; [|done]. injection Ho as -> ->. by rewrite Eg. }
  assert (Ht4 : fd_file tmp (disk c4) = Some (mkFileDesc (d_next (disk c1)) 0, mkFileObj [] (d_now (disk c1)))).
  { unfold fd_file. cbn. rewrite lookup_insert_eq. cbn. by rewrite lookup_insert_eq. }
  intros E Hn. destruct (decide (content_of id c = [])) as [Hnil|Hnil].
  { exfalso. apply Hn. eapply (snapshot_copy_empty fd tmp tpath c4);
      [exact Hf|exact Hfd4|done|congruence|exact Ht4|unfold tmp; simpl; lia|exact E]. }
  destruct (snapshot_copy_ok fd tmp tpath c4 _ o _ _ _ Hf Hfd4 eq_refl Hdata Ht4 eq_refl) as (c5 & E5 & Hf5 & Hdir5 & Hn5 & Hd5);
    [unfold tmp; simpl; lia|done|].
  assert (E' : snapshot_copy fd tmp tpath c4 = (inr (path, n), c')) by exact E.
  rewrite E5 in E'. injection E' as <- <- <-. exists (d_next (disk c1)).
  split; [apply fresh_temp_nonempty|]. split.
  { intros Hs. apply Hfree, (elem_of_weaken _ _ _ Hs). etrans; [exact Hgn|]. unfold used_paths, d3, d2. cbn. set_solver. }
  split. { apply eq_None_not_Some. intros Hs. apply (do_next _ (proj1 (proj2 Hc))) in Hs. lia. }
  split; [exact Hf5|]. split; [rewrite Hdir5; intros Hs; apply Hfree; unfold used_paths; cbn in *; set_solver|].
  split; [|done]. rewrite Hn5. cbn. apply lookup_insert_eq.
Qed.

(** Without disk errors, a snapshot that is not empty is a new file, under
    a name and in a file object the disk did not have before, that holds all
    the contents of the file at that moment; so no later write, truncation or
    eviction of the cached file can change it. *)
Theorem Snapshot_independent id c path n c' :
  content_ok c → Snapshot id c = (inr (path, n), c') → n ≠ 0 →
  ∃ o, d_names (disk c) !! path = None ∧ d_objs (disk c) !! o = None ∧
    d_names (disk c') !! path = Some o ∧ fo_data <$> d_objs (disk c') !! o = Some (content_of id c) ∧
    n = Z.of_nat (length (content_of id c)).
Proof.
  intros Hc E Hn. destruct (Snapshot_spec id c path n c' Hc E Hn) as (o & _ & Hfree & Ho & _ & _ & Hp & Hd & Hl).
  exists o. split_and!; [|done..]. apply not_elem_of_dom. set_solver.
Qed.

Lemma Snapshot_independent_witness :
  ∃ path c', Snapshot "b" example_content = (inr (path, 10), c') ∧
  ∃ o, d_names (disk example_content) !! path = None ∧ d_objs (disk example_content) !! o = None ∧
    d_names (disk c') !! path = Some o ∧
    fo_data <$> d_objs (disk c') !! o = Some (content_of "b" example_content) ∧
    10 = Z.of_nat (length (content_of "b" example_content)).
Proof.
  destruct (Snapshot "b" example_content) as [r c'] eqn:E.
  assert (Hr : r = inr ("/c/snapshots/snapshot-5", 10)).
  { change r with ((r, c').1). rewrite <- E. vm_compute. reflexivity. }
  subst r. exists "/c/snapshots/snapshot-5", c'. split; [reflexivity|].
  apply (Snapshot_independent "b" example_content _ 10 c' example_content_ok E). discriminate.
Defined.
