(* ===== verification/GraphClient.v ===== *)
(** The Microsoft Graph client (internal/graph/client.go, drive_item.go,
    children.go, items.go, delta.go, user.go and [checkResponse] of error.go):
    resource addressing, the retrying transport, authenticated requests, and
    the operations on items. The network, the token provider, the context and
    the clock belong to the world the client runs in. *)

From S2P Require Export GoText GraphModels.

#[local] Open Scope Z_scope.

(** ** Requests, responses and the world *)

(** What a request body holds: JSON text or raw bytes. *)
Inductive Payload := PJson (j : json) | PBytes (b : list Z).

(** An [io.Reader] given as a body: its contents, how it ends ([None]: EOF),
    and whether [net/http] can rewind it ([bytes.Reader]: it sets [GetBody]). *)
Record ReqBody := mkReqBody { rq_payload : Payload; rq_err : option error; rq_resettable : bool }.

(** [*http.Request]. [req_Read] is the number of body bytes already taken from
    [Body]; [req_GetBody] is [None] when nil, [Some (Some e)] when it fails. *)
Record Request := mkRequest {
  req_Method : string;
  req_URL : string;
  req_Header : gmap string string;
  req_Body : option Payload;
  req_BodyErr : option error;
  req_Read : nat;
  req_GetBody : option (option error);
}.

(** The body of a response: the pieces a reader gets from it, how it ends, the
    JSON value its text starts with, and whether more than white space follows
    that value. *)
Record Body := mkBody {
  b_chunks : list (list Z); b_err : option error; b_json : option json; b_more : bool }.

Record Response := mkResponse {
  resp_StatusCode : Z; resp_Header : gmap string string; resp_Body : Body }.

(** An [HTTPDoer]: an [*http.Client] (its [Timeout], and the
    [ResponseHeaderTimeout] of its [*http.Transport], [None] for another kind
    of transport), any other implementation, or a [*RetryDoer]. *)
Inductive HTTPDoer :=
  | HttpClient (Timeout : Duration) (ResponseHeaderTimeout : option Duration)
  | OtherDoer (n : nat)
  | RetryDoer (inner : HTTPDoer) (maxRetries : Z).

(** The world: one exchange with the network, which also reports how many
    bytes of the body it took; waiting; and starting a goroutine, which runs
    when the scheduler decides. *)
Class World (W : Type) := {
  raw_do : HTTPDoer → Request → W → (error + Response) * nat * W;
  time_Sleep : Duration → W → W;
  go_spawn : (W → W) → W → W;
}.

(** A context ([ctx.Err()] once it is done) and a token provider. *)
Definition Ctx (W : Type) := W → option error.
Definition Background {W} : Ctx W := λ _, None.
Definition TokenProvider (W : Type) := Ctx W → W → (error + string) * W.

Definition body_bytes (b : Body) : list Z := concat (b_chunks b).

(** Reading a body that was closed. *)
Definition ErrBodyReadAfterClose := EMsg "http: read on closed response body".
Definition drain_close (r : Response) : Response :=
  mkResponse (resp_StatusCode r) (resp_Header r) (mkBody [] (Some ErrBodyReadAfterClose) None false).

(** [io.ReadAll]. *)
Definition ReadAll (b : Body) : error + list Z :=
  match b_err b with Some e => inl e | None => inr (body_bytes b) end.

(** [json.NewDecoder(body).Decode] and [json.Unmarshal]: the error of a text
    that is not JSON, or that holds a value of another shape. *)
Definition ErrJSON := EMsg "invalid JSON document".
Definition Decode {T} (d : decoder T) (zero : T) (b : Body) : error + T :=
  match b_json b with
  | Some j => match d j zero with Some t => inr t | None => inl ErrJSON end
  | None => inl (default ErrJSON (b_err b))
  end.
Definition Unmarshal {T} (d : decoder T) (zero : T) (b : Body) : error + T :=
  if b_more b then inl ErrJSON else Decode d zero b.

(** ** internal/graph/client.go: resource addressing *)

(** [normalizePath]. *)
Definition NUL : ascii := "000"%char.
Definition normalizePath (p : string) : string :=
  let p := ReplaceAll p NUL "" in
  let p := ReplaceAll p "\"%char "/" in
  let p := Clean ("/" +:+ p) in
  Trim p slash.

Definition escapePathSegments (p : string) : string := Join (PathEscape <$> Split p slash) slash.

Definition ResourcePathByID (id : string) : string :=
  if decide (id = "root") then "/me/drive/root" else "/me/drive/items/" +:+ PathEscape id.

Definition ResourcePathByPath (p : string) : string :=
  let clean := normalizePath p in
  if decide (clean = "") then "/me/drive/root" else "/me/drive/root:/" +:+ escapePathSegments clean.

Definition WithAction (resource action : string) : string :=
  let action := Trim action slash in
  if decide (action = "") then resource
  else if Contains resource ":" then resource +:+ ":/" +:+ action
  else resource +:+ "/" +:+ action.

Definition ChildrenPathByID (id : string) : string := WithAction (ResourcePathByID id) "children".
Definition ChildrenPathByPath (p : string) : string := WithAction (ResourcePathByPath p) "children".
Definition ContentPathByID (id : string) : string := WithAction (ResourcePathByID id) "content".
Definition ContentPathByPath (p : string) : string := WithAction (ResourcePathByPath p) "content".
Definition DeltaPath : string := WithAction (ResourcePathByID "root") "delta".

(** [Resource]: nil is [None]. *)
Inductive Resource := ItemID (id : string) | ItemPath (p : string).

Definition ResourcePath (r : Resource) : string :=
  match r with ItemID id => ResourcePathByID id | ItemPath p => ResourcePathByPath p end.
Definition IsEmpty (r : Resource) : bool :=
  match r with ItemID s | ItemPath s => bool_decide (s = "") end.
Definition ParentReference (r : Resource) : json :=
  match r with
  | ItemID id => JObj [("id", enc_string id)]
  | ItemPath p => JObj [("path", enc_string ("/" +:+ normalizePath p))]
  end.

Definition validateResource (r : option Resource) : option error :=
  match r with
  | None => Some ErrEmptyResource
  | Some r => if IsEmpty r then Some ErrEmptyResource else None
  end.

Definition ifMatchHeaders (etag : string) : gmap string string :=
  if decide (etag = "") then ∅ else {[ "If-Match" := etag ]}.

(** ** net/url: what [url.Parse] makes of an absolute URL *)

Record URL := mkURL { url_Scheme : string; url_Host : string }.

Definition is_letter (a : ascii) : bool := let n := byte_of (lower_ascii a) in (97 <=? n) && (n <=? 122).
Definition is_digit (a : ascii) : bool := in_range a 48 57.
Definition is_hex (a : ascii) : bool := is_digit a || in_range (lower_ascii a) 97 102.

(** Cut at the first (last) separator; [None] when there is none. *)
Fixpoint cut_chars (c : ascii) (l : list ascii) : option (list ascii * list ascii) :=
  match l with
  | [] => None
  | a :: l' => if decide (a = c) then Some ([], l')
               else (λ p, (a :: p.1, p.2)) <$> cut_chars c l'
  end.
Definition rcut_chars (c : ascii) (l : list ascii) : option (list ascii * list ascii) :=
  (λ p, (reverse p.2, reverse p.1)) <$> cut_chars c (reverse l).

(** The scheme of a URL: [Some None] when it has none, [None] for the error
    "missing protocol scheme". *)
Fixpoint getScheme_from (seen : list ascii) (l : list ascii) : option (option (list ascii * list ascii)) :=
  match l with
  | [] => Some None
  | a :: l' =>
      if is_letter a then getScheme_from (seen ++ [a]) l'
      else if is_digit a || bool_decide (a ∈ chars "+-.") then
        match seen with [] => Some None | _ => getScheme_from (seen ++ [a]) l' end
      else if decide (a = ":"%char) then
        match seen with [] => None | _ => Some (Some (seen, l')) end
      else Some None
  end.

(** The percent-escapes of a text are well formed. *)
Fixpoint escapes_ok (l : list ascii) : bool :=
  match l with
  | "%"%char :: l' => match l' with a :: b :: l'' => is_hex a && is_hex b && escapes_ok l'' | _ => false end
  | _ :: l' => escapes_ok l'
  | [] => true
  end.

(** A host may hold these ASCII bytes; escapes in it are refused (the code
    only ever compares hosts of Graph endpoints, which have none). *)
Definition host_char (a : ascii) : bool :=
  is_alnum a || (128 <=? byte_of a) || bool_decide (a ∈ chars "-_.~!$&'()*+,;=:[]<>") || bool_decide (a = "034"%char).
Definition userinfo_char (a : ascii) : bool :=
  is_alnum a || bool_decide (a ∈ chars "-._:~!$&'()*+,;=%@").

(** The port of [host:port], when there is a colon: digits only. *)
Definition port_ok (host : list ascii) : bool :=
  match rcut_chars ":"%char host with
  | Some (_, port) => forallb is_digit port
  | None => true
  end.

Definition parseAuthority (l : list ascii) : option (list ascii) :=
  let '(user, host) := match rcut_chars "@"%char l with Some p => (Some p.1, p.2) | None => (None, l) end in
  let user_ok := match user with Some u => forallb userinfo_char u && escapes_ok u | None => true end in
  let host_ok := forallb host_char host &&
    match host with
    | "["%char :: _ => match rcut_chars "]"%char host with
                  | Some (_, rest) => match rest with [] => true | ":"%char :: p => forallb is_digit p | _ => false end
                  | None => false
                  end
    | _ => port_ok host
    end in
  if user_ok && host_ok then Some host else None.

(** [url.Parse], reduced to the scheme (in lower case) and the host. *)
Definition url_Parse (raw : string) : option URL :=
  let l := chars raw in
  if existsb (λ a, (byte_of a <? 32) || (byte_of a =? 127)) l then None else
  let '(u, frag) := match cut_chars "#"%char l with Some p => p | None => (l, []) end in
  if negb (escapes_ok frag) then None else
  match getScheme_from [] u with
  | None => None
  | Some sch =>
      let '(scheme, rest) := match sch with Some (s, r) => (lower_ascii <$> s, r) | None => ([], u) end in
      let rest := match cut_chars "?"%char rest with Some (r, _) => r | None => rest end in
      match rest with
      | "/"%char :: "/"%char :: auth =>
          let third := match auth with a :: _ => bool_decide (a = slash) | [] => false end in
          if bool_decide (scheme = []) && third then
            if escapes_ok rest then Some (mkURL "" "") else None
          else
            let '(auth, path) := match cut_chars slash auth with Some (a, p) => (a, slash :: p) | None => (auth, []) end in
            if escapes_ok path then mkURL (of_chars scheme) ∘ of_chars <$> parseAuthority auth else None
      | "/"%char :: _ => if escapes_ok rest then Some (mkURL (of_chars scheme) "") else None
      | _ =>
          if negb (bool_decide (scheme = [])) then Some (mkURL (of_chars scheme) "")  (* opaque *)
          else
            let first := match cut_chars slash rest with Some (f, _) => f | None => rest end in
            if existsb (λ a, bool_decide (a = ":"%char)) first then None
            else if escapes_ok rest then Some (mkURL "" "") else None
      end
  end.

Definition ErrURLParse (raw : string) := EMsg ("parse " +:+ Quote raw +:+ ": invalid URL").

(** ** The retrying transport *)

(** [isNetworkError]. *)
Definition isNetworkError (err : error) : bool :=
  match errors_As_NetTimeout err with Some true => true | _ => false end
  || Contains (Error err) "connection refused" || Contains (Error err) "connection reset"
  || Contains (Error err) "no such host" || Contains (Error err) "network is unreachable"
  || Contains (Error err) "i/o timeout".

Definition baseDelay : Duration := 1 * Second.
(** [baseDelay * time.Duration(1<<attempt)]. *)
Definition retry_delay (attempt : nat) : Duration :=
  i64 (baseDelay * i64 (Z.shiftl 1 (Z.of_nat attempt))).

(** [strconv.Atoi]: an optional sign and digits, within int64. *)
Fixpoint digits_val (acc : Z) (l : list ascii) : option Z :=
  match l with
  | [] => Some acc
  | a :: l => if is_digit a then digits_val (10 * acc + (byte_of a - 48)) l else None
  end.
Definition Atoi (s : string) : option Z :=
  let '(sign, l) := match chars s with
    | "-"%char :: l => (-1, l) | "+"%char :: l => (1, l) | l => (1, l) end in
  match l with
  | [] => None
  | _ => digits_val 0 l ≫= λ n,
      let z := sign * n in if (- 2 ^ 63 <=? z) && (z <? 2 ^ 63) then Some z else None
  end.

Definition header_get (h : gmap string string) (k : string) : string := default "" (h !! k).

(** The delay before the retry after response [resp]. *)
Definition response_delay (attempt : nat) (resp : Response) : Duration :=
  match Atoi (header_get (resp_Header resp) "Retry-After") with
  | Some sec => i64 (sec * Second)
  | None => retry_delay attempt
  end.

Definition set_Read (n : nat) (r : Request) : Request :=
  mkRequest (req_Method r) (req_URL r) (req_Header r) (req_Body r) (req_BodyErr r) n (req_GetBody r).

Section client_world.
Context {W : Type} `{World W}.

(** The loop of [(r *RetryDoer) Do]. [left] counts the retries that remain:
    [attempt < r.maxRetries] holds exactly when it is not zero, and every
    retry takes one, so the loop ends. *)
Fixpoint retry_loop (inner : Request → W → (error + Response) * nat * W)
    (left attempt : nat) (req : Request) (w : W) : (error + Response) * nat * W :=
  let '(r, n, w) := inner req w in
  let req := set_Read (req_Read req + n) req in
  match r with
  | inl err =>
      match left with
      | S left' =>
          if isNetworkError err then
            retry_loop inner left' (S attempt) req (time_Sleep (retry_delay attempt) w)
          else (inl err, req_Read req, w)
      | O => (inl err, req_Read req, w)
      end
  | inr resp =>
      if negb (resp_StatusCode resp =? 429) && negb (resp_StatusCode resp =? 503) then
        (inr resp, req_Read req, w)
      else
        match left with
        | O => (inr resp, req_Read req, w)
        | S left' =>
            match req_Body req, req_GetBody req with
            | Some _, None => (inr (drain_close resp), req_Read req, w)
            | _, Some (Some e) =>
                (inl (EWrap ("cannot retry request after HTTP " +:+ pretty (resp_StatusCode resp)
                             +:+ ": resetting the body failed: ") e ""), req_Read req, w)
            | _, getBody =>
                let req := match getBody with Some _ => set_Read 0 req | None => req end in
                retry_loop inner left' (S attempt) req (time_Sleep (response_delay attempt resp) w)
            end
        end
  end.

(** [HTTPDoer.Do]. *)
Fixpoint Do (d : HTTPDoer) (req : Request) (w : W) : (error + Response) * nat * W :=
  match d with
  | RetryDoer inner maxRetries => retry_loop (Do inner) (Z.to_nat maxRetries) 0 req w
  | _ => raw_do d req w
  end.
End client_world.

(** ** Client and its options *)

Record Client := mkClient { BaseURL : string; HTTPClient : HTTPDoer; PollBackoff : Duration }.

Definition DefaultBaseURL : string := "https://graph.microsoft.com/v1.0".

(** [newDefaultTransport]: its [ResponseHeaderTimeout]. *)
Definition newDefaultTransport : option Duration := Some (15 * Second).

Definition Option := Client → Client.
Definition WithBaseURL (u : string) : Option := λ c, mkClient u (HTTPClient c) (PollBackoff c).
Definition WithHTTPClient (h : HTTPDoer) : Option := λ c, mkClient (BaseURL c) h (PollBackoff c).
Definition WithTimeout (d : Duration) : Option := λ c,
  match HTTPClient c with
  | HttpClient _ tr => WithHTTPClient (HttpClient d ((λ _, d) <$> tr)) c
  | _ => WithHTTPClient (HttpClient d newDefaultTransport) c
  end.
Definition WithTransport (ResponseHeaderTimeout : Duration) : Option := λ c,
  match HTTPClient c with
  | HttpClient t _ => WithHTTPClient (HttpClient t (Some ResponseHeaderTimeout)) c
  | _ => c
  end.
Definition NewRetryDoer (inner : HTTPDoer) (maxRetries : Z) : HTTPDoer := RetryDoer inner maxRetries.
Definition WithRetry (maxRetries : Z) : Option := λ c,
  WithHTTPClient (NewRetryDoer (HTTPClient c) maxRetries) c.

Definition NewClient (opts : list Option) : Client :=
  let c := mkClient DefaultBaseURL (HttpClient (15 * Second) newDefaultTransport) (1 * Second) in
  let c := foldl (λ c opt, opt c) c opts in
  match HTTPClient c with
  | RetryDoer _ _ => c
  | _ => WithHTTPClient (NewRetryDoer (HTTPClient c) 3) c
  end.

(** [cli.URL(resourcePath, query)]; [query] lists the pairs in key order. *)
Definition cli_URL (cli : Client) (resourcePath : string) (query : list (string * string)) : string :=
  let base := TrimRight (BaseURL cli) slash in
  let resourcePath := if HasPrefix resourcePath "/" then resourcePath else "/" +:+ resourcePath in
  let u := base +:+ resourcePath in
  match query with [] => u | _ => u +:+ "?" +:+ Values_Encode query end.

(** [validateFollowURL]: [None] accepts. *)
Definition validateFollowURL (cli : Client) (rawURL : string) : option error :=
  let b := TrimRight (BaseURL cli) slash in
  match url_Parse b with
  | None => Some (EWrap ("invalid client base URL " +:+ Quote (BaseURL cli) +:+ ": ") (ErrURLParse b) "")
  | Some base =>
      match url_Parse rawURL with
      | None => Some (EWrap "invalid pagination URL: " (ErrURLParse rawURL) "")
      | Some target =>
          if negb (EqualFold (url_Scheme target) (url_Scheme base)) || negb (EqualFold (url_Host target) (url_Host base))
          then Some (EMsg ("pagination URL host " +:+ Quote (url_Host target)
                           +:+ " does not match the Graph endpoint " +:+ Quote (url_Host base)))
          else None
      end
  end.

Definition isAbsoluteURL (link : string) : bool := HasPrefix link "http".
Definition absoluteURL (cli : Client) (link : string) : string :=
  if isAbsoluteURL link then link else cli_URL cli link [].

(** ** internal/graph/error.go: checkResponse *)

Definition zero_GraphError := mkGraphError 0 "" "".
Definition GraphError_fields : list (string * decoder GraphError) := [
  ("StatusCode", dec_field ge_StatusCode (λ v e, mkGraphError v (ge_Code e) (ge_Message e)) dec_int64);
  ("code", dec_field ge_Code (λ v e, mkGraphError (ge_StatusCode e) v (ge_Message e)) dec_string);
  ("message", dec_field ge_Message (λ v e, mkGraphError (ge_StatusCode e) (ge_Code e) v) dec_string)].
Definition dec_GraphError : decoder GraphError := dec_struct GraphError_fields.
(** [struct { Error *GraphError `json:"error"` }]. *)
Definition dec_errResp : decoder (option GraphError) :=
  dec_struct [("error", dec_field id (λ v _, v) (dec_ptr zero_GraphError dec_GraphError))].

Definition errBodyLimit : nat := Z.to_nat (10 * 2 ^ 10).

(** [io.LimitReader(resp.Body, 10<<10)]: a longer text is cut, and is no JSON
    document any more; an error behind the limit is never seen. *)
Definition LimitBody (b : Body) : Body :=
  if (length (body_bytes b) <? errBodyLimit)%nat then b
  else mkBody [take errBodyLimit (body_bytes b)] None
         (if (length (body_bytes b) =? errBodyLimit)%nat then b_json b else None) (b_more b).

Definition checkResponse (resp : Response) : option error :=
  let code := resp_StatusCode resp in
  if (200 <=? code) && (code <? 300) then None
  else
    let b := LimitBody (resp_Body resp) in
    match ReadAll b with
    | inl err => Some (EGraph (mkGraphError code "" ("error reading response body: " +:+ Error err)))
    | inr body =>
        match Unmarshal dec_errResp None b with
        | inl _ =>
            let bodyStr := if (200 <? length body)%nat then bytes_string (take 200 body) +:+ "..."
                           else bytes_string body in
            Some (EGraph (mkGraphError code "" ("non-JSON response: " +:+ bodyStr)))
        | inr (Some e) => Some (EGraph (mkGraphError code (ge_Code e) (ge_Message e)))
        | inr None =>
            Some (EGraph (mkGraphError code "" "unknown Graph error (JSON without 'error' field)"))
        end
    end.

(** ** internal/graph/drive_item.go: authenticated requests *)

Definition headers_set (hs extra : gmap string string) : gmap string string := extra ∪ hs.

Definition no_body : option ReqBody := None.
Definition json_body (j : json) : option ReqBody := Some (mkReqBody (PJson j) None true).

(** [http.NewRequestWithContext]: the method is always valid here. *)
Definition NewRequest (method reqURL : string) (body : option ReqBody) : error + Request :=
  match url_Parse reqURL with
  | None => inl (ErrURLParse reqURL)
  | Some _ =>
      inr (mkRequest method reqURL ∅ (rq_payload <$> body) (body ≫= rq_err) 0
             (match body with Some b => if rq_resettable b then Some None else None | None => None end))
  end.
Definition set_Header (h : gmap string string) (r : Request) : Request :=
  mkRequest (req_Method r) (req_URL r) h (req_Body r) (req_BodyErr r) (req_Read r) (req_GetBody r).

Section operations.
Context {W : Type} `{World W}.

(** Computations of the client: an error or a value, in the world. *)
Abbreviation IO A := (SE W error A).
#[local] Open Scope go_scope.
#[local] Open Scope Z_scope.

Definition io_Do (d : HTTPDoer) (req : Request) : IO Response :=
  λ w, let '(r, _, w) := Do d req w in (r, w).

(** [ctx.Err()] at this point: [select { case <-ctx.Done(): return ctx.Err() }]. *)
Definition ctx_check (ctx : Ctx W) : IO unit :=
  λ w, (match ctx w with Some e => inl e | None => inr tt end, w).

Definition wrap_err {A} (b a : string) (m : IO A) : IO A :=
  λ w, match m w with (inl e, w) => (inl (EWrap b e a), w) | r => r end.

Definition doAuthenticatedRequestWithBody (cli : Client) (ctx : Ctx W) (method reqURL : string)
    (body : option ReqBody) (contentType : string) (extraHeaders : gmap string string)
    (tokenProvider : TokenProvider W) : IO Response :=
  let* req := wrap_err "error creating request: " "" (se_lift (NewRequest method reqURL body)) in
  let* token := wrap_err "error obtaining access token: " "" (tokenProvider ctx) in
  let h := <["Accept" := "application/json"]> {[ "Authorization" := "Bearer " +:+ token ]} in
  let h := if decide (contentType = "") then h else <["Content-Type" := contentType]> h in
  wrap_err "network error querying Graph: " ""
    (io_Do (HTTPClient cli) (set_Header (headers_set h extraHeaders) req)).

Definition doAuthenticatedRequest (cli : Client) (ctx : Ctx W) (method reqURL : string)
    (tokenProvider : TokenProvider W) : IO Response :=
  doAuthenticatedRequestWithBody cli ctx method reqURL no_body "" ∅ tokenProvider.

(** [if err := checkResponse(resp); err != nil { return nil, err }]. *)
Definition check_resp (resp : Response) : IO unit :=
  se_lift (match checkResponse resp with Some e => inl e | None => inr tt end).

(** [doJSONRequest[T]]; [reqBody] is [Some None] when it cannot be marshalled. *)
Definition doJSONRequest {T} (d : decoder T) (zero : T) (ctx : Ctx W) (cli : Client)
    (method url : string) (reqBody : option json) (extraHeaders : gmap string string)
    (tokenProvider : TokenProvider W) : IO T :=
  let body := reqBody ≫= json_body in
  let* resp := doAuthenticatedRequestWithBody cli ctx method url body "application/json"
                 extraHeaders tokenProvider in
  let* _ := check_resp resp in
  wrap_err "error parsing Graph response: " "" (se_lift (Decode d zero (resp_Body resp))).

(** [driveItemPage]. *)
Record driveItemPage := mkPage { page_Value : option (list DriveItem); page_NextLink : string }.
Definition dec_driveItemPage : decoder driveItemPage := dec_struct [
  ("value", dec_field page_Value (λ v p, mkPage v (page_NextLink p)) (dec_slice zero_DriveItem dec_DriveItem));
  ("@odata.nextLink", dec_field page_NextLink (λ v p, mkPage (page_Value p) v) dec_string)].

Definition fetchDriveItemPage (cli : Client) (ctx : Ctx W) (tokenProvider : TokenProvider W)
    (reqURL : string) : IO (driveItemPage * string) :=
  let* page := doJSONRequest dec_driveItemPage (mkPage None "") ctx cli "GET" reqURL None ∅ tokenProvider in
  se_ret (page, page_NextLink page).

Definition guard_resource {A} (r : option Resource) (k : Resource → IO A) : IO A :=
  match validateResource r, r with
  | Some e, _ => se_fail e
  | None, Some r => k r
  | None, None => se_fail ErrEmptyResource
  end.

(** ** internal/graph/children.go *)

(** The loop of [listDriveItems]: one page per turn, [None] when the server
    has served [fuel] pages and still gives a next link. *)
Fixpoint listDriveItems_loop (fuel : nat) (cli : Client) (ctx : Ctx W) (tokenProvider : TokenProvider W)
    (allItems : list DriveItem) (nextURL : string) (w : W) : option ((error + list DriveItem) * W) :=
  if decide (nextURL = "") then Some (inr allItems, w) else
  match fuel with
  | O => None
  | S fuel =>
      match ctx_check ctx w with
      | (inl e, w) => Some (inl e, w)
      | (inr _, w) =>
          match fetchDriveItemPage cli ctx tokenProvider nextURL w with
          | (inl e, w) => Some (inl e, w)
          | (inr (page, nextURL), w) =>
              let allItems := allItems ++ default [] (page_Value page) in
              let nextURL := if negb (bool_decide (nextURL = "")) && negb (isAbsoluteURL nextURL)
                             then absoluteURL cli nextURL else nextURL in
              match (if decide (nextURL = "") then None else validateFollowURL cli nextURL) with
              | Some e => Some (inl e, w)
              | None => listDriveItems_loop fuel cli ctx tokenProvider allItems nextURL w
              end
          end
      end
  end.
Definition listDriveItems (fuel : nat) (cli : Client) (ctx : Ctx W) (tokenProvider : TokenProvider W)
    (initialURL : string) (w : W) : option ((error + list DriveItem) * W) :=
  listDriveItems_loop fuel cli ctx tokenProvider [] initialURL w.

Definition top200 : list (string * string) := [("$top", "200")].
Definition ListDriveRoot (fuel : nat) (cli : Client) (ctx : Ctx W) (tokenProvider : TokenProvider W) (w : W) :=
  listDriveItems fuel cli ctx tokenProvider
    (cli_URL cli (WithAction (ResourcePathByID "root") "children") top200) w.
Definition ListChildren (fuel : nat) (cli : Client) (ctx : Ctx W) (tokenProvider : TokenProvider W)
    (r : option Resource) (w : W) : option ((error + list DriveItem) * W) :=
  match validateResource r, r with
  | None, Some r =>
      listDriveItems fuel cli ctx tokenProvider (cli_URL cli (WithAction (ResourcePath r) "children") top200) w
  | Some e, _ => Some (inl e, w)
  | None, None => Some (inl ErrEmptyResource, w)
  end.

(** ** internal/graph/items.go *)

Definition GetItem (cli : Client) (ctx : Ctx W) (tokenProvider : TokenProvider W) (res : option Resource) :
    IO DriveItem :=
  guard_resource res (λ res,
    doJSONRequest dec_DriveItem zero_DriveItem ctx cli "GET" (cli_URL cli (ResourcePath res) []) None ∅ tokenProvider).

Definition createFolderRequest (name : string) : json := JObj [("name", enc_string name); ("folder", JObj [])].
Definition CreateFolder (cli : Client) (ctx : Ctx W) (tokenProvider : TokenProvider W) (parent : option Resource)
    (name : string) : IO DriveItem :=
  guard_resource parent (λ parent,
    if decide (name = "") then se_fail ErrEmptyName
    else doJSONRequest dec_DriveItem zero_DriveItem ctx cli "POST"
           (cli_URL cli (WithAction (ResourcePath parent) "children") [])
           (Some (createFolderRequest name)) ∅ tokenProvider).

Definition DeleteItem (cli : Client) (ctx : Ctx W) (tokenProvider : TokenProvider W) (r : option Resource)
    (etag : string) : IO unit :=
  guard_resource r (λ r,
    let* resp := doAuthenticatedRequestWithBody cli ctx "DELETE" (cli_URL cli (ResourcePath r) [])
                   no_body "" (ifMatchHeaders etag) tokenProvider in
    check_resp resp).

Definition renameItemRequest (name : string) : json := JObj [("name", enc_string name)].
Definition RenameItem (cli : Client) (ctx : Ctx W) (tokenProvider : TokenProvider W) (r : option Resource)
    (newName etag : string) : IO DriveItem :=
  guard_resource r (λ r,
    if decide (newName = "") then se_fail ErrEmptyName
    else doJSONRequest dec_DriveItem zero_DriveItem ctx cli "PATCH" (cli_URL cli (ResourcePath r) [])
           (Some (renameItemRequest newName)) (ifMatchHeaders etag) tokenProvider).

Definition moveItemRequest (ref : json) : json := JObj [("parentReference", ref)].
Definition MoveItem (cli : Client) (ctx : Ctx W) (tokenProvider : TokenProvider W) (item newParent : option Resource)
    (etag : string) : IO DriveItem :=
  guard_resource item (λ item, guard_resource newParent (λ newParent,
    doJSONRequest dec_DriveItem zero_DriveItem ctx cli "PATCH" (cli_URL cli (ResourcePath item) [])
      (Some (moveItemRequest (ParentReference newParent))) (ifMatchHeaders etag) tokenProvider)).

Definition copyItemRequest (name : string) (ref : option json) : json :=
  JObj (enc_str_field "name" name ++
        match ref with Some r => [("parentReference", r)] | None => [] end).
Definition CopyItem (cli : Client) (ctx : Ctx W) (tokenProvider : TokenProvider W) (item : option Resource)
    (newName : string) (newParent : option Resource) : IO string :=
  guard_resource item (λ item,
    let noParent := match newParent with Some p => IsEmpty p | None => true end in
    if bool_decide (newName = "") && noParent then
      se_fail (EMsg "at least newName or newParent must be specified")
    else
      let parentRef := match newParent with
                       | Some p => if IsEmpty p then None else Some (ParentReference p)
                       | None => None end in
      let rURL := cli_URL cli (WithAction (ResourcePath item) "copy") [] in
      let* resp := doAuthenticatedRequestWithBody cli ctx "POST" rURL
                     (json_body (copyItemRequest newName parentRef)) "application/json" ∅ tokenProvider in
      let* _ := check_resp resp in
      if negb (resp_StatusCode resp =? 202) then
        se_fail (EMsg ("unexpected server response: HTTP " +:+ pretty (resp_StatusCode resp)))
      else
        let loc := header_get (resp_Header resp) "Location" in
        if decide (loc = "") then se_fail (EMsg "202 response without Location header")
        else se_ret loc).

(** [AsyncOperationStatus]. *)
Record AsyncOperationStatus := mkAsync {
  async_Status : string; async_Resource : option DriveItem; async_Error : option GraphError }.
Definition dec_Async : decoder AsyncOperationStatus := dec_struct [
  ("status", dec_field async_Status (λ v a, mkAsync v (async_Resource a) (async_Error a)) dec_string);
  ("resource", dec_field async_Resource (λ v a, mkAsync (async_Status a) v (async_Error a))
                 (dec_ptr zero_DriveItem dec_DriveItem));
  ("error", dec_field async_Error (λ v a, mkAsync (async_Status a) (async_Resource a) v)
              (dec_ptr zero_GraphError dec_GraphError))].

(** One turn of [WaitForAsyncOperation]: the outcome, or [None] to poll again. *)
Definition async_poll (cli : Client) (ctx : Ctx W) (monitorURL : string) : IO (option DriveItem) :=
  let* _ := ctx_check ctx in
  let* req := wrap_err "error creating monitoring request: " "" (se_lift (NewRequest "GET" monitorURL no_body)) in
  let* resp := wrap_err "network error while monitoring: " "" (io_Do (HTTPClient cli) req) in
  let* status := wrap_err "error parsing operation status: " ""
                   (se_lift (Decode dec_Async (mkAsync "" None None) (resp_Body resp))) in
  if decide (async_Status status = "completed") then
    match async_Resource status with
    | None => se_fail (EMsg "operation completed but without returned resource")
    | Some r => se_ret (Some r)
    end
  else if decide (async_Status status = "failed") then
    match async_Error status with
    | Some e => se_fail (EGraph e)
    | None => se_fail (EMsg "the asynchronous operation failed without detail")
    end
  else if decide (async_Status status = "inProgress") then se_ret None
  else se_fail (EMsg ("unknown operation status: " +:+ async_Status status)).

(** The waiting [select]: the timer fires unless the context is done by then. *)
Fixpoint async_loop (fuel : nat) (cli : Client) (ctx : Ctx W) (monitorURL : string)
    (backoff : Duration) (w : W) : option ((error + DriveItem) * W) :=
  match fuel with
  | O => None
  | S fuel =>
      match async_poll cli ctx monitorURL w with
      | (inl e, w) => Some (inl e, w)
      | (inr (Some r), w) => Some (inr r, w)
      | (inr None, w) =>
          let w := time_Sleep backoff w in
          match ctx w with
          | Some e => Some (inl e, w)
          | None =>
              let backoff := if backoff <? i64 (10 * PollBackoff cli) then i64 (backoff * 2) else backoff in
              async_loop fuel cli ctx monitorURL backoff w
          end
      end
  end.
Definition WaitForAsyncOperation (fuel : nat) (cli : Client) (ctx : Ctx W) (monitorURL : string) (w : W) :
    option ((error + DriveItem) * W) :=
  if decide (monitorURL = "") then Some (inl (EMsg "the monitoring URL cannot be empty"), w)
  else async_loop fuel cli ctx monitorURL (PollBackoff cli) w.

(** ** internal/graph/delta.go *)

(** [DeltaItem] embeds [DriveItem]; its own [deleted] member hides the
    embedded one, which is never filled. *)
Record DeltaItem := mkDelta { delta_Item : DriveItem; delta_Deleted : option Deleted }.
Definition zero_DeltaItem := mkDelta zero_DriveItem None.
Definition DeltaItem_fields : list (string * decoder DeltaItem) :=
  ("deleted", dec_field delta_Deleted (λ v d, mkDelta (delta_Item d) v) (dec_ptr zero_Deleted dec_Deleted))
  :: ((λ f : string * decoder DriveItem,
         (f.1, dec_field delta_Item (λ v d, mkDelta v (delta_Deleted d)) f.2)) <$>
      filter (λ f, f.1 ≠ "deleted") DriveItem_fields).
Definition dec_DeltaItem : decoder DeltaItem := dec_struct DeltaItem_fields.

Record deltaResponse := mkDeltaResponse {
  dr_NextLink : string; dr_DeltaLink : string; dr_Values : option (list DeltaItem) }.
Definition dec_deltaResponse : decoder deltaResponse := dec_struct [
  ("@odata.nextLink", dec_field dr_NextLink (λ v r, mkDeltaResponse v (dr_DeltaLink r) (dr_Values r)) dec_string);
  ("@odata.deltaLink", dec_field dr_DeltaLink (λ v r, mkDeltaResponse (dr_NextLink r) v (dr_Values r)) dec_string);
  ("value", dec_field dr_Values (λ v r, mkDeltaResponse (dr_NextLink r) (dr_DeltaLink r) v)
              (dec_slice zero_DeltaItem dec_DeltaItem))].

(** [PollDelta]: the items, the next link and whether to go on. *)
Definition PollDelta (cli : Client) (ctx : Ctx W) (tokenProvider : TokenProvider W) (link : string) :
    IO (list DeltaItem * string * bool) :=
  let reqURL := if decide (link = "") then cli_URL cli DeltaPath [] else absoluteURL cli link in
  let* _ := se_lift (if decide (link = "") then inr tt
                     else match validateFollowURL cli reqURL with Some e => inl e | None => inr tt end) in
  let* resp := wrap_err "error calling delta: " ""
    (doAuthenticatedRequestWithBody cli ctx "GET" reqURL no_body "" ∅ tokenProvider) in
  let* _ := wrap_err "error in delta response: " "" (check_resp resp) in
  let* _ := wrap_err "error reading delta body: " "" (se_lift (ReadAll (resp_Body resp))) in
  let* page := wrap_err "error parsing delta response: " ""
    (se_lift (Unmarshal dec_deltaResponse (mkDeltaResponse "" "" None) (resp_Body resp))) in
  let values := default [] (dr_Values page) in
  if decide (dr_NextLink page = "") then se_ret (values, dr_DeltaLink page, false)
  else se_ret (values, dr_NextLink page, true).

(** ** internal/graph/user.go *)

Record User := mkUser {
  user_ID : string; user_UserPrincipalName : string; user_DisplayName : string;
  user_Mail : string; user_GivenName : string; user_Surname : string }.
Definition dec_User : decoder User := dec_struct [
  ("id", dec_field user_ID (λ v u, mkUser v (user_UserPrincipalName u) (user_DisplayName u)
     (user_Mail u) (user_GivenName u) (user_Surname u)) dec_string);
  ("userPrincipalName", dec_field user_UserPrincipalName (λ v u, mkUser (user_ID u) v (user_DisplayName u)
     (user_Mail u) (user_GivenName u) (user_Surname u)) dec_string);
  ("displayName", dec_field user_DisplayName (λ v u, mkUser (user_ID u) (user_UserPrincipalName u) v
     (user_Mail u) (user_GivenName u) (user_Surname u)) dec_string);
  ("mail", dec_field user_Mail (λ v u, mkUser (user_ID u) (user_UserPrincipalName u) (user_DisplayName u)
     v (user_GivenName u) (user_Surname u)) dec_string);
  ("givenName", dec_field user_GivenName (λ v u, mkUser (user_ID u) (user_UserPrincipalName u) (user_DisplayName u)
     (user_Mail u) v (user_Surname u)) dec_string);
  ("surname", dec_field user_Surname (λ v u, mkUser (user_ID u) (user_UserPrincipalName u) (user_DisplayName u)
     (user_Mail u) (user_GivenName u) v) dec_string)].

Definition GetUser (cli : Client) (ctx : Ctx W) (tokenProvider : TokenProvider W) : IO User :=
  let* resp := doAuthenticatedRequest cli ctx "GET" (BaseURL cli +:+ "/me") tokenProvider in
  let* _ := check_resp resp in
  let* user := wrap_err "error parsing Graph response: " ""
    (se_lift (Decode dec_User (mkUser "" "" "" "" "" "") (resp_Body resp))) in
  if decide (user_ID user = "") then
    se_fail (EMsg "Graph response does not contain a valid user ID")
  else se_ret user.
End operations.

#[global] Instance DeltaItem_eq_dec : EqDecision DeltaItem.
Proof. solve_decision. Defined.
