(* ===== verification/GraphTransfer.v ===== *)
(** Contents on their way to and from the server: simple and chunked uploads
    (internal/graph/upload.go) and ranged downloads with the integrity check
    (internal/graph/download.go). *)

From S2P Require Export GraphClient QuickXorHash.

#[local] Open Scope Z_scope.

(** ** Uploads *)

Definition uploadItemResourcePath (parent : Resource) (fileName : string) : error + string :=
  match parent with
  | ItemID p => inr (ResourcePathByID p +:+ ":/" +:+ PathEscape fileName)
  | ItemPath p => inr (ResourcePathByPath (p +:+ "/" +:+ fileName))
  end.

(** An [io.Reader] that is read from in pieces: what is left, and how it ends. *)
Record Reader := mkReader { rd_bytes : list Z; rd_err : option error }.

Definition io_EOF := ESentinel "EOF".
Definition io_ErrUnexpectedEOF := ESentinel "unexpected EOF".

(** [io.ReadFull(r, buf[:n])]. *)
Definition ReadFull (r : Reader) (n : nat) : (error + list Z) * Reader :=
  if (n <=? length (rd_bytes r))%nat then
    (inr (take n (rd_bytes r)), mkReader (drop n (rd_bytes r)) (rd_err r))
  else
    (inl match rd_err r with
         | Some e => e
         | None => match rd_bytes r with [] => io_EOF | _ => io_ErrUnexpectedEOF end
         end, mkReader [] (rd_err r)).

Definition chunkSize : Z := 327680.

(** The ranges [start-end] the loop
    [for start := int64(0); start < fileSize; start += chunkSize] goes through. *)
Fixpoint chunk_ranges (fuel : nat) (chunk fileSize start : Z) : list (Z * Z) :=
  match fuel with
  | O => []
  | S fuel =>
      if start <? fileSize then
        let end_ := i64 (start + chunk - 1) in
        let end_ := if fileSize - 1 <=? end_ then fileSize - 1 else end_ in
        (start, end_) :: chunk_ranges fuel chunk fileSize (i64 (start + chunk))
      else []
  end.
(** As many turns as there are chunks. *)
Definition ranges (chunk fileSize : Z) : list (Z * Z) :=
  chunk_ranges (Z.to_nat ((fileSize + chunk - 1) / chunk)) chunk fileSize 0.

Definition validateStreamInputs (content : option Reader) (fileSize : Z) : option error :=
  match content with
  | None => Some (EMsg "content cannot be nil")
  | Some _ => if fileSize <=? 0 then Some (EMsg "file size must be positive") else None
  end.

Definition dec_uploadSession : decoder string :=
  dec_struct [("uploadUrl", dec_field id (λ v _, v) dec_string)].
Definition createUploadSessionRequest : json :=
  JObj [("item", JObj [("@microsoft.graph.conflictBehavior", JStr "rename")])].

Definition range_text (start end_ : Z) : string := pretty start +:+ "-" +:+ pretty end_.

Section transfer.
Context {W : Type} `{World W}.
Abbreviation IO A := (SE W error A).
#[local] Open Scope go_scope.
#[local] Open Scope Z_scope.

Definition putContent (cli : Client) (ctx : Ctx W) (reqURL : string) (content : ReqBody) (etag : string)
    (tokenProvider : TokenProvider W) : IO DriveItem :=
  let* resp := doAuthenticatedRequestWithBody cli ctx "PUT" reqURL (Some content)
                 "application/octet-stream" (ifMatchHeaders etag) tokenProvider in
  let* _ := check_resp resp in
  wrap_err "error parsing Graph response: " ""
    (se_lift (Decode dec_DriveItem zero_DriveItem (resp_Body resp))).

Definition UploadItem (cli : Client) (ctx : Ctx W) (tokenProvider : TokenProvider W) (parent : option Resource)
    (fileName : string) (content : option ReqBody) (etag : string) : IO DriveItem :=
  guard_resource parent (λ parent,
    if decide (fileName = "") then se_fail (EMsg "file name cannot be empty")
    else match content with
         | None => se_fail (EMsg "content cannot be nil")
         | Some content =>
             let* resourcePath := se_lift (uploadItemResourcePath parent fileName) in
             putContent cli ctx (cli_URL cli (WithAction resourcePath "content") []) content etag tokenProvider
         end).

Definition OverwriteItem (cli : Client) (ctx : Ctx W) (tokenProvider : TokenProvider W) (itemID : string)
    (content : option ReqBody) (etag : string) : IO DriveItem :=
  if decide (itemID = "") then se_fail (EMsg "item ID cannot be empty")
  else match content with
       | None => se_fail (EMsg "content cannot be nil")
       | Some content => putContent cli ctx (cli_URL cli (ContentPathByID itemID) []) content etag tokenProvider
       end.

(** [cancelUploadSession]: its outcome is ignored. *)
Definition cancelUploadSession (cli : Client) (uploadURL : string) (w : W) : W :=
  match NewRequest "DELETE" uploadURL no_body with
  | inl _ => w
  | inr req => (io_Do (HTTPClient cli) req w).2
  end.

(** The request for one chunk. *)
Definition chunk_request (uploadURL : string) (start end_ fileSize : Z) (data : list Z) : error + Request :=
  match NewRequest "PUT" uploadURL (Some (mkReqBody (PBytes data) None true)) with
  | inl e => inl e
  | inr req => inr (set_Header {[ "Content-Range" :=
      "bytes " +:+ range_text start end_ +:+ "/" +:+ pretty fileSize ]} req)
  end.

(** One turn of the chunk loop: [Some item] when the server reports the
    item (200, 201), [None] when it wants more (202). *)
Definition upload_chunk (cli : Client) (ctx : Ctx W) (uploadURL : string) (fileSize : Z)
    (start end_ : Z) (content : Reader) (w : W) : (error + option DriveItem) * Reader * W :=
  match ctx_check ctx w with
  | (inl e, w) => (inl e, content, w)
  | (inr _, w) =>
      let rg := range_text start end_ in
      let '(r, content) := ReadFull content (Z.to_nat (end_ - start + 1)) in
      match r with
      | inl e => (inl (EWrap ("error reading chunk " +:+ rg +:+ ": ") e ""), content, w)
      | inr data =>
          match chunk_request uploadURL start end_ fileSize data with
          | inl e => (inl (EWrap "error creating chunk request: " e ""), content, w)
          | inr req =>
              match io_Do (HTTPClient cli) req w with
              | (inl e, w) => (inl (EWrap ("network error uploading chunk " +:+ rg +:+ ": ") e ""), content, w)
              | (inr resp, w) =>
                  let code := resp_StatusCode resp in
                  if (code =? 201) || (code =? 200) then
                    match Decode dec_DriveItem zero_DriveItem (resp_Body resp) with
                    | inl e => (inl (EWrap "error parsing uploaded item: " e ""), content, w)
                    | inr item => (inr (Some item), content, w)
                    end
                  else if code =? 202 then (inr None, content, w)
                  else
                    let msg := "error uploading chunk " +:+ rg +:+ ": HTTP " +:+ pretty code in
                    match ReadAll (resp_Body resp) with
                    | inl e => (inl (EWrap (msg +:+ " (error reading response: ") e ")"), content, w)
                    | inr body => (inl (EMsg (msg +:+ ": " +:+ bytes_string body)), content, w)
                    end
              end
          end
      end
  end.

(** The chunk loop: the item once the server has reported it. *)
Fixpoint upload_loop (cli : Client) (ctx : Ctx W) (uploadURL : string) (fileSize : Z)
    (rs : list (Z * Z)) (content : Reader) (w : W) : (error + option DriveItem) * W :=
  match rs with
  | [] => (inr None, w)
  | (start, end_) :: rs =>
      match upload_chunk cli ctx uploadURL fileSize start end_ content w with
      | (inl e, _, w) => (inl e, w)
      | (inr (Some item), _, w) => (inr (Some item), w)
      | (inr None, content, w) => upload_loop cli ctx uploadURL fileSize rs content w
      end
  end.

(** [uploadStream]; a session that was not committed is cancelled in the
    background. *)
Definition uploadStream (cli : Client) (ctx : Ctx W) (tokenProvider : TokenProvider W) (sessionURL : string)
    (sessionBody : option json) (content : Reader) (fileSize : Z) (etag : string) : IO DriveItem :=
  let* uploadURL := doJSONRequest dec_uploadSession "" ctx cli "POST" sessionURL sessionBody
                      (ifMatchHeaders etag) tokenProvider in
  if decide (uploadURL = "") then se_fail (EMsg "response does not contain uploadUrl")
  else λ w,
    match upload_loop cli ctx uploadURL fileSize (ranges chunkSize fileSize) content w with
    | (inr (Some item), w) => (inr item, w)
    | (inr None, w) => (inl (EMsg "DriveItem not received in the last chunk"),
                        go_spawn (cancelUploadSession cli uploadURL) w)
    | (inl e, w) => (inl e, go_spawn (cancelUploadSession cli uploadURL) w)
    end.

Definition UploadItemStream (cli : Client) (ctx : Ctx W) (tokenProvider : TokenProvider W)
    (parent : option Resource) (fileName : string) (content : option Reader) (fileSize : Z) (etag : string) :
    IO DriveItem :=
  guard_resource parent (λ parent,
    if decide (fileName = "") then se_fail (EMsg "file name cannot be empty")
    else match validateStreamInputs content fileSize, content with
         | None, Some content =>
             let* resourcePath := se_lift (uploadItemResourcePath parent fileName) in
             uploadStream cli ctx tokenProvider
               (cli_URL cli (WithAction resourcePath "createUploadSession") [])
               (Some createUploadSessionRequest) content fileSize etag
         | Some e, _ => se_fail e
         | None, None => se_fail (EMsg "content cannot be nil")
         end).

Definition OverwriteItemStream (cli : Client) (ctx : Ctx W) (tokenProvider : TokenProvider W) (itemID : string)
    (content : option Reader) (fileSize : Z) (etag : string) : IO DriveItem :=
  if decide (itemID = "") then se_fail (EMsg "item ID cannot be empty")
  else match validateStreamInputs content fileSize, content with
       | None, Some content =>
           uploadStream cli ctx tokenProvider
             (cli_URL cli (WithAction (ResourcePathByID itemID) "createUploadSession") []) None content fileSize etag
       | Some e, _ => se_fail e
       | None, None => se_fail (EMsg "content cannot be nil")
       end.

(** ** Downloads *)

(** An [io.Writer] with its own state: how many bytes it took, and an error
    when it did not take them all. *)
Record Writer (O : Type) := mkWriter { w_Write : list Z → O → nat * option error * O }.
#[global] Arguments w_Write {O} _ _ _.
#[global] Arguments mkWriter {O} _.

(** [*bytes.Buffer] never fails. *)
Definition bufferWriter : Writer (list Z) := mkWriter (λ p o, (length p, None, o ++ p)).

Definition io_ErrShortWrite := ESentinel "short write".

(** [io.MultiWriter(output, hasher)]: the hasher sees a piece once the
    output took all of it. *)
Definition MultiWriter {O} (out : Writer O) : Writer (O * quickXorHash) :=
  mkWriter (λ p '(o, h),
    let '(n, err, o) := w_Write out p o in
    match err with
    | Some e => (n, Some e, (o, h))
    | None => if (n =? length p)%nat then (length p, None, (o, Write h p))
              else (n, Some io_ErrShortWrite, (o, h))
    end).

(** [io.Copy(output, body)]: the bytes written, and the first error. *)
Fixpoint copy_chunks {O} (out : Writer O) (chunks : list (list Z)) (err : option error) (written : Z) (o : O) :
    Z * option error * O :=
  match chunks with
  | [] => (written, err, o)
  | p :: chunks =>
      let '(n, e, o) := w_Write out p o in
      let written := written + Z.of_nat n in
      match e with
      | Some e => (written, Some e, o)
      | None => if (n =? length p)%nat then copy_chunks out chunks err written o
                else (written, Some io_ErrShortWrite, o)
      end
  end.
Definition io_Copy {O} (out : Writer O) (b : Body) (o : O) : Z * option error * O :=
  copy_chunks out (b_chunks b) (b_err b) 0 o.

(** [downloadRange]: the bytes written, the error if any, the output. *)
Definition downloadRange {O} (cli : Client) (ctx : Ctx W) (tokenProvider : TokenProvider W) (reqURL : string)
    (start end_ : Z) (output : Writer O) (o : O) (w : W) : Z * option error * O * W :=
  let headers := {[ "Range" := "bytes=" +:+ range_text start end_ ]} in
  match doAuthenticatedRequestWithBody cli ctx "GET" reqURL no_body "" headers tokenProvider w with
  | (inl e, w) => (0, Some e, o, w)
  | (inr resp, w) =>
      match checkResponse resp with
      | Some e => (0, Some e, o, w)
      | None =>
          if negb (resp_StatusCode resp =? 206) then
            (0, Some (EMsg ("unexpected response for Range: HTTP " +:+ pretty (resp_StatusCode resp)
                            +:+ ", expected 206")), o, w)
          else if decide (header_get (resp_Header resp) "Content-Range" = "") then
            (0, Some (EMsg "partial response without Content-Range header"), o, w)
          else
            let expected := end_ - start + 1 in
            let '(written, err, o) := io_Copy output (resp_Body resp) o in
            match err with
            | Some e => (written, Some e, o, w)
            | None =>
                if written =? expected then (written, None, o, w)
                else (written, Some (EMsg ("incomplete chunk: expected " +:+ pretty expected
                                           +:+ " bytes, received " +:+ pretty written)), o, w)
            end
      end
  end.

Fixpoint download_loop {O} (cli : Client) (ctx : Ctx W) (tokenProvider : TokenProvider W) (contentURL : string)
    (output : Writer O) (rs : list (Z * Z)) (total : Z) (o : O) (w : W) : Z * option error * O * W :=
  match rs with
  | [] => (total, None, o, w)
  | (start, end_) :: rs =>
      match ctx_check ctx w with
      | (inl e, w) => (total, Some e, o, w)
      | (inr _, w) =>
          let '(n, err, o, w) := downloadRange cli ctx tokenProvider contentURL start end_ output o w in
          let total := total + n in
          match err with
          | Some e => (total, Some (EWrap ("error downloading chunk " +:+ range_text start end_ +:+ ": ") e ""), o, w)
          | None => download_loop cli ctx tokenProvider contentURL output rs total o w
          end
      end
  end.

Definition downloadChunkSize : Z := 10 * 1024 * 1024.

Definition GetItemContentStream {O} (cli : Client) (ctx : Ctx W) (tokenProvider : TokenProvider W)
    (r : option Resource) (output : Writer O) (o : O) (w : W) : Z * option error * O * W :=
  match validateResource r, r with
  | Some e, _ => (0, Some e, o, w)
  | None, None => (0, Some ErrEmptyResource, o, w)
  | None, Some res =>
      match GetItem cli ctx tokenProvider r w with
      | (inl e, w) => (0, Some (EWrap "error getting item metadata: " e ""), o, w)
      | (inr item, w) =>
          let contentURL := cli_URL cli (WithAction (ResourcePath res) "content") [] in
          if 2 ^ 63 - 1 <? item_Size item then
            (0, Some (EMsg ("file too large: " +:+ pretty (item_Size item) +:+ " bytes")), o, w)
          else
            let '(total, err, (o, h), w) :=
              download_loop cli ctx tokenProvider contentURL (MultiWriter output)
                (ranges downloadChunkSize (item_Size item)) 0 (o, New) w in
            match err with
            | Some e => (total, Some e, o, w)
            | None =>
                match item_File item with
                | Some f =>
                    let computed := base64_EncodeToString (hash_Sum h []) in
                    if bool_decide (hashes_QuickXorHash (file_Hashes f) ≠ "")
                       && negb (VerifyChecksum (Some item) computed) then
                      (total, Some (EMsg ("download integrity check failed: quickXorHash mismatch (server "
                         +:+ hashes_QuickXorHash (file_Hashes f) +:+ ", computed " +:+ computed +:+ ")")), o, w)
                    else (total, None, o, w)
                | None => (total, None, o, w)
                end
            end
      end
  end.

Definition GetItemContent (cli : Client) (ctx : Ctx W) (tokenProvider : TokenProvider W) (r : option Resource) :
    IO (list Z) := λ w,
  let '(_, err, buf, w) := GetItemContentStream cli ctx tokenProvider r bufferWriter [] w in
  match err with Some e => (inl e, w) | None => (inr buf, w) end.
End transfer.
