(* ===== verification/GraphAPI.v ===== *)
(** What the services of a mount use of Microsoft Graph: an interface, and the
    client of internal/graph that implements it. The fs package holds a
    [*graph.Client] and a token provider; a computation of the interface runs
    in the world the client runs in. *)

From S2P Require Export GraphClient GraphTransfer.

#[local] Open Scope Z_scope.

(** The operations on items, each with its context. A content given to the
    small uploads is a request body, to the chunked ones a reader with its size;
    a download yields the pieces it writes and its error. *)
Class GraphAPI (W : Type) := {
  api_GetItem : Ctx W → Resource → SE W error DriveItem;
  api_ListDriveRoot : Ctx W → SE W error (list DriveItem);
  api_ListChildren : Ctx W → Resource → SE W error (list DriveItem);
  api_CreateFolder : Ctx W → Resource → string → SE W error DriveItem;
  api_DeleteItem : Ctx W → Resource → string → SE W error unit;
  api_RenameItem : Ctx W → Resource → string → string → SE W error DriveItem;
  api_MoveItem : Ctx W → Resource → Resource → string → SE W error DriveItem;
  api_PollDelta : Ctx W → string → SE W error (list DeltaItem * string * bool);
  api_UploadItem : Ctx W → Resource → string → ReqBody → string → SE W error DriveItem;
  api_UploadItemStream : Ctx W → Resource → string → Reader → Z → string → SE W error DriveItem;
  api_OverwriteItem : Ctx W → string → ReqBody → string → SE W error DriveItem;
  api_OverwriteItemStream : Ctx W → string → Reader → Z → string → SE W error DriveItem;
  api_GetItemContentStream : Ctx W → Resource → W → list (list Z) * option error * W;
}.

(** A writer that takes every piece. *)
Definition chunksWriter : Writer (list (list Z)) := mkWriter (λ p o, (length p, None, o ++ [p])).

(** A listing that needs more than the pages allowed: the client would go on. *)
Definition ErrMorePages := EMsg "more pages than the model follows".
Definition paged {W A} (m : W → option ((error + A) * W)) : SE W error A := λ w,
  match m w with Some r => r | None => (inl ErrMorePages, w) end.

(** The client, with a bound on the pages of a listing. *)
Definition Client_GraphAPI {W} `{World W} (cli : Client) (tp : TokenProvider W) (pages : nat) : GraphAPI W := {|
  api_GetItem ctx r := GetItem cli ctx tp (Some r);
  api_ListDriveRoot ctx := paged (ListDriveRoot pages cli ctx tp);
  api_ListChildren ctx r := paged (ListChildren pages cli ctx tp (Some r));
  api_CreateFolder ctx r name := CreateFolder cli ctx tp (Some r) name;
  api_DeleteItem ctx r etag := DeleteItem cli ctx tp (Some r) etag;
  api_RenameItem ctx r name etag := RenameItem cli ctx tp (Some r) name etag;
  api_MoveItem ctx r p etag := MoveItem cli ctx tp (Some r) (Some p) etag;
  api_PollDelta ctx link := PollDelta cli ctx tp link;
  api_UploadItem ctx r name b etag := UploadItem cli ctx tp (Some r) name (Some b) etag;
  api_UploadItemStream ctx r name rd n etag := UploadItemStream cli ctx tp (Some r) name (Some rd) n etag;
  api_OverwriteItem ctx id b etag := OverwriteItem cli ctx tp id (Some b) etag;
  api_OverwriteItemStream ctx id rd n etag := OverwriteItemStream cli ctx tp id (Some rd) n etag;
  api_GetItemContentStream ctx r w :=
    let '(_, err, chunks, w) := GetItemContentStream cli ctx tp (Some r) chunksWriter [] w in
    (chunks, err, w);
|}.

(** [isNetworkError] of internal/fs/root.go: the first error of the chain that
    has [Timeout] and [Temporary] says one of them (a [*net.OpError] or another
    network error reports as temporary what it reports as a timeout), or the
    chain holds a connection errno. *)
Definition ECONNREFUSED : Z := 111.
Definition ECONNRESET : Z := 104.
Definition EHOSTUNREACH : Z := 113.
Definition ENETUNREACH : Z := 101.
Definition ETIMEDOUT : Z := 110.

Fixpoint timeout_or_temporary (err : error) : option bool :=
  match err with
  | ENet t _ => Some t
  | EErrno n => Some (bool_decide (n ∈ [4; 23; 24; 11; ETIMEDOUT]))
  | ESentinel _ => if decide (err = context_DeadlineExceeded) then Some true else None
  | EWrap _ i _ => timeout_or_temporary i
  | _ => None
  end.
Definition fs_isNetworkError (err : error) : bool :=
  match timeout_or_temporary err with
  | Some true => true
  | _ => existsb (λ n, errors_Is err (EErrno n)) [ECONNREFUSED; ECONNRESET; EHOSTUNREACH; ENETUNREACH; ETIMEDOUT]
  end.

(** The choice is looked through every wrapping the Graph layer adds. *)
Lemma fs_isNetworkError_wrap b e a : fs_isNetworkError (EWrap b e a) = fs_isNetworkError e.
Proof. reflexivity. Qed.
