(* ===== verification/GraphTheorems.v ===== *)
(** What the Graph client guarantees: addressing, error classification, the
    bounds of the retrying transport, pagination, and transfers of contents. *)

From S2P Require Export GraphTransfer.

#[local] Open Scope Z_scope.

(** ** Paths *)

(** The components a path is normalised to. *)
Definition path_chars (p : string) : list ascii :=
  chars (ReplaceAll (ReplaceAll p NUL "") "\"%char "/").
Definition norm_segs (p : string) : list seg :=
  clean_segs true (split_chars slash (slash :: path_chars p)).

(** A character no normalised path has. *)
Definition path_char (a : ascii) : Prop := a ≠ NUL ∧ a ≠ "\"%char.
Definition norm_seg (s : seg) : Prop := plain_seg s ∧ Forall path_char s.

Lemma Forall_split_chars (P : ascii → Prop) c l :
  Forall P l → Forall (Forall P) (split_chars c l).
Proof.
  induction 1 as [|a l Ha Hl IH]; [by repeat constructor|]. cbn [split_chars]. case_decide.
  - by constructor.
  - destruct (split_chars c l); [by repeat constructor|]. inversion IH; subst. by repeat constructor.
Qed.

Lemma clean_segs_Forall (P : seg → Prop) ss : Forall P ss → Forall P (clean_segs true ss).
Proof.
  intros H. unfold clean_segs. apply Forall_reverse. revert H.
  assert (∀ st, Forall P st → Forall P ss → Forall P (foldl (clean_step true) st ss)) as Hgo; [|by apply Hgo].
  intros st Hst H. revert st Hst. induction H as [|s ss Hs _ IH]; intros st Hst; simpl; [done|].
  apply IH. unfold clean_step. repeat case_decide; [done| |by constructor].
  destruct st as [|t st]; [done|]. inversion Hst; subst. case_decide; [|done]. subst. by repeat constructor.
Qed.

Lemma replaced_chars p : Forall path_char (path_chars p).
Proof.
  unfold path_chars, ReplaceAll. rewrite !chars_of_chars. apply Forall_forall. intros a Ha.
  apply list_elem_of_bind in Ha as (b & Ha & Hb). apply list_elem_of_bind in Hb as (c & Hb & _).
  destruct (decide (c = NUL)) as [Hc|Hc]; [by apply not_elem_of_nil in Hb|].
  apply list_elem_of_singleton in Hb. subst c.
  destruct (decide (b = "\"%char)) as [Hbs|Hbs]; apply list_elem_of_singleton in Ha; subst a; done.
Qed.

Lemma norm_segs_ok p : Forall norm_seg (norm_segs p).
Proof.
  unfold norm_segs. apply Forall_and. split.
  - apply clean_segs_plain, split_chars_no_sep.
  - apply clean_segs_Forall, Forall_split_chars. constructor; [done|apply replaced_chars].
Qed.

(** Joined plain components neither start nor end with a slash. *)
Lemma join_plain_head a l ss : Forall plain_seg ss → join_chars slash ss = a :: l → a ≠ slash.
Proof.
  intros H E. destruct H as [|s ss (Hn&_&_&Hs) _]; [done|].
  destruct s as [|b s]; [done|]. assert (b ≠ slash) by (apply not_elem_of_cons in Hs as [? _]; congruence).
  destruct ss; simpl in E; congruence.
Qed.

Lemma join_plain_last a l ss : Forall plain_seg ss → join_chars slash ss = l ++ [a] → a ≠ slash.
Proof.
  intros H. revert l. induction H as [|s ss (Hn&_&_&Hs) Hss IH]; intros l E; [by destruct l|].
  destruct ss as [|t ss]; cbn [join_chars] in E.
  - subst s. apply not_elem_of_app in Hs as [_ Hs]. apply not_elem_of_cons in Hs as [? _]. congruence.
  - assert (join_chars slash (t :: ss) ≠ []) as Hne.
    { inversion Hss as [|?? (Ht&_) _]; subst. destruct t; [done|]. by destruct ss. }
    destruct (exists_last Hne) as (k & b & Ek). cbn [join_chars] in *. rewrite Ek in E, IH.
    rewrite app_comm_cons, app_assoc in E. apply app_inj_tail in E as [_ <-]. by apply (IH k).
Qed.

Lemma drop_while_head f (l : list ascii) : (∀ a k, l = a :: k → f a = false) → drop_while f l = l.
Proof. intros H. destruct l as [|a l]; [done|]. simpl. by rewrite (H a l). Qed.

Lemma Trim_join ss :
  Forall plain_seg ss →
  TrimRight_chars slash (TrimLeft_chars slash (slash :: join_chars slash ss)) = join_chars slash ss.
Proof.
  intros H. unfold TrimLeft_chars at 1. cbn [drop_while]. rewrite bool_decide_true by done.
  rewrite drop_while_head.
  2: { intros a k E. apply bool_decide_eq_false. by eapply join_plain_head. }
  unfold TrimRight_chars, TrimLeft_chars. rewrite drop_while_head; [apply reverse_involutive|].
  intros a k E. apply bool_decide_eq_false. eapply (join_plain_last _ (reverse k)); [done|].
  rewrite <- (reverse_involutive (join_chars slash ss)), E. by rewrite reverse_cons.
Qed.

Lemma normalizePath_chars p : chars (normalizePath p) = join_chars slash (norm_segs p).
Proof.
  unfold normalizePath, Clean, Trim. rewrite chars_app. change (chars "/") with [slash]. cbn [app].
  rewrite bool_decide_true by done. rewrite !chars_of_chars. apply Trim_join.
  eapply Forall_impl; [apply norm_segs_ok|]. by intros s [? _].
Qed.

Lemma replace_none c new l : Forall (λ a, a ≠ c) l → ReplaceAll (of_chars l) c new = of_chars l.
Proof.
  intros H. unfold ReplaceAll. rewrite chars_of_chars. f_equal.
  induction H as [|a l Ha _ IH]; [done|]. cbn. rewrite decide_False by done. cbn. f_equal. exact IH.
Qed.

Lemma Forall_join (P : ascii → Prop) c ws : P c → Forall (Forall P) ws → Forall P (join_chars c ws).
Proof.
  intros Hc. induction 1 as [|w ws Hw Hws IH]; [done|]. destruct ws; [done|].
  cbn [join_chars] in *. apply Forall_app. split; [done|]. by constructor.
Qed.

(** A path written with normalised components is read back as them. *)
Lemma norm_segs_join ss :
  Forall norm_seg ss → norm_segs (of_chars (join_chars slash ss)) = ss.
Proof.
  intros H. assert (Hp : Forall plain_seg ss) by (eapply Forall_impl; [exact H|by intros s [? _]]).
  assert (Hc : Forall path_char (join_chars slash ss)).
  { apply Forall_join; [done|]. eapply Forall_impl; [exact H|by intros s [_ ?]]. }
  unfold norm_segs, path_chars. rewrite replace_none by (eapply Forall_impl; [exact Hc|by intros a [? _]]).
  rewrite replace_none by (eapply Forall_impl; [exact Hc|by intros a [_ ?]]). rewrite chars_of_chars.
  cbn [split_chars]. rewrite decide_True by done.
  destruct ss as [|s ss]; [done|].
  rewrite split_join_chars; [|done|eapply Forall_impl; [exact Hp|by intros t (_&_&_&?)]].
  change (clean_segs true ([] :: s :: ss)) with (clean_segs true (s :: ss)). by apply clean_segs_id.
Qed.

(** C28: a normalised path is made of components that are not empty, "." or
    ".." and hold no slash, backslash or NUL (it cannot leave the drive root),
    joined by single slashes; normalising it again changes nothing. *)
Theorem normalizePath_contained p :
  (∃ ss, Forall norm_seg ss ∧ chars (normalizePath p) = join_chars slash ss) ∧
  normalizePath (normalizePath p) = normalizePath p.
Proof.
  split; [exists (norm_segs p); split; [apply norm_segs_ok|apply normalizePath_chars]|].
  apply chars_inj. rewrite !normalizePath_chars. f_equal.
  rewrite <- (of_chars_chars (normalizePath p)), normalizePath_chars. apply norm_segs_join, norm_segs_ok.
Qed.

(** ** Addressing a new file in a folder *)

Lemma split_chars_snoc c l w :
  c ∉ w → split_chars c (l ++ c :: w) = split_chars c l ++ [w].
Proof.
  intros Hw. rewrite <- (join_split_chars c l) at 1.
  pose proof (split_chars_nonnil c l) as Hne. pose proof (split_chars_no_sep c l) as Hns.
  set (ws := split_chars c l) in *. clearbody ws.
  assert (E : join_chars c ws ++ c :: w = join_chars c (ws ++ [w])).
  { clear Hns Hw. induction ws as [|v ws IH]; [done|]. destruct ws as [|v' ws]; [done|].
    change (join_chars c (v :: v' :: ws)) with (v ++ c :: join_chars c (v' :: ws)).
    change (join_chars c ((v :: v' :: ws) ++ [w])) with (v ++ c :: join_chars c ((v' :: ws) ++ [w])).
    rewrite <- IH by done. by rewrite <- app_assoc. }
  rewrite E. apply split_join_chars; [by destruct ws|]. apply Forall_app. by repeat constructor.
Qed.

Lemma clean_segs_snoc ss s : plain_seg s → clean_segs true (ss ++ [s]) = clean_segs true ss ++ [s].
Proof.
  intros (H1&H2&H3&_). unfold clean_segs. rewrite foldl_app. simpl.
  unfold clean_step at 1. rewrite !decide_False by tauto. apply reverse_cons.
Qed.

Lemma ReplaceAll_app s t c new : ReplaceAll (s +:+ t) c new = ReplaceAll s c new +:+ ReplaceAll t c new.
Proof. unfold ReplaceAll. by rewrite chars_app, bind_app, of_chars_app. Qed.

Lemma path_chars_snoc p f :
  Forall path_char f → path_chars (p +:+ "/" +:+ of_chars f) = path_chars p ++ slash :: f.
Proof.
  intros Hf. unfold path_chars. rewrite !ReplaceAll_app, !chars_app.
  rewrite (replace_none NUL) by (eapply Forall_impl; [exact Hf|by intros a [? _]]).
  rewrite (replace_none "\"%char) by (eapply Forall_impl; [exact Hf|by intros a [_ ?]]).
  by rewrite chars_of_chars.
Qed.

Lemma norm_segs_snoc p f :
  norm_seg f → norm_segs (p +:+ "/" +:+ of_chars f) = norm_segs p ++ [f].
Proof.
  intros [Hp Hf]. unfold norm_segs. rewrite path_chars_snoc, app_comm_cons by done.
  rewrite split_chars_snoc by apply Hp. by apply clean_segs_snoc.
Qed.

Lemma join_chars_snoc c ws w :
  join_chars c (ws ++ [w]) = match ws with [] => w | _ => join_chars c ws ++ c :: w end.
Proof.
  induction ws as [|v ws IH]; [done|]. destruct ws as [|v' ws]; [done|].
  change (join_chars c ((v :: v' :: ws) ++ [w])) with (v ++ c :: join_chars c ((v' :: ws) ++ [w])).
  rewrite IH. change (join_chars c (v :: v' :: ws)) with (v ++ c :: join_chars c (v' :: ws)).
  by rewrite <- app_assoc.
Qed.

Lemma norm_segs_nil p : normalizePath p = "" ↔ norm_segs p = [].
Proof.
  pose proof (norm_segs_ok p) as Hok. pose proof (normalizePath_chars p) as E. split; intros H.
  - rewrite H in E. destruct (norm_segs p) as [|s ss]; [done|]. inversion Hok as [|?? [(Hs&_) _] _]; subst.
    destruct s as [|a s]; [done|]. by destruct ss.
  - apply chars_inj. by rewrite E, H.
Qed.

Lemma string_app_assoc (a b c : string) : (a +:+ b) +:+ c = a +:+ b +:+ c.
Proof. apply chars_inj. by rewrite !chars_app, app_assoc. Qed.

Definition escaped_segs (ss : list seg) : string := of_chars (join_chars slash (PathEscape_chars <$> ss)).

Lemma escaped_segs_snoc ss f :
  ss ≠ [] → escaped_segs (ss ++ [f]) = escaped_segs ss +:+ "/" +:+ of_chars (PathEscape_chars f).
Proof.
  intros Hne. unfold escaped_segs. rewrite fmap_app. change (PathEscape_chars <$> [f]) with [PathEscape_chars f].
  rewrite join_chars_snoc. destruct ss as [|s ss]; [done|].
  apply chars_inj. by rewrite !chars_app, !chars_of_chars.
Qed.

(** The address of a path: its components, escaped one by one. *)
Lemma ResourcePathByPath_segs p :
  ResourcePathByPath p =
  match norm_segs p with
  | [] => "/me/drive/root"
  | ss => "/me/drive/root:/" +:+ escaped_segs ss
  end.
Proof.
  unfold ResourcePathByPath. pose proof (norm_segs_nil p) as Hn. pose proof (norm_segs_ok p) as Hok.
  destruct (decide (normalizePath p = "")) as [E|E].
  { by rewrite (proj1 Hn E). }
  assert (Hne : norm_segs p ≠ []) by tauto.
  transitivity ("/me/drive/root:/" +:+ escaped_segs (norm_segs p)).
  2: { by destruct (norm_segs p). }
  f_equal. unfold escapePathSegments, Join, Split. rewrite normalizePath_chars.
  rewrite split_join_chars; [|done|eapply Forall_impl; [exact Hok|by intros t [(_&_&_&?) _]]].
  unfold escaped_segs. f_equal. f_equal. rewrite <- !list_fmap_compose. apply list_fmap_ext. intros _ s _.
  unfold PathEscape, compose. by rewrite !chars_of_chars.
Qed.

Lemma list_containsb_app_l l k sub : list_containsb l sub = true → list_containsb (l ++ k) sub = true.
Proof.
  assert (Hp : ∀ sub l, list_prefixb sub l = true → list_prefixb sub (l ++ k) = true).
  { clear. induction sub as [|a sub IH]; intros [|b l] H; simpl in *; try done.
    apply andb_prop in H as [-> H]. by apply IH. }
  induction l as [|a l IH]; simpl; intros H.
  - destruct sub as [|b sub]; [|done]. by destruct k.
  - apply orb_prop in H as [H|H]; apply orb_true_iff; [left|right; by apply IH].
    exact (Hp sub (a :: l) H).
Qed.

Lemma Contains_app_l s t sub : Contains s sub = true → Contains (s +:+ t) sub = true.
Proof. unfold Contains. rewrite chars_app. apply list_containsb_app_l. Qed.

(** A new file in a folder given by its path is addressed by one path
    segment appended to the address of the folder (a folder is never closed
    with a second ":/"), and the action closes the path exactly once. *)
Theorem upload_path_address p f action :
  norm_seg f → action ∈ ["content"; "createUploadSession"] →
  let folder := if decide (normalizePath p = "") then "/me/drive/root:" else ResourcePathByPath p in
  uploadItemResourcePath (ItemPath p) (of_chars f) =
    inr (folder +:+ "/" +:+ PathEscape (of_chars f)) ∧
  WithAction (folder +:+ "/" +:+ PathEscape (of_chars f)) action =
    folder +:+ "/" +:+ PathEscape (of_chars f) +:+ ":/" +:+ action.
Proof.
  intros Hf Ha folder. split.
  - unfold uploadItemResourcePath. f_equal. rewrite ResourcePathByPath_segs, norm_segs_snoc by done.
    unfold folder. pose proof (norm_segs_nil p) as Hn. pose proof (ResourcePathByPath_segs p) as Hr.
    unfold PathEscape. rewrite chars_of_chars.
    destruct (decide (normalizePath p = "")) as [E|E].
    + rewrite (proj1 Hn E). done.
    + assert (Hne : norm_segs p ≠ []) by tauto.
      transitivity ("/me/drive/root:/" +:+ escaped_segs (norm_segs p ++ [f])).
      { by destruct (norm_segs p). }
      rewrite escaped_segs_snoc, Hr by done. destruct (norm_segs p); [done|]. symmetry. apply string_app_assoc.
  - assert (Hc : Contains folder ":" = true).
    { unfold folder. destruct (decide _) as [E|E]; [by vm_compute|].
      rewrite ResourcePathByPath_segs. pose proof (norm_segs_nil p). destruct (norm_segs p); [tauto|].
      apply Contains_app_l. by vm_compute. }
    unfold WithAction. rewrite Contains_app_l by done.
    assert (Ht : Trim action slash = action ∧ action ≠ "").
    { rewrite !elem_of_cons in Ha. destruct Ha as [->|[->|Ha]]; [done..|by apply elem_of_nil in Ha]. }
    destruct Ht as [-> Hne]. rewrite decide_False by done. by rewrite !string_app_assoc.
Qed.

Lemma upload_path_address_witness :
  uploadItemResourcePath (ItemPath "/Documents/my notes/") "a#b.txt" =
    inr "/me/drive/root:/Documents/my%20notes/a%23b.txt" ∧
  WithAction "/me/drive/root:/Documents/my%20notes/a%23b.txt" "content" =
    "/me/drive/root:/Documents/my%20notes/a%23b.txt:/content".
Proof.
  assert (Hf : norm_seg (chars "a#b.txt")).
  { split; [|repeat constructor; discriminate].
    split; [discriminate|]. split; [discriminate|]. split; [discriminate|].
    intros Hin. by apply (bool_decide_pack _) in Hin. }
  exact (upload_path_address "/Documents/my notes/" (chars "a#b.txt") "content" Hf ltac:(left)).
Defined.

(** ** A world for the examples: a script of replies, and a log *)

Record Net := mkNet {
  net_replies : list (error + Response); net_log : list Request; net_slept : list Duration }.

Definition payload_size (p : Payload) : nat := match p with PJson _ => 1 | PBytes b => length b end.

#[global] Instance Net_World : World Net := {|
  raw_do _ req w :=
    let n := match req_Body req with Some p => (payload_size p - req_Read req)%nat | None => 0%nat end in
    match net_replies w with
    | r :: rs => (r, n, mkNet rs (net_log w ++ [req]) (net_slept w))
    | [] => (inl (EMsg "no reply"), n, mkNet [] (net_log w ++ [req]) (net_slept w))
    end;
  time_Sleep d w := mkNet (net_replies w) (net_log w) (net_slept w ++ [d]);
  go_spawn f w := f w;
|}.

Definition net_token : TokenProvider Net := λ _ w, (inr "token", w).
Definition json_reply (status : Z) (j : json) : error + Response :=
  inr (mkResponse status ∅ (mkBody [[123; 125]] None (Some j) false)).
Definition net_client : Client := NewClient [].

(** ** The retrying transport *)

(** An outcome the transport retries. *)
Definition retryable (r : error + Response) : bool :=
  match r with
  | inl e => isNetworkError e
  | inr resp => (resp_StatusCode resp =? 429) || (resp_StatusCode resp =? 503)
  end.

(** The request can be sent again. *)
Definition resettable (req : Request) : Prop := req_Body req = None ∨ req_GetBody req = Some None.

Section retry.
Context {W : Type} `{World W}.
Implicit Types (inner : Request → W → (error + Response) * nat * W) (req : Request) (w : W).

(** One turn of the loop: either its outcome is final, or there is one retry
    less and the next attempt is made. *)
Lemma retry_loop_turn inner left attempt req w r n w1 :
  inner req w = (r, n, w1) → (req_GetBody req = None ∨ req_GetBody req = Some None) →
  (∃ r' k, retry_loop inner left attempt req w = (r', k, w1) ∧
     retryable r' = retryable r ∧ (retryable r = true → resettable req → left = 0%nat)) ∨
  (∃ left' d req', left = S left' ∧ retryable r = true ∧
     retry_loop inner left attempt req w = retry_loop inner left' (S attempt) req' (time_Sleep d w1) ∧
     req_Body req' = req_Body req ∧ req_GetBody req' = req_GetBody req ∧
     ((∃ resp, r = inr resp) → req_GetBody req = Some None → req' = set_Read 0 req)).
Proof using Type.
  intros Hi Hg.
  assert (Heq : ∀ k k', set_Read k (set_Read k' req) = set_Read k req) by (by destruct req).
  assert (Hb : ∀ k, req_Body (set_Read k req) = req_Body req) by done.
  assert (Hgb : ∀ k, req_GetBody (set_Read k req) = req_GetBody req) by done.
  destruct left as [|left']; cbn [retry_loop]; rewrite Hi; destruct r as [e|resp]; cbn [retryable].
  - left. eexists _, _. split; [done|]. done.
  - left. destruct (negb _ && negb _); eexists _, _; (split; [done|]; done).
  - destruct (isNetworkError e) eqn:Ee; [right|left]; [|eexists _, _; (split; [done|]; done)].
    eexists _, _, _. split; [done|]. split; [done|]. split; [done|].
    split; [done|]. split; [done|]. intros [? [=]].
  - destruct (negb _ && negb _) eqn:En.
    { left. eexists _, _. split; [done|]. split; [done|]. cbn [retryable].
      destruct (resp_StatusCode resp =? 429), (resp_StatusCode resp =? 503); done. }
    assert (Er : (resp_StatusCode resp =? 429) || (resp_StatusCode resp =? 503) = true).
    { by destruct (resp_StatusCode resp =? 429), (resp_StatusCode resp =? 503). }
    change (req_GetBody (set_Read (req_Read req + n) req)) with (req_GetBody req).
    change (req_Body (set_Read (req_Read req + n) req)) with (req_Body req).
    destruct (req_Body req) as [b|] eqn:Eb, Hg as [Hg|Hg]; rewrite Hg.
    + left. eexists _, _. split; [done|]. split; [done|]. intros _ [?|?]; congruence.
    + right. eexists _, _, _. split; [done|]. split; [done|]. split; [done|].
      rewrite ?Heq, ?Hb, ?Hgb, ?Eb, ?Hg. by split_and!.
    + right. eexists _, _, _. split; [done|]. split; [done|]. split; [done|].
      rewrite ?Hb, ?Hgb, ?Eb, ?Hg. by split_and!.
    + right. eexists _, _, _. split; [done|]. split; [done|]. split; [done|].
      rewrite ?Heq, ?Hb, ?Hgb, ?Eb, ?Hg. by split_and!.
Qed.

Lemma retry_loop_count (cost : W → Z) inner left attempt req w :
  (∀ req w, cost (inner req w).2 = cost w + 1) → (∀ d w, cost (time_Sleep d w) = cost w) →
  (req_GetBody req = None ∨ req_GetBody req = Some None) →
  let '(r, _, w') := retry_loop inner left attempt req w in
  cost w < cost w' ≤ cost w + 1 + Z.of_nat left ∧
  (resettable req → retryable r = true → cost w' = cost w + 1 + Z.of_nat left).
Proof using Type.
  intros Hi Hs. revert attempt req w. induction left as [|left IH]; intros attempt req w Hg;
    specialize (Hi req w) as Hc; destruct (inner req w) as [[r n] w1] eqn:Ei; simpl in Hc;
    match goal with |- context [retry_loop inner ?l attempt req w] =>
      destruct (retry_loop_turn inner l attempt req w r n w1 Ei Hg)
        as [(r' & k & -> & Er & Hl)|(left' & d & req' & El & Er & -> & Hb & Hgb & _)] end; try done.
  - split; [lia|]. intros; lia.
  - split; [lia|]. intros Hres Hr. rewrite Er in Hr. discriminate (Hl Hr Hres).
  - injection El as <-. specialize (IH (S attempt) req' (time_Sleep d w1)).
    destruct (retry_loop inner left (S attempt) req' (time_Sleep d w1)) as [[r' k] w'].
    rewrite Hs, Hgb in IH. destruct (IH Hg) as [IH1 IH2]. split; [lia|].
    intros Hres Hr. rewrite IH2; [lia| |done]. unfold resettable. by rewrite Hb, Hgb.
Qed.

Lemma retry_loop_whole (P : W → Prop) inner left attempt req w :
  (∀ w, P w → P (inner (set_Read 0 req) w).2) → (∀ d w, P w → P (time_Sleep d w)) →
  (∀ req w e, (inner req w).1.1 = inl e → isNetworkError e = false) →
  req_Read req = 0%nat → req_GetBody req = Some None → P w →
  P (retry_loop inner left attempt req w).2.
Proof using Type.
  intros Hi Hs Hn Hr Hg. assert (Hreq : req = set_Read 0 req).
  { destruct req; simpl in *. by subst. }
  revert attempt w. induction left as [|left IH]; intros attempt w Hw;
    pose proof (Hi w Hw) as Hp; rewrite <- Hreq in Hp; pose proof (Hn req w) as Hne;
    destruct (inner req w) as [[r n] w1] eqn:Ei; simpl in Hp, Hne;
    match goal with |- context [retry_loop inner ?l attempt req w] =>
      destruct (retry_loop_turn inner l attempt req w r n w1 Ei (or_intror Hg))
        as [(r' & k & -> & _)|(left' & d & req' & El & Er & -> & _ & _ & Hw')] end; try done.
  injection El as <-. rewrite Hw'; [|destruct r as [e|resp]; [|by eauto]|done].
  - rewrite <- Hreq. apply IH. by apply Hs.
  - cbn [retryable] in Er. by rewrite (Hne e eq_refl) in Er.
Qed.
End retry.

(** C30: the retrying transport makes at most [1 + maxRetries] attempts, and
    hands a retryable outcome (a transient network error, 429 or 503) of a
    request it can send again to the caller only once all of them are used. *)
Theorem retry_attempts {W} `{World W} (cost : W → Z) d maxRetries req w :
  (∀ req w, cost (Do d req w).2 = cost w + 1) → (∀ t w, cost (time_Sleep t w) = cost w) →
  (req_GetBody req = None ∨ req_GetBody req = Some None) → 0 ≤ maxRetries →
  let '(r, _, w') := Do (NewRetryDoer d maxRetries) req w in
  cost w < cost w' ≤ cost w + 1 + maxRetries ∧
  (resettable req → retryable r = true → cost w' = cost w + 1 + maxRetries).
Proof.
  intros Hc Hs Hg Hm. pose proof (retry_loop_count cost (Do d) (Z.to_nat maxRetries) 0 req w Hc Hs Hg) as Hr.
  unfold NewRetryDoer. cbn [Do]. rewrite Z2Nat.id in Hr by done. exact Hr.
Qed.

Definition net_cost (w : Net) : Z := Z.of_nat (length (net_log w)).
Definition throttled : error + Response := json_reply 429 (JObj []).
Definition example_get : Request := mkRequest "GET" "https://graph.microsoft.com/v1.0/me" ∅ None None 0 None.

Lemma retry_attempts_witness :
  let w := mkNet [throttled; throttled; throttled] [] [] in
  let '(r, _, w') := Do (NewRetryDoer (OtherDoer 0) 2) example_get w in
  net_cost w < net_cost w' ≤ net_cost w + 1 + 2 ∧
  (resettable example_get → retryable r = true → net_cost w' = net_cost w + 1 + 2).
Proof.
  apply (retry_attempts net_cost (OtherDoer 0) 2 example_get (mkNet [throttled; throttled; throttled] [] [])).
  - intros req w. unfold net_cost. simpl. destruct (net_replies w); simpl; rewrite length_app; simpl; lia.
  - reflexivity.
  - left. reflexivity.
  - discriminate.
Defined.

(** C31: when the responses alone cause the retries (no network error), every
    attempt sends the request with its whole body: what the world is told by
    one exchange of the original request is all it is ever told. *)
Theorem retry_whole_body {W} `{World W} (P : W → Prop) d maxRetries req w :
  (∀ w, P w → P (Do d (set_Read 0 req) w).2) → (∀ t w, P w → P (time_Sleep t w)) →
  (∀ req w e, (Do d req w).1.1 = inl e → isNetworkError e = false) →
  req_Read req = 0%nat → req_GetBody req = Some None → P w →
  P (Do (NewRetryDoer d maxRetries) req w).2.
Proof. intros. unfold NewRetryDoer. cbn [Do]. by apply retry_loop_whole. Qed.

Definition example_put : Request :=
  mkRequest "PUT" "https://graph.microsoft.com/v1.0/me/drive/root:/a:/content" ∅ (Some (PBytes [1; 2; 3])) None 0
    (Some None).
Definition whole_bodies (w : Net) : Prop := Forall (λ r, r = example_put) (net_log w).

(** A server that throttles every request. *)
Definition Throttling_World : World Net := {|
  raw_do _ req w := (throttled, 3%nat, mkNet [] (net_log w ++ [req]) (net_slept w));
  time_Sleep d w := w;
  go_spawn f w := f w;
|}.

Lemma retry_whole_body_witness :
  whole_bodies (@Do Net Throttling_World (NewRetryDoer (OtherDoer 0) 3) example_put (mkNet [] [] [])).2.
Proof.
  apply (@retry_whole_body Net Throttling_World whole_bodies (OtherDoer 0) 3 example_put (mkNet [] [] [])).
  - intros w Hw. apply Forall_app. split; [exact Hw|]. repeat constructor.
  - intros t w Hw. exact Hw.
  - intros req w e [=].
  - reflexivity.
  - reflexivity.
  - constructor.
Defined.

(** After a network error the body is not rewound: the second attempt starts
    where the first one stopped reading. *)
Example network_retry_resumes :
  req_Read <$> net_log (Do (NewRetryDoer (OtherDoer 0) 1) example_put
    (mkNet [inl (ENet true "i/o timeout"); json_reply 200 (JObj [])] [] [])).2 = [0%nat; 3%nat].
Proof. reflexivity. Qed.

(** ** Error classification *)

Lemma GraphError_Is_sentinels g :
  GraphError_Is g ErrItemNotFound = (ge_StatusCode g =? 404) ∧
  GraphError_Is g ErrInvalidToken = (ge_StatusCode g =? 401) ∧
  GraphError_Is g ErrThrottled = (ge_StatusCode g =? 429) ∧
  GraphError_Is g ErrConflict = (ge_StatusCode g =? 409) ∧
  GraphError_Is g ErrPreconditionFailed = (ge_StatusCode g =? 412).
Proof. repeat split. Qed.

Lemma checkResponse_cases resp :
  (checkResponse resp = None ∧ 200 ≤ resp_StatusCode resp < 300) ∨
  (∃ g, checkResponse resp = Some (EGraph g) ∧ ge_StatusCode g = resp_StatusCode resp ∧
        ¬ (200 ≤ resp_StatusCode resp < 300)).
Proof.
  unfold checkResponse. destruct ((200 <=? _) && _) eqn:E; [left; split; [done|lia]|].
  right. repeat case_match; (eexists; split; [done|]; split; [done|lia]).
Qed.

(** A response is an error exactly outside the 2xx range; the error carries
    the response's status, whatever its body holds, so that the sentinel errors
    the callers test for, even through wrapping, are decided by the status. *)
Theorem checkResponse_classifies resp b a :
  match checkResponse resp with
  | None => 200 ≤ resp_StatusCode resp < 300
  | Some e =>
      ¬ (200 ≤ resp_StatusCode resp < 300) ∧
      ge_StatusCode <$> errors_As_Graph (EWrap b e a) = Some (resp_StatusCode resp) ∧
      (errors_Is (EWrap b e a) ErrItemNotFound = true ↔ resp_StatusCode resp = 404) ∧
      (errors_Is (EWrap b e a) ErrInvalidToken = true ↔ resp_StatusCode resp = 401) ∧
      (errors_Is (EWrap b e a) ErrThrottled = true ↔ resp_StatusCode resp = 429) ∧
      (errors_Is (EWrap b e a) ErrConflict = true ↔ resp_StatusCode resp = 409) ∧
      (errors_Is (EWrap b e a) ErrPreconditionFailed = true ↔ resp_StatusCode resp = 412)
  end.
Proof.
  destruct (checkResponse_cases resp) as [[-> H]|(g & -> & Hg & Hn)]; [done|]. split; [done|].
  cbn [errors_Is errors_As_Graph fmap option_fmap option_map]. rewrite Hg. split; [done|].
  destruct (GraphError_Is_sentinels g) as (-> & -> & -> & -> & ->). by rewrite Hg, !Z.eqb_eq.
Qed.

(** ** The origin of a link *)

(** [u] has the scheme and the host of the endpoint that [cli] is configured for,
    up to the case of the letters. *)
Definition same_origin (cli : Client) (u : string) : Prop :=
  ∃ b t, url_Parse (TrimRight (BaseURL cli) slash) = Some b ∧ url_Parse u = Some t ∧
    EqualFold (url_Scheme t) (url_Scheme b) = true ∧ EqualFold (url_Host t) (url_Host b) = true.

Lemma validateFollowURL_origin cli u : validateFollowURL cli u = None ↔ same_origin cli u.
Proof.
  unfold validateFollowURL, same_origin. cbn zeta.
  destruct (url_Parse (TrimRight (BaseURL cli) slash)) as [b|]; [|split; [done|by intros (? & ? & ? & ?)]].
  destruct (url_Parse u) as [t|]; [|split; [done|by intros (? & ? & ? & ? & ?)]].
  destruct (EqualFold (url_Scheme t) (url_Scheme b)) eqn:Es, (EqualFold (url_Host t) (url_Host b)) eqn:Eh; simpl;
    (split; [try done; intros _; by exists b, t|]); intros (b' & t' & Hb & Ht & Hs & Hh); congruence.
Qed.

(** ** Pagination *)

Section pages.
Context {W : Type} `{World W} (cli : Client) (ctx : Ctx W) (tp : TokenProvider W).
Implicit Types w : W.

(** One answer of the drive: the address that was asked, the page it gave and the
    world after it. *)
Record answer := mkAnswer { a_url : string; a_page : driveItemPage; a_after : W }.
(** Where the page says the listing goes on; nowhere, after the last one. *)
Definition a_next (a : answer) : string :=
  if decide (page_NextLink (a_page a) = "") then "" else absoluteURL cli (page_NextLink (a_page a)).
Definition a_items (a : answer) : list DriveItem := default [] (page_Value (a_page a)).

(** The drive serves the listing at [url] with the answers [xs]: each is what it
    gives for its address in the world the one before left, the first address is
    [url], each other one is where the page before leads and is of the endpoint's
    origin, and the last page leads nowhere. *)
Definition served (url : string) w (xs : list answer) w' : Prop :=
  (a_url <$> xs) ++ [""] = url :: (a_next <$> xs) ∧
  Forall (λ u, u ≠ "") (a_url <$> xs) ∧
  Forall (same_origin cli) (tail (a_url <$> xs)) ∧
  (∀ i x w0, xs !! i = Some x → (w :: (a_after <$> xs)) !! i = Some w0 → ctx w0 = None ∧
     doJSONRequest dec_driveItemPage (mkPage None "") ctx cli "GET" (a_url x) None ∅ tp w0 = (inr (a_page x), a_after x)) ∧
  w' = List.last (a_after <$> xs) w.

Lemma served_nil url w w' : served url w [] w' ↔ url = "" ∧ w' = w.
Proof.
  unfold served. simpl. split; [intros ([= <-] & _ & _ & _ & ->); done|].
  intros [-> ->]. split_and!; try done; constructor.
Qed.
Lemma last_default w v (ws : list W) : List.last (v :: ws) w = List.last ws v.
Proof. revert w v. induction ws as [|u ws IH]; intros w v; [done|]. by rewrite (IH v u), <- (IH w u). Qed.

Lemma served_cons url w x xs w' :
  served url w (x :: xs) w' ↔
  a_url x = url ∧ url ≠ "" ∧ ctx w = None ∧
  doJSONRequest dec_driveItemPage (mkPage None "") ctx cli "GET" url None ∅ tp w = (inr (a_page x), a_after x) ∧
  (a_next x ≠ "" → same_origin cli (a_next x)) ∧ served (a_next x) (a_after x) xs w'.
Proof.
  unfold served. rewrite !fmap_cons, last_default. cbn [app tail]. rewrite Forall_cons. split.
  - intros ([= Hx Hl] & [Hne Hu] & Ho & Ha & ->). destruct (Ha 0%nat x w eq_refl eq_refl) as [Hc Hf].
    subst url. split_and!; try done.
    + intros Hn. destruct xs as [|y ys]; [by injection Hl as Hl; rewrite <- Hl in Hn|].
      rewrite fmap_cons in *. injection Hl as Hy _. rewrite <- Hy. by apply Forall_inv in Ho.
    + destruct xs; [done|]. rewrite fmap_cons in Ho. by apply Forall_inv_tail in Ho.
    + intros i y w0 Hi Hw. by apply (Ha (S i) y w0).
  - intros (<- & Hne & Hc & Hf & Hn & Hl & Hu & Ho & Ha & ->). split_and!; try done.
    + by rewrite Hl.
    + destruct xs as [|y ys]; [done|]. rewrite fmap_cons in *. injection Hl as Hy _.
      constructor; [|done]. rewrite Hy. apply Hn. rewrite <- Hy. by apply Forall_inv in Hu.
    + intros [|i] y w0 Hi Hw; [by injection Hi as <-; injection Hw as <-|]. by apply (Ha i).
Qed.

Lemma fetch_page u w :
  fetchDriveItemPage cli ctx tp u w =
  match doJSONRequest dec_driveItemPage (mkPage None "") ctx cli "GET" u None ∅ tp w with
  | (inr p, w1) => (inr (p, page_NextLink p), w1)
  | (inl e, w1) => (inl e, w1)
  end.
Proof. done. Qed.

Lemma resolve_link l :
  (if negb (bool_decide (l = "")) && negb (isAbsoluteURL l) then absoluteURL cli l else l) =
  (if decide (l = "") then "" else absoluteURL cli l).
Proof.
  destruct (decide (l = "")) as [->|Hl]; [done|]. rewrite bool_decide_false by done. simpl.
  unfold absoluteURL. by destruct (isAbsoluteURL l).
Qed.

Lemma listing_served xs url w w' fuel all :
  served url w xs w' →
  listDriveItems_loop fuel cli ctx tp all url w =
  if decide (length xs ≤ fuel)%nat then Some (inr (all ++ (xs ≫= a_items)), w') else None.
Proof.
  revert url w fuel all. induction xs as [|x xs IH]; intros url w fuel all.
  - intros [-> ->]%served_nil. destruct fuel; cbn; by rewrite app_nil_r.
  - intros (<- & Hu & Hc & Hf & Hn & Hs)%served_cons. rewrite bind_cons. cbn [length].
    destruct fuel as [|fuel]; cbn [listDriveItems_loop]; rewrite decide_False by done; [done|].
    unfold ctx_check. rewrite Hc, fetch_page, Hf, resolve_link. fold (a_next x).
    replace (if decide (a_next x = "") then None else validateFollowURL cli (a_next x)) with (@None error).
    2: { destruct (decide (a_next x = "")); [done|]. symmetry. by apply validateFollowURL_origin, Hn. }
    rewrite (IH _ _ _ _ Hs), <- app_assoc. unfold a_items at 1.
    destruct (decide (length xs ≤ fuel)%nat), (decide (S (length xs) ≤ S fuel)%nat); done || lia.
Qed.

Lemma listing_served_inv fuel all url w r w' :
  listDriveItems_loop fuel cli ctx tp all url w = Some (inr r, w') →
  ∃ xs, served url w xs w' ∧ (length xs ≤ fuel)%nat ∧ r = all ++ (xs ≫= a_items).
Proof.
  assert (Hend : ∀ all url w, url = "" → Some (@inr error _ all, w) = Some (inr r, w') →
    ∃ xs, served url w xs w' ∧ (length xs ≤ fuel)%nat ∧ r = all ++ (xs ≫= a_items)).
  { intros ??? -> [= <- <-]. exists []. rewrite app_nil_r. split_and!; [by apply served_nil|simpl; lia|done]. }
  revert all url w Hend. induction fuel as [|fuel IH]; intros all url w Hend; cbn [listDriveItems_loop];
    destruct (decide (url = "")) as [Hu|Hu]; try done; [by apply Hend..|].
  unfold ctx_check. destruct (ctx w) eqn:Hc; [done|]. rewrite fetch_page.
  destruct (doJSONRequest _ _ _ _ _ _ _ _ _ w) as [[e|page] w1] eqn:Hf; [done|]. rewrite resolve_link.
  set (x := mkAnswer url page w1). change (if decide (page_NextLink page = "") then "" else _) with (a_next x).
  destruct (if decide (a_next x = "") then None else validateFollowURL cli (a_next x)) eqn:Hv; [done|].
  intros Hl. apply IH in Hl as (xs & Hs & Hle & ->).
  - exists (x :: xs). rewrite bind_cons, app_assoc. split_and!; [|simpl; lia|done].
    apply served_cons. split_and!; try done. intros Hne. apply validateFollowURL_origin. by rewrite decide_False in Hv.
  - intros all' ? w2 -> [= <- <-]. exists []. rewrite app_nil_r. split_and!; [by apply served_nil|simpl; lia|done].
Qed.
End pages.
Arguments mkAnswer {_} _ _ _.

(** C38: when the drive serves a listing with the pages [xs], each from the address
    to which the one before leads, without an error or a cancellation, and ends it
    after them, the listing returns the items of all the pages, in order; as many
    turns of the loop as there are pages are enough, and no fewer are. And a
    listing that returns items returns those of such a sequence of pages: no page
    is left out, not even on a server that changes between the requests. *)
Theorem listDriveItems_complete {W} `{World W} cli ctx tp url (w w' : W) :
  (∀ xs fuel, served cli ctx tp url w xs w' →
     listDriveItems fuel cli ctx tp url w =
     if decide (length xs ≤ fuel)%nat then Some (inr (xs ≫= a_items), w') else None) ∧
  (∀ fuel items, listDriveItems fuel cli ctx tp url w = Some (inr items, w') →
     ∃ xs, served cli ctx tp url w xs w' ∧ items = xs ≫= a_items).
Proof.
  unfold listDriveItems. split.
  - intros xs fuel Hs. by rewrite (listing_served cli ctx tp xs _ _ _ fuel [] Hs).
  - intros fuel items Hl. apply listing_served_inv in Hl as (xs & Hs & _ & ->). by exists xs.
Qed.

(** Two pages of one item, the second at a link without a host. *)
Definition listing_url : string := "https://graph.microsoft.com/v1.0/me/drive/root/children".
Definition item_json (id : string) : json := JObj [("id", JStr id); ("name", JStr id)].
Definition two_page_listing : Net := mkNet
  [json_reply 200 (JObj [("value", JArr [item_json "a"]); ("@odata.nextLink", JStr "/me/drive/root/children?p=2")]);
   json_reply 200 (JObj [("value", JArr [item_json "b"])])] [] [].

Lemma listDriveItems_complete_witness :
  ∃ items w', listDriveItems 2 net_client Background net_token listing_url two_page_listing = Some (inr items, w') ∧
    (item_ID <$> items) = ["a"; "b"] ∧
    listDriveItems 1 net_client Background net_token listing_url two_page_listing = None.
Proof.
  set (get := doJSONRequest dec_driveItemPage (mkPage None "") Background net_client "GET").
  destruct (get listing_url None ∅ net_token two_page_listing) as [r1 w1] eqn:E1.
  destruct (get (listing_url +:+ "?p=2") None ∅ net_token w1) as [r2 w2] eqn:E2.
  pose proof E1 as E3. vm_compute in E3. injection E3 as <- Hw1. rewrite <- Hw1 in E2.
  pose proof E2 as E4. vm_compute in E4. injection E4 as <- _. rewrite Hw1 in E2.
  match type of E1 with _ = (inr ?p1, _) => match type of E2 with _ = (inr ?p2, _) =>
    assert (Hs : served net_client Background net_token listing_url two_page_listing
      [mkAnswer listing_url p1 w1; mkAnswer (listing_url +:+ "?p=2") p2 w2] w2) end end.
  { apply served_cons. split_and!; [done|done|done|exact E1| |].
    - intros _. by apply validateFollowURL_origin.
    - apply served_cons. split_and!; [done|done|done|exact E2|done|by apply served_nil]. }
  pose proof (proj1 (listDriveItems_complete net_client Background net_token listing_url two_page_listing w2) _ 2%nat Hs) as H2.
  pose proof (proj1 (listDriveItems_complete net_client Background net_token listing_url two_page_listing w2) _ 1%nat Hs) as H1.
  rewrite decide_True in H2 by (simpl; lia). rewrite decide_False in H1 by (simpl; lia).
  eexists _, w2. split; [exact H2|]. split; [vm_compute; reflexivity|exact H1].
Defined.

(** ** Links never lead the token off the configured endpoint *)

Section origin.
Context {W : Type} `{World W} (P : W → Prop).
Context (cli : Client) (ctx : Ctx W) (tp : TokenProvider W).
Context (Htp : ∀ w, P w → P (tp ctx w).2).
Context (Hdo : ∀ req w, same_origin cli (req_URL req) → P w → P (io_Do (HTTPClient cli) req w).2).

Lemma auth_request_P method url body ct h w :
  same_origin cli url → P w →
  P (doAuthenticatedRequestWithBody cli ctx method url body ct h tp w).2.
Proof using All.
  intros Hv Hw. unfold doAuthenticatedRequestWithBody, se_bind, wrap_err, se_lift, NewRequest.
  destruct (url_Parse url); [|done]. specialize (Htp w Hw). destruct (tp ctx w) as [[e|t] w1]; [done|].
  simpl in Htp. match goal with |- context [io_Do _ ?r _] => set (req := r) end.
  specialize (Hdo req w1 Hv Htp). by destruct (io_Do (HTTPClient cli) req w1) as [[e|resp] w2].
Qed.

Lemma json_request_P {T} (d : decoder T) zero method url body h w :
  same_origin cli url → P w → P (doJSONRequest d zero ctx cli method url body h tp w).2.
Proof using All.
  intros Hv Hw. unfold doJSONRequest, se_bind.
  pose proof (auth_request_P method url (body ≫= json_body) "application/json" h w Hv Hw) as Hp.
  destruct (doAuthenticatedRequestWithBody _ _ _ _ _ _ _ _ _) as [[e|resp] w1]; [done|]. simpl in Hp.
  unfold check_resp, se_lift. destruct (checkResponse resp); [done|]. unfold wrap_err.
  by destruct (Decode d zero (resp_Body resp)).
Qed.

Lemma listing_P fuel all url w r w' :
  (url ≠ "" → same_origin cli url) → P w →
  listDriveItems_loop fuel cli ctx tp all url w = Some (r, w') → P w'.
Proof using All.
  revert all url w. induction fuel as [|fuel IH]; intros all url w Hv Hw; cbn [listDriveItems_loop].
  - destruct (decide (url = "")); [|done]. congruence.
  - destruct (decide (url = "")); [congruence|]. unfold ctx_check. destruct (ctx w); [congruence|].
    assert (Hp : P (fetchDriveItemPage cli ctx tp url w).2).
    { unfold fetchDriveItemPage, se_bind.
      pose proof (json_request_P dec_driveItemPage (mkPage None "") "GET" url None ∅ w (Hv ltac:(done)) Hw) as Hj.
      by destruct (doJSONRequest _ _ _ _ _ _ _ _ _ _) as [[e|p] w1]. }
    destruct (fetchDriveItemPage cli ctx tp url w) as [[e|[page l]] w1]; [simpl in *; congruence|].
    simpl in Hp. destruct (if decide (_ = "") then None else validateFollowURL cli _) eqn:Hn; [congruence|].
    apply IH; [|done]. intros Hne. apply validateFollowURL_origin. by rewrite decide_False in Hn.
Qed.
End origin.

(** C27: a listing that starts at the endpoint and a delta poll only ever send
    authenticated requests to URLs with the scheme and the host of the configured
    base URL (up to the case of letters), whatever links the server's responses and
    the stored delta link hold: a property of the world that such requests and
    token refreshes keep is never lost. (An empty delta link asks the endpoint
    itself; redirects are followed inside net/http.) *)
Theorem links_stay_on_origin {W} `{World W} (P : W → Prop) cli ctx tp :
  (∀ w, P w → P (tp ctx w).2) →
  (∀ req w, same_origin cli (req_URL req) → P w → P (io_Do (HTTPClient cli) req w).2) →
  (∀ fuel url (w : W) r w', same_origin cli url → P w →
     listDriveItems fuel cli ctx tp url w = Some (r, w') → P w') ∧
  (∀ link (w : W), link ≠ "" → P w → P (PollDelta cli ctx tp link w).2).
Proof.
  intros Htp Hdo. split.
  - intros fuel url w r w' Hv Hw. by eapply listing_P.
  - intros link w Hl Hw. unfold PollDelta. rewrite !decide_False by done.
    unfold se_bind at 1, se_lift. destruct (validateFollowURL cli (absoluteURL cli link)) eqn:Hv; [done|]. apply validateFollowURL_origin in Hv.
    unfold se_bind at 1, wrap_err at 1.
    pose proof (auth_request_P P cli ctx tp Htp Hdo "GET" (absoluteURL cli link) no_body "" ∅ w Hv Hw) as Hp.
    destruct (doAuthenticatedRequestWithBody _ _ _ _ _ _ _ _ _) as [[e|resp] w1]; [done|]. simpl in Hp.
    unfold se_bind, wrap_err, check_resp, se_lift. destruct (checkResponse resp); [done|].
    destruct (ReadAll (resp_Body resp)); [done|]. destruct (Unmarshal _ _ _) as [|page]; [done|].
    by destruct (decide (dr_NextLink page = "")).
Qed.

(** Every request in the log is for the origin of the endpoint of [cli]. *)
Definition on_origin (cli : Client) (w : Net) : Prop :=
  Forall (λ r, same_origin cli (req_URL r)) (net_log w).
Definition plain_client : Client := mkClient DefaultBaseURL (OtherDoer 0) Second.
Definition evil_page : json :=
  JObj [("value", JArr []); ("@odata.nextLink", JStr "https://graph.microsoft.com.evil.example/v1.0/x")].

Lemma links_stay_on_origin_witness :
  on_origin plain_client (mkNet [] [] []) ∧
  (∀ r w', listDriveItems 5 plain_client Background net_token "https://graph.microsoft.com/v1.0/me/drive/root/children"
     (mkNet [json_reply 200 evil_page; json_reply 200 evil_page] [] []) = Some (r, w') → on_origin plain_client w') ∧
  on_origin plain_client (PollDelta plain_client Background net_token "https://evil.example/delta"
     (mkNet [json_reply 200 evil_page] [] [])).2.
Proof.
  assert (Hdo : ∀ req w, same_origin plain_client (req_URL req) → on_origin plain_client w →
    on_origin plain_client (io_Do (HTTPClient plain_client) req w).2).
  { intros req w Hv Hw. unfold on_origin, io_Do. simpl.
    destruct (net_replies w); simpl; apply Forall_app; (split; [exact Hw|]); by constructor. }
  pose proof (links_stay_on_origin (on_origin plain_client) plain_client Background net_token
    (λ w Hw, Hw) Hdo) as [H1 H2].
  split; [constructor|]. split.
  - intros r w'. apply H1; [by apply validateFollowURL_origin|constructor].
  - apply H2; [discriminate|constructor].
Defined.
