(* ===== verification/TransferTheorems.v ===== *)
(** Transfers of contents: the chunk ranges partition the file, an upload sends
    exactly the contents, a download is complete and has the server's hash. *)

From S2P Require Export GraphTheorems.

#[local] Open Scope Z_scope.

(** ** Chunk ranges *)

(** The byte positions of a range. *)
Definition range_bytes (r : Z * Z) : list Z := seqZ r.1 (r.2 - r.1 + 1).

Lemma seqZ_split m n k : 0 ≤ n → 0 ≤ k → seqZ m (n + k) = seqZ m n ++ seqZ (m + n) k.
Proof. intros. by rewrite seqZ_app. Qed.

Lemma chunk_ranges_cover fuel chunk size start :
  0 < chunk → size + chunk ≤ 2 ^ 63 → 0 ≤ start → size - start ≤ chunk * Z.of_nat fuel →
  (chunk_ranges fuel chunk size start ≫= range_bytes) = seqZ start (size - start) ∧
  Forall (λ r, start ≤ r.1 ≤ r.2 ∧ r.2 < size ∧ r.2 - r.1 + 1 ≤ chunk) (chunk_ranges fuel chunk size start).
Proof.
  intros Hc Hs. revert start. induction fuel as [|fuel IH]; intros start Hst Hf; cbn [chunk_ranges].
  - rewrite seqZ_nil by lia. by split.
  - destruct (Z.ltb_spec start size) as [Hlt|Hge].
    2: { rewrite seqZ_nil by lia. by split. }
    rewrite !i64_small by lia.
    set (end_ := if size - 1 <=? start + chunk - 1 then size - 1 else start + chunk - 1).
    assert (Hend : end_ = Z.min (size - 1) (start + chunk - 1)).
    { unfold end_. destruct (Z.leb_spec (size - 1) (start + chunk - 1)); lia. }
    clearbody end_. subst end_. destruct (IH (start + chunk)) as [IH1 IH2]; [lia..|].
    split.
    + rewrite bind_cons, IH1. unfold range_bytes; cbn [fst snd].
      destruct (decide (size ≤ start + chunk)).
      * rewrite (seqZ_nil (start + chunk)) by lia. rewrite app_nil_r. f_equal. lia.
      * rewrite Z.min_r by lia. replace (size - start) with ((start + chunk - 1 - start + 1) + (size - (start + chunk))) by lia.
        rewrite (seqZ_split start (start + chunk - 1 - start + 1)) by lia.
        by replace (start + (start + chunk - 1 - start + 1)) with (start + chunk) by lia.
    + constructor; cbn [fst snd]; [lia|]. eapply Forall_impl; [exact IH2|]. intros [a b]. cbn [fst snd]. lia.
Qed.

(** C39: the chunks of a transfer partition the file: they are non-empty, not
    longer than the chunk size, and cover its bytes from the first to the last
    once, in order. *)
Theorem ranges_partition chunk size :
  0 < chunk → 0 ≤ size → size + chunk ≤ 2 ^ 63 →
  (ranges chunk size ≫= range_bytes) = seqZ 0 size ∧
  Forall (λ r, 0 ≤ r.1 ≤ r.2 ∧ r.2 < size ∧ r.2 - r.1 + 1 ≤ chunk) (ranges chunk size).
Proof.
  intros Hc Hs Hb. unfold ranges. destruct (chunk_ranges_cover (Z.to_nat ((size + chunk - 1) / chunk)) chunk size 0)
    as [H1 H2]; [lia..| |].
  - pose proof (Z.div_pos (size + chunk - 1) chunk ltac:(lia) Hc).
    pose proof (Z.div_mod (size + chunk - 1) chunk ltac:(lia)).
    pose proof (Z.mod_pos_bound (size + chunk - 1) chunk Hc). rewrite Z2Nat.id by lia. lia.
  - rewrite Z.sub_0_r in H1. by split.
Qed.

Lemma ranges_partition_witness :
  ranges 4 10 = [(0, 3); (4, 7); (8, 9)] ∧ (ranges 4 10 ≫= range_bytes) = seqZ 0 10.
Proof. split; [reflexivity|]. apply (ranges_partition 4 10); lia. Defined.

Lemma ranges_length chunk size :
  0 < chunk → 0 ≤ size → size + chunk ≤ 2 ^ 63 →
  sum_Z ((λ r, r.2 - r.1 + 1) <$> ranges chunk size) = size.
Proof.
  intros Hc Hs Hb. destruct (ranges_partition chunk size Hc Hs Hb) as [H1 H2].
  assert (Hl : Z.of_nat (length (ranges chunk size ≫= range_bytes)) = size).
  { rewrite H1, length_seqZ. lia. }
  transitivity (Z.of_nat (length (ranges chunk size ≫= range_bytes))); [|done].
  clear H1 Hl. revert H2. generalize (ranges chunk size). intros l H2. induction H2 as [|r rs Hr Hrs IH]; [done|].
  rewrite bind_cons, length_app, Nat2Z.inj_add, <- IH. cbn [fmap list_fmap sum_Z foldr]. unfold range_bytes at 1. rewrite length_seqZ. cbn [fmap]. unfold sum_Z. lia.
Qed.

(** ** Downloads *)

(** Decoding keeps what each field's decoder keeps. *)
Lemma dec_struct_inv {T} (P : T → Prop) (fields : list (string * decoder T)) j old t :
  Forall (λ f, ∀ j t t', P t → f.2 j t = Some t' → P t') fields → P old →
  dec_struct fields j old = Some t → P t.
Proof.
  intros Hf Ho. unfold dec_struct. destruct j as [| | | | | | |kvs]; try discriminate; [congruence|].
  assert (Hfor : ∀ k d, field_for fields k = Some d → ∀ j t t', P t → d j t = Some t' → P t').
  { intros k d. unfold field_for. rewrite Forall_forall in Hf.
    destruct (list_find (λ f, f.1 = k) fields) as [[i f]|] eqn:E.
    - intros [= <-]. apply list_find_Some in E as (E & _). apply Hf. by eapply list_elem_of_lookup_2.
    - destruct (list_find (λ f, EqualFold f.1 k = true) fields) as [[i f]|] eqn:E'; [|done].
      intros [= <-]. apply list_find_Some in E' as (E' & _). apply Hf. by eapply list_elem_of_lookup_2. }
  set (step := λ (acc : option T) kv, _). intros Hk.
  assert (Hgo : ∀ acc, (∀ t, acc = Some t → P t) → foldl step acc kvs = Some t → P t).
  { clear Hk. induction kvs as [|kv kvs IH]; intros acc Ha; cbn [foldl]; [by auto|].
    apply IH. intros t' Ht'. unfold step in Ht'. apply bind_Some in Ht' as (t0 & -> & Ht').
    destruct (field_for fields kv.1) as [d|] eqn:E; [|injection Ht' as <-; by apply Ha].
    eapply Hfor; [exact E| |exact Ht']. by apply Ha. }
  apply (Hgo (Some old)); [|done]. by intros ? [= <-].
Qed.

Lemma dec_DriveItem_size j i : dec_DriveItem j zero_DriveItem = Some i → 0 ≤ item_Size i < 2 ^ 64.
Proof.
  apply (dec_struct_inv (λ i, 0 ≤ item_Size i < 2 ^ 64)); [|done].
  unfold DriveItem_fields.
  repeat (apply Forall_cons_2; [intros j' t t' Ht; unfold dec_field; cbn [snd]|]); [..|by apply Forall_nil_2].
  all: intros Hd; apply fmap_Some in Hd as (v & Hd & ->); try exact Ht.
  unfold dec_uint64, dec_int in Hd. cbn. destruct j'; simplify_eq; try done.
  destruct ((0 <=? z) && (z <=? 2 ^ 64 - 1)) eqn:E; simplify_eq. lia.
Qed.

Lemma VerifyChecksum_true item f checksum :
  item_File item = Some f → VerifyChecksum (Some item) checksum = true →
  EqualFold (hashes_QuickXorHash (file_Hashes f)) checksum = true.
Proof. unfold VerifyChecksum. intros ->. by repeat case_match. Qed.

Section download.
Context {W : Type} `{World W} (cli : Client) (ctx : Ctx W) (tp : TokenProvider W).

(** Copying into the buffer and the hasher never fails on its own. *)
Lemma copy_buffer chunks err written buf cs :
  copy_chunks (MultiWriter bufferWriter) chunks err written (buf, foldl Write New cs) =
  (written + Z.of_nat (length (concat chunks)), err,
   (buf ++ concat chunks, foldl Write New (cs ++ chunks))).
Proof.
  revert written buf cs. induction chunks as [|p chunks IH]; intros written buf cs.
  - cbn. by rewrite !app_nil_r, Z.add_0_r.
  - cbn [copy_chunks MultiWriter bufferWriter w_Write]. rewrite !Nat.eqb_refl.
    replace (Write (foldl Write New cs) p) with (foldl Write New (cs ++ [p])) by (by rewrite foldl_app).
    rewrite IH. cbn [concat]. rewrite length_app, <- !app_assoc. cbn [app]. f_equal. f_equal. lia.
Qed.

Lemma downloadRange_ok url s e buf cs w n o w' :
  downloadRange cli ctx tp url s e (MultiWriter bufferWriter) (buf, foldl Write New cs) w = (n, None, o, w') →
  ∃ ps, o = (buf ++ concat ps, foldl Write New (cs ++ ps)) ∧ Z.of_nat (length (concat ps)) = e - s + 1.
Proof.
  unfold downloadRange. destruct (doAuthenticatedRequestWithBody _ _ _ _ _ _ _ _ _) as [[er|resp] w1]; [done|].
  destruct (checkResponse resp); [done|]. destruct (negb _); [done|]. destruct (decide _); [done|].
  unfold io_Copy. rewrite copy_buffer, Z.add_0_l. destruct (b_err (resp_Body resp)); [done|].
  destruct (Z.eqb_spec (Z.of_nat (length (concat (b_chunks (resp_Body resp))))) (e - s + 1)); [|done].
  intros [= <- <- <-]. eauto.
Qed.

Lemma download_loop_ok url rs total buf cs w n o w' :
  download_loop cli ctx tp url (MultiWriter bufferWriter) rs total (buf, foldl Write New cs) w = (n, None, o, w') →
  ∃ ps, o = (buf ++ concat ps, foldl Write New (cs ++ ps)) ∧
    Z.of_nat (length (concat ps)) = sum_Z ((λ r, r.2 - r.1 + 1) <$> rs).
Proof.
  revert total buf cs w. induction rs as [|[s e] rs IH]; intros total buf cs w; cbn [download_loop].
  - intros [= <- <- <-]. exists []. by rewrite !app_nil_r.
  - unfold ctx_check. destruct (ctx w); [done|].
    destruct (downloadRange _ _ _ _ _ _ _ _ _) as [[[n1 [err|]] o1] w1] eqn:Er; [done|].
    apply downloadRange_ok in Er as (ps & -> & Hl). intros E. apply IH in E as (qs & -> & Hq).
    exists (ps ++ qs). rewrite concat_app, length_app, <- !app_assoc. split; [done|].
    cbn [fmap list_fmap sum_Z foldr fst snd]. unfold sum_Z in Hq. lia.
Qed.

Lemma GetItem_size r w item w1 : GetItem cli ctx tp r w = (inr item, w1) → 0 ≤ item_Size item < 2 ^ 64.
Proof.
  unfold GetItem, guard_resource. destruct (validateResource r), r as [r|]; try done.
  unfold doJSONRequest. intros E. apply se_bind_inr in E as (resp & w2 & _ & E).
  apply se_bind_inr in E as (_ & w3 & _ & E). unfold wrap_err, se_lift, Decode in E.
  destruct (b_json (resp_Body resp)) as [j|]; [|done].
  destruct (dec_DriveItem j zero_DriveItem) as [i|] eqn:Ed; [|done]. injection E as <- <-.
  by eapply dec_DriveItem_size.
Qed.
End download.

(** C9: a download that succeeds returns as many bytes as the server's
    metadata gives the file, and when the metadata has a quickXorHash the bytes
    have that hash (files up to 2^63 - 10 MiB; the ranges of larger ones would
    overflow). *)
Theorem download_integrity {W} `{World W} cli ctx tp r (w : W) b w' :
  GetItemContent cli ctx tp r w = (inr b, w') →
  ∃ item w1, GetItem cli ctx tp r w = (inr item, w1) ∧
    (item_Size item + downloadChunkSize ≤ 2 ^ 63 →
     Z.of_nat (length b) = item_Size item ∧
     ∀ f, item_File item = Some f → hashes_QuickXorHash (file_Hashes f) ≠ "" →
       EqualFold (hashes_QuickXorHash (file_Hashes f)) (SumQuickXORHash b) = true).
Proof.
  unfold GetItemContent, GetItemContentStream. destruct (validateResource r) eqn:Ev; [done|].
  destruct r as [res|]; [|done].
  destruct (GetItem cli ctx tp (Some res) w) as [[e|item] w1] eqn:Eg; [done|]. intros E.
  exists item, w1. split; [done|]. intros Hsz. pose proof (GetItem_size cli ctx tp _ _ _ _ Eg) as Hpos.
  assert (Hd : 0 < downloadChunkSize) by done.
  destruct (Z.ltb_spec (2 ^ 63 - 1) (item_Size item)); [lia|].
  destruct (download_loop _ _ _ _ _ _ _ _ _) as [[[total err] [o h]] w2] eqn:El.
  destruct err; [done|]. apply (download_loop_ok cli ctx tp _ _ _ [] []) in El as (ps & [= -> ->] & Hl).
  rewrite ranges_length in Hl by lia.
  assert (Hb : b = concat ps).
  { destruct (item_File item); [destruct (_ && _)|]; by simplify_eq. }
  subst b. split; [done|]. intros f Hf Hne. rewrite Hf in E.
  rewrite bool_decide_true in E by done. cbn [andb] in E.
  rewrite stream_hash in E by lia. destruct (VerifyChecksum _ _) eqn:Ec; [|done].
  by eapply VerifyChecksum_true.
Qed.

(** The server's replies for the file "hello". *)
Definition hello : list Z := [104; 101; 108; 108; 111].
Definition hello_item : json := JObj [
  ("id", JStr "01A"); ("name", JStr "hello.txt"); ("size", JNum 5);
  ("file", JObj [("hashes", JObj [("quickXorHash", JStr (SumQuickXORHash hello))])])].
Definition hello_range : error + Response :=
  inr (mkResponse 206 {[ "Content-Range" := "bytes 0-4/5" ]} (mkBody [[104; 101]; [108; 108; 111]] None None false)).
Definition hello_net : Net := mkNet [json_reply 200 hello_item; hello_range] [] [].

Lemma download_integrity_witness :
  ∃ item w1, GetItem net_client Background net_token (Some (ItemID "01A")) hello_net = (inr item, w1) ∧
    (item_Size item + downloadChunkSize ≤ 2 ^ 63 →
     Z.of_nat (length hello) = item_Size item ∧
     ∀ f, item_File item = Some f → hashes_QuickXorHash (file_Hashes f) ≠ "" →
       EqualFold (hashes_QuickXorHash (file_Hashes f)) (SumQuickXORHash hello) = true).
Proof.
  apply (download_integrity net_client Background net_token (Some (ItemID "01A")) hello_net hello
    (GetItemContent net_client Background net_token (Some (ItemID "01A")) hello_net).2).
  vm_compute. reflexivity.
Defined.

(** A corrupted download is refused. *)
Example corrupt_download :
  ∃ e, (GetItemContent net_client Background net_token (Some (ItemID "01A"))
    (mkNet [json_reply 200 hello_item;
            inr (mkResponse 206 {[ "Content-Range" := "bytes 0-4/5" ]} (mkBody [[104; 101; 108; 108; 112]] None None false))]
       [] [])).1 = inl e.
Proof. eexists. vm_compute. reflexivity. Qed.

(** ** Uploads *)

(** The request that adds [data] to an upload session of [total] bytes at [url]
    which holds [held]: a PUT whose Content-Range names the bytes that follow. *)
Definition chunk_put (url : string) (held : list Z) (total : Z) (data : list Z) (req : Request) : Prop :=
  let first := Z.of_nat (length held) in
  req_Method req = "PUT" ∧ req_URL req = url ∧ req_Body req = Some (PBytes data) ∧ data ≠ [] ∧
  req_Header req !! "Content-Range" = Some ("bytes " +:+ pretty first +:+ "-" +:+
    pretty (first + Z.of_nat (length data) - 1) +:+ "/" +:+ pretty total).

Section upload.
Context {W : Type} `{World W} (cli : Client) (ctx : Ctx W) (tp : TokenProvider W).
(** What the server holds of the upload of a URL, and the total announced to it. *)
Context (got : string → W → list Z) (fileSize : Z).
(** The documented contract of an upload session: an accepted request for the
    bytes that follow adds them to what the session holds, and the item is
    reported once the session holds the announced number of bytes. *)
Context (accepts : ∀ url data req w resp w',
  chunk_put url (got url w) fileSize data req → io_Do (HTTPClient cli) req w = (inr resp, w') →
  resp_StatusCode resp ∈ [200; 201; 202] →
  got url w' = got url w ++ data ∧
  (resp_StatusCode resp ∈ [200; 201] → Z.of_nat (length (got url w')) = fileSize)).

Lemma chunk_request_put url s e total data held req :
  s = Z.of_nat (length held) → data ≠ [] → Z.of_nat (length data) = e - s + 1 →
  chunk_request url s e total data = inr req → chunk_put url held total data req.
Proof using Type.
  intros -> Hne Hl Er. unfold chunk_request, NewRequest in Er. destruct (url_Parse url); [|done]. injection Er as <-.
  unfold chunk_put. cbn. replace (Z.of_nat (length held) + Z.of_nat (length data) - 1) with e by lia. split_and!; [done..|].
  rewrite lookup_singleton_eq. unfold range_text. by rewrite !string_app_assoc.
Qed.

Lemma upload_chunk_ok url s e content w r content' w' :
  s = Z.of_nat (length (got url w)) → s ≤ e →
  upload_chunk cli ctx url fileSize s e content w = (inr r, content', w') →
  ∃ data, rd_bytes content = data ++ rd_bytes content' ∧ got url w' = got url w ++ data ∧
    Z.of_nat (length data) = e - s + 1 ∧ (is_Some r → Z.of_nat (length (got url w')) = fileSize).
Proof using accepts.
  intros Hs Hse. unfold upload_chunk, ctx_check. destruct (ctx w); [done|].
  unfold ReadFull. destruct (Nat.leb_spec (Z.to_nat (e - s + 1)) (length (rd_bytes content))); [|done].
  set (n := Z.to_nat (e - s + 1)). set (data := take n (rd_bytes content)).
  assert (Hn : Z.of_nat (length data) = e - s + 1) by (unfold data; rewrite length_take; lia).
  assert (Hne : data ≠ []) by (intros E0; rewrite E0 in Hn; simpl in Hn; lia).
  destruct (chunk_request url s e fileSize data) as [er|req] eqn:Er; [done|].
  pose proof (chunk_request_put _ _ _ _ _ _ _ Hs Hne Hn Er) as Hput.
  destruct (io_Do (HTTPClient cli) req w) as [[er|resp] w1] eqn:Ed; [done|].
  pose proof (accepts _ _ _ _ _ _ Hput Ed) as Hgo.
  assert (Hcat : rd_bytes content = data ++ drop n (rd_bytes content)) by (symmetry; apply take_drop).
  clearbody data.
  assert (Hfin : ∀ code, resp_StatusCode resp = code → code ∈ [200; 201; 202] → got url w1 = got url w ++ data ∧
    (code ∈ [200; 201] → Z.of_nat (length (got url w1)) = fileSize)) by (intros code <-; exact Hgo).
  intros E. exists data.
  destruct (Z.eqb_spec (resp_StatusCode resp) 201) as [E1|E1];
    [|destruct (Z.eqb_spec (resp_StatusCode resp) 200) as [E2|E2]; cbn [orb] in E;
      [|destruct (Z.eqb_spec (resp_StatusCode resp) 202) as [E3|E3];
        [|by destruct (ReadAll (resp_Body resp))]]]; cbn [orb] in E.
  1,2: destruct (Decode _ _ _); [done|].
  all: injection E as <- <- <-; cbn [rd_bytes]; split; [exact Hcat|].
  - destruct (Hfin 201) as [Hg Hl]; [done|set_solver|]. split_and!; [done..|]. intros _. apply Hl. set_solver.
  - destruct (Hfin 200) as [Hg Hl]; [done|set_solver|]. split_and!; [done..|]. intros _. apply Hl. set_solver.
  - destruct (Hfin 202) as [Hg _]; [done|set_solver|]. split_and!; [done..|]. by intros [? [=]].
Qed.

Lemma upload_loop_ok url fuel start content w item w' :
  fileSize + chunkSize ≤ 2 ^ 63 → start = Z.of_nat (length (got url w)) →
  upload_loop cli ctx url fileSize (chunk_ranges fuel chunkSize fileSize start) content w = (inr (Some item), w') →
  ∃ data rest, rd_bytes content = data ++ rest ∧ got url w' = got url w ++ data ∧
    Z.of_nat (length (got url w')) = fileSize.
Proof using accepts.
  intros Hsz. revert start content w. induction fuel as [|fuel IH]; intros start content w Hst; cbn [chunk_ranges]; [done|].
  destruct (Z.ltb_spec start fileSize) as [Hlt|Hge]; [|done]. unfold chunkSize in *.
  rewrite !i64_small by lia.
  set (e := if fileSize - 1 <=? start + 327680 - 1 then fileSize - 1 else start + 327680 - 1).
  assert (He : e = Z.min (fileSize - 1) (start + 327680 - 1)) by (unfold e; destruct (Z.leb_spec (fileSize - 1) (start + 327680 - 1)); lia).
  clearbody e. cbn [upload_loop].
  destruct (upload_chunk cli ctx url fileSize start e content w) as [[[er|[it|]] content'] w1] eqn:Ec; [done|..];
    apply upload_chunk_ok in Ec as (data & Hd & Hg & Hl & Hs); [|done|lia| |done|lia].
  - intros [= <- <-]. exists data, (rd_bytes content'). split_and!; [done..|]. by apply Hs.
  - destruct (decide (start + 327680 < fileSize)) as [Hmore|Hlast].
    + intros E. apply IH in E as (data' & rest & Hd' & Hg' & Hf); [|rewrite Hg, length_app; lia].
      exists (data ++ data'), rest. rewrite Hd, Hd', <- app_assoc. split; [done|].
      rewrite Hg, <- app_assoc in Hg'. by split.
    + intros E. exfalso. revert E. destruct fuel; cbn [chunk_ranges]; [done|].
      destruct (Z.ltb_spec (start + 327680) fileSize); [lia|done].
Qed.
End upload.

(** C10: a chunked upload that succeeds has transferred the first [fileSize]
    bytes of the contents, in order and once each: that is what the upload
    session whose URL the server gave holds when it reports the item. Assumed is
    the documented contract of an upload session, for requests that follow it: it
    is empty when it is created; an accepted PUT to its URL whose Content-Range
    names the bytes that follow those it holds, and the announced total, adds
    them; and it reports the item only when it holds the total. Of a request with
    any other range, URL or total nothing is assumed. The size leaves room for one
    chunk in an int64. *)
Theorem upload_transfers_contents {W} `{World W} cli ctx tp (got : string → W → list Z) url body content fileSize etag
    (w w' : W) item :
  (∀ uploadURL data req w resp w',
     chunk_put uploadURL (got uploadURL w) fileSize data req → io_Do (HTTPClient cli) req w = (inr resp, w') →
     resp_StatusCode resp ∈ [200; 201; 202] →
     got uploadURL w' = got uploadURL w ++ data ∧
     (resp_StatusCode resp ∈ [200; 201] → Z.of_nat (length (got uploadURL w')) = fileSize)) →
  (∀ uploadURL w1, doJSONRequest dec_uploadSession "" ctx cli "POST" url body (ifMatchHeaders etag) tp w
     = (inr uploadURL, w1) → got uploadURL w1 = []) →
  fileSize + chunkSize ≤ 2 ^ 63 →
  uploadStream cli ctx tp url body content fileSize etag w = (inr item, w') →
  ∃ uploadURL w1, doJSONRequest dec_uploadSession "" ctx cli "POST" url body (ifMatchHeaders etag) tp w = (inr uploadURL, w1) ∧
    got uploadURL w' = take (Z.to_nat fileSize) (rd_bytes content) ∧ Z.of_nat (length (got uploadURL w')) = fileSize.
Proof.
  intros Ha H0 Hsz. unfold uploadStream. intros E. apply se_bind_inr in E as (uploadURL & w1 & Ej & E).
  specialize (H0 _ _ Ej). exists uploadURL, w1. split; [exact Ej|]. destruct (decide (uploadURL = "")); [done|].
  destruct (upload_loop _ _ _ _ _ _ _) as [[e|[it|]] w2] eqn:El; [done| |done]. injection E as <- <-.
  apply (upload_loop_ok cli ctx got fileSize Ha) in El; [|done|by rewrite H0].
  destruct El as (data & rest & Hd & Hg & Hl). rewrite H0 in Hg. simpl in Hg. split; [|done].
  rewrite Hg, Hd in *. rewrite take_app_length'; [done|lia].
Qed.

(** A server with one upload session, of five bytes at most: a request whose
    range is not the next one is refused with 416. *)
Record UpNet := mkUp { up_got : list Z }.
Definition up_range (held data : list Z) : string :=
  let first := Z.of_nat (length held) in
  "bytes " +:+ pretty first +:+ "-" +:+ pretty (first + Z.of_nat (length data) - 1) +:+ "/" +:+ "5".
#[global] Instance Up_World : World UpNet := {|
  raw_do _ req w :=
    match req_Body req with
    | Some (PBytes data) =>
        let got := up_got w ++ data in
        if decide (req_Header req !! "Content-Range" = Some (up_range (up_got w) data)) then
          (json_reply (if (length got =? 5)%nat then 201 else 202) hello_item, length data, mkUp got)
        else (json_reply 416 hello_item, length data, w)
    | _ => (json_reply 200 (JObj [("uploadUrl", JStr "https://up.example/s")]), 1%nat, mkUp [])
    end;
  time_Sleep d w := w;
  go_spawn f w := f w;
|}.
Definition up_token : TokenProvider UpNet := λ _ w, (inr "token", w).

Lemma upload_transfers_contents_witness :
  up_got (uploadStream plain_client Background up_token "https://graph.microsoft.com/v1.0/x" None
            (mkReader (hello ++ [33]) None) 5 "" (mkUp [])).2 = hello.
Proof.
  destruct (uploadStream plain_client Background up_token "https://graph.microsoft.com/v1.0/x" None
            (mkReader (hello ++ [33]) None) 5 "" (mkUp [])) as [r w'] eqn:E.
  pose proof E as E0. vm_compute in E0. injection E0 as <- Hw. simpl.
  pose proof (λ A B, upload_transfers_contents plain_client Background up_token (λ _, up_got)
    "https://graph.microsoft.com/v1.0/x" None (mkReader (hello ++ [33]) None) 5 "" (mkUp []) w' _ A B
    ltac:(vm_compute; discriminate) E) as Hup.
  destruct Hup as (_ & _ & _ & Hg & _); [| |exact Hg].
  - intros u data req w resp w2 (_ & _ & Hb & _ & Hh) Hd Hs. unfold io_Do in Hd. simpl in Hd. rewrite Hb in Hd.
    change (pretty 5) with "5" in Hh. unfold up_range in Hd. rewrite decide_True in Hd by exact Hh.
    destruct (Nat.eqb_spec (length (up_got w ++ data)) 5) as [E5|E5]; injection Hd as <- <-; simpl in *.
    + split; [done|]. intros _. rewrite E5. reflexivity.
    + split; [done|]. intros Hc. apply list_elem_of_In in Hc. simpl in Hc. destruct Hc as [[=]|[[=]|[]]].
  - intros u w1 Hj. vm_compute in Hj. injection Hj as _ <-. reflexivity.
Defined.
