(* ===== verification/Remote.v ===== *)
(** What the services rely on of the remote drive, as an interface on top of
    [GraphAPI], and a small drive that satisfies it. *)

From stdpp Require Import stringmap.
From S2P Require Export InodeCache GraphAPI.

#[local] Open Scope Z_scope.

(** An item of the drive as the server keeps it. *)
Record RItem := mkRItem {
  ri_parent : string; ri_name : string; ri_folder : bool; ri_content : list Z; ri_etag : string }.

(** The two ways to send a content: in one request, or in an upload session. *)
Section calls.
Context {W : Type} `{GraphAPI W}.
Definition call_overwrite (small : bool) (id : string) (data : list Z) (size : Z) (etag : string) : SE W error DriveItem :=
  if small then api_OverwriteItem Background id (mkReqBody (PBytes data) None false) etag
  else api_OverwriteItemStream Background id (mkReader data None) size etag.
Definition call_upload (small : bool) (r : Resource) (name : string) (data : list Z) (size : Z) (etag : string) :
    SE W error DriveItem :=
  if small then api_UploadItem Background r name (mkReqBody (PBytes data) None false) etag
  else api_UploadItemStream Background r name (mkReader data None) size etag.
End calls.

(** The folder a resource designates (the code only uses the root's path). *)
Definition resource_id (r : Resource) : string := match r with ItemID id => id | ItemPath _ => "root" end.

(** The characters of a UTF-8 text. *)
Definition runes (s : string) : nat := length (filter (λ a, in_range a 128 191 = false) (chars s)).

(** The documented behaviour of the drive. A request that fails may still have
    been carried out, except where the laws say it was not. *)
Class RemoteDrive (W : Type) `{GraphAPI W} := {
  drive : W → gmap string RItem;
  (** A network error interrupted a request between the two states: it was sent
      again, and the client does not rewind the body then. *)
  interrupted : W → W → Prop;
  (** Two names one folder cannot hold both: names that differ by their case. *)
  same_name : string → string → Prop;
  same_name_runes n m : same_name n m → runes n = runes m;
  (** Overwriting an item: with an [If-Match] that no longer matches, nothing
      changes; a success needs a match. *)
  law_overwrite small id data etag w r w' :
    call_overwrite small id data (Z.of_nat (length data)) etag w = (r, w') →
    (∀ it, drive w !! id = Some it → etag ≠ "" → etag ≠ ri_etag it →
       drive w' = drive w ∧ ∀ item, r ≠ inr item) ∧
    (∀ item, r = inr item → item_ID item = id ∧ ∃ it stored, drive w !! id = Some it ∧
       drive w' = <[id := mkRItem (ri_parent it) (ri_name it) (ri_folder it) stored (item_ETag item)]> (drive w) ∧
       (¬ interrupted w w' → stored = data));
  (** Uploading under a name that is free in the folder creates a child of that
      name. Under one that is taken, a simple upload replaces the child, and an
      upload session, which asks for it ([conflictBehavior] "rename"), creates
      another child under a name of the drive's choice. *)
  law_upload small res name data etag w item w' :
    call_upload small res name data (Z.of_nat (length data)) etag w = (inr item, w') →
    let taken k it := drive w !! k = Some it ∧ ri_parent it = resource_id res ∧ same_name (ri_name it) name in
    ∃ n stored,
      drive w' = <[item_ID item := mkRItem (resource_id res) n false stored (item_ETag item)]> (drive w) ∧
      (¬ interrupted w w' → stored = data) ∧
      ((∀ k it, ¬ taken k it) → n = name ∧ drive w !! item_ID item = None) ∧
      (drive w !! item_ID item = None ∨ (small = true ∧ ∃ it, taken (item_ID item) it));
  (** Renaming changes the name (and the version) of the item alone. *)
  law_rename id name etag w item w' :
    api_RenameItem Background (ItemID id) name etag w = (inr item, w') →
    ∃ it e, drive w !! id = Some it ∧
      drive w' = <[id := mkRItem (ri_parent it) name (ri_folder it) (ri_content it) e]> (drive w);
}.

(** ** A drive in memory *)

(** Its items, the next version, its clock, and the failures to come. *)
Record Cloud := mkCloud {
  cl_items : gmap string RItem; cl_next : N; cl_now : Time; cl_faults : list (option error) }.
Definition set_items v c := mkCloud v (cl_next c + 1)%N (cl_now c) (cl_faults c).

#[global] Instance Cloud_Clock : Clock Cloud := cl_now.

Definition graph_error (status : Z) : error := EGraph (mkGraphError status "" "").
Definition cloud_item (c : Cloud) (k : string) (it : RItem) : DriveItem :=
  mkDriveItem k (ri_name it) (Z.of_nat (length (ri_content it))) (Some (cl_now c))
    (Some (mkDriveItemParent "" (ri_parent it) "" "")) (if ri_folder it then Some zero_Folder else None)
    (if ri_folder it then None else Some zero_File) None "" (ri_etag it) None.

(** A request: the failure the script has for it, else its effect. *)
Definition cloud_call {A} (m : SE Cloud error A) : SE Cloud error A := λ c,
  match cl_faults c with
  | [] => m c
  | f :: fs =>
      let c := mkCloud (cl_items c) (cl_next c) (cl_now c) fs in
      match f with None => m c | Some e => (inl e, c) end
  end.

(** The item at [k], written back as [f] makes it with a new version. *)
Definition cloud_version (c : Cloud) : string := pretty (cl_next c).
Definition cloud_put (k : string) (it : RItem) (c : Cloud) : (error + DriveItem) * Cloud :=
  let it := mkRItem (ri_parent it) (ri_name it) (ri_folder it) (ri_content it) (cloud_version c) in
  let c := set_items (<[k := it]> (cl_items c)) c in (inr (cloud_item c k it), c).
Definition cloud_patch (id etag : string) (f : RItem → RItem) : SE Cloud error DriveItem := cloud_call (λ c,
  match cl_items c !! id with
  | None => (inl (graph_error 404), c)
  | Some it => if negb (bool_decide (etag = "")) && negb (bool_decide (etag = ri_etag it))
               then (inl (graph_error 412), c) else cloud_put id (f it) c
  end).
Definition cloud_same (n m : string) : Prop := lower_ascii <$> chars n = lower_ascii <$> chars m.
Definition cloud_child (parent name : string) (c : Cloud) : option string :=
  (λ p : nat * (string * RItem), p.2.1) <$>
    list_find (λ kv : string * RItem, ri_parent kv.2 = parent ∧ lower_ascii <$> chars (ri_name kv.2) = lower_ascii <$> chars name)
      (map_to_list (cl_items c)).
Definition fresh_id (c : Cloud) : string := fresh_string "item" (cl_items c).
Definition cloud_new (parent name : string) (folder : bool) (data : list Z) : SE Cloud error DriveItem := cloud_call (λ c,
  let k := match cloud_child parent name c with Some k => k | None => fresh_id c end in
  cloud_put k (mkRItem parent name folder data "") c).
(** An upload session: a taken name is changed. *)
Definition cloud_session (parent name : string) (data : list Z) : SE Cloud error DriveItem := cloud_call (λ c,
  let name := match cloud_child parent name c with Some _ => name +:+ " 1" | None => name end in
  cloud_put (fresh_id c) (mkRItem parent name false data "") c).
Definition cloud_children (id : string) : SE Cloud error (list DriveItem) := cloud_call (λ c,
  (inr (omap (λ kv, if bool_decide (ri_parent kv.2 = id) then Some (cloud_item c kv.1 kv.2) else None)
          (map_to_list (cl_items c))), c)).
Definition payload_bytes (b : ReqBody) : list Z := match rq_payload b with PBytes l => l | PJson _ => [] end.

#[global] Instance Cloud_GraphAPI : GraphAPI Cloud := {|
  api_GetItem _ r := cloud_call (λ c, match cl_items c !! resource_id r with
    | Some it => (inr (cloud_item c (resource_id r) it), c) | None => (inl (graph_error 404), c) end);
  api_ListDriveRoot _ := cloud_children "root";
  api_ListChildren _ r := cloud_children (resource_id r);
  api_CreateFolder _ r name := cloud_new (resource_id r) name true [];
  api_DeleteItem _ r _ := cloud_call (λ c, match cl_items c !! resource_id r with
    | Some _ => (inr tt, set_items (delete (resource_id r) (cl_items c)) c) | None => (inl (graph_error 404), c) end);
  api_RenameItem _ r name etag := cloud_patch (resource_id r) etag
    (λ it, mkRItem (ri_parent it) name (ri_folder it) (ri_content it) "");
  api_MoveItem _ r p etag := cloud_patch (resource_id r) etag
    (λ it, mkRItem (resource_id p) (ri_name it) (ri_folder it) (ri_content it) "");
  api_PollDelta _ link := cloud_call (λ c, (inr ([], "link", false), c));
  api_UploadItem _ r name b _ := cloud_new (resource_id r) name false (payload_bytes b);
  api_UploadItemStream _ r name rd _ _ := cloud_session (resource_id r) name (rd_bytes rd);
  api_OverwriteItem _ id b etag := cloud_patch id etag
    (λ it, mkRItem (ri_parent it) (ri_name it) (ri_folder it) (payload_bytes b) "");
  api_OverwriteItemStream _ id rd _ etag := cloud_patch id etag
    (λ it, mkRItem (ri_parent it) (ri_name it) (ri_folder it) (rd_bytes rd) "");
  api_GetItemContentStream _ r c := match cl_items c !! resource_id r with
    | Some it => ([ri_content it], None, c) | None => ([], Some (graph_error 404), c) end;
|}.

Lemma cloud_call_inv {A} (m : SE Cloud error A) c r c' :
  cloud_call m c = (r, c') →
  (∃ c1, cl_items c1 = cl_items c ∧ m c1 = (r, c')) ∨ (cl_items c' = cl_items c ∧ ∃ e, r = inl e).
Proof.
  unfold cloud_call. destruct (cl_faults c) as [|[e|] fs]; intros E; [left; by exists c| |].
  - right. simplify_eq. eauto.
  - left. eexists. split; [|exact E]. done.
Qed.

Lemma cloud_patch_inv id etag f c r c' :
  cloud_patch id etag f c = (r, c') →
  (cl_items c' = cl_items c ∧ ∀ item, r ≠ inr item) ∨
  ∃ it item, r = inr item ∧ item_ID item = id ∧ cl_items c !! id = Some it ∧ (etag = "" ∨ etag = ri_etag it) ∧
    cl_items c' = <[id := mkRItem (ri_parent (f it)) (ri_name (f it)) (ri_folder (f it)) (ri_content (f it)) (item_ETag item)]>
      (cl_items c).
Proof.
  intros [(c1 & Hc & E)|[? [e ->]]]%cloud_call_inv; [|by left]. rewrite <-Hc in *.
  destruct (cl_items c1 !! id) as [it|] eqn:Eit; [|simplify_eq; by left].
  destruct (negb _ && negb _) eqn:Em; simplify_eq; [by left|]. right.
  unfold cloud_put in E. simplify_eq. exists it, (cloud_item (set_items (<[id := mkRItem (ri_parent (f it))
    (ri_name (f it)) (ri_folder (f it)) (ri_content (f it)) (cloud_version c1)]> (cl_items c1)) c1) id
    (mkRItem (ri_parent (f it)) (ri_name (f it)) (ri_folder (f it)) (ri_content (f it)) (cloud_version c1))).
  split_and!; [done..| |done]. repeat case_bool_decide; auto; done.
Qed.

(** The item that has the name in the folder, if any. *)
Lemma cloud_child_spec parent name c :
  match cloud_child parent name c with
  | Some k => ∃ it, cl_items c !! k = Some it ∧ ri_parent it = parent ∧ cloud_same (ri_name it) name
  | None => ∀ k it, cl_items c !! k = Some it → ¬ (ri_parent it = parent ∧ cloud_same (ri_name it) name)
  end.
Proof.
  unfold cloud_child. destruct (list_find _ _) as [[i [k it]]|] eqn:Ef; cbn.
  - apply list_find_Some in Ef as (Hi & [Hp Hn] & _). apply list_elem_of_lookup_2, elem_of_map_to_list in Hi. by exists it.
  - apply list_find_None in Ef. rewrite Forall_forall in Ef. intros k it Hk. apply (Ef (k, it)). by apply elem_of_map_to_list.
Qed.

Lemma cloud_upload_inv small parent name data c item c' :
  (if small : bool then cloud_new parent name false data else cloud_session parent name data) c = (inr item, c') →
  let taken k it := cl_items c !! k = Some it ∧ ri_parent it = parent ∧ cloud_same (ri_name it) name in
  ∃ n, cl_items c' = <[item_ID item := mkRItem parent n false data (item_ETag item)]> (cl_items c) ∧
    ((∀ k it, ¬ taken k it) → n = name ∧ cl_items c !! item_ID item = None) ∧
    (cl_items c !! item_ID item = None ∨ (small = true ∧ ∃ it, taken (item_ID item) it)).
Proof.
  destruct small; intros [(c1 & Hc & E)|[_ [e [=]]]]%cloud_call_inv; rewrite <-Hc; unfold cloud_put in E;
    pose proof (cloud_child_spec parent name c1) as Hs; destruct (cloud_child parent name c1) as [k|] eqn:Ek; simplify_eq; cbn.
  - destruct Hs as (it & Ht). exists name. split; [done|]. split; [intros Hn; by destruct (Hn k it)|]. right. split; [done|]. by exists it.
  - exists name. split; [done|]. assert (Hf : cl_items c1 !! fresh_id c1 = None) by apply fresh_string_fresh. by split; [|left].
  - destruct Hs as (it & Ht). exists (name +:+ " 1"). split; [done|]. split; [intros Hn; by destruct (Hn k it)|]. left. apply fresh_string_fresh.
  - exists name. split; [done|]. assert (Hf : cl_items c1 !! fresh_id c1 = None) by apply fresh_string_fresh. by split; [|left].
Qed.

Lemma lower_not_continuation a : in_range (lower_ascii a) 128 191 = in_range a 128 191.
Proof. by destruct a as [[] [] [] [] [] [] [] []]. Qed.
Lemma cloud_same_runes n m : cloud_same n m → runes n = runes m.
Proof.
  unfold cloud_same, runes. assert (Hl : ∀ l, length (filter (λ a, in_range a 128 191 = false) l)
    = length (filter (λ a, in_range a 128 191 = false) (lower_ascii <$> l))).
  { induction l as [|a l IH]; [done|]. rewrite fmap_cons, !filter_cons, lower_not_continuation. by case_decide; cbn; rewrite IH. }
  intros E. by rewrite Hl, E, <-Hl.
Qed.

(** No request to it is interrupted. *)
#[global, program] Instance Cloud_RemoteDrive : RemoteDrive Cloud :=
  {| drive := cl_items; interrupted _ _ := False; same_name := cloud_same; same_name_runes := cloud_same_runes |}.
Next Obligation.
  intros small id data etag w r w' E.
  assert (E' : cloud_patch id etag (λ it, mkRItem (ri_parent it) (ri_name it) (ri_folder it) data "") w = (r, w'))
    by (by destruct small). clear E.
  apply cloud_patch_inv in E' as [[Hc Hr]|(it & item & -> & Hid & Hit & He & Hw)]; cbn in *.
  - split; [done|]. intros item ->. by destruct (Hr item).
  - split; [|intros ? [= <-]; split; [done|]; by exists it, data]. intros it' Hit' Hne Hn. simplify_eq. by destruct He.
Qed.
Next Obligation.
  intros small res name data etag w item w' E.
  assert (E' : (if small : bool then cloud_new (resource_id res) name false data else cloud_session (resource_id res) name data) w
    = (inr item, w')) by (by destruct small).
  destruct (cloud_upload_inv _ _ _ _ _ _ _ E') as (n & Hw & Hfree & Hfresh). cbv zeta. by exists n, data.
Qed.
Next Obligation.
  intros id name etag w item w' E.
  assert (E' : cloud_patch id etag (λ it, mkRItem (ri_parent it) name (ri_folder it) (ri_content it) "") w = (inr item, w'))
    by done. clear E.
  apply cloud_patch_inv in E' as [[_ Hr]|(it & item' & ? & Hid & Hit & _ & Hw)]; [by destruct (Hr item)|]. eauto.
Qed.
