(* ===== verification/Uploads.v ===== *)
(** Background uploads (internal/fs/upload_session.go, upload_manager.go): the
    sessions and their persisted form, the queue, the loop that launches and
    retries them, and the goroutine that uploads one. Sessions are objects
    shared between the loop, the goroutines and [RenameSession], so they live
    in a store and are designated by pointers; the code of each goroutine is a
    resumption of [Sched], cut where another goroutine may run. *)

From S2P Require Export Sched GoTime GoOS CachePersist GraphAPI.
From S2P Require ContentCache.
Export ContentCache (ContentCache).

#[local] Open Scope Z_scope.

(** ** internal/fs/upload_session.go *)

Inductive uploadState := uploadPending | uploadUploading | uploadComplete | uploadErrored.
#[global] Instance uploadState_eq_dec : EqDecision uploadState.
Proof. solve_decision. Defined.

Record UploadSession := mkSession {
  us_ID : string; us_ParentID : string; us_Name : string;
  us_Data : list Z; us_SnapshotPath : string; us_Size : Z;
  us_State : uploadState; us_Retries : Z; us_LastErr : string;
  us_Transient : bool; us_nextRetry : Time }.

Definition set_us_ID v u := mkSession v (us_ParentID u) (us_Name u) (us_Data u) (us_SnapshotPath u) (us_Size u)
  (us_State u) (us_Retries u) (us_LastErr u) (us_Transient u) (us_nextRetry u).
Definition set_us_ParentID v u := mkSession (us_ID u) v (us_Name u) (us_Data u) (us_SnapshotPath u) (us_Size u)
  (us_State u) (us_Retries u) (us_LastErr u) (us_Transient u) (us_nextRetry u).
Definition set_us_Name v u := mkSession (us_ID u) (us_ParentID u) v (us_Data u) (us_SnapshotPath u) (us_Size u)
  (us_State u) (us_Retries u) (us_LastErr u) (us_Transient u) (us_nextRetry u).
Definition set_us_Data v u := mkSession (us_ID u) (us_ParentID u) (us_Name u) v (us_SnapshotPath u) (us_Size u)
  (us_State u) (us_Retries u) (us_LastErr u) (us_Transient u) (us_nextRetry u).
Definition set_us_SnapshotPath v u := mkSession (us_ID u) (us_ParentID u) (us_Name u) (us_Data u) v (us_Size u)
  (us_State u) (us_Retries u) (us_LastErr u) (us_Transient u) (us_nextRetry u).
Definition set_us_Size v u := mkSession (us_ID u) (us_ParentID u) (us_Name u) (us_Data u) (us_SnapshotPath u) v
  (us_State u) (us_Retries u) (us_LastErr u) (us_Transient u) (us_nextRetry u).
Definition set_us_Retries v u := mkSession (us_ID u) (us_ParentID u) (us_Name u) (us_Data u) (us_SnapshotPath u) (us_Size u)
  (us_State u) v (us_LastErr u) (us_Transient u) (us_nextRetry u).
Definition set_us_LastErr v u := mkSession (us_ID u) (us_ParentID u) (us_Name u) (us_Data u) (us_SnapshotPath u) (us_Size u)
  (us_State u) (us_Retries u) v (us_Transient u) (us_nextRetry u).

Definition zero_Session : UploadSession := mkSession "" "" "" [] "" 0 uploadPending 0 "" false zeroTime.

(** The methods that take the session's lock. *)
Definition setState (state : uploadState) (err : option error) (u : UploadSession) : UploadSession :=
  mkSession (us_ID u) (us_ParentID u) (us_Name u) (us_Data u) (us_SnapshotPath u) (us_Size u) state
    (us_Retries u) (match err with Some e => Error e | None => us_LastErr u end) (us_Transient u) (us_nextRetry u).
Definition setTransient (v : bool) (u : UploadSession) : UploadSession :=
  mkSession (us_ID u) (us_ParentID u) (us_Name u) (us_Data u) (us_SnapshotPath u) (us_Size u)
    (us_State u) (us_Retries u) (us_LastErr u) v (us_nextRetry u).
Definition setNextRetryAt (t : Time) (u : UploadSession) : UploadSession :=
  mkSession (us_ID u) (us_ParentID u) (us_Name u) (us_Data u) (us_SnapshotPath u) (us_Size u)
    (us_State u) (us_Retries u) (us_LastErr u) (us_Transient u) t.

Definition NewUploadSession (id parentID name : string) (data : list Z) : error + UploadSession :=
  if (length data =? 0)%nat then
    inl (EMsg ("the data to upload cannot be empty (id=" +:+ id +:+ ", name=" +:+ name +:+ ")"))
  else inr (mkSession id parentID name data "" 0 uploadPending 0 "" false zeroTime).

Definition NewUploadSessionSnapshot (id parentID name snapshotPath : string) (size : Z) : error + UploadSession :=
  if decide (snapshotPath = "") then
    inl (EMsg ("the snapshot path cannot be empty (id=" +:+ id +:+ ", name=" +:+ name +:+ ")"))
  else if size <=? 0 then
    inl (EMsg ("the snapshot size must be positive (id=" +:+ id +:+ ", name=" +:+ name +:+ ")"))
  else inr (mkSession id parentID name [] snapshotPath size uploadPending 0 "" false zeroTime).

(** The reader [OpenContent] returns: a descriptor on the snapshot, or the
    bytes held in memory. *)
Inductive ContentReader := OsFile (fd : nat) | ByteReader (data : list Z).

Definition OpenContent (u : UploadSession) (d : Disk) : (error + (ContentReader * Z)) * Disk :=
  if decide (us_SnapshotPath u = "") then (inr (ByteReader (us_Data u), Z.of_nat (length (us_Data u))), d)
  else match os_Open (us_SnapshotPath u) d with
       | (inl e, d) => (inl (EWrap ("open upload snapshot " +:+ us_SnapshotPath u +:+ ": ") e ""), d)
       | (inr fd, d) => (inr (OsFile fd, us_Size u), d)
       end.

(** [DiscardSnapshot]: the removal is only logged when it fails. *)
Definition DiscardSnapshot (u : UploadSession) (d : Disk) : UploadSession * Disk :=
  (set_us_SnapshotPath "" u,
   if decide (us_SnapshotPath u = "") then d else (os_Remove (us_SnapshotPath u) d).2).

(** A [[]byte]: base64 text, or an array of numbers. *)
Definition dec_bytes : decoder (list Z) := λ j old,
  match j with
  | JNull => Some []
  | JStr s | JTime s _ => base64_DecodeString s
  | JArr l => mapM (λ e, dec_int 0 255 e 0) l
  | _ => None
  end.
Definition enc_bytes (b : list Z) : json := JStr (base64_EncodeToString b).

Definition Session_fields : list (string * decoder UploadSession) := [
  ("id", dec_field us_ID set_us_ID dec_string);
  ("parentID", dec_field us_ParentID set_us_ParentID dec_string);
  ("name", dec_field us_Name set_us_Name dec_string);
  ("data", dec_field us_Data set_us_Data dec_bytes);
  ("snapshotPath", dec_field us_SnapshotPath set_us_SnapshotPath dec_string);
  ("size", dec_field us_Size set_us_Size dec_int64);
  ("retries", dec_field us_Retries set_us_Retries dec_int64);
  ("lastErr", dec_field us_LastErr set_us_LastErr dec_string);
  ("transient", dec_field us_Transient setTransient dec_bool)].

(** [(us *UploadSession) AsJSON]. *)
Definition Session_AsJSON (u : UploadSession) : json :=
  JObj ([("id", enc_string (us_ID u)); ("parentID", enc_string (us_ParentID u)); ("name", enc_string (us_Name u))]
        ++ omit_if (bool_decide (us_Data u = [])) "data" (enc_bytes (us_Data u))
        ++ enc_str_field "snapshotPath" (us_SnapshotPath u)
        ++ omit_if (us_Size u =? 0) "size" (JNum (us_Size u))
        ++ [("retries", JNum (us_Retries u))]
        ++ enc_str_field "lastErr" (us_LastErr u)
        ++ omit_if (negb (us_Transient u)) "transient" (JBool true)).

Definition ErrSessionJSON := EMsg "invalid upload session".
Definition NewUploadSessionJSON (data : option json) : error + UploadSession :=
  match data ≫= λ j, dec_struct Session_fields j zero_Session with
  | Some u => inr u
  | None => inl ErrSessionJSON
  end.

(** ** internal/fs/upload_manager.go *)

Definition defaultMaxUploadsInFlight : Z := 5.
Definition defaultMaxUploadRetries : Z := 5.
Definition maxRetryBackoff : Duration := 1 * Minute.
Definition uploadTickerInterval : Duration := 2 * Second.

(** The manager; [sessions] leads to the session objects. *)
Record UploadManager := mkUM {
  queue : list N; deletionQueue : list string; sessions : gmap string N; inFlight : Z;
  completed : Z; failed : Z; maxUploadsInFlight : Z; maxUploadRetries : Z }.
Definition set_queue v u := mkUM v (deletionQueue u) (sessions u) (inFlight u) (completed u) (failed u)
  (maxUploadsInFlight u) (maxUploadRetries u).
Definition set_deletionQueue v u := mkUM (queue u) v (sessions u) (inFlight u) (completed u) (failed u)
  (maxUploadsInFlight u) (maxUploadRetries u).
Definition set_sessions v u := mkUM (queue u) (deletionQueue u) v (inFlight u) (completed u) (failed u)
  (maxUploadsInFlight u) (maxUploadRetries u).
Definition set_inFlight v u := mkUM (queue u) (deletionQueue u) (sessions u) v (completed u) (failed u)
  (maxUploadsInFlight u) (maxUploadRetries u).
Definition set_completed v u := mkUM (queue u) (deletionQueue u) (sessions u) (inFlight u) v (failed u)
  (maxUploadsInFlight u) (maxUploadRetries u).
Definition set_failed v u := mkUM (queue u) (deletionQueue u) (sessions u) (inFlight u) (completed u) v
  (maxUploadsInFlight u) (maxUploadRetries u).

(** The state the services of a mount share: the manager and its session
    objects, the inode cache with its database, the content cache with its
    disk, and the world beyond. *)
Record Sys (D W : Type) := mkSys {
  s_um : UploadManager; s_objs : gmap N UploadSession; s_next : N;
  s_db : option D; s_inodes : InodeCache; s_content : ContentCache; s_net : W }.
Arguments mkSys {D W}. Arguments s_um {D W}. Arguments s_objs {D W}. Arguments s_next {D W}.
Arguments s_db {D W}. Arguments s_inodes {D W}. Arguments s_content {D W}. Arguments s_net {D W}.

Section sys.
Context {D W : Type}.
Abbreviation St := (Sys D W).
Definition on_um (f : UploadManager → UploadManager) (s : St) : St :=
  mkSys (f (s_um s)) (s_objs s) (s_next s) (s_db s) (s_inodes s) (s_content s) (s_net s).
Definition on_objs (f : gmap N UploadSession → gmap N UploadSession) (s : St) : St :=
  mkSys (s_um s) (f (s_objs s)) (s_next s) (s_db s) (s_inodes s) (s_content s) (s_net s).
Definition on_inodes (f : InodeCache → InodeCache) (s : St) : St :=
  mkSys (s_um s) (s_objs s) (s_next s) (s_db s) (f (s_inodes s)) (s_content s) (s_net s).
Definition on_db (f : option D * InodeCache → option D * InodeCache) (s : St) : St :=
  let '(db, c) := f (s_db s, s_inodes s) in
  mkSys (s_um s) (s_objs s) (s_next s) db c (s_content s) (s_net s).
Definition set_content (c : ContentCache) (s : St) : St :=
  mkSys (s_um s) (s_objs s) (s_next s) (s_db s) (s_inodes s) c (s_net s).
Definition on_content {A} (f : ContentCache → A * ContentCache) (s : St) : A * St :=
  let '(a, c) := f (s_content s) in (a, set_content c s).
Definition on_disk_ {A} (f : Disk → A * Disk) (s : St) : A * St :=
  on_content (λ c, let '(a, d) := f (ContentCache.disk c) in (a, ContentCache.set_disk d c)) s.
Definition on_net {A} (f : W → A * W) (s : St) : A * St :=
  let '(a, w) := f (s_net s) in
  (a, mkSys (s_um s) (s_objs s) (s_next s) (s_db s) (s_inodes s) (s_content s) w).

(** The session a pointer designates, and a method on it. *)
Definition session (p : N) (s : St) : UploadSession := default zero_Session (s_objs s !! p).
Definition upd_session (p : N) (f : UploadSession → UploadSession) : St → St := on_objs (alter f p).
(** [&UploadSession{...}]. *)
Definition new_session (u : UploadSession) (s : St) : N * St :=
  (s_next s, mkSys (s_um s) (<[s_next s := u]> (s_objs s)) (s_next s + 1)%N (s_db s) (s_inodes s) (s_content s) (s_net s)).
End sys.

Section manager.
Context {D W : Type} `{Bolt D} `{Clock W} `{GraphAPI W} `{LocalZone}.
Abbreviation St := (Sys D W).
Abbreviation Go A := (Res St A).
#[local] Open Scope res_scope.
#[local] Open Scope Z_scope.

Definition discard (p : N) (s : St) : St :=
  let '(u, d) := DiscardSnapshot (session p s) (ContentCache.disk (s_content s)) in
  upd_session p (λ _, u) (set_content (ContentCache.set_disk d (s_content s)) s).

(** [persistSession]: marshalling a session cannot fail. *)
Definition persistSession (id : string) (p : N) (s : St) : St :=
  on_db (SaveUploadSession id (Some (Session_AsJSON (session p s)))) s.

(** [NewUploadManager], with the database and the caches given; the sessions
    found in the database become pending again. *)
Definition restore_one_session (kv : string * option json) (s : St) : St :=
  let '(id, data) := kv in
  match NewUploadSessionJSON data with
  | inl _ => on_db (DeleteUploadSession id) s
  | inr u =>
      let '(p, s) := new_session u s in
      if negb (bool_decide (us_State u = uploadComplete)) then
        on_um (λ m, set_sessions (<[id := p]> (sessions m)) m) (upd_session p (setState uploadPending None) s)
      else on_db (DeleteUploadSession id) (discard p s)
  end.
Definition restoreIncompleteSessions (s : St) : St :=
  foldl (λ s kv, restore_one_session kv s) s (LoadUploadSessions (s_db s)).

Definition NewUploadManager (maxUploads maxRetries : Z) (s : St) : St :=
  let maxUploads := if maxUploads <=? 0 then defaultMaxUploadsInFlight else maxUploads in
  let maxRetries := if maxRetries <=? 0 then defaultMaxUploadRetries else maxRetries in
  restoreIncompleteSessions (on_um (λ _, mkUM [] [] ∅ 0 0 0 maxUploads maxRetries) s).

(** The channels hold 100 values; a send on a full one blocks. The session a
    send carries is allocated with it: no one else can see it before. *)
Definition chan_cap : nat := 100.
Definition send_queue (u : UploadSession) : Go unit :=
  await (λ s, length (queue (s_um s)) <? chan_cap)%nat
    (λ s, let '(p, s) := new_session u s in on_um (λ m, set_queue (queue m ++ [p]) m) s).
Definition send_deletion (id : string) : Go unit :=
  await (λ s, length (deletionQueue (s_um s)) <? chan_cap)%nat
    (on_um (λ m, set_deletionQueue (deletionQueue m ++ [id]) m)).

(** [QueueUpload]. *)
Definition QueueUpload (id parentID name : string) : Go bool :=
  do* r := atomic (on_content (ContentCache.Snapshot id)) in
  match r with
  | inl _ => Ret false
  | inr (path, size) =>
      if size =? 0 then Ret false else
      match NewUploadSessionSnapshot id parentID name path size with
      | inl _ => atomic (on_disk_ (os_Remove path)) ;;; Ret false
      | inr u => send_queue u ;;; Ret true
      end
  end.

Definition CancelUpload (id : string) : Go unit := send_deletion id.

Definition HasPendingUpload (id : string) (s : St) : bool :=
  bool_decide (is_Some (sessions (s_um s) !! id)).

(** [RenameSession]: the map is looked up, the session changed and persisted
    in three critical sections. *)
Definition RenameSession (id newParentID newName : string) : Go unit :=
  do* found := atomic (λ s, (sessions (s_um s) !! id, s)) in
  match found with
  | None => Ret tt
  | Some p =>
      atomic_ (upd_session p (λ u,
        let u := set_us_Name newName u in
        if decide (newParentID = "") then u else set_us_ParentID newParentID u)) ;;;
      atomic_ (persistSession id p)
  end.

(** [enqueueSession], under the manager's lock: an older session of the same
    ID is replaced, its snapshot removed. *)
Definition enqueueSession (p : N) (s : St) : St :=
  let id := us_ID (session p s) in
  let s := match sessions (s_um s) !! id with
           | Some old => discard old (upd_session old (setState uploadComplete None) s)
           | None => s
           end in
  persistSession id p (on_um (λ m, set_sessions (<[id := p]> (sessions m)) m) s).

(** [finishSession], under the manager's lock. *)
Definition finishSession (id : string) (s : St) : St :=
  match sessions (s_um s) !! id with
  | None => s
  | Some p =>
      on_db (DeleteUploadSession id) (discard p (on_um (λ m, set_sessions (delete id (sessions m)) m) s))
  end.

Definition inFlightCap (m : UploadManager) : Z :=
  if maxUploadsInFlight m <=? 0 then defaultMaxUploadsInFlight else maxUploadsInFlight m.
Definition retryCap (m : UploadManager) : Z :=
  if maxUploadRetries m <=? 0 then defaultMaxUploadRetries else maxUploadRetries m.

(** [backoffFor]: the loop doubles at most five times before the cap. *)
Fixpoint backoff_loop (n : nat) (d : Duration) : Duration :=
  match n with
  | O => d
  | S n => if d <? maxRetryBackoff
           then backoff_loop n (if maxRetryBackoff <? d * 2 then maxRetryBackoff else d * 2)
           else d
  end.
Definition backoffFor (retries : Z) : Duration := backoff_loop (Z.to_nat (retries - 1)) uploadTickerInterval.

Definition releaseInFlight (s : St) : St :=
  on_um (λ m, if 0 <? inFlight m then set_inFlight (inFlight m - 1) m else m) s.

(** *** The upload of one session *)

(** What the client reads of a content; a file is read from its descriptor. *)
Definition read_content (r : ContentReader) (s : St) : (list Z * option error) * St :=
  match r with
  | ByteReader data => ((data, None), s)
  | OsFile fd =>
      let '(r, s) := on_disk_ (file_ReadAll fd) s in
      (match r with inl e => ([], Some e) | inr data => (data, None) end, s)
  end.
Definition closeContentReader (r : ContentReader) : Go unit :=
  match r with
  | ByteReader _ => Ret tt
  | OsFile fd => atomic_ (λ s, (on_disk_ (file_Close fd) s).2)
  end.

Definition parentResource (parentID : string) : Resource :=
  if bool_decide (parentID = "root") || bool_decide (parentID = "") then ItemPath "/" else ItemID parentID.

Definition smallUpload : Z := 4 * 1024 * 1024.
Definition doUpload (id : string) (isLocal : bool) (parentID name : string) (r : ContentReader) (size : Z)
    (etag : string) (s : St) : (error + DriveItem) * St :=
  let '((data, err), s) := read_content r s in
  let body := mkReqBody (PBytes data) err false in
  let stream := mkReader data err in
  on_net (
    if negb isLocal then
      if size <=? smallUpload then api_OverwriteItem Background id body etag
      else api_OverwriteItemStream Background id stream size etag
    else
      let resource := parentResource parentID in
      if size <=? smallUpload then api_UploadItem Background resource name body etag
      else api_UploadItemStream Background resource name stream size etag) s.

(** [conflictName name t]. *)
Definition conflictName (name : string) (t : Time) : string :=
  let '(base, ext) := match rcut_chars "."%char (chars name) with
                      | Some ((_ :: _) as b, e) => (b, "."%char :: e)
                      | _ => (chars name, [])
                      end in
  of_chars base +:+ "_conflict_" +:+ time_Format t +:+ of_chars ext.

Definition session_open (p : N) (s : St) : (error + (ContentReader * Z)) * St :=
  on_disk_ (OpenContent (session p s)) s.

Definition uploadAfterConflict (id parentID name : string) (p : N) : Go (error + (DriveItem * bool)) :=
  do* now := atomic (λ s, (w_now (s_net s), s)) in
  atomic (on_net (api_RenameItem Background (ItemID id) (conflictName name now) "")) ;;;
  do* o := atomic (session_open p) in
  match o with
  | inl e => Ret (inl (EWrap "conflict: re-open upload snapshot: " e ""))
  | inr (reader, size) =>
      do* r := atomic (doUpload id true parentID name reader size "") in
      closeContentReader reader ;;;
      Ret (match r with
           | inl e => inl (EWrap "conflict: re-upload local version: " e "")
           | inr item => inr (item, true)
           end)
  end.

(** [upload]; the reader of the first attempt is closed at the end. *)
Definition upload (id : string) (isLocal : bool) (parentID name : string) (p : N) (etag : string) :
    Go (error + (DriveItem * bool)) :=
  do* o := atomic (session_open p) in
  match o with
  | inl e => Ret (inl e)
  | inr (reader, size) =>
      do* r := atomic (doUpload id isLocal parentID name reader size etag) in
      do* res := (match r with
                  | inr item => Ret (inr (item, isLocal))
                  | inl e => if negb isLocal && errors_Is e ErrPreconditionFailed
                             then uploadAfterConflict id parentID name p
                             else Ret (inl e)
                  end) in
      closeContentReader reader ;;; Ret res
  end.

(** [applyInflightTargetChange]; the caller only logs its error. *)
Definition applyInflightTargetChange (id launchedName curName launchedParent curParent : string) :
    Go (option error) :=
  do* r := (if decide (curName = launchedName) then Ret None
            else do* r := atomic (on_net (api_RenameItem Background (ItemID id) curName "")) in
                 Ret (match r with inl e => Some (EWrap "rename after in-flight upload: " e "") | inr _ => None end)) in
  match r with
  | Some e => Ret (Some e)
  | None =>
      if decide (curParent = launchedParent) then Ret None
      else do* r := atomic (on_net (api_MoveItem Background (ItemID id) (ItemID curParent) "")) in
           Ret (match r with inl e => Some (EWrap "move after in-flight upload: " e "") | inr _ => None end)
  end.

(** The metadata a finished upload leaves in the inode. *)
Definition uploaded_meta (item : DriveItem) (i : Inode) : Inode :=
  set_DriveItem_of (set_item_ModTime (item_ModTime item) (set_item_Size (item_Size item)
    (set_item_ETag (item_ETag item) (DriveItem_of i)))) i.
Definition upd_inode (id : string) (f : Inode → Inode) (c : InodeCache) : InodeCache :=
  match Get c id with Some l => upd l f c | None => c end.

Definition current_etag (id : string) (c : InodeCache) : string :=
  match Get c id with Some l => item_ETag (DriveItem_of (deref c l)) | None => "" end.

(** The part of [executeUpload] after a successful upload. *)
Definition upload_succeeded (p : N) (id parentID name : string) (item : DriveItem) (createdNew : bool) : Go unit :=
  (if createdNew then
     atomic_ (on_inodes (upd_inode id (λ i, SetID (item_ID item) (uploaded_meta item i)))) ;;;
     atomic_ (on_inodes (MoveID id (item_ID item)))
   else atomic_ (on_inodes (upd_inode id (uploaded_meta item)))) ;;;
  atomic_ (λ s, on_inodes (Invalidate (w_now (s_net s)) parentID) s) ;;;
  do* cur := atomic (λ s, ((us_Name (session p s), us_ParentID (session p s)), s)) in
  (if bool_decide (cur.1 = name) && bool_decide (cur.2 = parentID) then Ret tt
   else applyInflightTargetChange (item_ID item) name cur.1 parentID cur.2 ;;; Ret tt) ;;;
  atomic_ (upd_session p (setState uploadComplete None)) ;;;
  atomic_ (on_um (λ m, set_completed (u64 (completed m + 1)) m)).

Definition upload_failed (p : N) (err : error) : Go unit :=
  atomic_ (upd_session p (setState uploadErrored (Some err))) ;;;
  atomic_ (upd_session p (setTransient (fs_isNetworkError err))) ;;;
  atomic_ (on_um (λ m, set_failed (u64 (failed m + 1)) m)).

(** [executeUpload]: the slot is released last, on every path. *)
Definition executeUpload (p : N) : Go unit :=
  atomic_ (upd_session p (setState uploadUploading None)) ;;;
  do* u := atomic (λ s, (session p s, s)) in
  let id := us_ID u in
  let isLocal := isLocalID id in
  let parentID := us_ParentID u in
  let name := us_Name u in
  do* etag := (if isLocal then Ret "" else atomic (λ s, (current_etag id (s_inodes s), s))) in
  do* r := upload id isLocal parentID name p etag in
  match r with
  | inl err => upload_failed p err
  | inr (item, createdNew) => upload_succeeded p id parentID name item createdNew
  end ;;;
  atomic_ releaseInFlight.

(** *** The loop *)

Definition launchIfCapacity (p : N) : Go unit :=
  do* go := atomic (λ s,
    if inFlightCap (s_um s) <=? inFlight (s_um s) then (false, s)
    else (true, on_um (λ m, set_inFlight (inFlight m + 1) m) s)) in
  if go : bool then fork (executeUpload p) else Ret tt.

(** The turn of [processSessions] for one session. *)
Definition processSession (p : N) : Go unit :=
  do* st := atomic (λ s, (us_State (session p s), s)) in
  match st with
  | uploadUploading => Ret tt
  | uploadPending => launchIfCapacity p
  | uploadComplete => do* id := atomic (λ s, (us_ID (session p s), s)) in atomic_ (finishSession id)
  | uploadErrored =>
      do* early := atomic (λ s, (time_Before (w_now (s_net s)) (us_nextRetry (session p s)), s)) in
      if early : bool then Ret tt else
      atomic_ (upd_session p (λ u, set_us_Retries (i64 (us_Retries u + 1)) u)) ;;;
      do* transient := atomic (λ s, (us_Transient (session p s), s)) in
      if transient : bool then
        atomic_ (λ s, upd_session p (λ u,
          setNextRetryAt (time_Add (w_now (s_net s)) (backoffFor (us_Retries u))) u) s) ;;;
        atomic_ (upd_session p (setState uploadPending None)) ;;;
        launchIfCapacity p
      else
        do* over := atomic (λ s, (retryCap (s_um s) <? us_Retries (session p s), s)) in
        if over : bool then
          do* id := atomic (λ s, (us_ID (session p s), s)) in atomic_ (finishSession id)
        else
          atomic_ (upd_session p (setState uploadPending None)) ;;; launchIfCapacity p
  end.

(** [processSessions]; [order] is the order in which [range] visits the map. *)
Definition processSessions (order : gmap string N → list N) : Go unit :=
  do* ps := atomic (λ s, (order (sessions (s_um s)), s)) in
  res_iter processSession ps.

(** The cases of the [select] of [uploadLoop]; [None] waits. A session is
    received and registered in one action: in between only a blocked sender
    could go on. *)
Inductive LoopEvent := EvQueue | EvDelete | EvTick (order : gmap string N → list N).

Definition uploadLoop_case (ev : LoopEvent) : Go unit :=
  match ev with
  | EvQueue => Act (λ s, match queue (s_um s) with
                         | [] => None
                         | p :: q => Some (enqueueSession p (on_um (set_queue q) s), Ret tt)
                         end)
  | EvDelete => Act (λ s, match deletionQueue (s_um s) with
                          | [] => None
                          | id :: q => Some (finishSession id (on_um (set_deletionQueue q) s), Ret tt)
                          end)
  | EvTick order => processSessions order
  end.

Definition InFlight (s : St) : Z := inFlight (s_um s).
Definition Metrics (s : St) : Z * Z := (completed (s_um s), failed (s_um s)).
End manager.
