(* ===== verification/UploadSlots.v ===== *)
(** The upload manager under every interleaving of its goroutines: the count of
    uploads in flight. *)

From S2P Require Import Uploads.

#[local] Open Scope Z_scope.
#[local] Open Scope res_scope.
#[local] Set Default Proof Using "Type".

Section conf.
Context {D W : Type} `{Bolt D} `{Clock W} `{GraphAPI W} `{LocalZone}.
Abbreviation St := (Sys D W).
Abbreviation Go A := (Res St A).

(** ** The goroutines of a mount that use the manager

    The loop either waits in its [select] ([Ret tt]) or handles a case of it;
    the others are the calls of the manager's methods and the uploads it
    launched. [calls] tells the calls that may be made. Everything else the
    mount runs (listings, delta sync, writes) changes the state around the
    manager, within [env]. *)
Record Conf := mkConf { c_sys : St; c_loop : Go unit; c_pool : list (Go unit) }.

(** [range] over a map visits each entry once. *)
Definition event_ok (ev : LoopEvent) : Prop :=
  match ev with
  | EvTick order => ∀ m, order m ≡ₚ (map_to_list m).*2
  | _ => True
  end.

Context (calls : Go unit → Prop) (env : St → St → Prop).

Inductive um_step : Conf → Conf → Prop :=
  | um_thread s l ts s' ts' : pool_step (s, ts) (s', ts') → um_step (mkConf s l ts) (mkConf s' l ts')
  | um_loop s f s' l' ts : f s = Some (s', l') → um_step (mkConf s (Act f) ts) (mkConf s' l' ts)
  | um_loop_go s child k ts : um_step (mkConf s (Fork child k) ts) (mkConf s k (ts ++ [child]))
  | um_select s ev ts : event_ok ev → um_step (mkConf s (Ret tt) ts) (mkConf s (uploadLoop_case ev) ts)
  | um_call s l ts t : calls t → um_step (mkConf s l ts) (mkConf s l (ts ++ [t]))
  | um_env s l ts s' : env s s' → um_step (mkConf s l ts) (mkConf s' l ts).

(** [n] steps of the loop alone. *)
Fixpoint loop_steps (n : nat) (c : Conf) : option Conf :=
  match n with
  | O => Some c
  | S n =>
      match c_loop c with
      | Ret _ => None
      | Act f => match f (c_sys c) with
                 | Some (s, l) => loop_steps n (mkConf s l (c_pool c))
                 | None => None
                 end
      | Fork child k => loop_steps n (mkConf (c_sys c) k (c_pool c ++ [child]))
      end
  end.
Lemma loop_steps_rtc n c c' : loop_steps n c = Some c' → rtc um_step c c'.
Proof.
  revert c. induction n as [|n IH]; intros [s l ts] E; simpl in E; [by simplify_eq|].
  destruct l as [|f|child k]; [done| |].
  - destruct (f s) as [[s1 l1]|] eqn:Ef; [|done]. eapply rtc_l; [by apply um_loop|by apply IH].
  - eapply rtc_l; [apply um_loop_go|by apply IH].
Qed.

(** An invariant of the state: safe for the handlers of the loop, the calls,
    and what happens outside. *)
Definition conf_safe (I : St → Prop) (c : Conf) : Prop :=
  I (c_sys c) ∧ safe I (c_loop c) ∧ Forall (safe I) (c_pool c).
Lemma conf_safe_step (I : St → Prop) c c' :
  (∀ t, calls t → safe I t) → (∀ s s', env s s' → I s → I s') →
  (∀ ev, event_ok ev → safe I (uploadLoop_case ev)) →
  conf_safe I c → um_step c c' → conf_safe I c'.
Proof.
  unfold conf_safe. intros Hcalls Henv Hev (HI & Hl & Hp) Hs.
  destruct Hs as [s l ts s' ts' Hstep|s f s' l' ts Hf|s child k ts|s ev ts Hok|s l ts t Ht|s l ts s' He]; simpl in *.
  - destruct (safe_pool_step I (s, ts) (s', ts') (conj HI Hp) Hstep). by split_and!.
  - destruct (safe_pool_step I (s, [Act f]) (s', [l']) ) as [? Hl']; [split; [done|by constructor]|by apply (pool_act s s' [] [])|].
    inversion_clear Hl'. by split_and!.
  - destruct (safe_pool_step I (s, [Fork child k]) (s, [k; child])) as [_ Hk]; [split; [done|by constructor]|apply (pool_fork s [] [])|].
    inversion_clear Hk as [|? ? Hk1 Hk2]. inversion_clear Hk2. split_and!; [done..|]. apply Forall_app. by repeat constructor.
  - split_and!; auto.
  - split_and!; [done..|]. apply Forall_app. auto.
  - split_and!; eauto.
Qed.
Lemma conf_safe_reachable (I : St → Prop) c c' :
  (∀ t, calls t → safe I t) → (∀ s s', env s s' → I s → I s') →
  (∀ ev, event_ok ev → safe I (uploadLoop_case ev)) →
  conf_safe I c → rtc um_step c c' → conf_safe I c'.
Proof. intros. eapply rtc_invariant; [|done..]. intros a b. by apply conf_safe_step. Qed.
End conf.

(** Straight-line code is safe when its actions are. *)
Ltac go_safe := repeat (intros || case_match || apply safe_bind || apply safe_ret
  || apply safe_atomic || apply safe_atomic_ || apply safe_await || apply safe_fork || apply safe_iter).

Section slots.
Context {D W : Type} `{Bolt D} `{Clock W} `{GraphAPI W} `{LocalZone}.
Abbreviation St := (Sys D W).
Abbreviation Go A := (Res St A).

(** The manager's methods, as its users call them. *)
Inductive um_api : Go unit → Prop :=
  | api_queue id parentID name : um_api (QueueUpload id parentID name ;;; Ret tt)
  | api_cancel id : um_api (CancelUpload id)
  | api_rename id parentID name : um_api (RenameSession id parentID name).

(** What happens outside the manager leaves it, and its sessions, alone. *)
Definition outside (s s' : St) : Prop :=
  s_um s' = s_um s ∧ s_objs s' = s_objs s ∧ s_next s' = s_next s.

(** ** The slots *)

Definition same_slots (s s' : St) : Prop :=
  inFlight (s_um s') = inFlight (s_um s) ∧ maxUploadsInFlight (s_um s') = maxUploadsInFlight (s_um s).

Lemma same_slots_um (f : UploadManager → UploadManager) s :
  (∀ m, inFlight (f m) = inFlight m ∧ maxUploadsInFlight (f m) = maxUploadsInFlight m) →
  same_slots s (on_um f s).
Proof. intros Hf. apply Hf. Qed.
Lemma same_slots_eq s s' : s_um s' = s_um s → same_slots s s'.
Proof. by intros E; unfold same_slots; rewrite E. Qed.
Lemma same_slots_trans s1 s2 s3 : same_slots s1 s2 → same_slots s2 s3 → same_slots s1 s3.
Proof. unfold same_slots. intuition congruence. Qed.

Lemma um_on_db f (s : St) : s_um (on_db f s) = s_um s.
Proof. unfold on_db. by destruct (f _). Qed.
Lemma um_on_content {A} (f : ContentCache → A * ContentCache) (s : St) : s_um (on_content f s).2 = s_um s.
Proof. unfold on_content. by destruct (f _). Qed.
Lemma um_on_net {A} (f : W → A * W) (s : St) : s_um (on_net f s).2 = s_um s.
Proof. unfold on_net. by destruct (f _). Qed.
Lemma um_discard p (s : St) : s_um (discard p s) = s_um s.
Proof. unfold discard. by destruct (DiscardSnapshot _ _). Qed.
Lemma um_doUpload id b parentID name r size etag (s : St) : s_um (doUpload id b parentID name r size etag s).2 = s_um s.
Proof.
  unfold doUpload. destruct (read_content r s) as [[data err] s1] eqn:E. rewrite um_on_net.
  destruct r; simpl in E; [|by simplify_eq].
  unfold on_disk_ in E. pose proof (um_on_content
    (λ c, let '(a, d) := file_ReadAll fd (ContentCache.disk c) in (a, ContentCache.set_disk d c)) s) as Hc.
  destruct (on_content _ s) as [x s2]. by simplify_eq.
Qed.

Lemma um_on_disk {A} (f : Disk → A * Disk) (s : St) : s_um (on_disk_ f s).2 = s_um s.
Proof. apply um_on_content. Qed.
Lemma um_open p (s : St) : s_um (session_open p s).2 = s_um s.
Proof. apply um_on_disk. Qed.

Create Rewrite HintDb slots.
#[local] Hint Rewrite um_on_db (@um_on_content) (@um_on_net) (@um_on_disk) um_open um_discard um_doUpload : slots.

Lemma slots_enqueue p s : same_slots s (enqueueSession p s).
Proof.
  unfold enqueueSession, persistSession. unfold same_slots. autorewrite with slots. simpl.
  destruct (sessions (s_um s) !! _); autorewrite with slots; done.
Qed.
Lemma slots_finish id s : same_slots s (finishSession id s).
Proof.
  unfold finishSession. destruct (sessions (s_um s) !! id); [|done].
  unfold same_slots. by autorewrite with slots.
Qed.

(** The states: the cap, and a count within it. *)
Definition slots_ok (cap : Z) (s : St) : Prop := inFlightCap (s_um s) = cap ∧ 0 ≤ InFlight s ≤ cap.
Context (cap : Z).
Abbreviation debt Q n t := (owes (slots_ok cap) InFlight _ Q n t).
Abbreviation keeps n t := (owes (slots_ok cap) InFlight _ (λ _ d, d = n) n t).

Lemma same_slots_ok s s' : same_slots s s' → slots_ok cap s → slots_ok cap s' ∧ InFlight s' = InFlight s.
Proof. unfold same_slots, slots_ok, InFlight, inFlightCap. intros [-> ->]. done. Qed.

Lemma keeps_atomic {A} (n : Z) (f : St → A * St) : 0 ≤ n → (∀ s, same_slots s (f s).2) → keeps n (atomic f).
Proof. intros Hn Hf. apply owes_atomic; [done|]. intros s Hs. by apply same_slots_ok. Qed.
Lemma keeps_atomic_ (n : Z) (f : St → St) : 0 ≤ n → (∀ s, same_slots s (f s)) → keeps n (atomic_ f).
Proof. intros Hn Hf. apply owes_atomic_; [done|]. intros s Hs. by apply same_slots_ok. Qed.
Lemma keeps_ret {A} n (a : A) : keeps n (Ret a).
Proof. by apply owes_ret. Qed.
Lemma slots_bind {A B} (n : Z) (m : Go A) (k : A → Go B) :
  keeps n m → (∀ a, keeps n (k a)) → keeps n (res_bind m k).
Proof. intros Hm Hk. eapply owes_bind; [exact Hm|]. intros a ? ->. apply Hk. Qed.
Lemma keeps_await (n : Z) (ready : St → bool) (f : St → St) :
  0 ≤ n → (∀ s, same_slots s (f s)) → keeps n (await ready f).
Proof.
  intros Hn Hf. apply owes_act with (λ _, n); intros s s' t' Hg _ E;
    destruct (ready s); simplify_eq; [|by apply owes_ret].
  destruct (same_slots_ok s (f s) (Hf s) Hg) as [? Hl]. split_and!; [done|lia|done].
Qed.

(** Straight-line code that never touches the count keeps the debt. *)
Ltac keep := repeat (intros || case_match || apply slots_bind || apply keeps_ret
  || (apply keeps_atomic; [lia|]) || (apply keeps_atomic_; [lia|]) || (apply keeps_await; [lia|])
  || (apply same_slots_eq; autorewrite with slots; reflexivity) || (apply same_slots_um; done)
  || apply slots_finish || apply slots_enqueue || (match goal with |- (0 ≤ _)%Z => lia end)).

Lemma keeps_close n r : 0 ≤ n → keeps n (closeContentReader r).
Proof. intros. unfold closeContentReader. keep. Qed.

Lemma keeps_upload n id b parentID name p etag : 0 ≤ n → keeps n (upload id b parentID name p etag).
Proof.
  intros Hn. unfold upload, uploadAfterConflict.
  repeat (apply keeps_close || (progress keep)).
Qed.
Lemma keeps_succeeded n p id parentID name item b : 0 ≤ n → keeps n (upload_succeeded p id parentID name item b).
Proof. intros Hn. unfold upload_succeeded, applyInflightTargetChange. keep. Qed.

(** An upload in flight owes its slot, and gives it back on every path. *)
Lemma upload_owes_slot p : debt (λ _ d, d = 0) 1 (executeUpload p).
Proof.
  unfold executeUpload. eapply (owes_bind _ _ (λ _ d, d = 1)); [apply keeps_atomic_; keep|]. intros _ ? ->.
  eapply (owes_bind _ _ (λ _ d, d = 1)); [apply keeps_atomic; keep|]. intros u ? ->. cbv zeta.
  eapply (owes_bind _ _ (λ _ d, d = 1)); [keep|]. intros etag ? ->.
  eapply (owes_bind _ _ (λ _ d, d = 1)); [by apply keeps_upload|]. intros r ? ->.
  eapply (owes_bind _ _ (λ _ d, d = 1)).
  { destruct r as [e|[item b]]; [unfold upload_failed; keep|by apply keeps_succeeded]. }
  intros _ ? ->. apply owes_act with (λ _, 0).
  - intros s s' t' [Hc Hs] Hge [= <- <-]. unfold InFlight in *. unfold releaseInFlight.
    unfold slots_ok, InFlight, inFlightCap in *. simpl. destruct (Z.ltb_spec 0 (inFlight (s_um s))); [|lia].
    simpl. split_and!; [done|lia..].
  - intros s s' t' _ _ [= <- <-]. by apply owes_ret.
Qed.

Lemma keeps_launch p : keeps 0 (launchIfCapacity p).
Proof.
  unfold launchIfCapacity. set (P := λ (b : bool) d, d = (if b then 1 else 0)).
  eapply (owes_bind _ _ P).
  - apply owes_act with (λ s, if inFlightCap (s_um s) <=? inFlight (s_um s) then 0 else 1).
    + intros s s' t' [Hc Hs] _ E. unfold slots_ok, InFlight, inFlightCap in *.
      destruct (Z.leb_spec (if maxUploadsInFlight (s_um s) <=? 0 then defaultMaxUploadsInFlight
        else maxUploadsInFlight (s_um s)) (inFlight (s_um s))); simplify_eq; simpl; split_and!; lia || done.
    + intros s s' t' _ _ E. destruct (_ <=? _); simplify_eq; by apply owes_ret.
  - intros [] ? ->; [|by apply keeps_ret]. unfold fork. apply (owes_fork _ _ _ _ 1 0); [lia..|apply upload_owes_slot|].
    by apply owes_ret.
Qed.

#[local] Opaque launchIfCapacity.
Lemma keeps_processSession p : keeps 0 (processSession p).
Proof.
  unfold processSession. repeat (apply keeps_launch || (progress keep)).
Qed.

Lemma keeps_case ev : keeps 0 (uploadLoop_case ev).
Proof.
  destruct ev as [| |order]; simpl.
  - apply owes_act with (λ _, 0); intros s s' t' Hg _ E; destruct (queue (s_um s)) as [|p q]; simplify_eq; [|keep].
    destruct (same_slots_ok s (enqueueSession p (on_um (set_queue q) s))) as [? ->];
      [eapply same_slots_trans; [|apply slots_enqueue]; keep|done|]. split_and!; [done|lia..].
  - apply owes_act with (λ _, 0); intros s s' t' Hg _ E; destruct (deletionQueue (s_um s)) as [|id q]; simplify_eq; [|keep].
    destruct (same_slots_ok s (finishSession id (on_um (set_deletionQueue q) s))) as [? ->];
      [eapply same_slots_trans; [|apply slots_finish]; keep|done|]. split_and!; [done|lia..].
  - unfold processSessions. apply slots_bind; [keep|]. intros ps. apply owes_iter. intros p _. apply keeps_processSession.
Qed.

Lemma keeps_api t : um_api t → keeps 0 t.
Proof.
  destruct 1; unfold QueueUpload, CancelUpload, RenameSession, send_queue, send_deletion; keep.
  all: unfold persistSession; keep. all: match goal with E : new_session _ _ = _ |- _ => injection E as _ <-; by split end.
Qed.

Definition slots_inv (c : Conf) : Prop := balanced (slots_ok cap) InFlight (c_sys c, c_loop c :: c_pool c).

Context (calls : Go unit → Prop) (env : St → St → Prop).
Context (calls_ok : ∀ t, calls t → um_api t) (env_ok : ∀ s s', env s s' → outside s s').

Lemma slots_step c c' : slots_inv c → um_step calls env c c' → slots_inv c'.
Proof using calls_ok env_ok.
  unfold slots_inv. intros HI Hs. destruct Hs as [s l ts s' ts' Hp|s f s' l' ts Hf|s child k ts|s ev ts _|s l ts t Ht|s l ts s' He];
    simpl in *.
  - eapply pool_step_balanced; [exact HI|]. inversion Hp; subst.
    + rewrite !app_comm_cons. by constructor.
    + rewrite !app_comm_cons. constructor.
    + rewrite !app_comm_cons. constructor.
  - eapply pool_step_balanced; [exact HI|]. by apply (pool_act _ _ [] ts).
  - eapply pool_step_balanced; [exact HI|]. apply (pool_fork _ [] ts).
  - destruct HI as [Hg Ho]. split; [done|]. simpl in *.
    destruct (pool_owes_one _ _ _ [] _ _ Ho) as (a & m & Hl & _ & _ & Ht & Hr & Hput).
    inversion Ht; subst. rewrite Hl. apply (Hput 0); [lia|apply keeps_case].
  - apply (balanced_spawn _ _ _ (l :: ts)); [done|]. by apply keeps_api, calls_ok.
  - destruct HI as [Hg Ho]. destruct (env_ok _ _ He) as (E & _ & _).
    destruct (same_slots_ok s s' (same_slots_eq _ _ E) Hg) as [Hg' Hl]. split; [done|]. simpl in *. by rewrite Hl.
Qed.

Lemma slots_reachable c c' : slots_inv c → rtc (um_step calls env) c c' → slots_inv c'.
Proof using calls_ok env_ok. apply rtc_invariant, slots_step. Qed.

(** A manager that was just started. *)
Lemma slots_start s : 0 < cap → inFlightCap (s_um s) = cap → InFlight s = 0 → slots_inv (mkConf s (Ret tt) []).
Proof.
  intros Hc Hcap Hn. split; [split; [done|simpl in *; lia]|]. simpl. rewrite Hn.
  apply (pool_owes_cons _ _ 0 0); [lia|by apply owes_ret|constructor].
Qed.

(** When only finished goroutines remain, nothing is owed. *)
Lemma slots_idle c : slots_inv c → c_loop c = Ret tt → Forall (λ t, t = Ret tt) (c_pool c) → InFlight (c_sys c) = 0.
Proof.
  intros [_ Ho] Hl Hp. simpl in Ho. rewrite Hl in Ho.
  assert (Hall : Forall (λ t, t = Ret tt) (Ret tt :: c_pool c)) by (constructor; done).
  clear Hl Hp. revert Hall Ho. generalize (Ret tt :: c_pool c : list (Go unit)). generalize (InFlight (c_sys c)).
  intros n ts. revert n. induction ts as [|t ts IH]; intros n Hall Ho; inversion Ho as [|a b ? ? Ha Ht Hb]; subst; [done|].
  inversion Hall; subst. inversion Ht; subst. rewrite (IH b); done || lia.
Qed.
End slots.
