(* ===== verification/UploadPersist.v ===== *)
(** The persisted upload sessions: their JSON form, and the agreement between
    the manager's map and the database under every interleaving. *)

From S2P Require Import Uploads UploadSlots.

#[local] Open Scope Z_scope.
#[local] Open Scope res_scope.

(** ** The persisted form of a session *)

(** The state and the backoff are not written: they come back as zero values;
    the text of the last error comes back as valid UTF-8. *)
Definition persisted_view (u : UploadSession) : UploadSession :=
  setNextRetryAt zeroTime (mkSession (us_ID u) (us_ParentID u) (us_Name u) (us_Data u) (us_SnapshotPath u)
    (us_Size u) uploadPending (us_Retries u) (utf8_coerce (us_LastErr u)) (us_Transient u) (us_nextRetry u)).

(** What an upload needs to know of its file: fixed when it is enqueued. *)
Definition target (u : UploadSession) := (us_ID u, us_ParentID u, us_Name u, us_Data u, us_SnapshotPath u, us_Size u).
Definition target_ok (u : UploadSession) : Prop :=
  utf8_valid (us_ID u) ∧ utf8_valid (us_ParentID u) ∧ utf8_valid (us_Name u) ∧
  Forall is_byte (us_Data u) ∧ utf8_valid (us_SnapshotPath u) ∧ - 2 ^ 63 ≤ us_Size u < 2 ^ 63.
Definition retries_ok (u : UploadSession) : Prop := - 2 ^ 63 ≤ us_Retries u < 2 ^ 63.

(** What [AsJSON] writes, [NewUploadSessionJSON] reads back. *)
Lemma session_roundtrip u :
  target_ok u → retries_ok u → NewUploadSessionJSON (Some (Session_AsJSON u)) = inr (persisted_view u).
Proof.
  destruct u as [id pid name data path sz st rt le tr nr]. intros (Hid & Hpid & Hname & Hdata & Hpath & Hsz) Hrt.
  unfold retries_ok in Hrt. cbn [us_ID us_ParentID us_Name us_Data us_SnapshotPath us_Size us_Retries us_LastErr] in *.
  unfold NewUploadSessionJSON, Session_AsJSON. cbn [mbind option_bind]. rewrite dec_struct_obj.
  cbn [us_ID us_ParentID us_Name us_Data us_SnapshotPath us_Size us_Retries us_LastErr us_Transient app].
  do 3 (erewrite dec_members_string; [|reflexivity|assumption]).
  rewrite dec_members_app. replace (dec_members Session_fields (omit_if _ "data" _) _)
    with (Some (mkSession id pid name data "" 0 uploadPending 0 "" false zeroTime)).
  2:{ unfold omit_if. case_bool_decide as Hd; [by subst|]. rewrite dec_members_cons. cbn [fst snd].
      replace (field_for Session_fields "data") with (Some (dec_field us_Data set_us_Data dec_bytes)) by reflexivity.
      unfold dec_field, dec_bytes, enc_bytes. rewrite base64_roundtrip by done. reflexivity. }
  cbn [mbind option_bind]. member_str.
  rewrite dec_members_app. erewrite dec_members_num; [|reflexivity|lia|by intros []|reflexivity]. cbn [mbind option_bind].
  change ([("retries", JNum rt)] ++ ?l) with (("retries", JNum rt) :: l).
  rewrite dec_members_cons. cbn [fst snd].
  replace (field_for Session_fields "retries") with (Some (dec_field us_Retries set_us_Retries dec_int64)) by reflexivity.
  unfold dec_field, dec_int64, dec_int. rewrite (proj2 (Z.leb_le _ rt)), (proj2 (Z.leb_le rt _)) by lia.
  cbn [andb fmap option_fmap option_map mbind option_bind].
  rewrite dec_members_app. replace (dec_members Session_fields (enc_str_field "lastErr" le) _)
    with (Some (mkSession id pid name data path sz uploadPending rt (utf8_coerce le) false zeroTime)).
  2:{ unfold enc_str_field, omit_if. case_bool_decide as Hle; [by subst|]. reflexivity. }
  cbn [mbind option_bind]. by destruct tr.
Qed.


(** ** The uploads bucket *)

(** The database accepts the writes of the manager. *)
Class UploadsWritable (D : Type) `{Bolt D} := {
  uploads_put d id v : bolt_bucket d boltBucketUploads = true → ∃ d', bolt_put boltBucketUploads id v d = inr d';
  uploads_delete d id : bolt_bucket d boltBucketUploads = true → ∃ d', bolt_delete boltBucketUploads id d = inr d';
  uploads_commit d d' : bolt_commit d d' = None;
}.

Section bucket.
Context {D : Type} `{UploadsWritable D, !BoltLaws D}.
Definition entry (d : D) (id : string) : option bval := bolt_get d boltBucketUploads id.
Definition has_uploads (d : D) : Prop := bolt_bucket d boltBucketUploads = true.

Lemma save_entry id j d c : has_uploads d →
  ∃ d', SaveUploadSession id j (Some d, c) = (Some d', c) ∧ has_uploads d' ∧
    ∀ k, entry d' k = if decide (k = id) then Some (VJson j) else entry d k.
Proof.
  intros Hb. destruct (uploads_put d id (VJson j) Hb) as [d' Hd]. exists d'.
  unfold SaveUploadSession, logged, with_db, db_Update, need_bucket, bucket_Put, se_bind, se_get, se_ret.
  cbn [fst]. rewrite Hb, Hd, uploads_commit. split_and!; [done| |].
  - unfold has_uploads. by rewrite (put_bucket _ _ _ _ _ _ Hd).
  - intros k. unfold entry. rewrite (put_get _ _ _ _ _ Hd).
    destruct (decide (k = id)) as [->|]; [by rewrite decide_True|rewrite decide_False; [done|by intros [??]]].
Qed.
Lemma delete_entry id d c : has_uploads d →
  ∃ d', DeleteUploadSession id (Some d, c) = (Some d', c) ∧ has_uploads d' ∧
    ∀ k, entry d' k = if decide (k = id) then None else entry d k.
Proof.
  intros Hb. destruct (uploads_delete d id Hb) as [d' Hd]. exists d'.
  unfold DeleteUploadSession, logged, with_db, db_Update, need_bucket, bucket_Delete, se_bind, se_get, se_ret.
  cbn [fst]. rewrite Hb, Hd, uploads_commit. split_and!; [done| |].
  - unfold has_uploads. by rewrite (delete_bucket _ _ _ _ _ Hd).
  - intros k. unfold entry. rewrite (delete_get _ _ _ _ Hd).
    destruct (decide (k = id)) as [->|]; [by rewrite decide_True|rewrite decide_False; [done|by intros [??]]].
Qed.
End bucket.

(** ** The map and the bucket agree *)

Section stored.
Context {D W : Type} `{UploadsWritable D, !BoltLaws D, Clock W, GraphAPI W, LocalZone}.
Abbreviation St := (Sys D W).
Abbreviation Go A := (Res St A).

(** The entry of a session restores one with the same target. *)
Definition restores (d : D) (id : string) (u : UploadSession) : Prop :=
  ∃ j, entry d id = Some (VJson j) ∧
    (target_ok u → ∃ u', NewUploadSessionJSON j = inr u' ∧ target u' = target u).

Record stored_in (s : St) (d : D) : Prop := {
  st_db : s_db s = Some d;
  st_bucket : has_uploads d;
  st_active id p u : sessions (s_um s) !! id = Some p → s_objs s !! p = Some u → restores d id u;
  st_only id : sessions (s_um s) !! id = None → entry d id = None;
  st_key id p : sessions (s_um s) !! id = Some p → ∃ u, s_objs s !! p = Some u ∧ us_ID u = id;
  st_queue p : p ∈ queue (s_um s) → is_Some (s_objs s !! p) ∧ ∀ id, sessions (s_um s) !! id ≠ Some p;
  st_nodup : NoDup (queue (s_um s));
  st_next p : is_Some (s_objs s !! p) → (p < s_next s)%N;
  st_retries p u : s_objs s !! p = Some u → retries_ok u;
}.
Definition stored (s : St) : Prop := ∃ d, stored_in s d.

(** Actions that move no session and change no target. *)
Record same_store (s s' : St) : Prop := {
  ss_sessions : sessions (s_um s') = sessions (s_um s);
  ss_queue : queue (s_um s') = queue (s_um s);
  ss_db : s_db s' = s_db s;
  ss_next : s_next s' = s_next s;
  ss_target p : target <$> s_objs s' !! p = target <$> s_objs s !! p;
  ss_retries : (∀ p u, s_objs s !! p = Some u → retries_ok u) → ∀ p u, s_objs s' !! p = Some u → retries_ok u;
}.

Lemma target_ok_target u v : target u = target v → target_ok u → target_ok v.
Proof. destruct u, v. intros [=]. unfold target_ok. simpl in *. by subst. Qed.
Lemma restores_target d id u v : target u = target v → restores d id u → restores d id v.
Proof.
  intros E (j & Hj & Hr). exists j. split; [done|]. intros Hv.
  destruct (Hr (target_ok_target _ _ (eq_sym E) Hv)) as (u' & ? & ?). exists u'. split; [done|congruence].
Qed.
Lemma target_ID u v : target u = target v → us_ID u = us_ID v.
Proof. by destruct u, v; intros [=]. Qed.

Lemma same_store_is_Some s s' p : same_store s s' → is_Some (s_objs s' !! p) ↔ is_Some (s_objs s !! p).
Proof. intros HS. pose proof (ss_target _ _ HS p) as E. rewrite <-!(fmap_is_Some target). by rewrite E. Qed.
Lemma same_store_obj s s' p u :
  same_store s s' → s_objs s' !! p = Some u → ∃ v, s_objs s !! p = Some v ∧ target u = target v.
Proof.
  intros HS Hu. pose proof (ss_target _ _ HS p) as E. rewrite Hu in E. simpl in E.
  destruct (s_objs s !! p) as [v|]; [|done]. apply (inj Some) in E. by exists v.
Qed.

Lemma stored_same_in s s' d : same_store s s' → stored_in s d → stored_in s' d.
Proof.
  intros HS [Hdb Hb Ha Ho Hk Hq Hn Hx Hr]. constructor.
  - by rewrite (ss_db _ _ HS).
  - done.
  - intros id p u Hid Hu. rewrite (ss_sessions _ _ HS) in Hid.
    destruct (same_store_obj _ _ _ _ HS Hu) as (v & Hv & E). apply (restores_target d id v u (eq_sym E)); eauto.
  - intros id. rewrite (ss_sessions _ _ HS). auto.
  - intros id p Hid. rewrite (ss_sessions _ _ HS) in Hid. destruct (Hk _ _ Hid) as (u & Hu & <-).
    destruct (proj2 (same_store_is_Some _ _ p HS) ltac:(eauto)) as [v Hv]. exists v. split; [done|].
    destruct (same_store_obj _ _ _ _ HS Hv) as (u1 & Hu1 & E). assert (u1 = u) as -> by congruence. by apply target_ID.
  - intros p. rewrite (ss_queue _ _ HS), (ss_sessions _ _ HS), (same_store_is_Some _ _ _ HS). auto.
  - by rewrite (ss_queue _ _ HS).
  - intros p. rewrite (same_store_is_Some _ _ _ HS), (ss_next _ _ HS). auto.
  - by apply (ss_retries _ _ HS).
Qed.
Lemma stored_same s s' : same_store s s' → stored s → stored s'.
Proof. intros ? [d ?]. exists d. by eapply stored_same_in. Qed.

(** *** The actions that keep the agreement without touching it *)

Lemma same_store_refl s : same_store s s.
Proof. by constructor. Qed.
Lemma same_store_trans s1 s2 s3 : same_store s1 s2 → same_store s2 s3 → same_store s1 s3.
Proof.
  intros [A1 A2 A3 A4 A5 A6] [B1 B2 B3 B4 B5 B6]. constructor; [congruence..|intros p; by rewrite B5|intros Hr; by apply B6, A6].
Qed.
Lemma same_store_um f (s : St) :
  (∀ m, sessions (f m) = sessions m ∧ queue (f m) = queue m) → same_store s (on_um f s).
Proof. intros Hf. destruct (Hf (s_um s)). by constructor. Qed.
Lemma same_store_inodes f (s : St) : same_store s (on_inodes f s).
Proof. by constructor. Qed.
Lemma same_store_content {A} (f : ContentCache → A * ContentCache) (s : St) : same_store s (on_content f s).2.
Proof. unfold on_content. destruct (f _). by constructor. Qed.
Lemma same_store_net {A} (f : W → A * W) (s : St) : same_store s (on_net f s).2.
Proof. unfold on_net. destruct (f _). by constructor. Qed.
Lemma same_store_session p f (s : St) :
  (∀ u, target (f u) = target u) → (∀ u, retries_ok u → retries_ok (f u)) → same_store s (upd_session p f s).
Proof.
  intros Ht Hr. constructor; try done; cbn [upd_session on_objs s_objs].
  - intros q. destruct (decide (p = q)) as [->|]; [|by rewrite lookup_alter_ne].
    rewrite lookup_alter_eq. destruct (s_objs s !! q); simpl; [by rewrite Ht|done].
  - intros Hs q u Hu. destruct (decide (p = q)) as [->|]; [|rewrite lookup_alter_ne in Hu by done; eauto].
    rewrite lookup_alter_eq in Hu. apply fmap_Some in Hu as (v & Hv & ->). eauto.
Qed.
Lemma same_store_doUpload id b parentID name r size etag (s : St) :
  same_store s (doUpload id b parentID name r size etag s).2.
Proof.
  unfold doUpload. destruct (read_content r s) as [[data err] s1] eqn:E.
  eapply same_store_trans; [|apply same_store_net]. destruct r as [fd|l]; simpl in E; [|simplify_eq; apply same_store_refl].
  pose proof (same_store_content (λ c, let '(a, d) := file_ReadAll fd (ContentCache.disk c) in
    (a, ContentCache.set_disk d c)) s) as Hc.
  unfold on_disk_ in E. destruct (on_content _ s) as [x s2]. by simplify_eq.
Qed.

(** *** Discarding, saving and deleting *)

Lemma discard_fields p (s : St) :
  s_um (discard p s) = s_um s ∧ s_db (discard p s) = s_db s ∧ s_next (discard p s) = s_next s ∧
  s_objs (discard p s) = alter (λ _, set_us_SnapshotPath "" (session p s)) p (s_objs s).
Proof. unfold discard. by destruct (DiscardSnapshot _ _) as [u d] eqn:E; injection E as <- <-. Qed.

Lemma on_db_delete id (s : St) d : s_db s = Some d → has_uploads d →
  ∃ d', has_uploads d' ∧ (∀ k, entry d' k = if decide (k = id) then None else entry d k) ∧
    on_db (DeleteUploadSession id) s = mkSys (s_um s) (s_objs s) (s_next s) (Some d') (s_inodes s) (s_content s) (s_net s).
Proof.
  intros Hdb Hb. destruct (delete_entry id d (s_inodes s) Hb) as (d' & Hd & Hb' & He).
  exists d'. split_and!; [done..|]. unfold on_db. by rewrite Hdb, Hd.
Qed.
Lemma persist_fields id p (s : St) d : s_db s = Some d → has_uploads d →
  ∃ d', has_uploads d' ∧
    (∀ k, entry d' k = if decide (k = id) then Some (VJson (Some (Session_AsJSON (session p s)))) else entry d k) ∧
    persistSession id p s = mkSys (s_um s) (s_objs s) (s_next s) (Some d') (s_inodes s) (s_content s) (s_net s).
Proof.
  intros Hdb Hb. destruct (save_entry id (Some (Session_AsJSON (session p s))) d (s_inodes s) Hb) as (d' & Hd & Hb' & He).
  exists d'. split_and!; [done..|]. unfold persistSession, on_db. by rewrite Hdb, Hd.
Qed.

(** Sessions of different IDs are different objects. *)
Lemma stored_inj s d id id' p : stored_in s d → sessions (s_um s) !! id = Some p → sessions (s_um s) !! id' = Some p → id = id'.
Proof.
  intros Hs Ha Hb. destruct (st_key _ _ Hs _ _ Ha) as (u & Hu & <-).
  destruct (st_key _ _ Hs _ _ Hb) as (v & Hv & <-). congruence.
Qed.

Lemma set_path_retries u : retries_ok u → retries_ok (set_us_SnapshotPath "" u).
Proof. done. Qed.

Lemma alter_is_Some (f : UploadSession → UploadSession) p q (m : gmap N UploadSession) :
  is_Some (alter f p m !! q) ↔ is_Some (m !! q).
Proof.
  destruct (decide (p = q)) as [->|]; [|by rewrite lookup_alter_ne].
  rewrite lookup_alter_eq. by rewrite fmap_is_Some.
Qed.
Lemma discard_retries p (s : St) : (∀ q u, s_objs s !! q = Some u → retries_ok u) →
  ∀ q u, s_objs (discard p s) !! q = Some u → retries_ok u.
Proof.
  intros Hr q u. destruct (discard_fields p s) as (_ & _ & _ & ->).
  destruct (decide (p = q)) as [->|]; [|rewrite lookup_alter_ne by done; eauto].
  rewrite lookup_alter_eq. intros (v & Hv & ->)%fmap_Some. unfold session. rewrite Hv. apply (Hr q v Hv).
Qed.

Lemma stored_finish id s : stored s → stored (finishSession id s).
Proof.
  intros [d Hs]. unfold finishSession. destruct (sessions (s_um s) !! id) as [p|] eqn:Hid; [|by exists d].
  set (s1 := on_um (λ m, set_sessions (delete id (sessions m)) m) s).
  destruct (discard_fields p s1) as (Eum & Edb & Enx & Eob).
  destruct (on_db_delete id (discard p s1) d) as (d' & Hb & He & ->); [by rewrite Edb; apply Hs|apply Hs|].
  assert (Hne : ∀ id' q, sessions (s_um s1) !! id' = Some q → id' ≠ id ∧ q ≠ p ∧ sessions (s_um s) !! id' = Some q).
  { simpl. intros id' q [Hn Hq]%lookup_delete_Some. split_and!; [done| |done]. intros ->. by apply Hn, (stored_inj s d id id' p Hs). }
  exists d'. constructor; cbn [s_db s_um s_objs s_next]; rewrite ?Eum.
  - done.
  - done.
  - intros id' q u Hq Hu. destruct (Hne _ _ Hq) as (? & ? & Hq'). rewrite Eob, lookup_alter_ne in Hu by done.
    destruct (st_active _ _ Hs _ _ _ Hq' Hu) as (j & Hj & ?). exists j. split; [|done]. rewrite He, decide_False by done. done.
  - intros id'. rewrite He. simpl. destruct (decide (id' = id)) as [->|]; [done|]. rewrite lookup_delete_ne by done.
    apply Hs.
  - intros id' q Hq. destruct (Hne _ _ Hq) as (? & ? & Hq'). rewrite Eob, lookup_alter_ne by done. by apply Hs.
  - intros q Hq. rewrite Eob, alter_is_Some. destruct (st_queue _ _ Hs q Hq) as [? Hn]. split; [done|].
    intros id' (?&?&Hq')%Hne. by apply (Hn id').
  - apply Hs.
  - intros q. rewrite Eob, alter_is_Some, Enx. apply Hs.
  - apply discard_retries. apply Hs.
Qed.

(** Registering the session at the head of the queue. *)
Lemma stored_enqueue p q s : stored s → queue (s_um s) = p :: q →
  stored (enqueueSession p (on_um (set_queue q) s)).
Proof.
  intros [d Hs] Hq. destruct (st_queue _ _ Hs p ltac:(rewrite Hq; left)) as [[u Hu] Hfree].
  unfold enqueueSession. set (id := us_ID (session p _)).
  assert (Hid : id = us_ID u) by (unfold id, session; simpl; by rewrite Hu).
  pose proof (st_nodup _ _ Hs) as Hnd. rewrite Hq in Hnd. apply NoDup_cons in Hnd as [Hpq Hnd].
  (* the state after the older session was dropped: only its object changed *)
  set (s1 := match sessions (s_um (on_um (set_queue q) s)) !! id with Some old => _ | None => _ end).
  assert (Hdrop : s_um s1 = set_queue q (s_um s) ∧ s_db s1 = s_db s ∧ s_next s1 = s_next s ∧
    (∀ x, is_Some (s_objs s1 !! x) ↔ is_Some (s_objs s !! x)) ∧
    (∀ x, (∀ old, sessions (s_um s) !! id = Some old → x ≠ old) → s_objs s1 !! x = s_objs s !! x) ∧
    (∀ x v, s_objs s1 !! x = Some v → retries_ok v)).
  { subst s1. simpl. destruct (sessions (s_um s) !! id) as [old|] eqn:Eold; [|split_and!; [done..|apply Hs]].
    destruct (discard_fields old (upd_session old (setState uploadComplete None) (on_um (set_queue q) s)))
      as (-> & -> & -> & Eob). split_and!; [done..| | |].
    - intros x. rewrite Eob. cbn [upd_session on_objs s_objs on_um]. by rewrite !alter_is_Some.
    - intros x Hx. specialize (Hx old eq_refl). rewrite Eob. cbn [upd_session on_objs s_objs on_um].
      by rewrite !lookup_alter_ne by done.
    - apply discard_retries. cbn [upd_session on_objs s_objs on_um]. intros x v Hv.
      destruct (decide (old = x)) as [->|]; [|rewrite lookup_alter_ne in Hv by done; by apply (st_retries _ _ Hs x)].
      rewrite lookup_alter_eq in Hv. apply fmap_Some in Hv as (v' & Hv & ->). by apply (st_retries _ _ Hs x v'). }
  destruct Hdrop as (Eum & Edb & Enx & Esome & Eob & Ert). clearbody s1.
  set (s2 := on_um (λ m, set_sessions (<[id := p]> (sessions m)) m) s1).
  assert (Hup : s_objs s2 !! p = Some u).
  { simpl. rewrite Eob; [done|]. intros old Hold ->. by apply (Hfree id). }
  destruct (persist_fields id p s2 d) as (d' & Hb & He & ->); [simpl; rewrite Edb; apply Hs|apply Hs|].
  assert (Hses : session p s2 = u) by (unfold session; by rewrite Hup). rewrite Hses in He.
  assert (Hold : ∀ id' x, id' ≠ id → sessions (s_um s) !! id' = Some x → s_objs s1 !! x = s_objs s !! x).
  { intros id' x Hne Hx. apply Eob. intros old Ho ->. by apply Hne, (stored_inj s d id' id old Hs). }
  exists d'. constructor; cbn [s_db s_um s_objs s_next on_um]; subst s2;
    cbn [on_um s_um s_objs s_next sessions set_sessions queue] in *; rewrite ?Eum; cbn [set_queue sessions queue].
  - done.
  - done.
  - intros id' x v Hx Hv. destruct (decide (id' = id)) as [->|Hne].
    + rewrite lookup_insert_eq in Hx. apply (inj Some) in Hx as <-. assert (v = u) as -> by congruence.
      exists (Some (Session_AsJSON u)). rewrite He, decide_True by done. split; [done|].
      intros Hok. exists (persisted_view u). rewrite session_roundtrip; [by destruct u|done|by apply (Ert p)].
    + rewrite lookup_insert_ne in Hx by done. rewrite (Hold id' x) in Hv by done.
      destruct (st_active _ _ Hs _ _ _ Hx Hv) as (j & Hj & ?). exists j. split; [|done]. by rewrite He, decide_False by done.
  - intros id' Hx. destruct (decide (id' = id)) as [->|Hne]; [by rewrite lookup_insert_eq in Hx|].
    rewrite lookup_insert_ne in Hx by done. rewrite He, decide_False by done. by apply Hs.
  - intros id' x Hx. destruct (decide (id' = id)) as [->|Hne].
    + rewrite lookup_insert_eq in Hx. apply (inj Some) in Hx as <-. exists u. by split.
    + rewrite lookup_insert_ne in Hx by done. rewrite (Hold id' x) by done. by apply Hs.
  - intros x Hx. rewrite Esome. destruct (st_queue _ _ Hs x ltac:(rewrite Hq; by right)) as [? Hn]. split; [done|].
    intros id'. destruct (decide (id' = id)) as [->|Hne]; [|by rewrite lookup_insert_ne].
    rewrite lookup_insert_eq. by intros [= ->].
  - done.
  - intros x. rewrite Esome, Enx. apply Hs.
  - done.
Qed.

Lemma stored_send u s : retries_ok u → stored s →
  stored (let '(p, s) := new_session u s in on_um (λ m, set_queue (queue m ++ [p]) m) s).
Proof.
  intros Hu [d Hs]. assert (Hnew : s_objs s !! s_next s = None).
  { destruct (s_objs s !! s_next s) eqn:E; [|done]. pose proof (st_next _ _ Hs (s_next s) ltac:(eauto)). lia. }
  assert (Hold : ∀ p, is_Some (s_objs s !! p) → p ≠ s_next s) by (intros p [v Hv] ->; congruence).
  exists d. unfold new_session. constructor; cbn [s_db s_um s_objs s_next on_um sessions set_queue queue].
  - apply Hs.
  - apply Hs.
  - intros id p v Hp. destruct (st_key _ _ Hs _ _ Hp) as (w & Hw & _).
    rewrite lookup_insert_ne by (symmetry; apply Hold; eauto). by apply Hs.
  - apply Hs.
  - intros id p Hp. destruct (st_key _ _ Hs _ _ Hp) as (w & Hw & <-). exists w. split; [|done].
    rewrite lookup_insert_ne; [done|]. symmetry. apply Hold. eauto.
  - intros p [Hp|Hp%list_elem_of_singleton]%elem_of_app.
    + destruct (st_queue _ _ Hs p Hp) as [? ?]. split; [|done]. rewrite lookup_insert_ne; [done|]. symmetry. by apply Hold.
    + subst p. split; [by rewrite lookup_insert_eq|]. intros id Hp. destruct (st_key _ _ Hs _ _ Hp) as (w & Hw & _). congruence.
  - apply NoDup_app. split_and!; [apply Hs| |apply NoDup_singleton].
    intros p Hp ->%list_elem_of_singleton. by destruct (Hold (s_next s) (proj1 (st_queue _ _ Hs _ Hp))).
  - intros p. destruct (decide (p = s_next s)) as [->|]; [lia|]. rewrite lookup_insert_ne by done.
    intros Hp%(st_next _ _ Hs). lia.
  - intros p v. destruct (decide (p = s_next s)) as [->|]; [rewrite lookup_insert_eq; by intros [= <-]|].
    rewrite lookup_insert_ne by done. apply Hs.
Qed.

(** *** Every goroutine keeps the agreement *)

Lemma same_store_slot (s : St) f :
  (∀ m, sessions (f m) = sessions m ∧ queue (f m) = queue m) → stored s → stored (on_um f s).
Proof. intros Hf. apply stored_same. by apply same_store_um. Qed.

Lemma stored_session p f s :
  (∀ u, target (f u) = target u ∧ (retries_ok u → retries_ok (f u))) → stored s → stored (upd_session p f s).
Proof. intros Hf. apply stored_same, same_store_session; intros u; apply Hf. Qed.
Lemma i64_retries u n : retries_ok (set_us_Retries (i64 n) u).
Proof. unfold retries_ok, i64. cbn [us_Retries set_us_Retries]. pose proof (Z.mod_pos_bound (n + 2 ^ 63) (2 ^ 64)). lia. Qed.
Lemma stored_release s : stored s → stored (releaseInFlight s).
Proof. apply same_store_slot. intros m. by case_match. Qed.

Ltac keep_store := go_safe; try first
  [ by apply stored_release
  | by apply stored_session; [intros []; split; [reflexivity|intros Hr; first [exact Hr | apply i64_retries]]|]
  | by eapply stored_same; [first [apply same_store_inodes | apply same_store_content | apply same_store_net
      | apply same_store_doUpload | apply same_store_refl]|]
  | by apply same_store_slot | by apply stored_finish ].

Lemma safe_close r : safe stored (closeContentReader r).
Proof. unfold closeContentReader. keep_store. Qed.
#[local] Opaque closeContentReader.
Lemma safe_upload id b parentID name p etag : safe stored (upload id b parentID name p etag).
Proof.
  unfold upload, uploadAfterConflict, session_open. repeat (apply safe_close || (progress keep_store)).
Qed.
#[local] Opaque upload.
Lemma safe_execute p : safe stored (executeUpload p).
Proof.
  unfold executeUpload, upload_failed, upload_succeeded, applyInflightTargetChange.
  repeat (apply safe_upload || (progress keep_store)).
Qed.
#[local] Opaque executeUpload.
Lemma safe_launch p : safe stored (launchIfCapacity p).
Proof. unfold launchIfCapacity. repeat (apply safe_execute || (progress keep_store)). Qed.
#[local] Opaque launchIfCapacity.
Lemma safe_process p : safe stored (processSession p).
Proof. unfold processSession. repeat (apply safe_launch || (progress keep_store)). Qed.
Lemma safe_case ev : safe stored (uploadLoop_case ev).
Proof.
  destruct ev as [| |order]; simpl.
  - apply safe_act. intros s s' m Hs E. destruct (queue (s_um s)) as [|p q] eqn:Eq; [done|]. injection E as <- <-.
    split; [by apply stored_enqueue|apply safe_ret].
  - apply safe_act. intros s s' m Hs E. destruct (deletionQueue (s_um s)) as [|id q]; [done|]. injection E as <- <-.
    split; [by apply stored_finish, same_store_slot|apply safe_ret].
  - unfold processSessions. apply safe_bind; [by keep_store|]. intros ps. apply safe_iter, safe_process.
Qed.

(** The calls that enqueue and cancel. *)
Inductive queue_calls : Go unit → Prop :=
  | call_queue id parentID name : queue_calls (QueueUpload id parentID name ;;; Ret tt)
  | call_cancel id : queue_calls (CancelUpload id).
Lemma safe_calls t : queue_calls t → safe stored t.
Proof.
  destruct 1; unfold QueueUpload, CancelUpload, send_deletion, send_queue; keep_store.
  match goal with E : new_session ?u ?s = _ |- _ => pose proof (stored_send u s) as Hsend; rewrite E in Hsend end.
  apply Hsend; [|done]. match goal with E : NewUploadSessionSnapshot _ _ _ _ _ = inr _ |- _ => revert E end.
  unfold NewUploadSessionSnapshot. repeat case_match; intros; simplify_eq; done.
Qed.

(** Outside: other buckets may be written, the sessions are left alone. *)
Definition outside_uploads (s s' : St) : Prop :=
  outside s s' ∧ ∀ d, s_db s = Some d → ∃ d', s_db s' = Some d' ∧
    (has_uploads d → has_uploads d') ∧ ∀ id, entry d' id = entry d id.
Lemma stored_outside s s' : outside_uploads s s' → stored s → stored s'.
Proof.
  intros [(Eum & Eob & Enx) Hdb] [d Hs]. destruct (Hdb d (st_db _ _ Hs)) as (d' & Hd & Hb & He).
  exists d'. destruct Hs. constructor; rewrite ?Eum, ?Eob, ?Enx; auto.
  - intros id p u Hp Hu. destruct (st_active0 _ _ _ Hp Hu) as (j & Hj & ?). exists j. by rewrite He.
  - intros id. rewrite He. auto.
Qed.

Lemma stored_reachable s c :
  stored s → rtc (um_step queue_calls outside_uploads) (mkConf s (Ret tt) []) c → stored (c_sys c).
Proof.
  intros Hs Hr. apply (conf_safe_reachable queue_calls outside_uploads stored) in Hr as (? & _); [done| | | |].
  - apply safe_calls.
  - apply stored_outside.
  - intros ev _. apply safe_case.
  - split_and!; [done|apply safe_ret|constructor].
Qed.
End stored.

(** ** Restoring the sessions *)

(** A decoded session is pending, whatever it was, and its count fits. *)
Definition decoded_ok (u : UploadSession) : Prop := us_State u = uploadPending ∧ retries_ok u.

Lemma session_field_ok k d j u u' :
  field_for Session_fields k = Some d → d j u = Some u' → decoded_ok u → decoded_ok u'.
Proof.
  intros Hf. assert (Hin : d ∈ (snd <$> Session_fields)).
  { unfold field_for in Hf. destruct (list_find (λ f, f.1 = k) Session_fields) as [[i f]|] eqn:E1.
    - simplify_eq. apply list_find_Some in E1 as (Hi & _). apply list_elem_of_fmap. exists f.
      split; [done|]. by eapply list_elem_of_lookup_2.
    - apply fmap_Some in Hf as ([i f] & E2 & ->). apply list_find_Some in E2 as (Hi & _).
      apply list_elem_of_fmap. exists f. split; [done|]. by eapply list_elem_of_lookup_2. }
  unfold Session_fields in Hin. cbn [fmap list_fmap snd] in Hin. intros Hd [Hs Hr].
  repeat (apply elem_of_cons in Hin as [->|Hin]; [unfold dec_field in Hd; apply fmap_Some in Hd as (v & Hv & ->);
    destruct u; split; try done |]); [|by apply elem_of_nil in Hin].
  unfold retries_ok. unfold dec_int64, dec_int in Hv. cbn in *. destruct j; simplify_eq; try done.
  case_match eqn:E; simplify_eq. lia.
Qed.
Lemma session_members_ok kvs u u' : dec_members Session_fields kvs u = Some u' → decoded_ok u → decoded_ok u'.
Proof.
  revert u. induction kvs as [|kv kvs IH]; intros u; [by intros [= <-]|]. rewrite dec_members_cons.
  destruct (field_for Session_fields kv.1) as [d|] eqn:Ef; [|apply IH].
  destruct (d kv.2 u) as [u1|] eqn:Ed; [|done]. simpl. intros Hm Hu. eapply IH; [exact Hm|]. by eapply session_field_ok.
Qed.
Lemma decoded_session data u : NewUploadSessionJSON data = inr u → decoded_ok u.
Proof.
  unfold NewUploadSessionJSON. assert (H0 : decoded_ok zero_Session) by (split; [done|unfold retries_ok; simpl; lia]).
  destruct data as [j|]; [|done]. simpl. destruct (dec_struct Session_fields j zero_Session) as [v|] eqn:E; [|done].
  intros [= <-]. destruct j as [| | | | | | |kvs]; try done; [by injection E as <-|]. exact (session_members_ok kvs _ _ E H0).
Qed.

Section restore.
Context {D W : Type} `{UploadsWritable D, !BoltLaws D}.
Abbreviation St := (Sys D W).

Definition bval_json (v : bval) : option json := match v with VJson j => j | VText _ => None end.

(** What the loop over the entries [l] has done, from [s] with database [d]. *)
Record restored (l : list (string * option json)) (s : St) (d : D) (s' : St) (d' : D) : Prop := {
  rs_db : s_db s' = Some d';
  rs_bucket : has_uploads d';
  rs_queue : queue (s_um s') = queue (s_um s);
  rs_other id : id ∉ l.*1 → sessions (s_um s') !! id = sessions (s_um s) !! id ∧ entry d' id = entry d id;
  rs_entry id data : (id, data) ∈ l →
    match NewUploadSessionJSON data with
    | inl _ => sessions (s_um s') !! id = sessions (s_um s) !! id ∧ entry d' id = None
    | inr u => entry d' id = entry d id ∧
        ∃ p, sessions (s_um s') !! id = Some p ∧ s_objs s' !! p = Some (setState uploadPending None u)
    end;
  rs_objs p v : s_objs s !! p = Some v → s_objs s' !! p = Some v;
  rs_next : (∀ p, is_Some (s_objs s !! p) → (p < s_next s)%N) → ∀ p, is_Some (s_objs s' !! p) → (p < s_next s')%N;
  rs_retries : (∀ p v, s_objs s !! p = Some v → retries_ok v) → ∀ p v, s_objs s' !! p = Some v → retries_ok v;
}.

Lemma restore_cons id data (s : St) d :
  s_db s = Some d → has_uploads d → (∀ p, is_Some (s_objs s !! p) → (p < s_next s)%N) →
  ∃ d', restored [(id, data)] s d (restore_one_session (id, data) s) d'.
Proof.
  intros Hdb Hb Hx. unfold restore_one_session. destruct (NewUploadSessionJSON data) as [e|u] eqn:Eu.
  - destruct (on_db_delete id s d Hdb Hb) as (d' & Hb' & He & ->). exists d'.
    constructor; simpl; try done.
    + intros id' Hn. rewrite He, decide_False; [done|]. intros ->. apply Hn. left.
    + intros id' data' [= -> ->]%list_elem_of_singleton. rewrite Eu, He, decide_True; done.
  - destruct (decoded_session _ _ Eu) as [Hst Hrt]. unfold new_session.
    rewrite bool_decide_eq_false_2 by (rewrite Hst; done). exists d. cbn [negb].
    assert (Hfresh : s_objs s !! s_next s = None).
    { destruct (s_objs s !! s_next s) eqn:E; [|done]. pose proof (Hx (s_next s) ltac:(eauto)). lia. }
    constructor; cbn [on_um upd_session on_objs s_db s_um s_objs s_next sessions set_sessions queue]; try done.
    + intros id' Hn. rewrite lookup_insert_ne; [done|]. intros ->. apply Hn. left.
    + intros id' data' [= -> ->]%list_elem_of_singleton. rewrite Eu. split; [done|]. exists (s_next s).
      by rewrite lookup_insert_eq, lookup_alter_eq, lookup_insert_eq.
    + intros p v Hp. assert (p ≠ s_next s) by congruence. by rewrite lookup_alter_ne, lookup_insert_ne by done.
    + intros _ p. destruct (decide (p = s_next s)) as [->|]; [lia|].
      rewrite lookup_alter_ne, lookup_insert_ne by done. intros Hp%Hx. lia.
    + intros Hr p v. destruct (decide (p = s_next s)) as [->|].
      * rewrite lookup_alter_eq, lookup_insert_eq. by intros [= <-].
      * rewrite lookup_alter_ne, lookup_insert_ne by done. apply Hr.
Qed.

Lemma restore_all_sessions l (s : St) d :
  NoDup l.*1 → s_db s = Some d → has_uploads d → (∀ p, is_Some (s_objs s !! p) → (p < s_next s)%N) →
  ∃ d', restored l s d (foldl (λ s kv, restore_one_session kv s) s l) d'.
Proof.
  revert s d. induction l as [|[id data] l IH]; intros s d Hnd Hdb Hb Hx; cbn [foldl].
  { exists d. constructor; try done. intros id data Hin. by apply elem_of_nil in Hin. }
  apply NoDup_cons in Hnd as [Hid Hnd]. cbn [fst] in Hid.
  destruct (restore_cons id data s d Hdb Hb Hx) as [d1 R1].
  destruct (IH _ d1 Hnd (rs_db _ _ _ _ _ R1) (rs_bucket _ _ _ _ _ R1) (rs_next _ _ _ _ _ R1 Hx)) as [d2 R2].
  exists d2. destruct R1 as [_ _ Q1 O1 E1 B1 X1 T1], R2 as [D2 H2 Q2 O2 E2 B2 X2 T2].
  constructor; auto.
  - congruence.
  - cbn [fmap list_fmap fst]. intros id' [Hne Hn]%not_elem_of_cons. destruct (O2 id' Hn) as [-> ->].
    apply O1. cbn. by intros ->%list_elem_of_singleton.
  - intros id' data' [[= -> ->]|Hin]%elem_of_cons.
    + destruct (O2 id Hid) as [Es Ee]. specialize (E1 id data ltac:(left)). rewrite Es, Ee.
      destruct (NewUploadSessionJSON data) as [e|u]; [done|]. destruct E1 as (? & p & ? & ?).
      split; [done|]. exists p. auto.
    + assert (Hne : id' ≠ id) by (intros ->; apply Hid, list_elem_of_fmap; by exists (id, data')).
      destruct (O1 id' ltac:(cbn; by intros ?%list_elem_of_singleton)) as [Es Ee].
      specialize (E2 id' data' Hin). rewrite Es, Ee in E2. done.
  - intros Hr. by apply T2, T1.
Qed.

(** A manager created on a database: its sessions are the entries that decode. *)
Lemma new_manager_restored a b (s : St) d :
  s_db s = Some d → has_uploads d → s_objs s = ∅ →
  ∃ s0 d', s_db s0 = Some d ∧ sessions (s_um s0) = ∅ ∧ queue (s_um s0) = [] ∧ s_objs s0 = ∅ ∧
    restored (LoadUploadSessions (Some d)) s0 d (NewUploadManager a b s) d'.
Proof.
  intros Hdb Hb Ho. unfold NewUploadManager, restoreIncompleteSessions. cbv zeta.
  set (s0 := on_um _ s). exists s0. replace (s_db s0) with (Some d) by done.
  destruct (restore_all_sessions (LoadUploadSessions (Some d)) s0 d) as [d' HR].
  - unfold LoadUploadSessions. rewrite Hb. rewrite <-list_fmap_compose. apply (foreach_keys d boltBucketUploads).
  - done.
  - done.
  - simpl. rewrite Ho. intros p [v Hv]. done.
  - exists d'. by split_and!.
Qed.

Lemma load_entry d id data : has_uploads d →
  (id, data) ∈ LoadUploadSessions (Some d) ↔ ∃ v, entry d id = Some v ∧ data = bval_json v.
Proof.
  intros Hb. unfold LoadUploadSessions. rewrite Hb, list_elem_of_fmap. unfold entry. setoid_rewrite <-foreach_get. split.
  - intros ([k v] & [= -> ->] & Hin). by exists v.
  - intros (v & Hin & ->). by exists (id, v).
Qed.

(** A session restored under each entry that decodes. *)
Lemma restored_entry d s0 s' d' id v u :
  has_uploads d → restored (LoadUploadSessions (Some d)) s0 d s' d' →
  entry d id = Some v → NewUploadSessionJSON (bval_json v) = inr u →
  entry d' id = Some v ∧ ∃ p, sessions (s_um s') !! id = Some p ∧ s_objs s' !! p = Some (setState uploadPending None u).
Proof.
  intros Hb HR Hv Hu. pose proof (rs_entry _ _ _ _ _ HR id (bval_json v)) as He. rewrite Hu in He.
  destruct He as [E ?]; [apply load_entry; [done|by exists v]|]. by rewrite E, Hv.
Qed.
(** And nothing else. *)
Lemma restored_none d s0 s' d' id :
  has_uploads d → sessions (s_um s0) = ∅ → restored (LoadUploadSessions (Some d)) s0 d s' d' →
  (∀ v u, entry d id = Some v → NewUploadSessionJSON (bval_json v) ≠ inr u) →
  sessions (s_um s') !! id = None ∧ entry d' id = None.
Proof.
  intros Hb Hs HR Hn. destruct (entry d id) as [v|] eqn:Ev.
  - pose proof (rs_entry _ _ _ _ _ HR id (bval_json v)) as He. specialize (Hn v).
    destruct (NewUploadSessionJSON (bval_json v)) as [e|u]; [|by destruct (Hn u)].
    rewrite Hs, lookup_empty in He. apply He, load_entry; [done|]. by exists v.
  - destruct (rs_other _ _ _ _ _ HR id) as [-> ->]; [|by rewrite Hs, lookup_empty].
    intros ([k data] & -> & Hin)%list_elem_of_fmap. apply load_entry in Hin as (v & Hv & _); [|done]. simpl in Ev. congruence.
Qed.

(** The entries were written under the ID of their session. *)
Definition well_keyed (d : D) : Prop :=
  ∀ id v u, entry d id = Some v → NewUploadSessionJSON (bval_json v) = inr u → us_ID u = id.

Lemma new_manager_stored a b (s : St) d :
  s_db s = Some d → has_uploads d → s_objs s = ∅ → well_keyed d → stored (NewUploadManager a b s).
Proof.
  intros Hdb Hb Ho Hk. destruct (new_manager_restored a b s d Hdb Hb Ho) as (s0 & d' & _ & Hs0 & Hq0 & Ho0 & HR).
  exists d'.
  assert (Hcase : ∀ id, (∃ v u, entry d id = Some v ∧ NewUploadSessionJSON (bval_json v) = inr u) ∨
    (∀ v u, entry d id = Some v → NewUploadSessionJSON (bval_json v) ≠ inr u)).
  { intros id. destruct (entry d id) as [v|]; [|by right].
    destruct (NewUploadSessionJSON (bval_json v)) as [e|u] eqn:Eu; [right; intros ? ? [= <-]; by rewrite Eu|left; eauto]. }
  assert (Hsome : ∀ id p, sessions (s_um (NewUploadManager a b s)) !! id = Some p →
    ∃ v u, entry d' id = Some v ∧ NewUploadSessionJSON (bval_json v) = inr u ∧ us_ID u = id ∧
      s_objs (NewUploadManager a b s) !! p = Some (setState uploadPending None u)).
  { intros id p Hp. destruct (Hcase id) as [(v & u & Hv & Hu)|Hn].
    - destruct (restored_entry d s0 _ d' id v u Hb HR Hv Hu) as (He & p' & Hp' & Ho').
      exists v, u. split_and!; [done..|by eapply Hk|congruence].
    - destruct (restored_none d s0 _ d' id Hb Hs0 HR Hn). congruence. }
  pose proof HR as [D2 H2 Q2 _ _ _ X2 T2].
  constructor.
  - exact D2.
  - exact H2.
  - intros id p w Hp Hw. destruct (Hsome id p Hp) as (v & u & Hv & Hu & _ & Ho'). assert (w = setState uploadPending None u) as -> by congruence.
    destruct v as [j|t]; [|done]. exists j. split; [done|]. intros _. exists u. by destruct u.
  - intros id Hp. destruct (Hcase id) as [(v & u & Hv & Hu)|Hn].
    + destruct (restored_entry d s0 _ d' id v u Hb HR Hv Hu) as (He & p' & Hp' & Ho'). congruence.
    + by destruct (restored_none d s0 _ d' id Hb Hs0 HR Hn).
  - intros id p Hp. destruct (Hsome id p Hp) as (v & u & Hv & Hu & <- & Ho'). by exists (setState uploadPending None u).
  - rewrite Q2, Hq0. intros p Hp. by apply elem_of_nil in Hp.
  - rewrite Q2, Hq0. constructor.
  - apply X2. rewrite Ho0. by intros p [v Hv].
  - apply T2. rewrite Ho0. by intros p v Hv.
Qed.
End restore.
