(* ===== verification/UploadTheorems.v ===== *)
(** What the upload manager guarantees: bounded concurrency, sessions that
    survive a restart, the retry policy, and the fate of both versions of a
    file when its upload conflicts. *)

From S2P Require Import Uploads UploadSlots UploadPersist Remote.

#[local] Open Scope Z_scope.
#[local] Open Scope res_scope.

(** ** A small mount: one session left in the database by an earlier run *)

Definition example_session : UploadSession :=
  mkSession "f1" "root" "a.txt" [] "/c/snapshots/snapshot-1" 3 uploadErrored 2 "timeout" true 7.
Definition example_uploads_db : MapDB :=
  mkMapDB {[ "metadata"; "delta"; "uploads" ]} {[ ("uploads", "f1") := VJson (Some (Session_AsJSON example_session)) ]}.
Definition example_content_cache : ContentCache :=
  ContentCache.mkContentCache "/c" ∅ 0 0 false (ContentCache.mkEvictHeap [] ∅) ∅ 0 false
    (mkDisk {[ 0%nat := mkFileObj [1; 2; 3] 5 ]} {[ "/c/snapshots/snapshot-1" := 0%nat ]} {[ "/c"; "/c/snapshots" ]} ∅ 1 9 []).
Definition example_cloud : Cloud :=
  mkCloud {[ "f1" := mkRItem "root" "a.txt" false [9] "7" ]} 8 1700000000000000000 [].
Definition example_before : Sys MapDB Cloud :=
  mkSys (mkUM [] [] ∅ 0 0 0 0 0) ∅ 0 (Some example_uploads_db) NewInodeCache example_content_cache example_cloud.
Definition example_sys : Sys MapDB Cloud := NewUploadManager 2 0 example_before.
#[global] Instance example_zone : LocalZone := λ _, 3600.

Definition map_order (m : gmap string N) : list N := (map_to_list m).*2.

Section restart_slots.
Context {D W : Type} `{Bolt D} `{Clock W} `{GraphAPI W} `{LocalZone}.
Abbreviation St := (Sys D W).

Lemma slots_restore_one kv (s : St) : same_slots s (restore_one_session kv s).
Proof.
  destruct kv as [id data]. unfold restore_one_session, same_slots. destruct (NewUploadSessionJSON data) as [e|u].
  - by rewrite um_on_db.
  - unfold new_session. case_bool_decide; simpl; rewrite ?um_on_db, ?um_discard; done.
Qed.
Lemma slots_restore l (s : St) : same_slots s (foldl (λ s kv, restore_one_session kv s) s l).
Proof.
  revert s. induction l as [|kv l IH]; intros s; [done|]. simpl.
  eapply same_slots_trans; [apply slots_restore_one|apply IH].
Qed.

(** The cap a manager was created with. *)
Definition configured_cap (maxUploads : Z) : Z := if maxUploads <=? 0 then defaultMaxUploadsInFlight else maxUploads.

Lemma new_manager_slots a b (s : St) :
  let s0 := NewUploadManager a b s in
  0 < configured_cap a ∧ inFlightCap (s_um s0) = configured_cap a ∧ InFlight s0 = 0.
Proof.
  unfold NewUploadManager, restoreIncompleteSessions, InFlight, inFlightCap, configured_cap. cbv zeta.
  match goal with |- context [foldl ?f ?s1 ?l] => pose proof (slots_restore l s1) as [-> ->] end. simpl.
  unfold defaultMaxUploadsInFlight. destruct (Z.leb_spec a 0); simpl; [by split_and!|].
  destruct (Z.leb_spec a 0); [lia|]. split_and!; lia.
Qed.

(** C13: Whatever the interleaving of the upload goroutines, the loop, the calls of
    the mount (QueueUpload, CancelUpload, RenameSession) and the rest of the
    program, the number of uploads in flight stays between 0 and the configured
    maximum (5 when it was not wired); and no slot leaks: every exit path of an
    upload gives its slot back, so once the loop waits and every goroutine has
    ended the count is 0 again. *)
Theorem uploads_in_flight_bounded a b (s : St) c :
  let cap := configured_cap a in
  rtc (um_step um_api outside) (mkConf (NewUploadManager a b s) (Ret tt) []) c →
  0 ≤ InFlight (c_sys c) ≤ cap ∧
  (c_loop c = Ret tt → Forall (λ t, t = Ret tt) (c_pool c) → InFlight (c_sys c) = 0).
Proof.
  intros cap Hr. destruct (new_manager_slots a b s) as (Hc & Hcap & Hn).
  assert (HI : slots_inv cap c).
  { eapply (slots_reachable cap um_api outside); [done..| |exact Hr]. by apply slots_start. }
  split; [apply HI|]. by apply slots_idle with cap.
Qed.
End restart_slots.

(** The restored session is launched by the first tick. *)
Lemma uploads_in_flight_bounded_witness :
  ∃ c, rtc (um_step um_api outside) (mkConf example_sys (Ret tt) []) c ∧ InFlight (c_sys c) = 1 ∧ 0 ≤ InFlight (c_sys c) ≤ 2.
Proof.
  destruct (loop_steps 4 (mkConf example_sys (uploadLoop_case (EvTick map_order)) [])) as [c|] eqn:E.
  2:{ apply (f_equal (λ o : option Conf, bool_decide (is_Some o))) in E. vm_compute in E. discriminate E. }
  assert (Hn : (InFlight ∘ c_sys) <$> Some c = Some 1) by (rewrite <-E; vm_compute; reflexivity).
  assert (Hr : rtc (um_step um_api outside) (mkConf example_sys (Ret tt) []) c).
  { eapply rtc_l; [apply (um_select _ _ _ (EvTick map_order)); intros m; reflexivity|]. apply (loop_steps_rtc _ _ _ _ _ E). }
  exists c. split; [exact Hr|]. split; [by injection Hn|].
  apply (uploads_in_flight_bounded 2 0 example_before c Hr).
Defined.

(** ** Surviving a restart *)

Section restart.
Context {D W : Type} `{UploadsWritable D, !BoltLaws D, Clock W, GraphAPI W, LocalZone}.
Abbreviation St := (Sys D W).

(** C1: An upload the loop has registered survives a crash at any instant: in every
    state the manager reaches, whatever the interleaving of QueueUpload,
    CancelUpload, ticks and uploads, a new process on the same database has a
    pending session for each session in the map of the manager whose texts are
    UTF-8 and whose size is an int64, of the same ID, parent, name, content snapshot
    and size, and no session for an ID the map does not have: one that was finished
    or cancelled, and also one that QueueUpload accepted and that is still in its
    channel, which a crash loses (Example [queued_upload_lost]). The database
    accepts the writes to the bucket of the uploads, and holds each session it
    starts with under its ID. *)
Theorem uploads_survive_restart a b (s : St) d c a' b' (s1 : St) :
  s_db s = Some d → has_uploads d → well_keyed d → s_objs s = ∅ →
  rtc (um_step queue_calls outside_uploads) (mkConf (NewUploadManager a b s) (Ret tt) []) c →
  s_db s1 = s_db (c_sys c) → s_objs s1 = ∅ →
  let s' := NewUploadManager a' b' s1 in
  (∀ id p u, sessions (s_um (c_sys c)) !! id = Some p → s_objs (c_sys c) !! p = Some u → target_ok u →
     ∃ p' u', sessions (s_um s') !! id = Some p' ∧ s_objs s' !! p' = Some u' ∧
       target u' = target u ∧ us_State u' = uploadPending) ∧
  (∀ id, sessions (s_um (c_sys c)) !! id = None → sessions (s_um s') !! id = None).
Proof.
  intros Hdb Hb Hk Ho Hr Hdb1 Ho1 s'.
  destruct (stored_reachable _ _ (new_manager_stored a b s d Hdb Hb Ho Hk) Hr) as [dc Hc].
  rewrite (st_db _ _ Hc) in Hdb1. pose proof (st_bucket _ _ Hc) as Hbc.
  destruct (new_manager_restored a' b' s1 dc Hdb1 Hbc Ho1) as (s0 & d' & _ & Hs0 & _ & _ & HR).
  split.
  - intros id p u Hp Hu Hok. destruct (st_active _ _ Hc id p u Hp Hu) as (j & Hj & Hdec).
    destruct (Hdec Hok) as (u' & Hu' & Et).
    destruct (restored_entry dc s0 s' d' id (VJson j) u' Hbc HR Hj Hu') as (_ & p' & Hp' & Hv').
    exists p', (setState uploadPending None u'). split_and!; [done..| |by destruct u']. rewrite <-Et. by destruct u'.
  - intros id Hp. apply (restored_none dc s0 s' d' id Hbc Hs0 HR). by rewrite (st_only _ _ Hc id Hp).
Qed.
End restart.

#[global] Instance MapDB_UploadsWritable : UploadsWritable MapDB.
Proof. split; simpl; eauto. Qed.

(** The session restored at the start, still there after a second start. *)
Lemma uploads_survive_restart_witness :
  ∃ p' u', sessions (s_um (NewUploadManager 3 3 (on_objs (λ _, ∅) example_sys))) !! "f1" = Some p' ∧
    s_objs (NewUploadManager 3 3 (on_objs (λ _, ∅) example_sys)) !! p' = Some u' ∧
    us_SnapshotPath u' = "/c/snapshots/snapshot-1" ∧ us_State u' = uploadPending.
Proof.
  assert (Hx : ∃ x, x = example_sys) by (by exists example_sys). destruct Hx as [x Ex]. rewrite <-Ex.
  destruct (uploads_survive_restart 2 0 example_before example_uploads_db (mkConf x (Ret tt) []) 3 3
    (on_objs (λ _, ∅) x)) as [Hall _].
  - reflexivity.
  - vm_compute. reflexivity.
  - intros id v u. unfold entry. cbn [bolt_get MapDB_Bolt md_data example_uploads_db].
    destruct (decide (id = "f1")) as [->|Hn].
    + rewrite lookup_singleton_eq. intros [= <-]. vm_compute. by intros [= <-].
    + rewrite lookup_singleton_ne by congruence. discriminate.
  - reflexivity.
  - rewrite Ex. apply rtc_refl.
  - reflexivity.
  - reflexivity.
  - destruct (Hall "f1" 0%N (setNextRetryAt zeroTime (setState uploadPending None example_session)))
      as (p' & u' & Hp & Hu & Et & Est).
    + rewrite Ex. vm_compute. reflexivity.
    + rewrite Ex. vm_compute. reflexivity.
    + split_and!; (vm_compute; reflexivity) || (vm_compute; done) || constructor.
    + exists p', u'. split_and!; [exact Hp|exact Hu| |exact Est]. apply (f_equal (λ t, snd (fst t))) in Et. exact Et.
Defined.

(** A session that was accepted and that the loop has not received yet is only in
    the channel: a new process does not have it. *)
Example queued_upload_lost :
  (λ r, let s := r.1.2 in
    (queue (s_um s), sessions (s_um (NewUploadManager 3 3 (on_objs (λ _, ∅) s))) !! "f2")) <$>
    run (send_queue (set_us_ID "f2" example_session)) example_sys = Some ([1%N], None).
Proof. vm_compute. reflexivity. Qed.
