(* ===== verification/UploadRetry.v ===== *)
(** One upload at a time: what a turn of the loop and an upload goroutine do
    when nothing interferes. The retry policy, the resolution of conflicts, and
    the completion of an accepted upload. *)

From S2P Require Import Uploads UploadSlots UploadPersist Remote UploadTheorems.

#[local] Open Scope Z_scope.
#[local] Open Scope res_scope.

(** ** Backoff *)

Lemma backoff_loop_bounds n d : uploadTickerInterval ≤ d ≤ maxRetryBackoff →
  uploadTickerInterval ≤ backoff_loop n d ≤ maxRetryBackoff.
Proof.
  revert d. induction n as [|n IH]; intros d Hd; [done|]. cbn [backoff_loop].
  destruct (Z.ltb_spec d maxRetryBackoff); [|done]. apply IH.
  destruct (Z.ltb_spec maxRetryBackoff (d * 2)); unfold uploadTickerInterval, maxRetryBackoff, Minute, Second in *; lia.
Qed.

(** The doubling, capped. *)
Lemma backoff_loop_closed n d : 0 < d ≤ maxRetryBackoff →
  backoff_loop n d = Z.min maxRetryBackoff (d * 2 ^ Z.of_nat n).
Proof.
  revert d. induction n as [|n IH]; intros d Hd; cbn [backoff_loop].
  - replace (2 ^ Z.of_nat 0) with 1 by done. lia.
  - assert (Hp : 2 ^ Z.of_nat (S n) = 2 * 2 ^ Z.of_nat n) by (rewrite Nat2Z.inj_succ, Z.pow_succ_r; lia).
    assert (1 ≤ 2 ^ Z.of_nat n) by (apply (Z.pow_le_mono_r 2 0 (Z.of_nat n)); lia).
    rewrite Hp. destruct (Z.ltb_spec d maxRetryBackoff).
    + rewrite IH by (destruct (Z.ltb_spec maxRetryBackoff (d * 2)); lia).
      destruct (Z.ltb_spec maxRetryBackoff (d * 2)); nia.
    + nia.
Qed.

(** The delay before retrying a transient failure doubles from 2 seconds with
    each retry and is capped at one minute: for every count of retries it is the
    minimum of one minute and 2 * 2^(retries-1) seconds, hence it is never shorter
    than a tick, never longer than a minute, and never decreases; no intermediate
    product leaves int64. *)
Theorem backoff_exponential (retries : Z) :
  1 ≤ retries →
  backoffFor retries = Z.min (60 * Second) (2 * Second * 2 ^ (retries - 1)) ∧
  2 * Second ≤ backoffFor retries ≤ 60 * Second ∧
  backoffFor retries ≤ backoffFor (retries + 1) ∧ backoffFor retries * 2 < 2 ^ 63.
Proof.
  intros Hr. assert (Hc : ∀ r, 1 ≤ r → backoffFor r = Z.min (60 * Second) (2 * Second * 2 ^ (r - 1))).
  { intros r Hr'. unfold backoffFor. rewrite backoff_loop_closed by done. by rewrite Z2Nat.id by lia. }
  assert (Hb : 2 * Second ≤ backoffFor retries ≤ 60 * Second) by (by apply backoff_loop_bounds).
  split_and!; [by apply Hc|lia..| |unfold Second in *; lia].
  rewrite !Hc by lia. replace (retries + 1 - 1) with (Z.succ (retries - 1)) by lia.
  rewrite Z.pow_succ_r by lia. pose proof (Z.pow_pos_nonneg 2 (retries - 1)). unfold Second. lia.
Qed.

Lemma backoff_exponential_witness : 1 ≤ 4 ∧ backoffFor 4 = 16 * Second ∧ backoffFor 4 ≤ backoffFor 5.
Proof. split; [lia|]. destruct (backoff_exponential 4 ltac:(lia)) as (-> & _ & H & _). split; [vm_compute; reflexivity|exact H]. Defined.

(** ** The turn of one session *)

Section turn.
Context {D W : Type} `{Bolt D} `{Clock W} `{GraphAPI W} `{LocalZone}.
Abbreviation St := (Sys D W).

Lemma session_upd p u f (s : St) : s_objs s !! p = Some u → s_objs (upd_session p f s) !! p = Some (f u).
Proof. intros Hu. cbn. by rewrite lookup_alter_eq, Hu. Qed.
Lemma session_lookup p u (s : St) : s_objs s !! p = Some u → session p s = u.
Proof. intros Hu. unfold session. by rewrite Hu. Qed.

Lemma upd_session_ext p u f g (s : St) : s_objs s !! p = Some u → f u = g u → upd_session p f s = upd_session p g s.
Proof.
  intros Hu Hfg. unfold upd_session, on_objs. f_equal. apply map_eq. intros q.
  destruct (decide (p = q)) as [<-|]; [|by rewrite !lookup_alter_ne]. by rewrite !lookup_alter_eq, Hu; cbn; rewrite Hfg.
Qed.
Lemma upd_session_same p u (s : St) : s_objs s !! p = Some u → upd_session p (λ _, u) s = s.
Proof.
  intros Hu. rewrite (upd_session_ext p u _ id s Hu) by done. unfold upd_session, on_objs.
  destruct s; cbn in *. f_equal. apply map_eq. intros q.
  destruct (decide (p = q)) as [<-|]; [by rewrite lookup_alter_eq, Hu|by rewrite lookup_alter_ne].
Qed.

(** Launching: the slot is taken and the goroutine started, if there is room. *)
Definition room (s : St) : bool := inFlight (s_um s) <? inFlightCap (s_um s).
Definition take_slot (s : St) : St := on_um (λ m, set_inFlight (inFlight m + 1) m) s.
Lemma run_launch p (s : St) :
  run (launchIfCapacity p) s = Some (tt, if room s then take_slot s else s, if room s then [executeUpload p] else []).
Proof.
  unfold launchIfCapacity, room. go_run. rewrite Z.ltb_antisym.
  by destruct (inFlightCap (s_um s) <=? inFlight (s_um s)).
Qed.

(** The session put back in the queue of the launcher, after [n] failures. *)
Definition requeued (s : St) (n : Z) (u : UploadSession) : UploadSession :=
  let u := set_us_Retries n u in
  setState uploadPending None
    (if us_Transient u then setNextRetryAt (time_Add (w_now (s_net s)) (backoffFor n)) u else u).
Definition launched (p : N) (s s' : St) (cs : list (Res St unit)) : Prop :=
  cs = (if room s then [executeUpload p] else []) ∧
  sessions (s_um s') = sessions (s_um s) ∧ queue (s_um s') = queue (s_um s) ∧
  inFlight (s_um s') = inFlight (s_um s) + (if room s then 1 else 0) ∧
  s_db s' = s_db s ∧ s_content s' = s_content s ∧ s_net s' = s_net s ∧ s_inodes s' = s_inodes s.

Lemma launched_upd p f (s s1 : St) :
  s_um s1 = s_um s → s_db s1 = s_db s → s_content s1 = s_content s → s_net s1 = s_net s → s_inodes s1 = s_inodes s →
  ∃ cs, run (launchIfCapacity p) (upd_session p f s1) = Some (tt, if room s then take_slot (upd_session p f s1) else upd_session p f s1, cs) ∧
    launched p s (if room s then take_slot (upd_session p f s1) else upd_session p f s1) cs.
Proof.
  intros Eum Edb Eco Ene Ein. rewrite run_launch. assert (Hroom : room (upd_session p f s1) = room s).
  { unfold room. cbn. by rewrite Eum. }
  rewrite Hroom. eexists. split; [reflexivity|]. unfold launched.
  destruct (room s); cbn; rewrite Eum; split_and!; done || lia.
Qed.

(** The turn of a failed session: it waits, is launched again, or is dropped. *)
Lemma errored_turn p u (s : St) :
  s_objs s !! p = Some u → us_State u = uploadErrored →
  let n := i64 (us_Retries u + 1) in
  ∃ s' cs, run (processSession p) s = Some (tt, s', cs) ∧
    if time_Before (w_now (s_net s)) (us_nextRetry u) then s' = s ∧ cs = []
    else if us_Transient u || (n <=? retryCap (s_um s)) then
      s_objs s' !! p = Some (requeued s n u) ∧ launched p s s' cs
    else s' = finishSession (us_ID u) (upd_session p (set_us_Retries n) s) ∧ cs = [].
Proof.
  intros Hu Hst n. unfold processSession. go_run. rewrite (session_lookup p u s Hu), Hst. cbv iota beta.
  go_run. rewrite (session_lookup p u s Hu).
  destruct (time_Before (w_now (s_net s)) (us_nextRetry u)) eqn:Et; [by exists s, []|].
  go_run. set (f1 := λ u, set_us_Retries (i64 (us_Retries u + 1)) u). set (s1 := upd_session p f1 s).
  assert (Hu1 : s_objs s1 !! p = Some (set_us_Retries n u)) by exact (session_upd p u f1 s Hu).
  rewrite (session_lookup _ _ _ Hu1). cbn [us_Transient set_us_Retries].
  destruct (us_Transient u) eqn:Etr; cbn [orb]; go_run.
  - set (f2 := λ u, setNextRetryAt _ u). set (s2 := upd_session p f2 s1).
    destruct (launched_upd p (setState uploadPending None) s s2) as (cs & Hr & Hl); [done..|].
    rewrite Hr. eexists _, cs. split; [reflexivity|]. split; [|exact Hl].
    assert (Hu2 : s_objs s2 !! p = Some (f2 (set_us_Retries n u))) by (by apply session_upd).
    unfold requeued. cbn [us_Transient set_us_Retries]. rewrite Etr.
    destruct (room s); apply (session_upd _ _ _ s2 Hu2).
  - rewrite (session_lookup _ _ _ Hu1). cbn [us_Retries set_us_Retries].
    change (retryCap (s_um s1)) with (retryCap (s_um s)). rewrite (Z.ltb_antisym n).
    destruct (n <=? retryCap (s_um s)); cbn [negb]; go_run.
    + destruct (launched_upd p (setState uploadPending None) s s1) as (cs & Hr & Hl); [done..|].
      rewrite Hr. eexists _, cs. split; [reflexivity|]. split; [|exact Hl].
      unfold requeued. cbn [us_Transient set_us_Retries]. rewrite Etr.
      destruct (room s); apply (session_upd _ _ _ s1 Hu1).
    + rewrite (session_lookup _ _ _ Hu1). eexists _, []. split; [reflexivity|]. split; [|done].
      f_equal. by apply upd_session_ext with u.
Qed.

(** *** The policy, as a function of the session *)

(** What the manager is to do with a session at a tick. *)
Inductive Verdict := Wait | Launch (u : UploadSession) | Drop (u : UploadSession).
Definition verdict (s : St) (u : UploadSession) : Verdict :=
  match us_State u with
  | uploadUploading => Wait
  | uploadPending => Launch u
  | uploadComplete => Drop u
  | uploadErrored =>
      let n := i64 (us_Retries u + 1) in
      if time_Before (w_now (s_net s)) (us_nextRetry u) then Wait
      else if us_Transient u || (n <=? retryCap (s_um s)) then Launch (requeued s n u)
      else Drop (set_us_Retries n u)
  end.

Lemma complete_turn p u (s : St) : s_objs s !! p = Some u → us_State u = uploadComplete →
  run (processSession p) s = Some (tt, finishSession (us_ID u) s, []).
Proof.
  intros Hu Est. unfold processSession. go_run. rewrite (session_lookup p u s Hu), Est. cbv iota beta. go_run.
  by rewrite (session_lookup p u s Hu).
Qed.
Lemma finish_forgets id (s : St) : sessions (s_um (finishSession id s)) !! id = None.
Proof.
  unfold finishSession. destruct (sessions (s_um s) !! id) eqn:E; [|done]. rewrite um_on_db, um_discard. cbn. apply lookup_delete_eq.
Qed.

(** The loop follows its retry policy on every branch. A session being uploaded
    is left alone; a pending one is uploaded as soon as a slot is free; a completed
    one is removed from memory and from the database, with its snapshot. A failed
    one waits until its backoff has passed; then, after a transient (network)
    failure it is never abandoned, whatever its count: it is pending again with the
    next backoff; after a permanent failure it is pending again, without backoff,
    while the count is within the limit, and dropped beyond it. *)
Theorem retry_policy p u (s : St) :
  s_objs s !! p = Some u →
  ∃ s' cs, run (processSession p) s = Some (tt, s', cs) ∧
    match verdict s u with
    | Wait => s' = s ∧ cs = []
    | Launch u' => s_objs s' !! p = Some u' ∧ us_State u' = uploadPending ∧ launched p s s' cs
    | Drop u' => s' = finishSession (us_ID u) (upd_session p (λ _, u') s) ∧ cs = []
    end.
Proof.
  intros Hu. unfold verdict. destruct (us_State u) eqn:Est.
  - unfold processSession. go_run. rewrite (session_lookup p u s Hu), Est. cbv iota beta. rewrite run_launch.
    eexists _, _. split; [reflexivity|]. split_and!; [by destruct (room s)|done|].
    unfold launched. destruct (room s); cbn; split_and!; done || lia.
  - unfold processSession. go_run. rewrite (session_lookup p u s Hu), Est. by exists s, [].
  - rewrite (complete_turn p u s Hu Est). eexists _, _. split; [reflexivity|]. by rewrite upd_session_same.
  - destruct (errored_turn p u s Hu Est) as (s' & cs & Hr & Hcase). cbv zeta in *. exists s', cs. split; [exact Hr|].
    destruct (time_Before _ _); [done|]. destruct (us_Transient u || _); [|].
    + destruct Hcase as [Hu' Hl]. by split_and!.
    + destruct Hcase as [-> ->]. split; [|done]. f_equal. by apply upd_session_ext with u.
Qed.
End turn.

(** ** A server that keeps refusing *)

(** Ticks, each followed by the uploads it started, one after the other. *)
Section rounds.
Context {D W : Type} `{Bolt D} `{Clock W} `{GraphAPI W} `{LocalZone}.
Abbreviation St := (Sys D W).

Fixpoint run_all (ts : list (Res St unit)) (s : St) : option St :=
  match ts with
  | [] => Some s
  | t :: ts => match run t s with Some (_, s', []) => run_all ts s' | _ => None end
  end.
Definition round (order : gmap string N → list N) (s : St) : option St :=
  match run (processSessions order) s with Some (_, s', ts) => run_all ts s' | None => None end.
Fixpoint rounds (order : gmap string N → list N) (n : nat) (s : St) : option St :=
  match n with O => Some s | S n => s' ← rounds order n s; round order s' end.

(** Every upload request is answered with [err]. *)
Record refuses (err : error) : Prop := {
  ref_overwrite ctx id b etag w : ∃ w', api_OverwriteItem ctx id b etag w = (inl err, w');
  ref_overwrite_stream ctx id r n etag w : ∃ w', api_OverwriteItemStream ctx id r n etag w = (inl err, w');
  ref_upload ctx res name b etag w : ∃ w', api_UploadItem ctx res name b etag w = (inl err, w');
  ref_upload_stream ctx res name r n etag w : ∃ w', api_UploadItemStream ctx res name r n etag w = (inl err, w');
  ref_permanent : fs_isNetworkError err = false;
  ref_not_412 : errors_Is err ErrPreconditionFailed = false;
}.

Definition faults (s : St) : list (option Fault) := d_faults (ContentCache.disk (s_content s)).

(** States that differ in the disk and the world only. *)
Definition same_but_io (s s' : St) : Prop :=
  s_um s' = s_um s ∧ s_objs s' = s_objs s ∧ s_next s' = s_next s ∧ s_db s' = s_db s ∧ s_inodes s' = s_inodes s.
Lemma same_but_io_trans s1 s2 s3 : same_but_io s1 s2 → same_but_io s2 s3 → same_but_io s1 s3.
Proof. unfold same_but_io. intuition congruence. Qed.

Lemma on_disk_io {A} (f : Disk → A * Disk) (s : St) :
  let '(a, d) := f (ContentCache.disk (s_content s)) in
  on_disk_ f s = (a, set_content (ContentCache.set_disk d (s_content s)) s).
Proof. unfold on_disk_, on_content. by destruct (f _). Qed.

Lemma faults_sys {A} op path (m : Disk → (error + A) * Disk) d :
  d_faults d = [] → sys op path m d = m d.
Proof. intros E. unfold sys. by rewrite E. Qed.
Lemma faults_with_fd {A} op fd (m : FileDesc → FileObj → Disk → (error + A) * Disk) d :
  d_faults d = [] → (∀ f o, d_faults (m f o d).2 = []) → d_faults (with_fd op fd m d).2 = [].
Proof.
  intros E Hm. unfold with_fd. destruct (fd_file fd d) as [[f o]|] eqn:Ef; [|done].
  rewrite faults_sys, Ef by done. apply Hm.
Qed.
Lemma faults_close fd d : d_faults d = [] → d_faults (file_Close fd d).2 = [].
Proof.
  intros E. unfold file_Close.
  pose proof (faults_with_fd "close" fd (λ _ _ d, (inr tt, d)) d E ltac:(done)) as Hf.
  by destruct (with_fd _ _ _ d).
Qed.
Lemma faults_ReadAll fd d : d_faults d = [] → d_faults (file_ReadAll fd d).2 = [].
Proof. intros E. unfold file_ReadAll. by apply faults_with_fd. Qed.

(** Opening the content of a session on a disk without faults: it may be missing. *)
Lemma open_faultless u d : d_faults d = [] →
  d_faults (OpenContent u d).2 = [] ∧
  (∀ e, (OpenContent u d).1 = inl e → fs_isNetworkError e = false ∧ errors_Is e ErrPreconditionFailed = false).
Proof.
  intros E. unfold OpenContent. destruct (decide (us_SnapshotPath u = "")); [done|].
  unfold os_Open. rewrite faults_sys by done.
  destruct (decide (us_SnapshotPath u ∈ d_dirs d)); [split; [done|]; by intros ? [= <-]|].
  destruct (d_names d !! us_SnapshotPath u); [done|]. split; [done|]. by intros ? [= <-].
Qed.

Lemma run_close r (s : St) : ∃ s', run (closeContentReader r) s = Some (tt, s', []) ∧ same_but_io s s' ∧ s_net s' = s_net s ∧
  (faults s = [] → faults s' = []).
Proof.
  destruct r as [fd|data]; simpl; [|by exists s].
  pose proof (on_disk_io (file_Close fd) s) as Hd. pose proof (faults_close fd (ContentCache.disk (s_content s))) as Hf.
  destruct (file_Close fd (ContentCache.disk (s_content s))) as [a d]. rewrite Hd. eexists. split; [reflexivity|].
  split_and!; done.
Qed.
Lemma read_io r (s : St) : same_but_io s (read_content r s).2 ∧ s_net (read_content r s).2 = s_net s ∧
  (faults s = [] → faults (read_content r s).2 = []).
Proof.
  destruct r as [fd|data]; simpl; [|done].
  pose proof (on_disk_io (file_ReadAll fd) s) as Hd. pose proof (faults_ReadAll fd (ContentCache.disk (s_content s))) as Hf.
  destruct (file_ReadAll fd (ContentCache.disk (s_content s))) as [a d]. rewrite Hd. by split_and!.
Qed.
Lemma open_io p (s : St) : same_but_io s (session_open p s).2 ∧ s_net (session_open p s).2 = s_net s ∧
  (faults s = [] → faults (session_open p s).2 = []) ∧
  (faults s = [] → ∀ e, (session_open p s).1 = inl e → fs_isNetworkError e = false ∧ errors_Is e ErrPreconditionFailed = false).
Proof.
  unfold session_open. pose proof (on_disk_io (OpenContent (session p s)) s) as Hd.
  pose proof (open_faultless (session p s) (ContentCache.disk (s_content s))) as Hf.
  destruct (OpenContent (session p s) (ContentCache.disk (s_content s))) as [a d]. rewrite Hd.
  split_and!; try done; intros E; by apply Hf.
Qed.

Context (err : error) (Hrefuse : refuses err).

Lemma doUpload_refused id b parentID name r size etag (s : St) :
  ∃ s', doUpload id b parentID name r size etag s = (inl err, s') ∧ same_but_io s s' ∧ (faults s = [] → faults s' = []).
Proof using Hrefuse.
  unfold doUpload. destruct (read_io r s) as (Hio & Hnet & Hf). destruct (read_content r s) as [[data e] s1]. cbn [snd] in *.
  unfold on_net. destruct Hrefuse as [R1 R2 R3 R4 _ _].
  assert (Hany : ∀ call : SE W error DriveItem, (∃ w', call (s_net s1) = (inl err, w')) →
    ∃ s', (let '(a, w) := call (s_net s1) in
      (a, mkSys (s_um s1) (s_objs s1) (s_next s1) (s_db s1) (s_inodes s1) (s_content s1) w)) = (inl err, s') ∧
      same_but_io s s' ∧ (faults s = [] → faults s' = [])).
  { intros call [w' ->]. eexists. split; [reflexivity|]. split; [exact Hio|exact Hf]. }
  destruct (negb b), (size <=? smallUpload); apply Hany; auto.
Qed.

Lemma upload_refused id b parentID name p etag (s : St) : faults s = [] →
  ∃ s' e, run (upload id b parentID name p etag) s = Some (inl e, s', []) ∧ same_but_io s s' ∧ faults s' = [] ∧
    fs_isNetworkError e = false.
Proof using Hrefuse.
  intros Hf. unfold upload. go_run. destruct (open_io p s) as (Hio & _ & Hfo & Herr).
  destruct (session_open p s) as [[e|[reader size]] s1]; cbn [fst snd] in *.
  - exists s1, e. split_and!; [done..|auto|by apply (Herr Hf e)].
  - go_run. destruct (doUpload_refused id b parentID name reader size etag s1) as (s2 & -> & Hio2 & Hf2).
    cbn [fst snd]. destruct Hrefuse as [_ _ _ _ Hperm H412]. rewrite H412, andb_false_r. cbn [res_bind].
    rewrite run_bind. destruct (run_close reader s2) as (s3 & -> & Hio3 & _ & Hf3). cbn [run app].
    exists s3, err. split_and!; [done| |auto|done].
    by eapply same_but_io_trans, same_but_io_trans.
Qed.

(** A refused upload leaves the session failed, not transient, and the slot free. *)
Definition failed_once (e : error) (u : UploadSession) : UploadSession :=
  setTransient false (setState uploadErrored (Some e) (setState uploadUploading None u)).
Lemma run_execute_refused p u (s : St) : faults s = [] → s_objs s !! p = Some u → 0 < inFlight (s_um s) →
  ∃ s' e, run (executeUpload p) s = Some (tt, s', []) ∧ s_objs s' !! p = Some (failed_once e u) ∧ faults s' = [] ∧
    s_um s' = set_inFlight (inFlight (s_um s) - 1) (set_failed (u64 (failed (s_um s) + 1)) (s_um s)).
Proof using Hrefuse.
  intros Hf Hu Hin. unfold executeUpload. go_run.
  set (s1 := upd_session p (setState uploadUploading None) s).
  assert (Hu1 : s_objs s1 !! p = Some (setState uploadUploading None u)) by exact (session_upd p u _ s Hu).
  rewrite (session_lookup _ _ _ Hu1). cbn [us_ID us_ParentID us_Name setState].
  assert (Hetag : ∃ etag, run (if isLocalID (us_ID u) then Ret "" else
      atomic (λ s, (current_etag (us_ID u) (s_inodes s), s))) s1 = Some (etag, s1, [])).
  { destruct (isLocalID (us_ID u)); eexists; reflexivity. }
  destruct Hetag as [etag Hetag]. rewrite run_bind, Hetag. rewrite run_bind.
  destruct (upload_refused (us_ID u) (isLocalID (us_ID u)) (us_ParentID u) (us_Name u) p etag s1 Hf)
    as (s2 & e & -> & (Eum & Eob & _) & Hf2 & Hne).
  unfold upload_failed. go_run. rewrite Hne. eexists _, e. split; [reflexivity|].
  assert (Hu2 : s_objs s2 !! p = Some (setState uploadUploading None u)) by (by rewrite Eob).
  split_and!.
  - cbn [releaseInFlight on_um s_objs]. unfold failed_once.
    exact (session_upd p _ (setTransient false) _ (session_upd p _ (setState uploadErrored (Some e)) _ Hu2)).
  - exact Hf2.
  - unfold releaseInFlight. cbn [on_um upd_session on_objs s_um]. rewrite Eum.
    change (s_um s1) with (s_um s). cbn [inFlight set_failed]. by rewrite (proj2 (Z.ltb_lt 0 _)) by done.
Qed.

(** The manager holds the one session [u0], after [k] refused attempts. *)
Context (p : N) (u0 : UploadSession) (order : gmap string N → list N).
Context (Horder : ∀ m, order m ≡ₚ (map_to_list m).*2).
Record attempted (k : nat) (s : St) (u : UploadSession) : Prop := {
  at_obj : s_objs s !! p = Some u;
  at_id : us_ID u = us_ID u0;
  at_next : us_nextRetry u = us_nextRetry u0;
  at_sessions : sessions (s_um s) = {[ us_ID u0 := p ]};
  at_idle : inFlight (s_um s) = 0;
  at_failed : failed (s_um s) = Z.of_nat k;
  at_faults : faults s = [];
  at_state : match k with
             | O => us_State u = uploadPending ∧ us_Retries u = 0
             | S k => us_State u = uploadErrored ∧ us_Transient u = false ∧ us_Retries u = Z.of_nat k
             end;
}.

Lemma run_tick (s : St) : sessions (s_um s) = {[ us_ID u0 := p ]} →
  run (processSessions order) s = run (processSession p) s.
Proof using Horder.
  intros Hs. unfold processSessions. go_run. pose proof (Horder (sessions (s_um s))) as Hp.
  rewrite Hs, map_to_list_singleton in Hp. apply Permutation_singleton_r in Hp. rewrite Hs, Hp. cbn [res_iter].
  rewrite (run_bind (processSession p)). destruct (run (processSession p) s) as [[[[] s1] cs]|]; [|done]. cbn [run]. by rewrite app_nil_r.
Qed.

(** One more attempt: an upload was started on [s1], and is refused. *)
Lemma attempt_refused k (s1 : St) u1 :
  s_objs s1 !! p = Some u1 → us_ID u1 = us_ID u0 → us_nextRetry u1 = us_nextRetry u0 →
  sessions (s_um s1) = {[ us_ID u0 := p ]} → inFlight (s_um s1) = 1 → failed (s_um s1) = Z.of_nat k →
  faults s1 = [] → us_Retries u1 = Z.of_nat k → Z.of_nat k + 1 < 2 ^ 64 →
  ∃ s', run_all [executeUpload p] s1 = Some s' ∧ retryCap (s_um s') = retryCap (s_um s1) ∧
    inFlightCap (s_um s') = inFlightCap (s_um s1) ∧ ∃ u', attempted (S k) s' u'.
Proof using Hrefuse.
  intros Hu Hid Hnx Hse Hin Hfa Hfl Hrt Hk.
  destruct (run_execute_refused p u1 s1 Hfl Hu ltac:(lia)) as (s' & e & Hr & Hu' & Hf' & Hum).
  exists s'. cbn [run_all]. rewrite Hr. split; [done|]. rewrite Hum. split_and!; [done..|].
  exists (failed_once e u1). constructor; [exact Hu'|exact Hid|exact Hnx|rewrite Hum; exact Hse|rewrite Hum; cbn; lia| |exact Hf'|
    split_and!; [reflexivity|reflexivity|exact Hrt]].
  rewrite Hum. cbn. rewrite Hfa. unfold u64. rewrite Z.mod_small; lia.
Qed.

Context (Hdue : ∀ w, time_Before (w_now w) (us_nextRetry u0) = false).

(** The rounds up to the limit: one more refused attempt each. *)
Lemma round_refused k (s : St) u :
  attempted k s u → 0 < inFlightCap (s_um s) → Z.of_nat k ≤ retryCap (s_um s) → retryCap (s_um s) < 2 ^ 63 - 1 →
  ∃ s', round order s = Some s' ∧ retryCap (s_um s') = retryCap (s_um s) ∧
    inFlightCap (s_um s') = inFlightCap (s_um s) ∧ ∃ u', attempted (S k) s' u'.
Proof using Hrefuse Horder Hdue.
  intros [Hu Hid Hnx Hse Hin Hfa Hfl Hst] Hc Hk Hcap. unfold round. rewrite run_tick by done.
  assert (Hroom : room s = true) by (unfold room; apply Z.ltb_lt; lia).
  destruct k as [|k].
  - destruct Hst as [Hst Hrt]. unfold processSession. go_run. rewrite (session_lookup p u s Hu), Hst. cbv iota beta.
    rewrite run_launch, Hroom.
    apply (attempt_refused 0 (take_slot s) u); try done. cbn. lia.
  - destruct Hst as (Hst & Htr & Hrt).
    destruct (errored_turn p u s Hu Hst) as (s' & cs & Hr & Hcase). cbv zeta in *.
    assert (Hn : i64 (us_Retries u + 1) = Z.of_nat (S k)) by (rewrite i64_small; lia).
    rewrite Hn, Htr, Hnx, Hdue, (proj2 (Z.leb_le _ (retryCap (s_um s)))) in Hcase by lia. cbn [orb] in Hcase.
    destruct Hcase as (Hu' & Hcs & Hse' & _ & Hin' & _ & Hco & _). rewrite Hr, Hcs, Hroom.
    assert (Hsame : failed (s_um s') = failed (s_um s) ∧ retryCap (s_um s') = retryCap (s_um s) ∧
      inFlightCap (s_um s') = inFlightCap (s_um s)).
    { clear -Hr Hu Hst Htr. revert Hr. unfold processSession. go_run. rewrite (session_lookup p u s Hu), Hst. cbv iota beta. go_run.
      destruct (time_Before _ _); [by intros [= <- _]|]. go_run. rewrite (session_lookup p _ _ (session_upd p u _ s Hu)).
      cbn [us_Transient set_us_Retries]. rewrite Htr. go_run. destruct (retryCap _ <? _); go_run.
      - intros [= <- _]. unfold finishSession. destruct (sessions _ !! _); [|done].
        rewrite um_on_db, um_discard. done.
      - rewrite run_launch. by destruct (room _); intros [= <- _]. }
    destruct Hsame as (Hfa' & Hrc & Hic). rewrite <-Hrc, <-Hic.
    apply (attempt_refused (S k) s' (requeued s (Z.of_nat (S k)) u)); try done.
    + unfold requeued. cbn [us_Transient set_us_Retries]. by rewrite Htr.
    + unfold requeued. cbn [us_Transient set_us_Retries]. by rewrite Htr.
    + by rewrite Hse'.
    + rewrite Hin', Hroom, Hin. done.
    + by rewrite Hfa'.
    + unfold faults. by rewrite Hco.
    + unfold requeued. cbn [us_Transient set_us_Retries]. by rewrite Htr.
    + lia.
Qed.

Lemma rounds_refused (s : St) k :
  attempted 0 s u0 → 0 < inFlightCap (s_um s) → 0 ≤ retryCap (s_um s) < 2 ^ 63 - 1 → (k ≤ Z.to_nat (retryCap (s_um s)) + 1)%nat →
  ∃ s' u, rounds order k s = Some s' ∧ attempted k s' u ∧ retryCap (s_um s') = retryCap (s_um s) ∧
    inFlightCap (s_um s') = inFlightCap (s_um s).
Proof using Hrefuse Horder Hdue.
  intros H0' Hc Hcap. induction k as [|k IH]; intros Hk; [by exists s, u0|].
  destruct IH as (s1 & u1 & Hr & Ha & Hrc & Hic); [lia|].
  destruct (round_refused k s1 u1 Ha) as (s2 & Hr2 & Hrc2 & Hic2 & u2 & Ha2); [lia..|].
  exists s2, u2. cbn [rounds]. rewrite Hr. cbn [mbind option_bind]. rewrite Hr2. split_and!; [done..|congruence|congruence].
Qed.

(** C29: Retrying ends: when the server answers every request of an upload with the
    same permanent error, each of the next ticks makes exactly one attempt that
    fails, for [retryCap + 1] ticks, and the session is kept all along; the tick
    after that abandons it: the manager has no session left, nothing is in flight,
    and exactly [retryCap + 1] failures were counted. *)
Theorem permanent_errors_abandon (s : St) :
  attempted 0 s u0 → 0 < inFlightCap (s_um s) → 0 ≤ retryCap (s_um s) < 2 ^ 63 - 1 →
  let m := (Z.to_nat (retryCap (s_um s)) + 1)%nat in
  (∀ k, (k ≤ m)%nat → ∃ s' u, rounds order k s = Some s' ∧ attempted k s' u) ∧
  ∃ s', rounds order (S m) s = Some s' ∧ sessions (s_um s') = ∅ ∧ inFlight (s_um s') = 0 ∧
    failed (s_um s') = retryCap (s_um s) + 1.
Proof using Hrefuse Horder Hdue.
  intros H0' Hc Hcap m. split.
  { intros k Hk. destruct (rounds_refused s k H0' Hc Hcap Hk) as (s' & u & ? & ? & _). eauto. }
  destruct (rounds_refused s m H0' Hc Hcap ltac:(lia)) as (s1 & u & Hr & [Hu Hid Hnx Hse Hin Hfa Hfl Hst] & Hrc & Hic).
  cbn [rounds]. rewrite Hr. cbn [mbind option_bind]. unfold round. rewrite run_tick by done.
  assert (Hm : m = S (Z.to_nat (retryCap (s_um s)))) by lia. rewrite Hm in Hst, Hfa. destruct Hst as (Hst & Htr & Hrt).
  destruct (errored_turn p u s1 Hu Hst) as (s' & cs & Hrun & Hcase). cbv zeta in *.
  assert (Hn : i64 (us_Retries u + 1) = retryCap (s_um s) + 1) by (rewrite i64_small; lia).
  rewrite Hn, Htr, Hnx, Hdue, Hrc, (proj2 (Z.leb_gt _ _)) in Hcase by lia. cbn [orb] in Hcase.
  destruct Hcase as [-> ->]. rewrite Hrun. eexists. split; [reflexivity|].
  unfold finishSession. cbn [upd_session on_objs s_um]. rewrite Hse, Hid, lookup_singleton_eq.
  rewrite um_on_db, um_discard. cbn [on_um s_um sessions set_sessions inFlight failed].
  change (sessions (s_um (upd_session p _ s1))) with (sessions (s_um s1)). rewrite ?Hse.
  split_and!; [|done|cbn; lia].
  apply map_empty; intros i. rewrite lookup_delete_None, lookup_singleton_None. destruct (decide (us_ID u0 = i)); auto.
Qed.
End rounds.

(** *** A server that answers every request with 403 *)

Inductive Refuser := refuser.
#[global] Instance Refuser_Clock : Clock Refuser := λ _, 1700000000000000000.
Definition forbidden : error := graph_error 403.
Definition refuse {A} : SE Refuser error A := λ w, (inl forbidden, w).
#[global] Instance Refuser_GraphAPI : GraphAPI Refuser := {|
  api_GetItem _ _ := refuse; api_ListDriveRoot _ := refuse; api_ListChildren _ _ := refuse;
  api_CreateFolder _ _ _ := refuse; api_DeleteItem _ _ _ := refuse; api_RenameItem _ _ _ _ := refuse;
  api_MoveItem _ _ _ _ := refuse; api_PollDelta _ _ := refuse; api_UploadItem _ _ _ _ _ := refuse;
  api_UploadItemStream _ _ _ _ _ _ := refuse; api_OverwriteItem _ _ _ _ := refuse;
  api_OverwriteItemStream _ _ _ _ _ := refuse; api_GetItemContentStream _ _ w := ([], Some forbidden, w);
|}.
Lemma Refuser_refuses : refuses forbidden.
Proof. split; intros; try (by exists w); reflexivity. Qed.

Definition pending_session : UploadSession := setState uploadPending None (set_us_Retries 0 example_session).
Definition refused_sys : Sys MapDB Refuser :=
  mkSys (mkUM [] [] {[ "f1" := 0%N ]} 0 0 0 2 3) {[ 0%N := pending_session ]} 1 (Some example_uploads_db) NewInodeCache
    example_content_cache refuser.

(** Three retries are allowed: the fourth failure is the last. *)
Lemma permanent_errors_abandon_witness :
  ∃ s', rounds map_order 5 refused_sys = Some s' ∧ sessions (s_um s') = ∅ ∧ failed (s_um s') = 4.
Proof.
  assert (Hdue : ∀ w : Refuser, time_Before (w_now w) (us_nextRetry pending_session) = false) by reflexivity.
  destruct (permanent_errors_abandon forbidden Refuser_refuses 0%N pending_session map_order (λ m, reflexivity _) Hdue
    refused_sys) as [_ (s' & Hr & Hs & _ & Hf)].
  - split; reflexivity || (split; reflexivity).
  - reflexivity.
  - split; [discriminate|reflexivity].
  - exists s'. split_and!; [exact Hr|exact Hs|exact Hf].
Defined.

(** The session of the earlier run, whose last failure was a timeout. *)
Lemma retry_policy_witness :
  let s := upd_session 0%N (λ _, example_session) refused_sys in
  ∃ s' cs, run (processSession 0%N) s = Some (tt, s', cs) ∧ s_objs s' !! 0%N = Some (requeued s 3 example_session).
Proof.
  intros s. destruct (retry_policy 0%N example_session s) as (s' & cs & Hr & Hv & _); [reflexivity|].
  exists s', cs. split; [exact Hr|exact Hv].
Defined.
