(* ===== verification/UploadPublish.v ===== *)
(** What an upload does to the drive when nothing interferes: an accepted
    content is published whole, and when the drive has moved on in the
    meantime both versions are kept. *)

From S2P Require Import Uploads UploadSlots UploadPersist Remote UploadTheorems UploadRetry.

#[local] Open Scope Z_scope.
#[local] Open Scope res_scope.

(** ** The name of the preserved version *)

Lemma cut_chars_app c l b e : cut_chars c l = Some (b, e) → l = b ++ c :: e.
Proof.
  revert b e. induction l as [|a l IH]; intros b e; [done|]. cbn [cut_chars].
  case_decide as Ea; [by intros [= <- <-]; subst|]. destruct (cut_chars c l) as [[b' e']|]; [|done].
  cbn. intros [= <- <-]. by rewrite (IH b' e' eq_refl).
Qed.
Lemma rcut_chars_app c l b e : rcut_chars c l = Some (b, e) → l = b ++ c :: e.
Proof.
  unfold rcut_chars. destruct (cut_chars c (reverse l)) as [[e' b']|] eqn:E; [|done]. cbn. intros [= <- <-].
  apply cut_chars_app in E. apply (f_equal reverse) in E. rewrite reverse_involutive in E. rewrite E.
  by rewrite reverse_app, reverse_cons, <-app_assoc.
Qed.

(** The suffix goes between the base name and the extension. *)
Lemma conflictName_split `{LocalZone} name t : ∃ base ext,
  name = base +:+ ext ∧ conflictName name t = base +:+ "_conflict_" +:+ time_Format t +:+ ext.
Proof.
  unfold conflictName. destruct (rcut_chars _ _) as [[[|a b] e]|] eqn:E.
  - exists name, "". split; [apply chars_inj; rewrite chars_app; cbn; by rewrite app_nil_r|]. cbv iota. by rewrite of_chars_chars.
  - exists (of_chars (a :: b)), (of_chars ("."%char :: e)). split; [|done].
    apply rcut_chars_app in E. apply (f_equal of_chars) in E. by rewrite of_chars_chars, of_chars_app in E.
  - exists name, "". split; [apply chars_inj; rewrite chars_app; cbn; by rewrite app_nil_r|]. by rewrite of_chars_chars.
Qed.
Lemma conflictName_ne `{LocalZone} name t : conflictName name t ≠ name.
Proof.
  destruct (conflictName_split name t) as (base & ext & -> & ->). intros E%(f_equal (λ s, length (chars s))).
  rewrite !chars_app, !length_app in E. cbn in E. lia.
Qed.

(** ** Reading the content of a session *)

Section publish.
Context {D W : Type} `{Bolt D} `{Clock W} `{GraphAPI W} `{LocalZone}.
Abbreviation St := (Sys D W).
Abbreviation disk s := (ContentCache.disk (s_content s)).

(** The bytes a session is to upload, on a disk without faults. *)
Record held (u : UploadSession) (d : Disk) (data : list Z) : Prop := {
  held_faultless : d_faults d = [];
  held_bytes : if decide (us_SnapshotPath u = "") then (us_Data u = data)
    else (us_SnapshotPath u ∉ d_dirs d) ∧ us_Size u = Z.of_nat (length data) ∧
      ∃ o t, d_names d !! us_SnapshotPath u = Some o ∧ d_objs d !! o = Some (mkFileObj data t);
}.
Definition same_files (d d' : Disk) : Prop :=
  d_names d' = d_names d ∧ d_dirs d' = d_dirs d ∧ d_objs d' = d_objs d ∧ d_faults d' = d_faults d.
Lemma same_files_trans d1 d2 d3 : same_files d1 d2 → same_files d2 d3 → same_files d1 d3.
Proof. unfold same_files. intuition congruence. Qed.
Lemma held_same u d d' data : held u d data → same_files d d' → held u d' data.
Proof. intros [Hf Hb] (En & Ed & Eo & Ef). split; [congruence|]. by rewrite En, Ed, Eo. Qed.

(** The states of an upload that has only read so far. *)
Definition only_io (s s' : St) : Prop := same_but_io s s' ∧ same_files (disk s) (disk s').
Lemma only_io_refl s : only_io s s.
Proof. done. Qed.
Lemma only_io_trans s1 s2 s3 : only_io s1 s2 → only_io s2 s3 → only_io s1 s3.
Proof. intros [??] [??]. split; [by eapply same_but_io_trans|by eapply same_files_trans]. Qed.

Lemma with_fd_files {A} op fd (m : FileDesc → FileObj → Disk → (error + A) * Disk) d :
  d_faults d = [] → (∀ f o, same_files d (m f o d).2) → same_files d (with_fd op fd m d).2.
Proof.
  intros E Hm. unfold with_fd. destruct (fd_file fd d) as [[f o]|] eqn:Ef; [|done].
  rewrite faults_sys, Ef by done. apply Hm.
Qed.

Lemma OpenContent_held u d data : held u d data →
  ∃ r d', OpenContent u d = (inr (r, Z.of_nat (length data)), d') ∧ same_files d d' ∧
    match r with
    | ByteReader b => b = data
    | OsFile fd => ∃ f t, fd_file fd d' = Some (f, mkFileObj data t) ∧ fd_pos f = 0%nat
    end.
Proof.
  intros [Hf Hb]. unfold OpenContent. case_decide as Ep; [subst data; eexists _, d; by split_and!|].
  destruct Hb as (Hdir & -> & o & t & Hn & Ho). unfold os_Open. rewrite faults_sys, decide_False, Hn by done. cbn.
  eexists _, _. split; [reflexivity|]. split; [done|]. exists (mkFileDesc o 0), t. split; [|done].
  unfold fd_file. cbn. by rewrite lookup_insert_eq; cbn; rewrite Ho.
Qed.

Lemma session_open_held p u data (s : St) :
  s_objs s !! p = Some u → held u (disk s) data →
  ∃ r s1, session_open p s = (inr (r, Z.of_nat (length data)), s1) ∧ only_io s s1 ∧ s_net s1 = s_net s ∧
    (read_content r s1).1 = (data, None).
Proof.
  intros Hu Hh. unfold session_open. rewrite (session_lookup p u s Hu). pose proof (on_disk_io (OpenContent u) s) as Hd.
  destruct (OpenContent_held u _ data Hh) as (r & d' & E & Hs & Hr). rewrite E in Hd. rewrite Hd.
  eexists _, _. split; [reflexivity|]. split; [by split|]. split; [done|].
  destruct r as [fd|b]; [|by subst b]. destruct Hr as (f & t & Hfd & Hpos). cbn [read_content].
  set (s1 := set_content _ s). assert (Ed : disk s1 = d') by done.
  pose proof (on_disk_io (file_ReadAll fd) s1) as Hd1. unfold file_ReadAll at 1 in Hd1. unfold with_fd in Hd1. rewrite Ed, Hfd in Hd1.
  rewrite faults_sys in Hd1 by (destruct Hs as (_ & _ & _ & ->); apply Hh). rewrite Hfd in Hd1. cbn [fo_data] in Hd1.
  by rewrite Hd1, Hpos.
Qed.

Lemma read_only_io r (s : St) : d_faults (disk s) = [] → only_io s (read_content r s).2 ∧ s_net (read_content r s).2 = s_net s.
Proof.
  intros E. destruct (read_io r s) as (Hio & Hn & _). split; [|done]. split; [done|].
  destruct r as [fd|b]; cbn [read_content]; [|done]. pose proof (on_disk_io (file_ReadAll fd) s) as Hd.
  pose proof (with_fd_files "read" fd (λ f o d, (inr (drop (fd_pos f) (fo_data o)),
    set_pos fd f (max (fd_pos f) (length (fo_data o))) d)) (disk s) E (λ _ _, conj eq_refl (conj eq_refl (conj eq_refl eq_refl)))) as Hw.
  unfold file_ReadAll in *. destruct (with_fd _ _ _ _) as [a d]. by rewrite Hd.
Qed.
Lemma run_close_only r (s : St) : d_faults (disk s) = [] →
  ∃ s', run (closeContentReader r) s = Some (tt, s', []) ∧ only_io s s' ∧ s_net s' = s_net s.
Proof.
  intros E. destruct (run_close r s) as (s' & Hr & Hio & Hn & _). exists s'. split; [done|]. split; [|done]. split; [done|].
  destruct r as [fd|b]; cbn [closeContentReader] in Hr; [|by simplify_eq/=]. cbn in Hr. simplify_eq.
  pose proof (on_disk_io (file_Close fd) s) as Hd. unfold file_Close in Hd.
  pose proof (with_fd_files "close" fd (λ _ _ d, (inr tt, d)) (disk s) E (λ _ _, conj eq_refl (conj eq_refl (conj eq_refl eq_refl)))) as Hw.
  unfold file_Close. destruct (with_fd _ _ _ _) as [a d]. by rewrite Hd.
Qed.

(** The request made for a content of [data]. *)
Definition small (data : list Z) : bool := Z.of_nat (length data) <=? smallUpload.
Definition request (isLocal : bool) (id parentID name : string) (data : list Z) (etag : string) : SE W error DriveItem :=
  if isLocal then call_upload (small data) (parentResource parentID) name data (Z.of_nat (length data)) etag
  else call_overwrite (small data) id data (Z.of_nat (length data)) etag.

Lemma doUpload_request id isLocal parentID name r data etag (s : St) :
  d_faults (disk s) = [] → (read_content r s).1 = (data, None) →
  ∃ s', doUpload id isLocal parentID name r (Z.of_nat (length data)) etag s =
      ((request isLocal id parentID name data etag (s_net s)).1, s') ∧
    only_io s s' ∧ s_net s' = (request isLocal id parentID name data etag (s_net s)).2.
Proof.
  intros E Hr. destruct (read_only_io r s E) as [Hio Hn]. unfold doUpload, request, call_upload, call_overwrite, small.
  destruct (read_content r s) as [[b e] s1]. cbn [fst snd] in *. injection Hr as -> ->. unfold on_net. rewrite Hn.
  destruct isLocal, (_ <=? smallUpload); cbn [negb]; case_match; (eexists; split; [reflexivity|]); done.
Qed.

(** An upload that is answered. *)
Lemma run_upload_answered id isLocal parentID name p u data etag (s : St) :
  s_objs s !! p = Some u → held u (disk s) data →
  (∀ e, (request isLocal id parentID name data etag (s_net s)).1 = inl e → isLocal = true ∨ errors_Is e ErrPreconditionFailed = false) →
  ∃ s', run (upload id isLocal parentID name p etag) s =
      Some (match (request isLocal id parentID name data etag (s_net s)).1 with inl e => inl e | inr item => inr (item, isLocal) end, s', []) ∧
    only_io s s' ∧ s_net s' = (request isLocal id parentID name data etag (s_net s)).2.
Proof.
  intros Hu Hh Hok. unfold upload. go_run.
  destruct (session_open_held p u data s Hu Hh) as (r & s1 & -> & Hio1 & Hn1 & Hrd). cbn [fst snd]. go_run.
  assert (Hf1 : d_faults (disk s1) = []) by (destruct Hio1 as (_ & _ & _ & _ & ->); apply Hh).
  destruct (doUpload_request id isLocal parentID name r data etag s1 Hf1 Hrd) as (s2 & -> & Hio2 & Hn2).
  rewrite Hn1 in *. cbn [fst snd]. destruct (request _ _ _ _ _ _ _) as [res w']. cbn [fst snd] in *.
  assert (Hf2 : d_faults (disk s2) = []) by (destruct Hio2 as (_ & _ & _ & _ & ->); done).
  destruct (run_close_only r s2 Hf2) as (s3 & Hr3 & Hio3 & Hn3). exists s3.
  split; [|split; [by eapply only_io_trans, only_io_trans|congruence]].
  destruct res as [e|item].
  - assert (Hn : negb isLocal && errors_Is e ErrPreconditionFailed = false)
      by (destruct (Hok e eq_refl) as [-> | ->]; [done|apply andb_false_r]).
    rewrite Hn. cbn [res_bind]. rewrite run_bind, Hr3. done.
  - cbn [res_bind]. rewrite run_bind, Hr3. done.
Qed.

(** ** The accepted upload *)

(** What the manager keeps of an upload that ended well. *)
Definition settled (p : N) (u : UploadSession) (s s' : St) : Prop :=
  s_objs s' !! p = Some (setState uploadComplete None u) ∧
  s_um s' = set_inFlight (inFlight (s_um s) - 1) (set_completed (u64 (completed (s_um s) + 1)) (s_um s)).

Lemma run_succeeded p u item createdNew (s : St) :
  s_objs s !! p = Some u → 0 < inFlight (s_um s) →
  ∃ s', run (upload_succeeded p (us_ID u) (us_ParentID u) (us_Name u) item createdNew ;;; atomic_ releaseInFlight) s = Some (tt, s', []) ∧
    settled p u s s' ∧ s_net s' = s_net s ∧ s_db s' = s_db s ∧ s_content s' = s_content s.
Proof.
  intros Hu Hin. unfold upload_succeeded.
  set (rest := λ _ : unit, _). assert (Hmeta : ∃ s1, (∀ B (k : unit → Res St B), run (res_bind
      (if createdNew then
         atomic_ (on_inodes (upd_inode (us_ID u) (λ i, SetID (item_ID item) (uploaded_meta item i)))) ;;;
         atomic_ (on_inodes (MoveID (us_ID u) (item_ID item)))
       else atomic_ (on_inodes (upd_inode (us_ID u) (uploaded_meta item)))) k) s = run (k tt) s1) ∧
      s_um s1 = s_um s ∧ s_objs s1 = s_objs s ∧ s_net s1 = s_net s ∧ s_db s1 = s_db s ∧ s_content s1 = s_content s).
  { destruct createdNew; (eexists; split; [intros B k; reflexivity|done]). }
  destruct Hmeta as (s1 & Hr & Eum & Eob & Ene & Edb & Eco). rewrite run_bind, Hr. subst rest. cbv beta.
  go_run. set (s2 := on_inodes _ s1). assert (Hu2 : s_objs s2 !! p = Some u) by (cbn; by rewrite Eob).
  rewrite (session_lookup p u s2 Hu2), !bool_decide_true by done. cbn [andb res_bind]. rewrite !run_atomic_bind_.
  rewrite run_atomic_. cbn [app]. rewrite run_atomic_. eexists. split; [reflexivity|].
  split; [|by cbn]. split.
  - exact (session_upd p u _ s2 Hu2).
  - unfold releaseInFlight. cbn [on_um upd_session on_objs s_um]. change (s_um s2) with (s_um s1). rewrite Eum.
    cbn [inFlight set_completed]. by rewrite (proj2 (Z.ltb_lt 0 _)) by done.
Qed.

(** The goroutine up to its request. *)
Lemma run_to_request p u (s : St) :
  s_objs s !! p = Some u →
  let s1 := upd_session p (setState uploadUploading None) s in
  let etag := if isLocalID (us_ID u) then "" else current_etag (us_ID u) (s_inodes s) in
  ∀ r s2, run (upload (us_ID u) (isLocalID (us_ID u)) (us_ParentID u) (us_Name u) p etag) s1 = Some (r, s2, []) →
  run (executeUpload p) s =
    run (match r with
         | inl err => upload_failed p err
         | inr (item, createdNew) => upload_succeeded p (us_ID u) (us_ParentID u) (us_Name u) item createdNew
         end ;;; atomic_ releaseInFlight) s2.
Proof.
  intros Hu s1 etag r s2 Hr. unfold executeUpload. go_run. fold s1.
  assert (Hu1 : s_objs s1 !! p = Some (setState uploadUploading None u)) by exact (session_upd p u _ s Hu).
  rewrite (session_lookup _ _ _ Hu1). cbn [us_ID us_ParentID us_Name setState].
  assert (Hetag : run (if isLocalID (us_ID u) then Ret "" else
      atomic (λ s, (current_etag (us_ID u) (s_inodes s), s))) s1 = Some (etag, s1, [])).
  { unfold etag. by destruct (isLocalID (us_ID u)). }
  rewrite run_bind, Hetag, run_bind, Hr. cbn [app].
  by destruct (run _ s2) as [[[[] s3] cs]|].
Qed.

(** The item at [k] has the name, up to its case, in the folder. *)
Definition taken `{!RemoteDrive W} (res : Resource) (name : string) (w : W) (k : string) (it : RItem) : Prop :=
  drive w !! k = Some it ∧ ri_parent it = resource_id res ∧ same_name (ri_name it) name.
(** What an upload under a name made of the drive: a child of the folder with the
    content, new when the name was free (it then has it), or when it took an upload
    session; else it is the child that had the name. *)
Definition created_in `{!RemoteDrive W} (small : bool) (res : Resource) (name : string) (w : W) (k : string) (it : RItem) : Prop :=
  ri_parent it = resource_id res ∧
  ((∀ k it, ¬ taken res name w k it) → ri_name it = name ∧ drive w !! k = None) ∧
  (drive w !! k = None ∨ (small = true ∧ ∃ it, taken res name w k it)).

(** The run of an accepted upload, and what the drive holds after it. *)
Lemma publish_run `{!RemoteDrive W} p u data item w' (s : St) :
  s_objs s !! p = Some u → held u (disk s) data → 0 < inFlight (s_um s) →
  let isLocal := isLocalID (us_ID u) in
  let etag := if isLocal then "" else current_etag (us_ID u) (s_inodes s) in
  request isLocal (us_ID u) (us_ParentID u) (us_Name u) data etag (s_net s) = (inr item, w') →
  ¬ interrupted (s_net s) w' →
  ∃ s' it, run (executeUpload p) s = Some (tt, s', []) ∧
    s_objs s' !! p = Some (setState uploadComplete None (setState uploadUploading None u)) ∧
    drive (s_net s') !! item_ID item = Some it ∧ ri_content it = data ∧
    (if isLocal then created_in (small data) (parentResource (us_ParentID u)) (us_Name u) (s_net s) (item_ID item) it
     else item_ID item = us_ID u) ∧
    (∀ k, k ≠ item_ID item → drive (s_net s') !! k = drive (s_net s) !! k) ∧
    inFlight (s_um s') = inFlight (s_um s) - 1 ∧ completed (s_um s') = u64 (completed (s_um s) + 1).
Proof.
  intros Hu Hh Hin isLocal etag Hreq Hwhole. set (s1 := upd_session p (setState uploadUploading None) s).
  set (u1 := setState uploadUploading None u).
  assert (Hu1 : s_objs s1 !! p = Some u1) by exact (session_upd p u _ s Hu).
  assert (Hh1 : held u1 (disk s1) data) by (destruct Hh; by split).
  assert (Hdrive : ∃ it, drive w' = <[item_ID item := it]> (drive (s_net s)) ∧ ri_content it = data ∧
    (if isLocal then created_in (small data) (parentResource (us_ParentID u)) (us_Name u) (s_net s) (item_ID item) it
     else item_ID item = us_ID u)).
  { unfold request in Hreq. destruct isLocal.
    - apply law_upload in Hreq as (n & stored & -> & Hst & Hfree & Hnew). eexists. split; [done|]. split; [by apply Hst|].
      split; [done|]. split; [exact Hfree|exact Hnew].
    - apply law_overwrite in Hreq as [_ Hok]. destruct (Hok item eq_refl) as (Hid & it & stored & _ & -> & Hst). rewrite Hid.
      eexists. split; [done|]. split; [by apply Hst|done]. }
  destruct (run_upload_answered (us_ID u) isLocal (us_ParentID u) (us_Name u) p u1 data etag s1 Hu1 Hh1)
    as (s2 & Hr & [(Eum & Eob & _) _] & Hn2); change (s_net s1) with (s_net s) in *; rewrite Hreq in *; [by intros|].
  cbn [fst snd] in *. rewrite <-Eob in Hu1.
  destruct (run_succeeded p u1 item isLocal s2 Hu1) as (s3 & Hr3 & [Hu3 Eum3] & Hn3 & _); [by rewrite Eum|].
  exists s3. destruct Hdrive as (it & Hd & Hc & Hpn). exists it. rewrite Hn3, Hn2, Hd, Eum3, Eum, lookup_insert_eq.
  split_and!; try done.
  - rewrite (run_to_request p u s Hu _ _ Hr). exact Hr3.
  - intros k Hk. by apply lookup_insert_ne.
Qed.

(** C3: An accepted upload publishes the content whole, and is done. When the
    request of a launched upload is accepted, and no network error interrupts it,
    the goroutine, run without others in between on a disk without faults, comes to
    its end, and the drive holds exactly the bytes of the session: for an existing
    file under its ID; for a new one in the folder of the session, as a new item of
    the session's name when the folder has no child of that name, and else in
    place of that child (a content sent in one request) or as a new item under a
    name the drive chooses (an upload session). No other item of the drive changes;
    the upload is counted and its slot given back; and the next turn of the loop
    forgets the session. *)
Theorem upload_publishes `{!RemoteDrive W} p u data item w' (s : St) :
  s_objs s !! p = Some u → held u (disk s) data → 0 < inFlight (s_um s) →
  let isLocal := isLocalID (us_ID u) in
  let etag := if isLocal then "" else current_etag (us_ID u) (s_inodes s) in
  request isLocal (us_ID u) (us_ParentID u) (us_Name u) data etag (s_net s) = (inr item, w') →
  ¬ interrupted (s_net s) w' →
  ∃ s' s'' it, run (executeUpload p) s = Some (tt, s', []) ∧ run (processSession p) s' = Some (tt, s'', []) ∧
    drive (s_net s') !! item_ID item = Some it ∧ ri_content it = data ∧
    (if isLocal then created_in (small data) (parentResource (us_ParentID u)) (us_Name u) (s_net s) (item_ID item) it
     else item_ID item = us_ID u) ∧
    (∀ k, k ≠ item_ID item → drive (s_net s') !! k = drive (s_net s) !! k) ∧
    inFlight (s_um s') = inFlight (s_um s) - 1 ∧ completed (s_um s') = u64 (completed (s_um s) + 1) ∧
    sessions (s_um s'') !! us_ID u = None.
Proof.
  intros Hu Hh Hin isLocal etag Hreq Hwhole.
  destruct (publish_run p u data item w' s Hu Hh Hin Hreq Hwhole) as (s' & it & Hr & Hu' & Hit & Hc & Hpn & Ho & Hi & Hco).
  exists s', (finishSession (us_ID u) s'), it. rewrite (complete_turn p _ s' Hu') by done.
  split_and!; try done. apply finish_forgets.
Qed.

(** ** The conflict *)

(** The request of the session is answered 412, the rename and the new upload
    are accepted. *)
Lemma run_upload_conflict id parentID name p u data etag (s : St) e w1 it1 w2 it2 w3 :
  s_objs s !! p = Some u → held u (disk s) data →
  request false id parentID name data etag (s_net s) = (inl e, w1) → errors_Is e ErrPreconditionFailed = true →
  api_RenameItem Background (ItemID id) (conflictName name (w_now w1)) "" w1 = (it1, w2) →
  request true id parentID name data "" w2 = (inr it2, w3) →
  ∃ s', run (upload id false parentID name p etag) s = Some (inr (it2, true), s', []) ∧ only_io s s' ∧ s_net s' = w3.
Proof.
  intros Hu Hh Hreq He Hren Hup. unfold upload. go_run.
  destruct (session_open_held p u data s Hu Hh) as (r & s1 & -> & Hio1 & Hn1 & Hrd). cbn [fst snd]. go_run.
  assert (Hfl : ∀ s', only_io s s' → d_faults (disk s') = []) by (intros s' (_ & _ & _ & _ & ->); apply Hh).
  destruct (doUpload_request id false parentID name r data etag s1 (Hfl _ Hio1) Hrd) as (s2 & -> & Hio2 & Hn2).
  rewrite Hn1, Hreq in *. cbn [fst snd negb andb] in *. rewrite He. unfold uploadAfterConflict.
  rewrite run_bind. go_run. unfold on_net at 2. rewrite Hn2, Hren. cbn [fst snd].
  set (s3 := mkSys _ _ _ _ _ _ w2). assert (Hio3 : only_io s s3) by (exact (only_io_trans _ _ _ Hio1 Hio2)).
  assert (Hu3 : s_objs s3 !! p = Some u) by (by destruct Hio3 as [(_ & -> & _) _]).
  assert (Hh3 : held u (disk s3) data) by (eapply held_same; [exact Hh|apply Hio3]).
  destruct (session_open_held p u data s3 Hu3 Hh3) as (r' & s4 & E4 & Hio4 & Hn4 & Hrd4).
  pose proof (only_io_trans _ _ _ Hio3 Hio4) as Hio04.
  destruct (doUpload_request id true parentID name r' data "" s4 (Hfl _ Hio04) Hrd4) as (s5 & E5 & Hio5 & Hn5).
  rewrite Hn4 in *. change (s_net s3) with w2 in *. rewrite Hup in *. cbn [fst snd] in *.
  unfold on_net. cbn [fst snd]. rewrite Hn2, Hren. cbn [fst snd]. fold s3. rewrite E4. cbn [fst snd]. go_run. rewrite E5. cbn [fst snd].
  pose proof (only_io_trans _ _ _ Hio04 Hio5) as Hio05.
  destruct (run_close_only r' s5 (Hfl _ Hio05)) as (s6 & Hr6 & Hio6 & Hn6).
  pose proof (only_io_trans _ _ _ Hio05 Hio6) as Hio06.
  destruct (run_close_only r s6 (Hfl _ Hio06)) as (s7 & Hr7 & Hio7 & Hn7).
  exists s7. split; [|split; [by eapply only_io_trans|congruence]].
  rewrite run_bind, Hr6. cbn [run app]. by rewrite run_bind, Hr7.
Qed.

(** The copy is not the file under another case. *)
Lemma runes_app a b : runes (a +:+ b) = (runes a + runes b)%nat.
Proof. unfold runes. by rewrite chars_app, filter_app, length_app. Qed.
Lemma conflictName_runes name t : runes (conflictName name t) ≠ runes name.
Proof.
  destruct (conflictName_split name t) as (base & ext & -> & ->). rewrite !runes_app. change (runes "_conflict_") with 10%nat. lia.
Qed.

(** C6: No version of a file is lost in a conflict. When an existing file was
    changed on the drive since the local change was made (the server answers 412)
    and the rename of the remote version and the new upload are accepted, the
    latter without being interrupted by a network error, the goroutine, run
    without others in between on a disk without faults, leaves both contents on the
    drive, as two items: the remote one under its ID, its name marked as the
    conflicting copy, and the local one in the folder of the session, as a new item
    of the file's name when the folder has no other child of that name. When it has
    one, a content sent in one request takes the place of that child, and one sent
    in an upload session is a new item under a name the drive chooses. No other item
    changes, and the session is complete. *)
Theorem conflict_keeps_both `{!RemoteDrive W} p u data it e w1 it1 w2 item w3 (s : St) :
  s_objs s !! p = Some u → held u (disk s) data → 0 < inFlight (s_um s) →
  isLocalID (us_ID u) = false → drive (s_net s) !! us_ID u = Some it →
  let etag := current_etag (us_ID u) (s_inodes s) in
  etag ≠ "" → etag ≠ ri_etag it →
  request false (us_ID u) (us_ParentID u) (us_Name u) data etag (s_net s) = (inl e, w1) →
  errors_Is e ErrPreconditionFailed = true →
  let copy := conflictName (us_Name u) (w_now w1) in
  api_RenameItem Background (ItemID (us_ID u)) copy "" w1 = (inr it1, w2) →
  request true (us_ID u) (us_ParentID u) (us_Name u) data "" w2 = (inr item, w3) →
  ¬ interrupted w2 w3 →
  let res := parentResource (us_ParentID u) in
  ∃ s' remote local, run (executeUpload p) s = Some (tt, s', []) ∧
    us_ID u ≠ item_ID item ∧
    drive (s_net s') !! us_ID u = Some remote ∧ ri_content remote = ri_content it ∧ ri_name remote = copy ∧
    drive (s_net s') !! item_ID item = Some local ∧ ri_content local = data ∧ ri_parent local = resource_id res ∧
    ((∀ k other, k ≠ us_ID u → ¬ taken res (us_Name u) (s_net s) k other) →
       ri_name local = us_Name u ∧ drive (s_net s) !! item_ID item = None) ∧
    (drive (s_net s) !! item_ID item = None ∨
       (small data = true ∧ ∃ other, taken res (us_Name u) (s_net s) (item_ID item) other)) ∧
    (∀ k, k ≠ us_ID u → k ≠ item_ID item → drive (s_net s') !! k = drive (s_net s) !! k) ∧
    settled p (setState uploadUploading None u) s s'.
Proof.
  intros Hu Hh Hin Hloc Hit etag Hne Hnm Hreq He copy Hren Hup Hwhole res. set (s1 := upd_session p (setState uploadUploading None) s).
  set (u1 := setState uploadUploading None u).
  assert (Hu1 : s_objs s1 !! p = Some u1) by exact (session_upd p u _ s Hu).
  assert (Hh1 : held u1 (disk s1) data) by (destruct Hh; by split).
  destruct (run_upload_conflict (us_ID u) (us_ParentID u) (us_Name u) p u1 data etag s1 e w1 (inr it1) w2 item w3
    Hu1 Hh1 Hreq He Hren Hup) as (s2 & Hr & [(Eum & Eob & _) _] & Hn2).
  rewrite <-Eob in Hu1. destruct (run_succeeded p u1 item true s2 Hu1) as (s3 & Hr3 & [Hu3 Eum3] & Hn3 & _); [by rewrite Eum|].
  pose proof (proj1 (law_overwrite _ _ _ _ _ _ _ Hreq) it Hit Hne Hnm) as [Hd1 _].
  destruct (law_rename _ _ _ _ _ _ Hren) as (it' & e' & Hit' & Hd2).
  rewrite Hd1, Hit in Hit'. injection Hit' as <-. rewrite Hd1 in Hd2.
  destruct (law_upload _ _ _ _ _ _ _ _ Hup) as (n & stored & Hd3 & Hst & Hfree & Hnew). cbv zeta in Hfree, Hnew.
  rewrite (Hst Hwhole) in Hd3. rewrite Hd2 in Hd3, Hfree, Hnew. fold res in Hd3, Hfree, Hnew.
  (* the renamed item is not in the way *)
  assert (Htaken : ∀ k other, (<[us_ID u := mkRItem (ri_parent it) copy (ri_folder it) (ri_content it) e']> (drive (s_net s)) !! k = Some other ∧
      ri_parent other = resource_id res ∧ same_name (ri_name other) (us_Name u)) →
    k ≠ us_ID u ∧ taken res (us_Name u) (s_net s) k other).
  { intros k other (Hk & Hp & Hn). destruct (decide (k = us_ID u)) as [->|Hk'].
    - rewrite lookup_insert_eq in Hk. injection Hk as <-. by apply same_name_runes, conflictName_runes in Hn.
    - rewrite lookup_insert_ne in Hk by done. done. }
  assert (Hids : us_ID u ≠ item_ID item).
  { intros E. destruct Hnew as [Hnew|(_ & other & Ht)]; [by rewrite <-E, lookup_insert_eq in Hnew|]. by destruct (Htaken _ _ Ht) as [? _]. }
  rewrite (lookup_insert_ne _ _ (item_ID item)) in Hfree, Hnew by done.
  exists s3. rewrite Hn3, Hn2, Hd3.
  rewrite lookup_insert_ne, lookup_insert_eq by done. rewrite lookup_insert_eq. eexists _, _. split_and!; try done.
  - rewrite (run_to_request p u s Hu (inr (item, true)) s2); [exact Hr3|rewrite Hloc; exact Hr].
  - intros Hno. apply Hfree. intros k other Ht. destruct (Htaken k other Ht) as [Hk Ht']. exact (Hno k other Hk Ht').
  - intros k Hk1 Hk2. by rewrite !lookup_insert_ne by done.
  - split; [exact Hu3|by rewrite Eum3, Eum].
Qed.
End publish.

(** ** On the example mount *)

(** The restored session, launched by the first tick: its file has version "7" on
    the drive. *)
Definition accepted {A} (r : error + A) : bool := match r with inr _ => true | inl _ => false end.
Lemma accepted_inr {A} (r : error + A) : accepted r = true → ∃ a, r = inr a.
Proof. destruct r as [e|a]; [done|eauto]. Qed.

Lemma upload_publishes_witness :
  ∃ s' it, run (executeUpload 0%N) (take_slot example_sys) = Some (tt, s', []) ∧ cl_items (s_net s') !! "f1" = Some it ∧
    ri_content it = [1; 2; 3].
Proof.
  assert (Hx : ∃ x, x = take_slot example_sys) by (by eexists). destruct Hx as [x Ex]. rewrite <-Ex.
  set (u := setNextRetryAt zeroTime (setState uploadPending None example_session)).
  destruct (request false "f1" "root" "a.txt" [1; 2; 3] "" example_cloud) as [r w'] eqn:Er.
  destruct (accepted_inr r) as [item ->]; [apply (f_equal fst) in Er; cbn [fst] in Er; rewrite <-Er; vm_compute; reflexivity|].
  assert (Hnet : s_net x = example_cloud) by (rewrite Ex; vm_compute; reflexivity).
  destruct (upload_publishes 0%N u [1; 2; 3] item w' x) as (s' & s'' & it & Hr & _ & Hit & Hc & Hid & _).
  - rewrite Ex. vm_compute. reflexivity.
  - rewrite Ex. split; [vm_compute; reflexivity|]. cbn [us_SnapshotPath u example_session setState setNextRetryAt]. rewrite decide_False by done.
    split; [apply (bool_decide_unpack _); vm_compute; exact I|]. split; [done|]. exists 0%nat, 5. split; vm_compute; reflexivity.
  - rewrite Ex. vm_compute. reflexivity.
  - rewrite Hnet. assert (He : current_etag "f1" (s_inodes x) = "") by (rewrite Ex; vm_compute; reflexivity).
    cbn [us_ID u example_session setState setNextRetryAt us_ParentID us_Name]. rewrite He. exact Er.
  - by intros [].
  - cbn in Hid. rewrite Hid in Hit. by exists s', it.
Defined.

(** The same mount, where the change was made on version "5": the drive has "7". *)
Definition stale_file : Inode :=
  SetParentID "root" (inode_of_item (set_item_ETag "5" (set_item_Name "a.txt" (set_item_ID "f1" zero_DriveItem)))).
Definition stale_cache : InodeCache :=
  let '(l, c) := alloc stale_file NewInodeCache in InodeCache.Insert 0 (Some l) c.
Definition stale_sys (c : Cloud) : Sys MapDB Cloud :=
  let x := take_slot example_sys in
  mkSys (s_um x) (s_objs x) (s_next x) (s_db x) stale_cache (s_content x) c.
Definition stale_session : UploadSession := setNextRetryAt zeroTime (setState uploadPending None example_session).
Lemma stale_held c : held stale_session (ContentCache.disk (s_content (stale_sys c))) [1; 2; 3].
Proof.
  split; [vm_compute; reflexivity|]. cbn [us_SnapshotPath stale_session example_session setState setNextRetryAt].
  rewrite decide_False by done. split; [apply (bool_decide_unpack _); vm_compute; exact I|]. split; [done|].
  exists 0%nat, 5. split; vm_compute; reflexivity.
Qed.

Lemma conflict_keeps_both_witness :
  ∃ s' remote local id, run (executeUpload 0%N) (stale_sys example_cloud) = Some (tt, s', []) ∧
    cl_items (s_net s') !! "f1" = Some remote ∧ ri_content remote = [9] ∧
    ri_name remote = "a_conflict_2023-11-14_23-13-20.txt" ∧
    cl_items (s_net s') !! id = Some local ∧ ri_content local = [1; 2; 3] ∧ ri_name local = "a.txt" ∧ "f1" ≠ id.
Proof.
  assert (Hx : ∃ x, x = stale_sys example_cloud) by (by eexists). destruct Hx as [x Ex].
  pose proof (stale_held example_cloud) as Hh. rewrite <-Ex in *.
  assert (Hnet : s_net x = example_cloud) by (by rewrite Ex). set (copy := conflictName "a.txt" (w_now example_cloud)).
  assert (Hcopy : copy = "a_conflict_2023-11-14_23-13-20.txt") by (vm_compute; reflexivity).
  set (w2 := (api_RenameItem Background (ItemID "f1") copy "" example_cloud).2).
  destruct (request true "f1" "root" "a.txt" [1; 2; 3] "" w2) as [r w3] eqn:Er.
  destruct (accepted_inr r) as [item ->]; [apply (f_equal fst) in Er; cbn [fst] in Er; rewrite <-Er; vm_compute; reflexivity|].
  destruct (accepted_inr (api_RenameItem Background (ItemID "f1") copy "" example_cloud).1) as [it1 E1]; [vm_compute; reflexivity|].
  assert (Etag : current_etag "f1" (s_inodes x) = "5") by (rewrite Ex; vm_compute; reflexivity).
  destruct (conflict_keeps_both 0%N stale_session [1; 2; 3] (mkRItem "root" "a.txt" false [9] "7") (graph_error 412) example_cloud
    it1 w2 item w3 x) as (s' & remote & local & Hr & Hid & Hrem & Hc & Hn & Hl & Hlc & _ & Hfree & _).
  - rewrite Ex. vm_compute. reflexivity.
  - exact Hh.
  - rewrite Ex. vm_compute. reflexivity.
  - reflexivity.
  - rewrite Hnet. reflexivity.
  - change (us_ID stale_session) with "f1". by rewrite Etag.
  - change (us_ID stale_session) with "f1". by rewrite Etag.
  - change (us_ID stale_session) with "f1". rewrite Etag, Hnet. vm_compute. reflexivity.
  - reflexivity.
  - change (us_ID stale_session) with "f1". change (us_Name stale_session) with "a.txt". fold copy. unfold w2. rewrite <-E1.
    by destruct (api_RenameItem _ _ _ _ _).
  - exact Er.
  - by intros [].
  - exists s', remote, local, (item_ID item). rewrite <-Hcopy.
    split_and!; [exact Hr|exact Hrem|exact Hc|exact Hn|exact Hl|exact Hlc| |exact Hid]. apply Hfree.
    intros k other Hk (Ho & _). rewrite Hnet in Ho. cbn in Ho. by rewrite lookup_singleton_ne in Ho by done.
Defined.

(** ** What the manager does not protect against *)

(** The contents the drive holds after a goroutine. *)
Definition contents_after (t : Res (Sys MapDB Cloud) unit) (s : Sys MapDB Cloud) : option (list (list Z)) :=
  match run t s with
  | Some (_, s', _) => Some ((λ kv, ri_content kv.2) <$> map_to_list (cl_items (s_net s')))
  | None => None
  end.

(** When the rename of the remote version is refused, the upload goes on under the
    same name: the content another device wrote is replaced. *)
Example rename_refused_loses_remote :
  contents_after (executeUpload 0%N)
    (stale_sys (mkCloud (cl_items example_cloud) 8 1700000000000000000 [None; Some (graph_error 503)])) = Some [[1; 2; 3]].
Proof. vm_compute. reflexivity. Qed.

(** A newer session of the same file that is enqueued after a tick launched the
    first one, and before its goroutine begins, removes the content under it: the
    goroutine uploads an empty file. *)
Example superseded_upload_is_empty :
  let s := take_slot example_sys in
  let '(p, s) := new_session (set_us_SnapshotPath "/c/snapshots/snapshot-2" stale_session) s in
  contents_after (executeUpload 0%N) (enqueueSession p s) = Some [[]].
Proof. vm_compute. reflexivity. Qed.

(** A launched session stays pending until its goroutine begins: a second tick
    launches it again. *)
Example launched_twice :
  (λ r, inFlight (s_um r.1.2)) <$> run (processSession 0%N ;;; processSession 0%N) example_sys = Some 2.
Proof. vm_compute. reflexivity. Qed.

(** Network failures and permanent ones share the counter: after five of the
    former, the first of the latter is the last. *)
Example transient_failures_count :
  let u := setTransient false (setState uploadErrored None (set_us_Retries 5 stale_session)) in
  verdict example_sys u = Drop (set_us_Retries 6 u).
Proof. vm_compute. reflexivity. Qed.
