(* ===== verification/DeltaSync.v ===== *)
(** Following the changes of the drive (internal/fs/delta.go): a cycle polls
    the delta pages, applies each one to the metadata cache and the content
    cache of the mount, and records how far it went. *)

From S2P Require Export Uploads.

#[local] Open Scope Z_scope.

(** The service. [uploads] is the optional source of pending uploads
    ([uploadQuery]); [rootIDOnce] holds when the root was asked for. *)
Record DeltaSync (S : Type) := mkDeltaSync {
  uploads : option (string → S → bool); rootRealID : string; rootIDOnce : bool; syncCount : Z; errorCount : Z }.
Arguments mkDeltaSync {S}. Arguments uploads {S}. Arguments rootRealID {S}. Arguments rootIDOnce {S}.
Arguments syncCount {S}. Arguments errorCount {S}.

Definition set_rootRealID {S} v (d : DeltaSync S) := mkDeltaSync (uploads d) v (rootIDOnce d) (syncCount d) (errorCount d).
Definition set_rootIDOnce {S} v (d : DeltaSync S) := mkDeltaSync (uploads d) (rootRealID d) v (syncCount d) (errorCount d).
Definition set_syncCount {S} v (d : DeltaSync S) := mkDeltaSync (uploads d) (rootRealID d) (rootIDOnce d) v (errorCount d).
Definition set_errorCount {S} v (d : DeltaSync S) := mkDeltaSync (uploads d) (rootRealID d) (rootIDOnce d) (syncCount d) v.

Definition NewDeltaSync {S} : DeltaSync S := mkDeltaSync None "" false 0 0.
Definition SetUploadQuery {S} (q : option (string → S → bool)) (d : DeltaSync S) : DeltaSync S :=
  mkDeltaSync q (rootRealID d) (rootIDOnce d) (syncCount d) (errorCount d).
Definition Counters {S} (d : DeltaSync S) : Z * Z := (syncCount d, errorCount d).

Definition errDirNotEmpty : error := ESentinel "directory is non-empty".

Section delta.
Context {D W : Type} `{Bolt D} `{Clock W} `{GraphAPI W} `{TimeText} `{JsonLen}.
Abbreviation St := (Sys D W).
Abbreviation DS := (DeltaSync St).
(** The goroutine runs on its own fields and on what the mount shares. *)
Abbreviation DStep A := (DS * St → A * (DS * St)).

Definition now (s : St) : Time := w_now (s_net s).
Definition lookup_inode (s : St) (id : string) : option N := Get (s_inodes s) id.
Definition inode_at (s : St) (l : N) : Inode := deref (s_inodes s) l.

(** [resolveParentID]: the real ID of the root is learned from the root item,
    or from one request made at the first parent that is not cached. *)
Definition learn_root (s : St) (d : DS) : DS * St :=
  if rootIDOnce d then (d, s) else
  let d := set_rootIDOnce true d in
  match on_net (api_GetItem Background (ItemID "root")) s with
  | (inr root, s) => (if bool_decide (item_ID root = "") then d else set_rootRealID (item_ID root) d, s)
  | (inl _, s) => (d, s)
  end.
Definition is_root_item (parentID : string) (delta : DeltaItem) : bool :=
  bool_decide (parentID = "") && IsFolder (delta_Item delta) && bool_decide (item_Name (delta_Item delta) = "root").
Definition resolveParentID (parentID : string) (delta : DeltaItem) : DStep string := λ '(d, s),
  if is_root_item parentID delta then (parentID, (set_rootRealID (item_ID (delta_Item delta)) d, s))
  else if bool_decide (parentID = "") || bool_decide (parentID = "root") then (parentID, (d, s))
  else if decide (parentID = rootRealID d) then ("root", (d, s))
  else
    let '(d, s) := if bool_decide (lookup_inode s parentID = None) then learn_root s d else (d, s) in
    (if decide (parentID = rootRealID d) then "root" else parentID, (d, s)).

(** [contentMatchesRemote]. *)
Definition contentMatchesRemote (id : string) (f : option File) (s : St) : bool * St :=
  match f with
  | None => (false, s)
  | Some f =>
      let remote := hashes_QuickXorHash (file_Hashes f) in
      if decide (remote = "") then (false, s) else
      match on_content (ContentCache.SumQuickXorHash id) s with
      | (None, s) => (false, s)
      | (Some sum, s) => (EqualFold sum remote, s)
      end
  end.

Definition content_delete (id : string) (s : St) : St := (on_content (ContentCache.Delete id) s).2.

(** *** The cases of [applyDelta] *)

Definition delta_deleted (id parentID : string) (delta : DeltaItem) (local : option N) (s : St) : option error * St :=
  let blocked := match local with
                 | Some l => IsFolder (delta_Item delta) && HasChildren (inode_at s l)
                 | None => false
                 end in
  if blocked then (Some errDirNotEmpty, s)
  else (None, content_delete id (on_inodes (RemoveChild parentID id) s)).

Definition delta_new (id name parentID : string) (delta : DeltaItem) (s : St) : St :=
  let '(r, (_, c)) := GetChild parentID name None (s_net s, s_inodes s) in
  let s := on_inodes (λ _, c) s in
  let existing := match r with inr (Some l) => Some (ID (inode_at s l)) | _ => None end in
  match existing with
  | Some local => if isLocalID local then on_inodes (MoveID local id) s
                  else on_inodes (λ c, let '(l, c) := alloc (inode_of_item (delta_Item delta)) c in InsertChild parentID (Some l) c) s
  | None => on_inodes (λ c, let '(l, c) := alloc (inode_of_item (delta_Item delta)) c in InsertChild parentID (Some l) c) s
  end.

Definition delta_moved (id name parentID : string) (delta : DeltaItem) (l : N) (s : St) : St :=
  let i := inode_at s l in
  if bool_decide (ParentID i = parentID) && bool_decide (Name i = name) then s else
  let s := on_inodes (MoveChild (now s) (ParentID i) parentID id) s in
  on_inodes (upd l (λ i,
    let i := set_DriveItem_of (set_item_Name name (DriveItem_of i)) i in
    match item_Parent (delta_Item delta) with
    | Some p => set_DriveItem_of (set_item_Parent (Some p) (DriveItem_of i)) i
    | None => i
    end)) s.

(** The metadata a changed file gets. *)
Definition remote_meta (delta : DriveItem) (i : Inode) : Inode :=
  let item := set_item_ETag (item_ETag delta) (set_item_Size (item_Size delta)
                (set_item_ModTime (item_ModTime delta) (DriveItem_of i))) in
  let item := match item_File delta with Some f => set_item_File (Some f) item | None => item end in
  set_hasChanges false (set_DriveItem_of item i).

Definition delta_modified (pending : bool) (id : string) (delta : DeltaItem) (l : N) (s : St) : St :=
  let item := delta_Item delta in
  let i := inode_at s l in
  if negb (bool_decide (is_Some (item_ModTime item)) && (ModTime i <? ModTimeUnix item)) then s
  else if hasChanges i then s
  else if pending then s
  else if decide (item_ETag item = item_ETag (DriveItem_of i)) then s
  else
    let s := on_inodes (upd l (remote_meta item)) s in
    let '(same, s) := contentMatchesRemote id (item_File item) s in
    if same : bool then s else content_delete id s.

(** The root item itself refreshes the folder metadata of the cached root. *)
Definition delta_root (delta : DeltaItem) (s : St) : St :=
  match lookup_inode s "root" with
  | Some l => on_inodes (λ c, markDirty "root" (upd l (λ i,
      set_DriveItem_of (set_item_Folder (item_Folder (delta_Item delta)) (DriveItem_of i)) i) c)) s
  | None => s
  end.

(** [applyDelta]. *)
Definition applyDelta (delta : DeltaItem) : DStep (option error) := λ ds,
  let id := item_ID (delta_Item delta) in
  let name := item_Name (delta_Item delta) in
  let parentID := match item_Parent (delta_Item delta) with Some p => parent_ID p | None => "" end in
  let '(parentID, (d, s)) := resolveParentID parentID delta ds in
  if is_root_item parentID delta then (None, (d, delta_root delta s)) else
  match lookup_inode s parentID with
  | None => (None, (d, s))
  | Some _ =>
      let local := lookup_inode s id in
      match delta_Deleted delta, local with
      | Some _, _ => let '(e, s) := delta_deleted id parentID delta local s in (e, (d, s))
      | None, None => (None, (d, delta_new id name parentID delta s))
      | None, Some l =>
          let s := delta_moved id name parentID delta l s in
          let pending := match uploads d with Some q => q id s | None => false end in
          (None, (d, delta_modified pending id delta l s))
      end
  end.

(** *** Pages and cycles *)

(** [applyOrReport]: whether the change is to be retried. *)
Definition applyOrReport (item : DeltaItem) : DStep bool := λ ds,
  match applyDelta item ds with
  | (None, ds) => (false, ds)
  | (Some err, (d, s)) =>
      if errors_Is err errDirNotEmpty then (true, (d, s))
      else (false, (set_errorCount (u64 (errorCount d + 1)) d, s))
  end.

(** Apply the items in order; those to be retried, in order. *)
Fixpoint applyAll (items : list DeltaItem) : DStep (list DeltaItem) := λ ds,
  match items with
  | [] => ([], ds)
  | item :: items =>
      let '(again, ds) := applyOrReport item ds in
      let '(rest, ds) := applyAll items ds in
      (if again : bool then item :: rest else rest, ds)
  end.

(** [applyPage]: the page, its blocked deletions once more, then the pending
    ones of earlier pages. *)
Definition applyPage (items pending : list DeltaItem) : DStep (list DeltaItem) := λ ds,
  let '(blocked, ds) := applyAll items ds in
  let '(stillBlocked, ds) := applyAll blocked ds in
  let '(merged, ds) := applyAll pending ds in
  (merged ++ stillBlocked, ds).

Definition SetOffline_ (v : bool) : St → St := on_inodes (SetOffline v).
Definition SetDeltaLink_ (link : string) : St → St := on_db (SetDeltaLink link).

(** [pollAndApply]: at most [fuel] pages are followed; [None] when the drive
    sends more. *)
Fixpoint poll_loop (fuel : nat) (ctx : Ctx W) (link : string) (pendingDeletes : list DeltaItem) (total : Z)
    (ds : DS * St) : option (Z * string * option error * (DS * St)) :=
  match fuel with
  | O => None
  | S fuel =>
      let '(d, s) := ds in
      match on_net (api_PollDelta ctx link) s with
      | (inl err, s) =>
          Some (total, link, Some err, (d, if fs_isNetworkError err then SetOffline_ true s else s))
      | (inr (items, nextLink, cont), s) =>
          let '(pendingDeletes, (d, s)) := applyPage items pendingDeletes (d, s) in
          let total := total + Z.of_nat (length items) in
          let s := SetDeltaLink_ nextLink s in
          if negb cont then
            let ds := foldl (λ ds item, (applyDelta item ds).2) (d, s) pendingDeletes in
            Some (total, nextLink, None, ds)
          else poll_loop fuel ctx nextLink pendingDeletes total (d, s)
      end
  end.
Definition pollAndApply (fuel : nat) (ctx : Ctx W) (link : string) := poll_loop fuel ctx link [] 0.

Definition SerializeDirty_ : St → St := on_db (λ dc, (SerializeDirty dc).2).

(** [PollOnce]. *)
Definition PollOnce (fuel : nat) (ctx : Ctx W) (ds : DS * St) : option (Z * option error * (DS * St)) :=
  match pollAndApply fuel ctx (GetDeltaLink (s_db ds.2)) ds with
  | None => None
  | Some (applied, _, Some err, ds) => Some (applied, Some err, ds)
  | Some (applied, newLink, None, (d, s)) =>
      Some (applied, None, (set_syncCount (u64 (syncCount d + 1)) d, SerializeDirty_ (SetDeltaLink_ newLink s)))
  end.

(** One turn of [deltaLoop]: the link of the next turn and how long to wait. *)
Definition deltaLoop_turn (fuel : nat) (ctx : Ctx W) (interval : Duration) (link : string) (ds : DS * St) :
    option (string * Duration * (DS * St)) :=
  match pollAndApply fuel ctx link ds with
  | None => None
  | Some (_, _, Some _, (d, s)) =>
      let d := set_errorCount (u64 (errorCount d + 1)) d in
      let s := SetOffline_ true s in
      let persisted := GetDeltaLink (s_db s) in
      Some (if decide (persisted = "") then link else persisted, 2 * Second, (d, s))
  | Some (_, newLink, None, (d, s)) =>
      let s := if IsOffline (s_inodes s) then SetOffline_ false s else s in
      let s := SerializeDirty_ (SetDeltaLink_ newLink s) in
      Some (newLink, interval, (set_syncCount (u64 (syncCount d + 1)) d, s))
  end.
(** [deltaLoop] for a number of turns, from the persisted link. *)
Fixpoint deltaLoop_turns (turns fuel : nat) (ctx : Ctx W) (interval : Duration) (link : string) (ds : DS * St) :
    option (string * (DS * St)) :=
  match turns with
  | O => Some (link, ds)
  | S turns =>
      match deltaLoop_turn fuel ctx interval link ds with
      | None => None
      | Some (link, _, ds) => deltaLoop_turns turns fuel ctx interval link ds
      end
  end.
Definition deltaLoop (turns fuel : nat) (ctx : Ctx W) (interval : Duration) (ds : DS * St) :=
  deltaLoop_turns turns fuel ctx interval (GetDeltaLink (s_db ds.2)) ds.
End delta.
