(* ===== verification/DeltaTheorems.v ===== *)
(** What following the drive guarantees: pending local work is kept, a cycle
    that fails is resumed where it stopped, and the deletion of a folder
    arrives whatever the order of its page. *)

From S2P Require Import DeltaSync Remote UploadPersist UploadTheorems UploadPublish.

#[local] Open Scope Z_scope.

(** ** Pending local work *)

(** What a change on the drive may overwrite of a local file. *)
Definition file_state (i : Inode) : string * Z * option Time * option File * bool :=
  (item_ETag (DriveItem_of i), item_Size (DriveItem_of i), item_ModTime (DriveItem_of i),
   item_File (DriveItem_of i), hasChanges i).
Definition same_file_states (c c' : InodeCache) : Prop :=
  inodes c' = inodes c ∧ ∀ l, file_state (deref c' l) = file_state (deref c l).
#[global] Instance same_file_states_preorder : PreOrder same_file_states.
Proof.
  split; [by split|]. intros a b c [E1 H1] [E2 H2]. split; [congruence|]. intros l. by rewrite H2.
Qed.

Lemma file_states_upd c l f : (∀ i, file_state (f i) = file_state i) → same_file_states c (upd l f c).
Proof.
  intros Hf. split; [done|]. intros l'. unfold deref, upd. cbn [store set_store].
  destruct (decide (l = l')) as [<-|]; [|by rewrite lookup_alter_ne].
  rewrite lookup_alter_eq. by destruct (store c !! l); cbn.
Qed.
Lemma file_states_store c c' : store c' = store c → inodes c' = inodes c → same_file_states c c'.
Proof. intros E1 E2. split; [done|]. intros l. unfold deref. by rewrite E1. Qed.
Lemma file_states_register c p : same_file_states c (registerTTL p c).
Proof. unfold registerTTL. destruct (negb _); [done|]. by apply file_states_store. Qed.
Lemma file_states_update c p t : same_file_states c (updateEvictionEntry p t c).
Proof. unfold updateEvictionEntry. destruct (negb _); [done|]. by apply file_states_store. Qed.
Lemma file_states_attach c p id d s : same_file_states c (attachChild p id d s c).
Proof. apply file_states_upd. intros i. unfold attach, containsID. by destruct (_ || _); [case_bool_decide|]; destruct d. Qed.
Lemma file_states_detach c p id d : same_file_states c (detachChild p id d c).
Proof. apply file_states_upd. intros i. unfold detach. by destruct (_ && _). Qed.
Lemma file_states_seeding t p id d c : same_file_states c (attachSeeding t p id d c).
Proof.
  unfold attachSeeding. destruct (_ && _); [|apply file_states_attach].
  etrans; [apply (file_states_attach c p id d true)|]. set (c1 := attachChild p id d true c).
  etrans; [apply (file_states_register c1 p)|]. etrans; [apply (file_states_update _ p t)|]. by apply file_states_store.
Qed.
Lemma file_states_MoveChild t p1 p2 id c : same_file_states c (MoveChild t p1 p2 id c).
Proof.
  unfold MoveChild. destruct (Get c id) as [l|]; [|done]. cbv zeta.
  set (c1 := match Get c p1 with Some _ => _ | None => _ end).
  assert (H1 : same_file_states c c1) by (unfold c1; destruct (Get c p1); [apply file_states_detach|done]).
  set (c2 := match Get c1 p2 with Some _ => _ | None => _ end).
  assert (H2 : same_file_states c1 c2).
  { unfold c2. destruct (Get c1 p2); [|done]. etrans; [apply file_states_seeding|by apply file_states_store]. }
  etrans; [exact H1|]. etrans; [exact H2|]. by apply file_states_store.
Qed.

Section guard.
Context {D W : Type} `{Bolt D} `{Clock W} `{GraphAPI W} `{TimeText} `{JsonLen}.
Abbreviation St := (Sys D W).
Abbreviation DS := (DeltaSync St).

(** Resolving a parent touches the service's fields and the network only. *)
Definition resolved_from (ds ds' : DS * St) : Prop :=
  uploads ds'.1 = uploads ds.1 ∧ s_um ds'.2 = s_um ds.2 ∧ s_objs ds'.2 = s_objs ds.2 ∧ s_db ds'.2 = s_db ds.2 ∧
  s_inodes ds'.2 = s_inodes ds.2 ∧ s_content ds'.2 = s_content ds.2.
Lemma resolve_spec p delta ds : resolved_from ds (resolveParentID p delta ds).2.
Proof.
  destruct ds as [d s]. unfold resolveParentID, learn_root, on_net.
  repeat case_match; simplify_eq/=; done.
Qed.

Lemma moved_states id name p delta l (s : St) :
  same_file_states (s_inodes s) (s_inodes (delta_moved id name p delta l s)) ∧
  s_content (delta_moved id name p delta l s) = s_content s ∧ s_um (delta_moved id name p delta l s) = s_um s.
Proof.
  unfold delta_moved. cbv zeta. destruct (_ && _); [done|]. split; [|done]. cbn [on_inodes s_inodes].
  etrans; [apply file_states_MoveChild|]. apply file_states_upd. intros i. by destruct (item_Parent _).
Qed.

(** C5: Pending local work wins over a remote change in a mount, whose delta
    synchronisation asks the upload manager. When a file has a write not yet handed
    to an upload (hasChanges), or a session the upload loop has registered, be it to
    be launched, in flight or waiting for a retry, a change or a move of it on the
    drive leaves its cached content, its version, size, time and hash, and its
    pending mark as they are; only its name and place follow the drive. A session
    that is still in the channel of the manager does not protect the file (Example
    [unregistered_upload_overwritten]), nor does any session where no manager is
    asked, as in the sync command, where only unsaved changes are kept. *)
Theorem delta_keeps_local_work delta (d : DS) (s : St) l :
  let id := item_ID (delta_Item delta) in
  lookup_inode s id = Some l → delta_Deleted delta = None →
  hasChanges (inode_at s l) = true ∨ (uploads d = Some HasPendingUpload ∧ HasPendingUpload id s = true) →
  let s' := (applyDelta delta (d, s)).2.2 in
  lookup_inode s' id = Some l ∧ s_content s' = s_content s ∧ file_state (inode_at s' l) = file_state (inode_at s l).
Proof.
  intros id Hl Hdel Hwork. unfold applyDelta. cbv zeta. fold id. set (p0 := match item_Parent _ with Some _ => _ | None => _ end).
  pose proof (resolve_spec p0 delta (d, s)) as Hres.
  destruct (resolveParentID p0 delta (d, s)) as [p [d1 s1]]. destruct Hres as (Eup & Eum & _ & _ & Ein & Eco). cbn [fst snd] in *.
  unfold lookup_inode, inode_at in *. rewrite <-Ein in Hl. destruct (is_root_item p delta).
  { unfold delta_root, lookup_inode. destruct (Get (s_inodes s1) "root") as [lr|]; cbn [fst snd on_inodes s_inodes s_content].
    - rewrite <-Ein, <-Eco. split; [exact Hl|]. split; [done|].
      apply (file_states_upd (s_inodes s1) lr); done.
    - by rewrite <-Ein, <-Eco. }
  destruct (Get (s_inodes s1) p) as [lp|]; [|by rewrite <-Ein, <-Eco]. rewrite Hdel, Hl. cbn [snd].
  destruct (moved_states id (item_Name (delta_Item delta)) p delta l s1) as ([Em Hst] & Eco2 & Eum2).
  set (s2 := delta_moved _ _ _ _ _ s1) in *.
  assert (Hid : delta_modified (match uploads d1 with Some q => q id s2 | None => false end) id delta l s2 = s2).
  { unfold delta_modified. unfold inode_at.
    assert (Ehc : hasChanges (deref (s_inodes s2) l) = hasChanges (deref (s_inodes s) l))
      by (rewrite <-Ein; exact (f_equal snd (Hst l))).
    cbv zeta. destruct (negb _); [done|]. rewrite Ehc. destruct Hwork as [-> | [Hq Hp]]; [done|]. destruct (hasChanges (deref (s_inodes s) l)); [done|].
    rewrite Eup, Hq. unfold HasPendingUpload in *. by rewrite Eum2, Eum, Hp. }
  rewrite Hid. split; [|split; [congruence|by rewrite Hst, Ein]]. unfold Get in *. by rewrite Em.
Qed.
End guard.

(** ** The progress of a cycle *)

(** The delta bucket accepts what is written. *)
Class DeltaWritable (D : Type) `{Bolt D} := {
  link_put d v : bolt_bucket d boltBucketDelta = true → ∃ d', bolt_put boltBucketDelta "link" v d = inr d';
  link_commit d d' : bolt_commit d d' = None;
}.

Section link.
Context {D : Type} `{Bolt D, !BoltLaws D, !DeltaWritable D} `{TimeText} `{JsonLen}.

(** What is stored of the link, as a function of the database. *)
Definition has_delta (db : option D) : Prop := ∃ d, db = Some d ∧ bolt_bucket d boltBucketDelta = true.

Lemma SetDeltaLink_stores link db (c : InodeCache) : has_delta db →
  has_delta (SetDeltaLink link (db, c)).1 ∧ GetDeltaLink (SetDeltaLink link (db, c)).1 = link ∧
  (SetDeltaLink link (db, c)).2 = c.
Proof.
  intros (d & -> & Hb). destruct (link_put d (VText link) Hb) as [d' Hd].
  assert (E : SetDeltaLink link (Some d, c) = (Some d', c)).
  { unfold SetDeltaLink, logged, with_db, db_Update, need_bucket, se_bind, se_get, bucket_Put, se_ret. cbn.
    by rewrite Hb, Hd, link_commit. }
  rewrite E. cbn. assert (Hb' : bolt_bucket d' boltBucketDelta = true) by (by rewrite (put_bucket _ _ _ _ _ _ Hd)).
  split; [by exists d'|]. split; [|done]. unfold GetDeltaLink. rewrite Hb', (put_get _ _ _ _ _ Hd).
  by rewrite decide_True by done.
Qed.

Lemma SerializeDirty_link db (c : InodeCache) :
  (has_delta db → has_delta (SerializeDirty (db, c)).2.1) ∧ GetDeltaLink (SerializeDirty (db, c)).2.1 = GetDeltaLink db ∧
  IsOffline (SerializeDirty (db, c)).2.2 = IsOffline c.
Proof.
  destruct db as [d|]; [|done]. unfold SerializeDirty, with_db. pose proof (SerializeDirty_framed (d, c)) as Hs.
  destruct (SerializeDirty_db (d, c)) as [r [d' c']]. destruct Hs as [Hg Hb _ Ho]. cbn in *.
  split; [intros (d0 & [= <-] & Hd); exists d'; by rewrite Hb|]. unfold GetDeltaLink. by rewrite Hb, Hg.
Qed.
End link.

Section cycle.
Context {D W : Type} `{Bolt D, !BoltLaws D, !DeltaWritable D, Clock W, GraphAPI W, TimeText, JsonLen}.
Abbreviation St := (Sys D W).
Abbreviation DS := (DeltaSync St).
Context (ctx : Ctx W).

(** The answer to a poll at [link], and the state after it. *)
Definition polls (link : string) (s : St) (r : error + (list DeltaItem * string * bool)) (s' : St) : Prop :=
  on_net (api_PollDelta ctx link) s = (r, s').

(** Pages applied one after the other, each polled at the link of the one before,
    the link of the next recorded once a page is applied. *)
Inductive follows : string → list DeltaItem → DS * St → nat → string → list DeltaItem → DS * St → Prop :=
  | follows_stop link pending ds : follows link pending ds 0 link pending ds
  | follows_page link pending d s items next s1 pending' d2 s2 n link' pending'' ds' :
      polls link s (inr (items, next, true)) s1 → applyPage items pending (d, s1) = (pending', (d2, s2)) →
      follows next pending' (d2, SetDeltaLink_ next s2) n link' pending'' ds' →
      follows link pending (d, s) (S n) link' pending'' ds'.

(** Applying changes does not touch the database. *)
Lemma content_delete_db id (s : St) : s_db (content_delete id s) = s_db s.
Proof. unfold content_delete, on_content. by destruct (ContentCache.Delete _ _). Qed.
Lemma contentMatches_db id f (s : St) : s_db (contentMatchesRemote id f s).2 = s_db s.
Proof.
  unfold contentMatchesRemote, on_content. destruct f as [f|]; [|done]. case_decide; [done|].
  by destruct (ContentCache.SumQuickXorHash _ _) as [[?|] ?].
Qed.
Lemma delta_modified_db pending id delta l (s : St) : s_db (delta_modified pending id delta l s) = s_db s.
Proof.
  unfold delta_modified. cbv zeta. destruct (negb _); [done|]. destruct (hasChanges (inode_at s l)); [done|].
  destruct pending; [done|]. case_decide; [done|]. set (s2 := on_inodes _ s).
  pose proof (contentMatches_db id (item_File (delta_Item delta)) s2) as E2.
  destruct (contentMatchesRemote _ _ s2) as [[] s3]; [exact E2|]. rewrite content_delete_db. exact E2.
Qed.
Lemma applyDelta_db delta (ds : DS * St) : s_db (applyDelta delta ds).2.2 = s_db ds.2.
Proof.
  unfold applyDelta. cbv zeta. set (p0 := match item_Parent _ with Some _ => _ | None => _ end).
  pose proof (resolve_spec p0 delta ds) as (_ & _ & _ & Edb & _).
  destruct (resolveParentID p0 delta ds) as [p [d s]]. cbn [fst snd] in *. rewrite <-Edb. clear Edb.
  destruct (is_root_item p delta); [unfold delta_root; by destruct (lookup_inode s "root")|].
  destruct (lookup_inode s p); [|done]. destruct (delta_Deleted delta).
  { unfold delta_deleted. cbv zeta. destruct (match lookup_inode s _ with Some _ => _ | None => _ end); [done|].
    cbn [snd]. by rewrite content_delete_db. }
  destruct (lookup_inode s _) as [l|]; cbn [snd].
  - set (s1 := delta_moved _ _ _ _ _ _). assert (E1 : s_db s1 = s_db s) by (unfold s1, delta_moved; cbv zeta; by destruct (_ && _)).
    rewrite <-E1. apply delta_modified_db.
  - unfold delta_new. destruct (GetChild _ _ _ _) as [r [w c]]. cbn [s_inodes on_inodes].
    repeat case_match; done.
Qed.
Lemma applyOrReport_db item (ds : DS * St) : s_db (applyOrReport item ds).2.2 = s_db ds.2.
Proof.
  unfold applyOrReport. pose proof (applyDelta_db item ds) as E. destruct (applyDelta item ds) as [[e|] [d s]]; [|exact E].
  by destruct (errors_Is _ _).
Qed.
Lemma applyAll_db items (ds : DS * St) : s_db (applyAll items ds).2.2 = s_db ds.2.
Proof.
  revert ds. induction items as [|item items IH]; intros ds; [done|]. cbn [applyAll].
  pose proof (applyOrReport_db item ds) as E. destruct (applyOrReport item ds) as [again ds1]. specialize (IH ds1).
  destruct (applyAll items ds1) as [rest ds2]. cbn [fst snd] in *. congruence.
Qed.
Lemma applyPage_db items pending (ds : DS * St) : s_db (applyPage items pending ds).2.2 = s_db ds.2.
Proof.
  unfold applyPage. pose proof (applyAll_db items ds) as E1. destruct (applyAll items ds) as [b ds1].
  pose proof (applyAll_db b ds1) as E2. destruct (applyAll b ds1) as [b2 ds2].
  pose proof (applyAll_db pending ds2) as E3. destruct (applyAll pending ds2) as [m ds3]. cbn [fst snd] in *. congruence.
Qed.

(** The link of the database, kept up with the link being followed. *)
Definition recorded (link : string) (s : St) : Prop := has_delta (s_db s) ∧ GetDeltaLink (s_db s) = link.
Lemma recorded_db link (s s' : St) : s_db s' = s_db s → recorded link s → recorded link s'.
Proof. unfold recorded. by intros ->. Qed.
Lemma recorded_set link (s : St) : has_delta (s_db s) → recorded link (SetDeltaLink_ link s) ∧ s_inodes (SetDeltaLink_ link s) = s_inodes s.
Proof.
  intros Hd. destruct (SetDeltaLink_stores link (s_db s) (s_inodes s) Hd) as (H1' & H2' & H3').
  unfold SetDeltaLink_, on_db. destruct (SetDeltaLink link _) as [db c]. by cbn in *.
Qed.
Lemma polls_db link (s s' : St) r : polls link s r s' → s_db s' = s_db s ∧ s_inodes s' = s_inodes s ∧ s_content s' = s_content s.
Proof. unfold polls, on_net. destruct (api_PollDelta _ _ _). by intros [= _ <-]. Qed.

Lemma follows_recorded link pending ds n link' pending' ds' :
  follows link pending ds n link' pending' ds' → recorded link ds.2 → recorded link' ds'.2.
Proof.
  induction 1 as [|link pending d s items next s1 pending' d2 s2 n link' pending'' ds' Hp Ha _ IH]; [done|].
  intros [Hd _]. apply IH. apply recorded_set. pose proof (applyPage_db items pending (d, s1)) as E. rewrite Ha in E. cbn in E.
  by rewrite E, (proj1 (polls_db _ _ _ _ Hp)).
Qed.

(** Where a poll loop stops: a request failed, or a page was the last. *)
Lemma poll_loop_spec fuel link pending total ds total' link' err ds' :
  poll_loop fuel ctx link pending total ds = Some (total', link', err, ds') →
  ∃ n L pending1 d1 s1, follows link pending ds n L pending1 (d1, s1) ∧
    ((∃ e s2, polls L s1 (inl e) s2 ∧ err = Some e ∧ link' = L ∧
        ds' = (d1, if fs_isNetworkError e then SetOffline_ true s2 else s2)) ∨
     (∃ items next s2 pending2 d2 s3, polls L s1 (inr (items, next, false)) s2 ∧
        applyPage items pending1 (d1, s2) = (pending2, (d2, s3)) ∧ err = None ∧ link' = next ∧
        ds' = foldl (λ ds item, (applyDelta item ds).2) (d2, SetDeltaLink_ next s3) pending2)).
Proof.
  revert link pending total ds. induction fuel as [|fuel IH]; intros link pending total [d s]; [done|]. cbn [poll_loop].
  destruct (on_net (api_PollDelta ctx link) s) as [[e|[[items next] cont]] s1] eqn:Ep.
  - intros [= <- <- <- <-]. exists 0%nat, link, pending, d, s. split; [constructor|]. left. by exists e, s1.
  - destruct (applyPage items pending (d, s1)) as [pending2 [d2 s2]] eqn:Ea. destruct cont; cbn [negb].
    + intros Hr. destruct (IH _ _ _ _ Hr) as (n & L & p1 & d1 & s1' & Hf & Hend).
      exists (S n), L, p1, d1, s1'. split; [|exact Hend]. by eapply follows_page.
    + intros [= <- <- <- <-]. exists 0%nat, link, pending, d, s. split; [constructor|]. right.
      by exists items, next, s1, pending2, d2, s2.
Qed.

(** The links of the pages are not empty: an empty link starts over. *)
Context (Hnext : ∀ link s items next s', polls link s (inr (items, next, true)) s' → next ≠ "").
Lemma follows_link link pending ds n link' pending' ds' :
  follows link pending ds n link' pending' ds' → link' = link ∨ link' ≠ "".
Proof using Hnext.
  induction 1 as [|link pending d s items next s1 pending' d2 s2 n link' pending'' ds' Hp Ha _ IH]; [by left|].
  destruct IH as [->|IH]; [|by right]. right. by eapply Hnext.
Qed.

Lemma recorded_serialized link (s : St) : recorded link s →
  recorded link (SerializeDirty_ s) ∧ IsOffline (s_inodes (SerializeDirty_ s)) = IsOffline (s_inodes s).
Proof.
  intros [Hd Hl]. destruct (SerializeDirty_link (s_db s) (s_inodes s)) as (H1' & H2' & H3').
  unfold SerializeDirty_, on_db, recorded. destruct (SerializeDirty _) as [r [db c]]. cbn in *.
  by rewrite H2', H3'; auto.
Qed.

Lemma serialized_files (s : St) :
  same_tree (s_inodes s) (s_inodes (SerializeDirty_ s)) ∧ s_content (SerializeDirty_ s) = s_content s.
Proof.
  unfold SerializeDirty_, on_db, SerializeDirty, with_db. destruct (s_db s) as [d|]; [|done].
  pose proof (SerializeDirty_framed (d, s_inodes s)) as Hs. destruct (SerializeDirty_db (d, s_inodes s)) as [r [d' c']].
  split; [apply Hs|done].
Qed.
Lemma link_content link (s : St) : s_content (SetDeltaLink_ link s) = s_content s.
Proof. unfold SetDeltaLink_, on_db. by destruct (SetDeltaLink _ _). Qed.

(** The end of a cycle: the last page is polled at [L] and applied, its link is
    recorded, and the deletions that are still blocked are tried a last time. *)
Definition finishes (L : string) (pending : list DeltaItem) (ds : DS * St) (next : string) (ds' : DS * St) : Prop :=
  ∃ items s2 pending2 d2 s3, polls L ds.2 (inr (items, next, false)) s2 ∧
    applyPage items pending (ds.1, s2) = (pending2, (d2, s3)) ∧
    ds' = foldl (λ ds item, (applyDelta item ds).2) (d2, SetDeltaLink_ next s3) pending2.
(** Two states with the same inodes and the same contents. *)
Definition same_files (s s' : St) : Prop := same_tree (s_inodes s) (s_inodes s') ∧ s_content s' = s_content s.

(** C19: A cycle that fails is resumed where it stopped. In a turn of the loop, from
    a link that is the recorded one, every page the drive answers is applied, once
    and in order, up to the request that fails or to the last page, that one
    included. A cycle that fails leaves the inodes and the contents as the pages
    before the failure made them, and the next turn starts from the link that
    failed (after two seconds, offline); one that ends leaves what the last page and
    the last try of the blocked deletions made, and the next turn starts from the
    link after it (after the interval, online). In both cases that link is again the
    one recorded in the database, where a new process would find it. The deletions
    of folders that pages before a failure left blocked are not part of what is
    resumed (Example [failed_cycle_forgets_deletion]). The database has the bucket
    of the link and accepts what is written to it, the links of the pages are not
    empty, and the turn ends. *)
Theorem failed_cycle_resumes fuel interval link d (s : St) link' wait d' s' :
  recorded link s → deltaLoop_turn fuel ctx interval link (d, s) = Some (link', wait, (d', s')) →
  recorded link' s' ∧
  ∃ n L pending d1 s1, follows link [] (d, s) n L pending (d1, s1) ∧
    ((∃ e s2, polls L s1 (inl e) s2 ∧ link' = L ∧ wait = 2 * Second ∧ IsOffline (s_inodes s') = true ∧ same_files s1 s') ∨
     (∃ d2 s2, finishes L pending (d1, s1) link' (d2, s2) ∧ wait = interval ∧ IsOffline (s_inodes s') = false ∧ same_files s2 s')).
Proof using All.
  intros Hrec. unfold deltaLoop_turn, pollAndApply. destruct (poll_loop fuel ctx link [] 0 (d, s)) as [[[[total lk] err] [d1 s1]]|] eqn:Ep; [|done].
  apply poll_loop_spec in Ep as (n & L & pending & d0 & s0 & Hf & Hend). pose proof (follows_recorded _ _ _ _ _ _ _ Hf Hrec) as HL.
  cbn [snd] in HL. destruct Hend as [(e & s2 & Hp & -> & -> & Hds)|(items & next & s2 & p2 & d2 & s3 & Hp & Ha & -> & -> & Hds)].
  - injection Hds as -> ->. set (s1 := if fs_isNetworkError e then _ else _). pose proof (polls_db _ _ _ _ Hp) as (Edb & Ein & Eco).
    assert (Hrec1 : recorded L (SetOffline_ true s1)).
    { apply (recorded_db L s0); [|exact HL]. rewrite <-Edb. unfold s1. by destruct (fs_isNetworkError e). }
    intros [= <- <- <- <-].
    assert (Elink : (if decide (GetDeltaLink (s_db s1) = "") then link else GetDeltaLink (s_db s1)) = L).
    { change (s_db s1) with (s_db (SetOffline_ true s1)). destruct Hrec1 as [_ ->]. case_decide as Ee; [|done]. by destruct (follows_link _ _ _ _ _ _ _ Hf) as [->|]. }
    rewrite Elink. split; [exact Hrec1|]. exists n, L, pending, d0, s0. split; [exact Hf|]. left. exists e, s2. split_and!; [done..|].
    unfold same_files, same_tree, s1. destruct (fs_isNetworkError e); cbn; by rewrite Ein, Eco.
  - pose proof (polls_db _ _ _ _ Hp) as (Edb & _ & _). pose proof (applyPage_db items pending (d0, s2)) as Ea. rewrite Ha in Ea. cbn [snd] in Ea.
    destruct (recorded_set next s3) as [Hr3 _]; [rewrite Ea, Edb; apply HL|].
    assert (Hdb : s_db s1 = s_db (SetDeltaLink_ next s3)).
    { change (s_db (d1, s1).2 = s_db (d2, SetDeltaLink_ next s3).2). rewrite Hds. clear. generalize (d2, SetDeltaLink_ next s3).
      induction p2 as [|it p2 IH]; intros ds; [done|]. cbn [foldl]. by rewrite IH, applyDelta_db. }
    intros [= <- <- <- <-]. set (s4 := if IsOffline _ then _ else _).
    assert (Hr4 : has_delta (s_db s4)) by (unfold s4; destruct (IsOffline _); cbn; rewrite Hdb; apply Hr3).
    assert (Ho4 : IsOffline (s_inodes s4) = false) by (unfold s4; by destruct (IsOffline (s_inodes s1)) eqn:Eo).
    destruct (recorded_set next s4 Hr4) as [Hr5 Ei5]. destruct (recorded_serialized next _ Hr5) as [Hr6 Ho6].
    split; [exact Hr6|]. exists n, L, pending, d0, s0. split; [exact Hf|]. right. exists d1, s1. split_and!; [|done|by rewrite Ho6, Ei5|].
    { exists items, s2, p2, d2, s3. by split_and!. }
    destruct (serialized_files (SetDeltaLink_ next s4)) as [[T1 T2] Ec]. rewrite Ei5 in T1, T2.
    assert (E4 : inodes (s_inodes s4) = inodes (s_inodes s1) ∧ store (s_inodes s4) = store (s_inodes s1) ∧ s_content s4 = s_content s1)
      by (unfold s4; by destruct (IsOffline (s_inodes s1))). destruct E4 as (E1 & E2 & E3).
    split; [split; congruence|]. rewrite Ec, link_content. exact E3.
Qed.
End cycle.

(** ** The deletion of a folder *)

Lemma filter_ext_in {A} (Q R : A → Prop) `{∀ x, Decision (Q x), ∀ x, Decision (R x)} (l : list A) :
  (∀ x, x ∈ l → Q x ↔ R x) → filter Q l = filter R l.
Proof.
  induction l as [|x l IH]; intros Hqr; [done|]. rewrite !filter_cons, IH by (intros; apply Hqr; by right).
  pose proof (Hqr x ltac:(by left)). by repeat case_decide; naive_solver.
Qed.

Lemma Get_removed id k c : Get (markDeleted id (inodes_Delete id c)) k = if decide (k = id) then None else Get c k.
Proof.
  unfold Get. change (inodes (markDeleted id (inodes_Delete id c))) with (delete id (inodes c)).
  case_decide as E; [subst; apply lookup_delete_eq|by apply lookup_delete_ne].
Qed.
Lemma RemoveChild_get p id c k : Get (RemoveChild p id c) k = if decide (k = id) then None else Get c k.
Proof.
  unfold RemoveChild. destruct (Get c id) as [l|] eqn:El; [|case_decide as E; [rewrite E; exact El|done]]. cbv zeta.
  assert (Hg : ∀ c', Get (if bool_decide (p = "") then c' else markDirty p c') k = Get c' k) by (intros; by case_bool_decide).
  rewrite Hg, Get_removed. destruct (decide (k = id)); [reflexivity|]. by destruct (Get c p).
Qed.
Lemma children_detach c lp id dir l :
  children (deref (detachChild lp id dir c) l) =
  if decide (l = lp) then filter (λ k, k ≠ id) <$> children (deref c l) else children (deref c l).
Proof.
  unfold detachChild, deref, upd. cbn. case_decide as E; [subst l; rewrite lookup_alter_eq|by rewrite lookup_alter_ne].
  destruct (store c !! lp); cbn; [|done]. unfold detach. by destruct (_ && _).
Qed.
Lemma RemoveChild_children p lp id c l : Get c p = Some lp → is_Some (Get c id) →
  children (deref (RemoveChild p id c) l) =
  if decide (l = lp) then filter (λ k, k ≠ id) <$> children (deref c l) else children (deref c l).
Proof.
  intros Hp [li Hi]. unfold RemoveChild. rewrite Hi, Hp. cbv zeta. rewrite <-(children_detach c lp id (IsDir (deref c li)) l).
  by case_bool_decide.
Qed.

Section page.
Context {D W : Type} `{Bolt D, Clock W, GraphAPI W, TimeText, JsonLen}.
Abbreviation St := (Sys D W).
Abbreviation DS := (DeltaSync St).
Abbreviation ids l := ((λ x, item_ID (delta_Item x)) <$> l).

(** A folder [F] of [P] whose children are the files [cs]. *)
Context (P F : string) (cs : list string).
Context (HPF : P ≠ F) (HP : P ∉ cs) (HF : F ∉ cs).

(** The deletion of [F] and of one of its files. *)
Definition deletes_folder (x : DeltaItem) : Prop :=
  item_ID (delta_Item x) = F ∧ is_Some (delta_Deleted x) ∧ IsFolder (delta_Item x) = true ∧
  parent_ID <$> item_Parent (delta_Item x) = Some P.
Definition deletes_file (x : DeltaItem) : Prop :=
  item_ID (delta_Item x) ∈ cs ∧ is_Some (delta_Deleted x) ∧ IsFolder (delta_Item x) = false ∧
  parent_ID <$> item_Parent (delta_Item x) = Some F.

(** While the changes [R] are still to come: the files they delete are the ones
    still cached, and the listing of [F] has these. *)
Record Shrinking (R : list DeltaItem) (d : DS) (s : St) : Prop := {
  sh_names : ∀ p, p = P ∨ p = F → p ≠ "" ∧ (p = "root" ∨ p ≠ rootRealID d);
  sh_parent : is_Some (lookup_inode s P);
  sh_files : ∀ k, k ∈ cs → k ∈ ids R ↔ is_Some (lookup_inode s k);
  sh_folder : match lookup_inode s F with
              | Some l => children (inode_at s l) = Some (filter (λ k, k ∈ ids R) cs)
              | None => ∀ k, k ∈ cs → k ∉ ids R
              end;
}.

Lemma resolve_cached p x (d : DS) (s : St) :
  p ≠ "" → p = "root" ∨ p ≠ rootRealID d → is_Some (lookup_inode s p) → resolveParentID p x (d, s) = (p, (d, s)).
Proof.
  intros Hp Hr Hin. unfold resolveParentID, is_root_item. rewrite (bool_decide_false (p = "")) by done. cbn [andb orb].
  case_bool_decide as Er; [done|]. destruct Hr as [|Hr]; [done|]. rewrite decide_False by done.
  rewrite bool_decide_false by (intros E; rewrite E in Hin; by destruct Hin). by rewrite decide_False.
Qed.

(** A deletion under a cached parent. *)
Lemma apply_deletion x p (d : DS) (s : St) :
  parent_ID <$> item_Parent (delta_Item x) = Some p → is_Some (delta_Deleted x) →
  p ≠ "" → p = "root" ∨ p ≠ rootRealID d → is_Some (lookup_inode s p) →
  applyOrReport x (d, s) =
    let '(e, s') := delta_deleted (item_ID (delta_Item x)) p x (lookup_inode s (item_ID (delta_Item x))) s in
    (bool_decide (is_Some e), (d, s')).
Proof.
  intros Hpar [dl Hdel] Hp Hr Hin. unfold applyOrReport, applyDelta. cbv zeta.
  destruct (item_Parent (delta_Item x)) as [pp|]; [|done]. cbn in Hpar. injection Hpar as Hpp. rewrite Hpp, resolve_cached by done.
  unfold is_root_item. rewrite (bool_decide_false (p = "")) by done. cbn [andb]. destruct Hin as [lp ->]. rewrite Hdel.
  unfold delta_deleted. cbv zeta. by destruct (match lookup_inode s _ with Some _ => _ | None => _ end).
Qed.
Lemma content_delete_inodes id (s : St) : s_inodes (content_delete id s) = s_inodes s.
Proof. unfold content_delete, on_content. by destruct (ContentCache.Delete _ _). Qed.

(** A file goes. *)
Lemma shrink_file x R (d : DS) (s : St) :
  deletes_file x → item_ID (delta_Item x) ∉ ids R → Shrinking (x :: R) d s →
  ∃ s', applyOrReport x (d, s) = (false, (d, s')) ∧ Shrinking R d s' ∧ lookup_inode s' F = lookup_inode s F.
Proof.
  intros (Hin & Hdel & Hdir & Hpar) Hnd [Hn Hp Hfiles Hfold]. set (k := item_ID (delta_Item x)) in *.
  destruct (lookup_inode s F) as [lF|] eqn:EF; [|exfalso; apply (Hfold k Hin); by left].
  assert (Hk : is_Some (lookup_inode s k)) by (apply Hfiles; [done|by left]).
  rewrite (apply_deletion x F d s Hpar Hdel) by first [apply Hn; by right | by rewrite EF].
  unfold delta_deleted. fold k. destruct Hk as [lk Hk]. rewrite Hk, Hdir. cbn [andb]. eexists. split; [reflexivity|].
  assert (HG : ∀ q, lookup_inode (content_delete k (on_inodes (RemoveChild F k) s)) q = if decide (q = k) then None else lookup_inode s q).
  { intros q. unfold lookup_inode. rewrite content_delete_inodes. apply RemoveChild_get. }
  assert (HkF : F ≠ k) by (intros ->; done).
  split; [|by rewrite HG, decide_False]. split.
  - exact Hn.
  - rewrite HG. by rewrite decide_False by (intros ->; done).
  - intros q Hq. rewrite HG. case_decide as E; [subst q; split; [done|by intros []]|]. rewrite <-Hfiles by done.
    cbn. rewrite elem_of_cons. naive_solver.
  - rewrite HG, decide_False, EF by done. unfold inode_at. rewrite content_delete_inodes. cbn [on_inodes s_inodes].
    rewrite (RemoveChild_children F lF k (s_inodes s) lF EF) by eauto. rewrite decide_True by done.
    unfold inode_at in Hfold. rewrite Hfold. cbn [fmap option_fmap option_map]. f_equal. rewrite list_filter_filter.
    apply list_filter_iff. intros q. cbn. rewrite elem_of_cons. naive_solver.
Qed.

(** The folder goes once its files are gone, and is retried before. *)
Lemma shrink_folder x R (d : DS) (s : St) :
  deletes_folder x → Shrinking (x :: R) d s →
  ∃ again s', applyOrReport x (d, s) = (again, (d, s')) ∧ Shrinking R d s' ∧
    (again = false → lookup_inode s' F = None) ∧ (again = true → lookup_inode s' F = lookup_inode s F ∧ ∃ k, k ∈ cs ∧ k ∈ ids R).
Proof.
  intros (Hid & Hdel & Hdir & Hpar) [Hn Hp Hfiles Hfold].
  rewrite (apply_deletion x P d s Hpar Hdel) by first [apply Hn; by left | done].
  unfold delta_deleted. rewrite Hid, Hdir. cbn [andb] in *.
  assert (Hsub : ∀ k, k ∈ cs → k ∈ ids (x :: R) ↔ k ∈ ids R).
  { intros k Hk. cbn. rewrite elem_of_cons, Hid. split; [intros [->|]; [done|assumption]|by right]. }
  assert (Hflt : filter (λ k, k ∈ ids (x :: R)) cs = filter (λ k, k ∈ ids R) cs).
  { by apply filter_ext_in. }
  rewrite Hflt in Hfold. set (blocked := match lookup_inode s F with Some _ => _ | None => _ end).
  destruct blocked eqn:Eb.
  - exists true, s. split; [by rewrite bool_decide_true by eauto|]. split; [split; [done..|by intros; rewrite <-Hsub, Hfiles| ]|].
    + destruct (lookup_inode s F); [done|]. intros k Hk. rewrite <-Hsub by done. auto.
    + split; [done|]. intros _. split; [done|]. unfold blocked in Eb. destruct (lookup_inode s F) as [l|]; [|done].
      unfold HasChildren in Eb. rewrite Hfold in Eb. destruct (filter _ cs) as [|k ks] eqn:Ef; [done|].
      assert (k ∈ filter (λ k, k ∈ ids R) cs) as [Hk1 Hk2]%list_elem_of_filter by (rewrite Ef; by left). by exists k.
  - exists false, (content_delete F (on_inodes (RemoveChild P F) s)). split; [done|].
    assert (HG : ∀ q, lookup_inode (content_delete F (on_inodes (RemoveChild P F) s)) q = if decide (q = F) then None else lookup_inode s q).
    { intros q. unfold lookup_inode. rewrite content_delete_inodes. apply RemoveChild_get. }
    split; [|split; [intros _; by rewrite HG, decide_True|done]]. split.
    + exact Hn.
    + by rewrite HG, decide_False.
    + intros k Hk. rewrite HG, decide_False by (intros ->; done). by rewrite <-Hsub, Hfiles.
    + rewrite HG, decide_True by done. unfold blocked in Eb. intros k Hk. destruct (lookup_inode s F) as [l|]; [|rewrite <-Hsub; auto].
      unfold HasChildren in Eb. rewrite Hfold in Eb. apply negb_false_iff, bool_decide_eq_true in Eb.
      intros Hin. assert (k ∈ filter (λ k, k ∈ ids R) cs) as Hc by (by apply list_elem_of_filter). rewrite Eb in Hc. by apply elem_of_nil in Hc.
Qed.

(** A list of these deletions, each once. *)
Lemma shrink_all R (d : DS) (s : St) :
  Shrinking R d s → Forall (λ x, deletes_folder x ∨ deletes_file x) R → NoDup (ids R) →
  ∃ b s', applyAll R (d, s) = (b, (d, s')) ∧ Shrinking [] d s' ∧ Forall deletes_folder b ∧ NoDup (ids b) ∧
    (b ≠ [] → F ∈ ids R ∧ ∃ k, k ∈ cs ∧ k ∈ ids R) ∧
    (b = [] → F ∈ ids R ∨ lookup_inode s F = None → lookup_inode s' F = None).
Proof using HF HP HPF.
  revert s. induction R as [|x R IH]; intros s Hsh Hok Hnd.
  { exists [], s. split_and!; try done. intros _ [[]%elem_of_nil|]; done. }
  cbn [fmap list_fmap] in Hnd. apply NoDup_cons in Hnd as [Hx Hnd]. apply Forall_cons in Hok as [[Hfo|Hfi] Hok]; cbn [applyAll].
  - destruct (shrink_folder x R d s Hfo Hsh) as (again & s1 & -> & Hsh1 & Hf & Ht).
    destruct (IH s1 Hsh1 Hok Hnd) as (b & s' & -> & Hsh' & Hb & Hbd & Hne & He). destruct Hfo as (Hid & Hfo).
    assert (Hb0 : b = []).
    { destruct b; [done|]. exfalso. apply Hx. rewrite Hid. by apply Hne. }
    subst b. destruct again.
    + exists [x], s'. split_and!; try done; [by apply Forall_singleton|by apply NoDup_singleton|].
      intros _. split; [cbn; rewrite Hid; by left|]. destruct (Ht eq_refl) as (_ & k & Hk & HkR). exists k. split; [done|by right].
    + exists [], s'. split_and!; try done. intros _ _. apply He; [done|]. right. by apply Hf.
  - destruct (shrink_file x R d s Hfi Hx Hsh) as (s1 & -> & Hsh1 & HF1).
    destruct (IH s1 Hsh1 Hok Hnd) as (b & s' & -> & Hsh' & Hb & Hbd & Hne & He).
    exists b, s'. split_and!; try done.
    + intros Hbn. destruct (Hne Hbn) as (H1' & k & Hk & HkR). split; [by right|]. exists k. split; [done|by right].
    + intros Hbn [[E|Hin]%elem_of_cons|Hnone]; apply He; auto; [|by right; rewrite HF1]. destruct Hfi as (Hin & _). by rewrite <-E in Hin.
Qed.
Lemma shrinking_no_files R (d : DS) (s : St) : (∀ k, k ∈ cs → k ∉ ids R) → Shrinking [] d s → Shrinking R d s.
Proof.
  intros Hno [Hn Hp Hfi Hfo]. split; [done..| |].
  - intros k Hk. rewrite <-Hfi by done. split; [by intros ?%Hno|by intros []%elem_of_nil].
  - destruct (lookup_inode s F); [|done]. rewrite Hfo. f_equal. apply filter_ext_in. intros k Hk. split; [by intros []%elem_of_nil|by intros ?%Hno].
Qed.

(** A round of retries, without files left: the folder goes. *)
Lemma retry_folder b (d : DS) (s : St) : Forall deletes_folder b → NoDup (ids b) → Shrinking [] d s →
  ∃ s', applyAll b (d, s) = ([], (d, s')) ∧ Shrinking [] d s' ∧ (b ≠ [] ∨ lookup_inode s F = None → lookup_inode s' F = None).
Proof using HF HP HPF.
  intros Hb Hnd Hsh. assert (Hid : ∀ k, k ∈ ids b → k = F).
  { intros k (x & -> & Hx)%list_elem_of_fmap. rewrite Forall_forall in Hb. apply (Hb x Hx). }
  destruct (shrink_all b d s) as (b' & s' & Hr & Hsh' & _ & _ & Hne & He); [|by eapply Forall_impl; [exact Hb|]; auto|done|].
  { apply shrinking_no_files; [|done]. intros k Hk HkF%Hid. by subst. }
  assert (Hb0 : b' = []). { destruct b'; [done|]. destruct (Hne ltac:(done)) as (_ & k & Hk & HkF%Hid). by subst. }
  subst b'. exists s'. split_and!; [done..|]. intros [Hbn|]; apply He; auto. left. destruct b as [|x b]; [done|].
  apply Forall_cons in Hb as [(<- & _) _]. by left.
Qed.

(** C22: The deletion of a folder is applied whatever the order of the page. For a
    folder [F] under [P], whose list is cached and holds files that are all cached:
    when a page holds deletions of the folder and of its files and nothing else,
    each ID once and every file among them, and the folder is deleted by this page,
    before, among or after its files, or is the only deletion an earlier page had to
    leave pending, then after the page the folder and the files are out of the cache
    and nothing is left to retry. (The folder and its parent are not the root of the
    drive under its own ID. For a page that also names other items, or folders
    within folders, see [ghost_folder_left].) *)
Theorem page_deletes_folder items pending (d : DS) (s : St) l :
  (∀ p, p = P ∨ p = F → p ≠ "" ∧ (p = "root" ∨ p ≠ rootRealID d)) →
  is_Some (lookup_inode s P) → lookup_inode s F = Some l → children (inode_at s l) = Some cs →
  (∀ k, k ∈ cs → is_Some (lookup_inode s k)) → (∀ k, k ∈ cs → k ∈ ids items) →
  Forall (λ x, deletes_folder x ∨ deletes_file x) items → NoDup (ids items) →
  Forall deletes_folder pending → NoDup (ids pending) → F ∈ ids items ∨ F ∈ ids pending →
  ∃ s', applyPage items pending (d, s) = ([], (d, s')) ∧ lookup_inode s' F = None ∧ ∀ k, k ∈ cs → lookup_inode s' k = None.
Proof using HF HP HPF.
  intros Hn HPin HFin Hcs Hall Hdel Hok Hnd Hpend Hpd HFdel.
  assert (Hsh : Shrinking items d s).
  { split; [done..|by intros k Hk; split; auto|]. rewrite HFin, Hcs. f_equal.
    rewrite (filter_ext_in _ (λ _, True)) by (intros k Hk; split; auto). clear. induction cs as [|k ks IH]; [done|]. by rewrite filter_cons, <-IH. }
  destruct (shrink_all items d s Hsh Hok Hnd) as (b & s1 & E1 & Hsh1 & Hb & Hbd & Hne & He).
  destruct (retry_folder b d s1 Hb Hbd Hsh1) as (s2 & E2 & Hsh2 & Hr2).
  destruct (retry_folder pending d s2 Hpend Hpd Hsh2) as (s3 & E3 & Hsh3 & Hr3).
  exists s3. unfold applyPage. rewrite E1, E2, E3. split; [done|]. split.
  - apply Hr3. destruct (decide (pending = [])) as [->|]; [|by left]. right. apply Hr2.
    destruct (decide (b = [])) as [->|]; [right|by left]. apply He; [done|]. destruct HFdel as [|[]%elem_of_nil]; by left.
  - intros k Hk. destruct (lookup_inode s3 k) eqn:Ek; [|done]. exfalso.
    assert (k ∈ ids []) as []%elem_of_nil by (apply (sh_files _ _ _ Hsh3 k Hk); by rewrite Ek).
Qed.
End page.

(** ** On the example mount *)

#[global] Instance MapDB_DeltaWritable : DeltaWritable MapDB.
Proof. split; simpl; eauto. Qed.

(** A change of the file "f1" another device made. *)
Definition remote_change : DeltaItem :=
  mkDelta (mkDriveItem "f1" "a.txt" 9 (Some 1800000000000000000) (Some (mkDriveItemParent "" "root" "" ""))
    None (Some zero_File) None "" "8" None) None.
Definition root_inode : Inode :=
  inode_of_item (set_item_Folder (Some zero_Folder) (set_item_Name "root" (set_item_ID "root" zero_DriveItem))).
Definition add_inode (i : Inode) (c : InodeCache) : InodeCache :=
  let '(l, c) := alloc i c in InodeCache.Insert 0 (Some l) c.
Definition busy_sys : Sys MapDB Cloud :=
  on_inodes (λ _, add_inode stale_file (add_inode root_inode NewInodeCache)) (stale_sys example_cloud).
Definition busy_delta : DeltaSync (Sys MapDB Cloud) := SetUploadQuery (Some HasPendingUpload) NewDeltaSync.

(** The upload of "f1" is still to be made: its content and version stay. *)
Lemma delta_keeps_local_work_witness :
  let s' := (applyDelta remote_change (busy_delta, busy_sys)).2.2 in
  s_content s' = s_content busy_sys ∧ lookup_inode s' "f1" = Some 1%N ∧ file_state (inode_at s' 1%N) = file_state stale_file.
Proof.
  assert (Hx : ∃ x, x = busy_sys) by (by eexists). destruct Hx as [x Ex]. rewrite <-Ex.
  destruct (delta_keeps_local_work remote_change busy_delta x 1%N) as (Hl & Hc & Hf).
  - rewrite Ex. vm_compute. reflexivity.
  - reflexivity.
  - right. split; [reflexivity|]. rewrite Ex. vm_compute. reflexivity.
  - intros s'. split; [exact Hc|]. split; [exact Hl|]. etrans; [exact Hf|]. rewrite Ex. vm_compute. reflexivity.
Defined.

(** The same file, whose session the loop has not received yet: its version becomes
    that of the drive, which the upload will then overwrite. *)
Example unregistered_upload_overwritten :
  let s := on_um (λ m, set_queue [0%N] (set_sessions ∅ m)) busy_sys in
  (λ s, item_ETag (DriveItem_of (inode_at s 1%N))) <$> [s; (applyDelta remote_change (busy_delta, s)).2.2] = ["5"; "8"].
Proof. vm_compute. reflexivity. Qed.


(** A folder "d" holding "f", deleted by a page that names it first. *)
Definition folder_item (id pid : string) : DriveItem :=
  set_item_Parent (Some (mkDriveItemParent "" pid "" "")) (set_item_Folder (Some zero_Folder)
    (set_item_Name id (set_item_ID id zero_DriveItem))).
Definition file_item (id pid : string) : DriveItem :=
  set_item_Parent (Some (mkDriveItemParent "" pid "" "")) (set_item_Name id (set_item_ID id zero_DriveItem)).
Definition deletion (i : DriveItem) : DeltaItem := mkDelta i (Some zero_Deleted).
Definition with_items (l : list DriveItem) : Sys MapDB Cloud :=
  on_inodes (λ _, foldl (λ c i, add_inode (inode_of_item i) c) (add_inode root_inode NewInodeCache) l) busy_sys.

Lemma page_deletes_folder_witness :
  ∃ s', applyPage [deletion (folder_item "d" "root"); deletion (file_item "f" "d")] []
      (busy_delta, with_items [folder_item "d" "root"; file_item "f" "d"]) = ([], (busy_delta, s')) ∧ lookup_inode s' "d" = None.
Proof.
  assert (Hx : ∃ x, x = with_items [folder_item "d" "root"; file_item "f" "d"]) by (by eexists). destruct Hx as [x Ex]. rewrite <-Ex.
  destruct (page_deletes_folder (D := MapDB) (W := Cloud) "root" "d" ["f"] ltac:(done) ltac:(by apply (bool_decide_unpack _)) ltac:(by apply (bool_decide_unpack _))
    [deletion (folder_item "d" "root"); deletion (file_item "f" "d")] [] busy_delta x 1%N) as (s' & Hr & Hd & _).
  - intros p [-> | ->]; (split; [done|]); [by left|right; done].
  - rewrite Ex. apply (bool_decide_unpack _). vm_compute. exact I.
  - rewrite Ex. vm_compute. reflexivity.
  - rewrite Ex. vm_compute. reflexivity.
  - intros k ->%list_elem_of_singleton. rewrite Ex. apply (bool_decide_unpack _). vm_compute. exact I.
  - intros k ->%list_elem_of_singleton. right. left.
  - apply Forall_cons. split; [left; split_and!; eauto|]. apply Forall_singleton. right. split_and!; eauto. left.
  - apply (bool_decide_unpack _). vm_compute. exact I.
  - constructor.
  - constructor.
  - left. left.
  - by exists s'.
Defined.

(** ** What following the drive does not protect against *)

(** A remote deletion removes the content of a file whose upload is pending. *)
Example deletion_ignores_pending_upload :
  let s' := (applyDelta (deletion (file_item "f1" "root")) (busy_delta, busy_sys)).2.2 in
  HasPendingUpload "f1" s' = true ∧ lookup_inode s' "f1" = None.
Proof. vm_compute. by split. Qed.

(** Three folders deep, a page that names the outer folders first leaves the
    outermost one in the cache at the end of the cycle. *)
Example ghost_folder_left :
  let items := [folder_item "d1" "root"; folder_item "d2" "d1"; folder_item "d3" "d2"; file_item "f" "d3"] in
  let '(pending, ds) := applyPage (deletion <$> items) [] (busy_delta, with_items items) in
  let s' := (foldl (λ ds item, (applyDelta item ds).2) ds pending).2 in
  (λ id, bool_decide (is_Some (lookup_inode s' id))) <$> ["d1"; "d2"; "d3"; "f"] = [true; false; false; false].
Proof. vm_compute. reflexivity. Qed.

(** After a move to the root, the inode names its parent by the drive's own ID of
    the root, under which nothing is cached. *)
Example moved_to_root_has_unknown_parent :
  let d := set_rootRealID "R!1" busy_delta in
  let delta := mkDelta (set_item_Name "b.txt" (file_item "f1" "R!1")) None in
  let s' := (applyDelta delta (d, busy_sys)).2.2 in
  ParentID (inode_at s' 1%N) = "R!1" ∧ lookup_inode s' "R!1" = None.
Proof. vm_compute. by split. Qed.

(** The drive in memory with the answers of its delta given. *)
Definition paged_drive (page : string → error + (list DeltaItem * string * bool)) : GraphAPI Cloud := {|
  api_GetItem := @api_GetItem _ Cloud_GraphAPI; api_ListDriveRoot := @api_ListDriveRoot _ Cloud_GraphAPI;
  api_ListChildren := @api_ListChildren _ Cloud_GraphAPI; api_CreateFolder := @api_CreateFolder _ Cloud_GraphAPI;
  api_DeleteItem := @api_DeleteItem _ Cloud_GraphAPI; api_RenameItem := @api_RenameItem _ Cloud_GraphAPI;
  api_MoveItem := @api_MoveItem _ Cloud_GraphAPI; api_PollDelta _ link := cloud_call (λ c, (page link, c));
  api_UploadItem := @api_UploadItem _ Cloud_GraphAPI; api_UploadItemStream := @api_UploadItemStream _ Cloud_GraphAPI;
  api_OverwriteItem := @api_OverwriteItem _ Cloud_GraphAPI; api_OverwriteItemStream := @api_OverwriteItemStream _ Cloud_GraphAPI;
  api_GetItemContentStream := @api_GetItemContentStream _ Cloud_GraphAPI |}.
Definition with_faults (fs : list (option error)) (s : Sys MapDB Cloud) : Sys MapDB Cloud :=
  (on_net (λ c, (tt, mkCloud (cl_items c) (cl_next c) (cl_now c) fs)) s).2.
(** The folder "d" is deleted by the first page, its file "f" by the second, which
    is the last. *)
Definition two_pages (link : string) : error + (list DeltaItem * string * bool) :=
  if decide (link = "p2") then inr ([deletion (file_item "f" "d")], "end", false)
  else inr ([deletion (folder_item "d" "root")], "p2", true).
#[local] Instance two_page_drive : GraphAPI Cloud := paged_drive two_pages.
Definition turns (n : nat) (fs : list (option error)) :=
  (λ r : string * (DeltaSync (Sys MapDB Cloud) * Sys MapDB Cloud),
     (r.1, (λ id, bool_decide (is_Some (lookup_inode r.2.2 id))) <$> ["d"; "f"])) <$>
  deltaLoop_turns n 3 Background Minute "" (busy_delta, with_faults fs (with_items [folder_item "d" "root"; file_item "f" "d"])).
Example cycle_applies_both_pages : turns 1 [] = Some ("end", [false; false]).
Proof. vm_compute. reflexivity. Qed.

(** When the second page fails, the next turn starts from it and the deletion of
    the folder, which was blocked by its file, is forgotten: the folder stays,
    although the drive has answered that it is gone. *)
Example failed_cycle_forgets_deletion : turns 2 [None; Some (graph_error 503)] = Some ("end", [true; false]).
Proof. vm_compute. reflexivity. Qed.

(** A turn of the loop that fails at its second page. *)
Lemma failed_cycle_resumes_witness :
  ∃ s d' s', deltaLoop_turn 3 Background Minute "" (busy_delta, s) = Some ("p2", 2 * Second, (d', s')) ∧ recorded "p2" s'.
Proof.
  assert (Hx : ∃ x, x = with_faults [None; Some (graph_error 503)] (with_items [folder_item "d" "root"; file_item "f" "d"])) by (by eexists).
  destruct Hx as [x Ex].
  destruct (deltaLoop_turn 3 Background Minute "" (busy_delta, x)) as [[[link wait] [d' s']]|] eqn:E.
  2:{ apply (f_equal (λ o, bool_decide (is_Some o))) in E. rewrite Ex in E. vm_compute in E. discriminate E. }
  assert (El : (link, wait) = ("p2", 2 * Second)).
  { apply (f_equal (option_map fst)) in E. cbn [option_map fst] in E. rewrite Ex in E. vm_compute in E. injection E as <- <-. reflexivity. }
  injection El as -> ->. exists x, d', s'. split; [exact E|].
  refine (proj1 (failed_cycle_resumes Background _ 3 Minute "" busy_delta x "p2" (2 * Second) d' s' _ E)).
  - intros link s items next s'' Hp. unfold polls, on_net in Hp. cbn in Hp. unfold cloud_call, two_pages in Hp.
    destruct (cl_faults (s_net s)) as [|[e|] fs]; destruct (decide (link = "p2")); cbn in Hp;
      clear - Hp; inversion Hp; subst; discriminate.
  - split; [|rewrite Ex; vm_compute; reflexivity]. exists example_uploads_db. split; [rewrite Ex; vm_compute; reflexivity|].
    vm_compute. reflexivity.
Defined.
