(* ===== verification/FsOps.v ===== *)
(** The operations of the mounted file system (internal/fs/fs_ops.go,
    drive_item_node.go, root.go). Each is a goroutine of the FUSE server that
    shares the caches and the upload manager with the others: it is cut into
    the calls it makes, a call of a cache with the fetch it may need being one
    action. *)

From S2P Require Export Uploads.

#[local] Open Scope Z_scope.
#[local] Open Scope res_scope.

(** ** Names the drive refuses *)

Fixpoint prefix_chars (p l : list ascii) : option (list ascii) :=
  match p, l with
  | [], _ => Some l
  | a :: p, b :: l => if decide (a = lower_ascii b) then prefix_chars p l else None
  | _ :: _, [] => None
  end.
Definition then_digit (r : option (list ascii)) : bool :=
  match r with Some (a :: _) => is_digit a | _ => false end.
(** The alternatives of [disallowedRexp], at the start of [l]. *)
Definition disallowed_at (l : list ascii) : bool :=
  then_digit (prefix_chars (chars "lpt") l) || then_digit (prefix_chars (chars "com") l)
  || bool_decide (is_Some (prefix_chars (chars "_vti_") l))
  || match l with
     | a :: _ => bool_decide (a ∈ chars "*:<>?/\|") || bool_decide (a = "034"%char)
     | [] => false
     end.
Fixpoint disallowed (l : list ascii) : bool :=
  disallowed_at l || match l with [] => false | _ :: l => disallowed l end.

Definition isNameRestricted (name : string) : bool :=
  existsb (λ s, EqualFold name s) ["CON"; "AUX"; "PRN"; "NUL"; ".lock"; "desktop.ini"] || disallowed (chars name).

(** ** Data *)

(** A FUSE node: the root, or an item with its inode. *)
Inductive Node := OneCloudFS | DriveItemNode (inode : N).

Record AttrOut := mkAttrOut { ao_Attr : Attr; ao_Blksize : Z; ao_Blocks : Z }.
Definition attr_out (a : Attr) : AttrOut := mkAttrOut a 4096 (u64 (attr_Size a + 511) / 512).
Record StatfsOut := mkStatfsOut {
  st_Bsize : Z; st_Frsize : Z; st_Blocks : Z; st_Bfree : Z; st_Bavail : Z; st_Files : Z; st_Ffree : Z; st_NameLen : Z }.
(** What [fuse.ReadResultFd] reads later: a descriptor, an offset, a length. *)
Record ReadResult := ReadResultFd { rr_fd : nat; rr_off : Z; rr_len : Z }.
(** The fields of [SetAttrIn] that are valid. *)
Record SetAttrIn := mkSetAttrIn { sa_mode : option Z; sa_mtime : option Time; sa_size : option Z }.

Definition O_ACCMODE : Z := 3.
Definition O_RDONLY : Z := 0.
Definition O_TRUNC : Z := 512.

Section fs.
Context {D W : Type} `{Bolt D} `{Clock W} `{GraphAPI W} `{LocalZone}.
Abbreviation St := (Sys D W).
Abbreviation Go A := (Res St A).
(** The process, and whether an upload manager was given. *)
Context (uid gid : Z) (uploadManager : bool).

Definition on_cache {A} (m : SE (W * InodeCache) error A) (s : St) : (error + A) * St :=
  let '(r, (w, c)) := m (s_net s, s_inodes s) in
  (r, mkSys (s_um s) (s_objs s) (s_next s) (s_db s) c (s_content s) w).
Definition inode_of (s : St) (l : N) : Inode := deref (s_inodes s) l.
Definition read_inode (l : N) : Go Inode := atomic (λ s, (inode_of s l, s)).
Definition upd_node (l : N) (f : Inode → Inode) : Go unit := atomic_ (on_inodes (upd l f)).
Definition new_inode (i : Inode) (s : St) : N * St :=
  let '(l, c) := alloc i (s_inodes s) in (l, on_inodes (λ _, c) s).
Definition read_clock : Go Time := atomic (λ s, (w_now (s_net s), s)).

(** ** Listing *)

Definition fetchChildrenFromGraph (ctx : Ctx W) (parentID : string) : SE W error (list DriveItem) :=
  if bool_decide (parentID = "root") || bool_decide (parentID = "") then api_ListDriveRoot ctx
  else api_ListChildren ctx (ItemID parentID).

(** The items of a cached list, those still in the cache. *)
Definition cached_items (c : InodeCache) (ids : list string) : list DriveItem :=
  omap (λ id, (λ l, DriveItem_of (deref c l)) <$> Get c id) ids.
Definition fetchChildrenWithOffline (ctx : Ctx W) : ChildrenFetcher W := λ parentID '(w, c),
  match fetchChildrenFromGraph ctx parentID w with
  | (inr items, w) => (inr items, (w, if IsOffline c then SetOffline false c else c))
  | (inl err, w) =>
      if negb (fs_isNetworkError err) then (inl err, (w, c)) else
      let c := SetOffline true c in
      let listed := match Get c parentID with Some p => children (deref c p) | None => None end in
      match listed with
      | Some ids => (inr (cached_items c ids), (w, c))
      | None =>
          match ItemsByParent parentID c with
          | [] => (inl err, (w, c))
          | items => (inr items, (w, c))
          end
      end
  end.
Definition list_children (ctx : Ctx W) (parentID : string) : Go (error + gmap string N) :=
  atomic (on_cache (GetChildren parentID (Some (fetchChildrenWithOffline ctx)))).

(** [readdirChildren]: names and modes, in the order [range] visits the map. *)
Definition readdirChildren (ctx : Ctx W) (parentID : string) : Go (Z + list (string * Z)) :=
  do* r := list_children ctx parentID in
  match r with
  | inl _ => Ret (inl EIO)
  | inr m => atomic (λ s, (inr ((λ kl, (Name (inode_of s kl.2), Mode (inode_of s kl.2))) <$> map_to_list m), s))
  end.

Definition lookupChild (ctx : Ctx W) (parentID name : string) : Go (Z + N) :=
  do* r := list_children ctx parentID in
  Ret (match r with
       | inl _ => inl EIO
       | inr m => match m !! name with None => inl ENOENT | Some l => inr l end
       end).

(** ** The operations on directories *)

Definition entry_out (item : DriveItem) : Go EntryOut :=
  do* now := read_clock in Ret (fillEntryOut now uid gid item).

Definition doMkdir (ctx : Ctx W) (parentID name : string) : Go (Z + (N * EntryOut)) :=
  if isNameRestricted name then Ret (inl EINVAL) else
  let resource := if decide (parentID = "root") then ItemPath "/" else ItemID parentID in
  do* r := atomic (on_net (api_CreateFolder ctx resource name)) in
  match r with
  | inl _ => Ret (inl EIO)
  | inr item =>
      do* l := atomic (new_inode (inode_of_item item)) in
      atomic_ (on_inodes (InsertChild parentID (Some l))) ;;;
      do* out := entry_out item in Ret (inr (l, out))
  end.

Definition deleteRemote (ctx : Ctx W) (itemID : string) : Go Z :=
  if isLocalID itemID then Ret 0 else
  do* r := atomic (on_net (api_DeleteItem ctx (ItemID itemID) "")) in
  Ret (match r with inl _ => EIO | inr _ => 0 end).

Definition doRmdir (ctx : Ctx W) (parentID name : string) : Go Z :=
  do* res := lookupChild ctx parentID name in
  match res with
  | inl errno => Ret errno
  | inr l =>
      do* i := read_inode l in
      if negb (IsDir i) then Ret ENOTDIR else
      do* i := read_inode l in
      if HasChildren i then Ret ENOTEMPTY else
      do* errno := deleteRemote ctx (ID i) in
      if negb (errno =? 0) then Ret errno else
      atomic_ (λ s, on_inodes (RemoveChild parentID (ID (inode_of s l))) s) ;;; Ret 0
  end.

Definition doUnlink (ctx : Ctx W) (parentID name : string) : Go Z :=
  do* res := lookupChild ctx parentID name in
  match res with
  | inl errno => Ret errno
  | inr l =>
      do* i := read_inode l in
      do* errno := deleteRemote ctx (ID i) in
      if negb (errno =? 0) then Ret errno else
      atomic_ (λ s, on_inodes (RemoveChild parentID (ID (inode_of s l))) s) ;;;
      atomic (λ s, on_content (ContentCache.Delete (ID (inode_of s l))) s) ;;; Ret 0
  end.

Definition rename_inode (newName : string) (newParent : option string) (i : Inode) : Inode :=
  let item := set_item_Name newName (DriveItem_of i) in
  set_DriveItem_of (match newParent with
                    | Some p => set_item_Parent (Some (mkDriveItemParent "" p "" "")) item
                    | None => item
                    end) i.
Definition move_child (parentID newParentID : string) (l : N) : Go unit :=
  atomic_ (λ s, on_inodes (MoveChild (w_now (s_net s)) parentID newParentID (ID (inode_of s l))) s).

(** An item only known here: the session that is to upload it follows. *)
Definition rename_local (parentID newParentID newName id : string) (l : N) : Go Z :=
  (if uploadManager then RenameSession id newParentID newName else Ret tt) ;;;
  move_child parentID newParentID l ;;;
  upd_node l (rename_inode newName (Some newParentID)) ;;; Ret 0.
(** An item of the drive: renamed there, and moved when its folder changes. *)
Definition rename_remote (ctx : Ctx W) (parentID newParentID newName id : string) (l : N) : Go Z :=
  do* r := atomic (on_net (api_RenameItem ctx (ItemID id) newName "")) in
  match r with
  | inl _ => Ret EIO
  | inr _ =>
      do* moved := (if decide (parentID = newParentID) then Ret true
                    else do* r := atomic (on_net (api_MoveItem ctx (ItemID id) (ItemID newParentID) "")) in
                         Ret (match r with inl _ => false | inr _ => true end)) in
      if negb moved then Ret EIO else
      move_child parentID newParentID l ;;;
      upd_node l (rename_inode newName None) ;;; Ret 0
  end.
Definition doRename (ctx : Ctx W) (parentID name newParentID newName : string) : Go Z :=
  if isNameRestricted newName then Ret EINVAL else
  do* res := lookupChild ctx parentID name in
  match res with
  | inl errno => Ret errno
  | inr l =>
      do* i := read_inode l in
      if isLocalID (ID i) then rename_local parentID newParentID newName (ID i) l
      else rename_remote ctx parentID newParentID newName (ID i) l
  end.

Definition truncated (size : Z) (i : Inode) : Inode :=
  set_hasChanges true (set_DriveItem_of (set_item_Size size (DriveItem_of i)) i).

(** [doCreate]; [rand] are the random bytes of a new local ID. *)
Definition doCreate (ctx : Ctx W) (rand : option (list Z)) (parentID name : string) (mode : Z) : Go (Z + (N * EntryOut)) :=
  if isNameRestricted name then Ret (inl EINVAL) else
  do* r := list_children ctx parentID in
  match r with
  | inl _ => Ret (inl EIO)
  | inr m =>
      match m !! name with
      | Some l =>
          do* i := read_inode l in
          atomic (on_content (ContentCache.Delete (ID i))) ;;;
          do* o := atomic (on_content (ContentCache.Open (ID i))) in
          match o with
          | inl _ => Ret (inl EIO)
          | inr _ =>
              upd_node l (truncated 0) ;;;
              do* i := read_inode l in
              do* out := entry_out (DriveItem_of i) in Ret (inr (l, out))
          end
      | None =>
          do* l := atomic (new_inode (NewInodeLocal rand name mode None)) in
          atomic_ (on_inodes (InsertChild parentID (Some l))) ;;;
          do* i := read_inode l in
          do* o := atomic (on_content (ContentCache.Open (ID i))) in
          match o with
          | inl _ => Ret (inl EIO)
          | inr _ => do* out := entry_out (DriveItem_of i) in Ret (inr (l, out))
          end
      end
  end.

(** ** The content of a file *)

Definition hasContentOnDisk (id : string) : Go bool :=
  do* n := atomic (on_content (ContentCache.Size id)) in Ret (0 <? n).

(** [verifyCachedContent]: the hash the inode has, then the one of the cache. *)
Definition expected_hash (i : Inode) : string :=
  match item_File (DriveItem_of i) with Some f => hashes_QuickXorHash (file_Hashes f) | None => "" end.
Definition verifyCachedContent (l : N) (id : string) : Go bool :=
  do* i := read_inode l in
  if decide (expected_hash i = "") then Ret true else
  do* sum := atomic (on_content (ContentCache.SumQuickXorHash id)) in
  Ret (match sum with None => false | Some sum => EqualFold sum (expected_hash i) end).

(** [downloadError]: nil, one of them, or both joined. *)
Definition downloadError (graphErr cacheErr : option error) : list error :=
  option_list graphErr ++ option_list cacheErr.

(** [downloadContent]: the request writes its pieces in the pipe, which ends
    with the error of the request; the cache copies them. *)
Definition downloadContent (ctx : Ctx W) (id : string) : Go Z :=
  do* r := atomic (λ s, let '(chunks, err, w) := api_GetItemContentStream ctx (ItemID id) (s_net s) in
                        ((chunks, err), mkSys (s_um s) (s_objs s) (s_next s) (s_db s) (s_inodes s) (s_content s) w)) in
  do* o := atomic (on_content (ContentCache.InsertStream id r.1 r.2)) in
  Ret (match downloadError r.2 o.2 with [] => 0 | _ => EIO end).

(** [Open]; 0 for a handle. *)
Definition Open_read (ctx : Ctx W) (l : N) (id : string) : Go Z :=
  if isLocalID id then Ret 0 else
  do* has := hasContentOnDisk id in
  if negb has then downloadContent ctx id else
  do* ok := verifyCachedContent l id in
  if ok : bool then Ret 0 else
  atomic (on_content (ContentCache.Delete id)) ;;; downloadContent ctx id.

Definition Open_write (ctx : Ctx W) (l : N) (id : string) (fd : nat) (flags : Z) : Go Z :=
  do* errno := (if isLocalID id then Ret 0 else
                do* has := hasContentOnDisk id in
                if has : bool then Ret 0 else downloadContent ctx id) in
  if negb (errno =? 0) then atomic (on_disk_ (file_Close fd)) ;;; Ret errno else
  if Z.land flags O_TRUNC =? 0 then Ret 0 else
  do* t := atomic (on_disk_ (file_Truncate fd 0)) in
  match t with
  | inl _ => Ret EIO
  | inr _ => upd_node l (truncated 0) ;;; Ret 0
  end.

Definition Open (ctx : Ctx W) (l : N) (flags : Z) : Go Z :=
  do* i := read_inode l in
  if IsDir i then Ret EISDIR else
  do* o := atomic (on_content (ContentCache.Open (ID i))) in
  match o with
  | inl _ => Ret EIO
  | inr fd => if Z.land flags O_ACCMODE =? O_RDONLY then Open_read ctx l (ID i) else Open_write ctx l (ID i) fd flags
  end.

Definition Read (l : N) (len off : Z) : Go (Z + ReadResult) :=
  do* i := read_inode l in
  do* o := atomic (on_content (ContentCache.Open (ID i))) in
  Ret (match o with inl _ => inl EIO | inr fd => inr (ReadResultFd fd off len) end).

(** [Write]: the bytes taken. *)
Definition written (newEnd : Z) (i : Inode) : Inode :=
  let item := DriveItem_of i in
  set_hasChanges true (set_DriveItem_of (if item_Size item <? newEnd then set_item_Size newEnd item else item) i).
Definition Write (l : N) (data : list Z) (off : Z) : Go (Z + Z) :=
  do* i := read_inode l in
  do* r := atomic (on_content (ContentCache.WriteAt (ID i) data off)) in
  match r.2 with
  | Some _ => Ret (inl EIO)
  | None =>
      let newEnd := i64 (off + r.1) in
      if newEnd <? 0 then Ret (inl EINVAL) else
      upd_node l (written newEnd) ;;;
      Ret (if (r.1 <? 0) || (2 ^ 32 - 1 <? r.1) then inl EIO else inr r.1)
  end.

Definition Fsync (l : N) : Go Z :=
  do* i := read_inode l in
  if negb (hasChanges i) then Ret 0 else
  if negb uploadManager then upd_node l (SetHasChanges false) ;;; Ret 0 else
  do* i := read_inode l in
  do* enqueued := QueueUpload (ID i) (ParentID i) (Name i) in
  do* clean := (if enqueued : bool then Ret true else
                do* i := read_inode l in
                do* n := atomic (on_content (ContentCache.Size (ID i))) in Ret (n =? 0)) in
  (if clean : bool then upd_node l (SetHasChanges false) else Ret tt) ;;; Ret 0.

Definition Flush (l : N) : Go Z :=
  do* errno := Fsync l in
  do* i := read_inode l in
  atomic_ (λ s, (on_content (λ c, (tt, ContentCache.Close (ID i) c)) s).2) ;;; Ret errno.

(** ** Attributes *)

Definition Getattr (n : Node) : Go AttrOut :=
  match n with
  | OneCloudFS =>
      do* now := read_clock in
      let t := u64 (Z.max (Unix now) 0) in
      Ret (mkAttrOut (mkAttr 4096 2 t t t (Z.lor S_IFDIR 493) (u32 uid) (u32 gid)) 4096 0)
  | DriveItemNode l => do* i := read_inode l in Ret (attr_out (makeAttr uid gid i))
  end.

Definition chmod (mode : Z) (i : Inode) : Inode :=
  SetMode (Z.lor (if IsDir i then S_IFDIR else S_IFREG) (Z.land mode 4095)) i.
Definition utimens (t : Time) (i : Inode) : Inode :=
  set_DriveItem_of (set_item_ModTime (Some t) (DriveItem_of i)) i.
Definition Setattr (l : N) (in_ : SetAttrIn) : Go (Z + AttrOut) :=
  match sa_mode in_ with Some m => upd_node l (chmod m) | None => Ret tt end ;;;
  match sa_mtime in_ with Some t => upd_node l (utimens t) | None => Ret tt end ;;;
  do* errno := match sa_size in_ with
    | None => Ret 0
    | Some size =>
        do* i := read_inode l in
        do* o := atomic (on_content (ContentCache.Open (ID i))) in
        match o with
        | inl _ => Ret EIO
        | inr fd =>
            if 2 ^ 63 - 1 <? size then Ret EINVAL else
            do* t := atomic (on_disk_ (file_Truncate fd (Z.to_nat size))) in
            match t with
            | inl _ => Ret EIO
            | inr _ => upd_node l (truncated size) ;;; Ret 0
            end
        end
    end in
  if negb (errno =? 0) then Ret (inl errno) else
  do* i := read_inode l in Ret (inr (attr_out (makeAttr uid gid i))).

Definition Statfs (n : Node) : StatfsOut :=
  match n with
  | OneCloudFS => mkStatfsOut 4096 4096 (2 ^ 30) (2 ^ 30) (2 ^ 30) (2 ^ 20) (2 ^ 20) 255
  | DriveItemNode _ =>
      let blocks := 5 * 1024 * 1024 * 1024 * 1024 / 4096 in
      mkStatfsOut 4096 0 blocks blocks blocks 100000 100000 260
  end.

(** ** The nodes

    The root is a directory of ID "root"; the methods of an item that need a
    directory refuse a file. *)
Definition in_folder {A} (n : Node) (k : string → Go (Z + A)) : Go (Z + A) :=
  match n with
  | OneCloudFS => k "root"
  | DriveItemNode l => do* i := read_inode l in if negb (IsDir i) then Ret (inl ENOTDIR) else k (ID i)
  end.
Definition in_folder_errno (n : Node) (k : string → Go Z) : Go Z :=
  do* r := in_folder n (λ id, do* errno := k id in Ret (if errno =? 0 then inr tt else inl errno)) in
  Ret (match r with inl errno => errno | inr _ => 0 end).

Definition Readdir (ctx : Ctx W) (n : Node) : Go (Z + list (string * Z)) := in_folder n (readdirChildren ctx).
Definition fuseLookup (ctx : Ctx W) (parentID name : string) : Go (Z + (Node * EntryOut)) :=
  do* res := lookupChild ctx parentID name in
  match res with
  | inl errno => Ret (inl errno)
  | inr l => do* i := read_inode l in do* out := entry_out (DriveItem_of i) in Ret (inr (DriveItemNode l, out))
  end.
Definition Lookup (ctx : Ctx W) (n : Node) (name : string) := in_folder n (λ id, fuseLookup ctx id name).
Definition as_node (r : Z + (N * EntryOut)) : Z + (Node * EntryOut) :=
  match r with inl e => inl e | inr (l, out) => inr (DriveItemNode l, out) end.
Definition Mkdir (ctx : Ctx W) (n : Node) (name : string) : Go (Z + (Node * EntryOut)) :=
  in_folder n (λ id, do* r := doMkdir ctx id name in Ret (as_node r)).
Definition Create (ctx : Ctx W) (rand : option (list Z)) (n : Node) (name : string) (mode : Z) : Go (Z + (Node * EntryOut)) :=
  in_folder n (λ id, do* r := doCreate ctx rand id name mode in Ret (as_node r)).
Definition Rmdir (ctx : Ctx W) (n : Node) (name : string) : Go Z := in_folder_errno n (λ id, doRmdir ctx id name).
Definition Unlink (ctx : Ctx W) (n : Node) (name : string) : Go Z := in_folder_errno n (λ id, doUnlink ctx id name).

(** [resolveNewParentID]: nothing for a node of another file system. *)
Definition resolveNewParentID (p : option Node) : Go string :=
  match p with
  | Some (DriveItemNode l) => do* i := read_inode l in Ret (ID i)
  | Some OneCloudFS => Ret "root"
  | None => Ret ""
  end.
Definition Rename (ctx : Ctx W) (n : Node) (name : string) (newParent : option Node) (newName : string) : Go Z :=
  in_folder_errno n (λ id,
    do* newParentID := resolveNewParentID newParent in
    if decide (newParentID = "") then Ret EINVAL else doRename ctx id name newParentID newName).
End fs.
