(* ===== verification/FsTheorems.v ===== *)
(** What the file system guarantees its users: a flushed file reaches the
    drive, a rename that fails leaves the tree alone, and a name the drive
    refuses never reaches it. *)

From S2P Require Import FsOps ContentTheorems Remote UploadPersist UploadTheorems UploadRetry UploadPublish DeltaTheorems.

#[local] Open Scope Z_scope.
#[local] Open Scope res_scope.

(** ** From the flush to the drive *)

Section flush.
Context {D W : Type} `{Bolt D, Clock W, GraphAPI W, LocalZone}.
Abbreviation St := (Sys D W).

Lemma persist_inodes id p (s : St) : s_inodes (persistSession id p s) = s_inodes s.
Proof.
  unfold persistSession, on_db. assert (Hc : ∀ j db c, (SaveUploadSession (D := D) id j (db, c)).2 = c).
  { intros j db c. unfold SaveUploadSession, logged, with_db. destruct db as [d|]; [|done].
    unfold db_Update, need_bucket, se_bind, se_get, bucket_Put. cbn [fst snd].
    destruct (bolt_bucket d _); cbn; [|done]. destruct (bolt_put _ _ _ d) as [e|d']; cbn; [done|]. by destruct (bolt_commit d d'). }
  specialize (Hc (Some (Session_AsJSON (session p s))) (s_db s) (s_inodes s)). destruct (SaveUploadSession _ _ _) as [db c]. exact Hc.
Qed.

(** The session a flush hands over. *)
Definition flushed (i : Inode) (path : string) (n : Z) : UploadSession :=
  mkSession (ID i) (ParentID i) (Name i) [] path n uploadPending 0 "" false zeroTime.

(** The snapshot is taken, the session queued, and the file is clean. *)
Lemma run_Fsync l path n c' (s : St) :
  let i := inode_of s l in
  hasChanges i = true → ContentCache.Snapshot (ID i) (s_content s) = (inr (path, n), c') → path ≠ "" → 0 < n →
  queue (s_um s) = [] →
  ∃ s1, run (Fsync true l) s = Some (0, s1, []) ∧
    s_um s1 = set_queue [s_next s] (s_um s) ∧ s_objs s1 = <[s_next s := flushed i path n]> (s_objs s) ∧
    s_content s1 = c' ∧ s_net s1 = s_net s ∧ s_inodes s1 = upd l (SetHasChanges false) (s_inodes s).
Proof.
  intros i Hch Hsnap Hpath Hn Hq. unfold Fsync, read_inode. go_run. fold i. rewrite Hch. cbn [negb]. go_run. fold i.
  unfold QueueUpload. rewrite run_bind. go_run. unfold on_content at 1. rewrite Hsnap. cbn [fst snd].
  rewrite (proj2 (Z.eqb_neq n 0)) by lia. unfold NewUploadSessionSnapshot. rewrite decide_False by done.
  rewrite (proj2 (Z.leb_gt n 0)) by lia. unfold send_queue, await. cbn [res_bind run].
  unfold on_content. rewrite Hsnap. cbn [fst snd set_content s_um]. rewrite Hq. cbn [length Nat.ltb Nat.leb chan_cap].
  eexists. split; [reflexivity|]. cbn. by rewrite Hq.
Qed.

(** The loop receives the session. *)
Lemma run_receive p u (s : St) :
  queue (s_um s) = [p] → s_objs s !! p = Some u → sessions (s_um s) = ∅ →
  ∃ s2, run (uploadLoop_case EvQueue) s = Some (tt, s2, []) ∧
    s_um s2 = set_sessions {[ us_ID u := p ]} (set_queue [] (s_um s)) ∧ s_objs s2 = s_objs s ∧
    s_content s2 = s_content s ∧ s_net s2 = s_net s ∧ s_inodes s2 = s_inodes s.
Proof.
  intros Hq Hu Hs. cbn [uploadLoop_case run]. rewrite Hq. eexists. split; [reflexivity|].
  unfold enqueueSession. set (s0 := on_um (set_queue []) s). rewrite (session_lookup p u s0 Hu).
  change (sessions (s_um s0)) with (sessions (s_um s)). rewrite Hs, lookup_empty.
  set (sa := on_um _ s0). pose proof (persist_inodes (us_ID u) p sa) as Ei.
  unfold persistSession, on_db in *. destruct (SaveUploadSession _ _ _) as [db c]. cbn in *. rewrite Hs. by split_and!.
Qed.

Lemma etag_clean id l (c : InodeCache) : current_etag id (upd l (SetHasChanges false) c) = current_etag id c.
Proof.
  unfold current_etag. change (Get (upd l (SetHasChanges false) c) id) with (Get c id). destruct (Get c id) as [l'|]; [|done].
  unfold deref, upd. cbn. destruct (decide (l = l')) as [<-|]; [|by rewrite lookup_alter_ne].
  rewrite lookup_alter_eq. by destruct (store c !! l).
Qed.

Context (order : gmap string N → list N) (Horder : ∀ m, order m ≡ₚ (map_to_list m).*2).

(** C4: What is written in a file that is not empty reaches the drive. Flush a file
    with unsaved changes whose content the cache can copy and has at least one byte,
    on a mount with nothing else to upload: the file is clean once its session is
    queued; the loop receives it, the next tick launches it, and when the drive
    accepts the request, which no network error interrupts, the goroutine ends with
    the drive holding exactly the bytes the file had when it was flushed: under the
    file's ID when the drive knows it, else as an item made under the file's name
    ([created_in]), new and of that name when the name was free in its folder. The
    disk has no faults, and these goroutines run one after the other, with no other
    in between. A file that was
    emptied is marked clean and is not uploaded (Example [emptied_file_stays]). *)
Theorem flush_reaches_drive `{!RemoteDrive W} l path n c' item w' (s : St) :
  let i := inode_of s l in
  let data := content_of (ID i) (s_content s) in
  let isLocal := isLocalID (ID i) in
  hasChanges i = true → content_ok (s_content s) → ContentCache.Snapshot (ID i) (s_content s) = (inr (path, n), c') → n ≠ 0 →
  queue (s_um s) = [] → sessions (s_um s) = ∅ → 0 ≤ inFlight (s_um s) < inFlightCap (s_um s) →
  request isLocal (ID i) (ParentID i) (Name i) data (if isLocal then "" else current_etag (ID i) (s_inodes s)) (s_net s)
    = (inr item, w') → ¬ interrupted (s_net s) w' →
  ∃ s1 s2 s3 s4 p it, run (Fsync true l) s = Some (0, s1, []) ∧ hasChanges (inode_of s1 l) = false ∧
    run (uploadLoop_case EvQueue) s1 = Some (tt, s2, []) ∧
    run (uploadLoop_case (EvTick order)) s2 = Some (tt, s3, [executeUpload p]) ∧
    run (executeUpload p) s3 = Some (tt, s4, []) ∧
    drive (s_net s4) !! item_ID item = Some it ∧ ri_content it = data ∧
    (isLocal = true → created_in (small data) (parentResource (ParentID i)) (Name i) (s_net s) (item_ID item) it) ∧
    (isLocal = false → item_ID item = ID i) ∧
    inFlight (s_um s4) = inFlight (s_um s).
Proof using Horder.
  intros i data isLocal Hch Hok Hsnap Hn Hq Hse Hroom Hreq Hwhole.
  destruct (Snapshot_spec _ _ _ _ _ Hok Hsnap Hn) as (o & Hpath & _ & _ & Hfl & Hdir & Hname & Hobj & Hlen). fold data in Hobj, Hlen.
  destruct (run_Fsync l path n c' s Hch Hsnap Hpath ltac:(lia) Hq) as (s1 & R1 & Eum1 & Eob1 & Eco1 & Ene1 & Ein1). fold i in Eob1.
  set (p := s_next s) in *. set (u := flushed i path n) in *.
  assert (Hu1 : s_objs s1 !! p = Some u) by (rewrite Eob1; apply lookup_insert_eq).
  destruct (run_receive p u s1) as (s2 & R2 & Eum2 & Eob2 & Eco2 & Ene2 & Ein2); [by rewrite Eum1|done|by rewrite Eum1|].
  assert (Hu2 : s_objs s2 !! p = Some u) by (by rewrite Eob2).
  assert (Hr2 : room s2 = true) by (unfold room; rewrite Eum2, Eum1; apply Z.ltb_lt, Hroom).
  assert (R3 : run (uploadLoop_case (EvTick order)) s2 = Some (tt, take_slot s2, [executeUpload p])).
  { cbn [uploadLoop_case]. rewrite (run_tick p u order Horder s2) by (by rewrite Eum2). unfold processSession. go_run.
    rewrite (session_lookup p u s2 Hu2). change (us_State u) with uploadPending. cbv iota beta. by rewrite run_launch, Hr2. }
  assert (Hheld : held u (ContentCache.disk (s_content (take_slot s2))) data).
  { change (s_content (take_slot s2)) with (s_content s2). rewrite Eco2, Eco1. split; [exact Hfl|]. cbn [us_SnapshotPath u flushed].
    rewrite decide_False by done. split; [exact Hdir|]. split; [exact Hlen|]. apply fmap_Some in Hobj as ([b t] & Ho & ->). by exists o, t. }
  destruct (publish_run p u data item w' (take_slot s2) Hu2 Hheld) as (s4 & it & R4 & _ & Hit & Hc & Hpn & _ & Hif & _).
  { unfold take_slot. cbn. rewrite Eum2, Eum1. cbn. lia. }
  { change (s_net (take_slot s2)) with (s_net s2). change (s_inodes (take_slot s2)) with (s_inodes s2).
    rewrite Ene2, Ene1, Ein2, Ein1, etag_clean. exact Hreq. }
  { change (s_net (take_slot s2)) with (s_net s2). by rewrite Ene2, Ene1. }
  exists s1, s2, (take_slot s2), s4, p, it. split_and!; [exact R1| |exact R2|exact R3|exact R4|exact Hit|exact Hc|..].
  - unfold inode_of. rewrite Ein1. unfold deref, upd. cbn. rewrite lookup_alter_eq. by destruct (store _ !! l).
  - intros El. change (us_ID u) with (ID i) in Hpn. fold isLocal in Hpn. rewrite El in Hpn.
    change (s_net (take_slot s2)) with (s_net s2) in Hpn. by rewrite Ene2, Ene1 in Hpn.
  - intros El. change (us_ID u) with (ID i) in Hpn. fold isLocal in Hpn. by rewrite El in Hpn.
  - rewrite Hif. unfold take_slot. cbn. rewrite Eum2, Eum1. cbn. lia.
Qed.
End flush.

(** ** Renaming *)

Section rename.
Context {D W : Type} `{Bolt D, Clock W, GraphAPI W, LocalZone}.
Abbreviation St := (Sys D W).

Lemma fetch_ok_offline (ctx : Ctx W) : fetch_ok (fetchChildrenWithOffline ctx).
Proof.
  intros id w c. unfold fetchChildrenWithOffline. destruct (fetchChildrenFromGraph ctx id w) as [[err|items] w1].
  - destruct (negb _); [done|]. cbv zeta. destruct (match Get _ id with Some _ => _ | None => _ end); [by apply ext_same|].
    destruct (ItemsByParent _ _); by apply ext_same.
  - cbn. destruct (IsOffline c); [by apply ext_same|done].
Qed.
Lemma listing_valid ctx parentID (s s1 : St) m :
  cache_wf (s_inodes s) → on_cache (GetChildren parentID (Some (fetchChildrenWithOffline ctx))) s = (inr m, s1) →
  cache_wf (s_inodes s1) ∧ map_valid (s_inodes s1) m.
Proof.
  intros Hwf. unfold on_cache, GetChildren. pose proof (fetch_ok_offline ctx) as Hf.
  pose proof (ext_getChildren parentID (Some (fetchChildrenWithOffline ctx)) true (s_net s) (s_inodes s) Hf) as He.
  pose proof (getChildren_valid parentID (Some (fetchChildrenWithOffline ctx)) true (s_net s) (s_inodes s)) as Hv.
  destruct (getChildren _ _ _ _) as [r [w c]]. cbn [snd] in He. intros [= -> <-]. cbn [s_inodes].
  split; [by apply He|]. by apply (Hv m w c Hf (wf_ok _ Hwf)).
Qed.

(** A queued session follows the new place. *)
Definition retarget (newParentID newName : string) (u : UploadSession) : UploadSession :=
  let u := set_us_Name newName u in if decide (newParentID = "") then u else set_us_ParentID newParentID u.
Lemma run_RenameSession id newParentID newName (s : St) :
  ∃ s', run (RenameSession id newParentID newName) s = Some (tt, s', []) ∧
    s_inodes s' = s_inodes s ∧ s_net s' = s_net s ∧ s_um s' = s_um s ∧
    (∀ p u, sessions (s_um s) !! id = Some p → s_objs s !! p = Some u → s_objs s' !! p = Some (retarget newParentID newName u)).
Proof.
  unfold RenameSession. go_run. destruct (sessions (s_um s) !! id) as [p|] eqn:Ep; [|by exists s].
  go_run. eexists. split; [reflexivity|]. rewrite persist_inodes. split; [done|].
  unfold persistSession, on_db. destruct (SaveUploadSession _ _ _) as [db c]. split; [done|]. split; [done|].
  intros p' u [= <-] Hu. exact (session_upd p u _ s Hu).
Qed.

Lemma deref_register c p l : deref (registerTTL p c) l = deref c l.
Proof. unfold registerTTL. by destruct (negb _). Qed.
Lemma deref_update c p t l : deref (updateEvictionEntry p t c) l = deref c l.
Proof. unfold updateEvictionEntry. by destruct (negb _). Qed.
Lemma deref_seeding t p id d c l : deref (attachSeeding t p id d c) l = deref (attachChild p id d true c) l.
Proof.
  unfold attachSeeding. destruct (_ && _); [|done].
  change (deref (addCached 1 ?x) l) with (deref x l). by rewrite deref_update, deref_register.
Qed.
Lemma attach_lists id d i : id ∈ default [] (children (attach id d true i)).
Proof.
  unfold attach, containsID. rewrite orb_true_r. case_bool_decide as E; destruct d; cbn; try done; apply elem_of_app; right; by left.
Qed.
Lemma MoveChild_lists t p1 p2 id l p c :
  Get c id = Some l → Get c p2 = Some p → valid c p → id ∈ default [] (children (deref (MoveChild t p1 p2 id c) p)).
Proof.
  intros Hl Hp Hv. unfold MoveChild. rewrite Hl. cbv zeta.
  set (c1 := match Get c p1 with Some _ => _ | None => _ end).
  assert (Hg : Get c1 p2 = Some p) by (unfold c1; by destruct (Get c p1)).
  assert (Hv1 : valid c1 p) by (unfold c1; destruct (Get c p1); [by apply valid_upd|done]).
  rewrite Hg. change (deref (markDirty ?a (markDirty ?b ?x)) p) with (deref x p). rewrite deref_seeding.
  unfold attachChild. rewrite deref_upd_eq by done. apply attach_lists.
Qed.

Lemma on_net_inv {A} (f : W → A * W) (s s' : St) r :
  on_net f s = (r, s') → f (s_net s) = (r, s_net s') ∧ s_inodes s' = s_inodes s.
Proof. unfold on_net. destruct (f (s_net s)) as [a w]. by intros [= -> <-]. Qed.

(** The rename of the inode, once it has moved. *)
Lemma run_moved parentID newParentID l newName np (s : St) :
  run (move_child parentID newParentID l ;;; upd_node l (rename_inode newName np) ;;; Ret 0) s =
  Some (0, on_inodes (upd l (rename_inode newName np))
             (on_inodes (MoveChild (w_now (s_net s)) parentID newParentID (ID (inode_of s l))) s), []).
Proof. reflexivity. Qed.

Lemma moved_node parentID newParentID l newName np t (c : InodeCache) : valid c l →
  let c' := upd l (rename_inode newName np) (MoveChild t parentID newParentID (ID (deref c l)) c) in
  Name (deref c' l) = newName ∧ (∀ p, np = Some p → ParentID (deref c' l) = p) ∧
  (∀ p lc, Get c (ID (deref c l)) = Some lc → Get c newParentID = Some p → valid c p →
     ID (deref c l) ∈ default [] (children (deref c' p))).
Proof.
  intros Hv c'. assert (Hv' : valid (MoveChild t parentID newParentID (ID (deref c l)) c) l) by (by apply ext_MoveChild).
  unfold c'. rewrite deref_upd_eq by done. split; [by destruct np|]. split; [by intros p ->|].
  intros p lc Hlc Hp Hvp. pose proof (MoveChild_lists t parentID newParentID _ lc p c Hlc Hp Hvp) as Hin.
  destruct (decide (l = p)) as [<-|]; [|by rewrite deref_upd_ne]. rewrite deref_upd_eq by done. by destruct np.
Qed.

(** What a rename that succeeds did, from the state after the lookup of [l]. *)
Definition renamed (ctx : Ctx W) (parentID newParentID newName : string) (l : N) (s1 s' : St) : Prop :=
  let id := ID (inode_of s1 l) in
  Name (inode_of s' l) = newName ∧
  (∀ p lc, Get (s_inodes s1) id = Some lc → Get (s_inodes s1) newParentID = Some p → id ∈ default [] (children (inode_of s' p))) ∧
  if isLocalID id then
    s_net s' = s_net s1 ∧ ParentID (inode_of s' l) = newParentID ∧
    ∀ p u, sessions (s_um s1) !! id = Some p → s_objs s1 !! p = Some u → s_objs s' !! p = Some (retarget newParentID newName u)
  else ∃ item w1, api_RenameItem ctx (ItemID id) newName "" (s_net s1) = (inr item, w1) ∧
    if decide (parentID = newParentID) then s_net s' = w1
    else ∃ item2, api_MoveItem ctx (ItemID id) (ItemID newParentID) "" w1 = (inr item2, s_net s').

Lemma run_rename_local ctx parentID newParentID newName l (s1 : St) :
  cache_wf (s_inodes s1) → valid (s_inodes s1) l → isLocalID (ID (inode_of s1 l)) = true →
  ∃ s', run (rename_local true parentID newParentID newName (ID (inode_of s1 l)) l) s1 = Some (0, s', []) ∧
    renamed ctx parentID newParentID newName l s1 s'.
Proof.
  intros Hwf Hm Eloc. set (id := ID (inode_of s1 l)) in *. unfold rename_local. rewrite run_bind.
  destruct (run_RenameSession id newParentID newName s1) as (s2 & -> & Ein & Ene & Eum & Eob).
  rewrite run_moved. eexists. split; [reflexivity|]. unfold renamed. cbv zeta. fold id. rewrite Eloc.
  unfold inode_of. cbn [on_inodes s_inodes s_net s_objs]. rewrite Ein, Ene.
  destruct (moved_node parentID newParentID l newName (Some newParentID) (w_now (s_net s1)) (s_inodes s1) Hm) as (Hn & Hp & Hl).
  split; [exact Hn|]. split; [|split; [done|]; split; [by apply Hp|exact Eob]].
  intros p lc Hlc Hp'. apply (Hl p lc Hlc Hp'). by eapply wf_get.
Qed.

Lemma run_rename_remote ctx parentID newParentID newName l (s1 : St) :
  cache_wf (s_inodes s1) → valid (s_inodes s1) l → isLocalID (ID (inode_of s1 l)) = false →
  ∃ errno s', run (rename_remote ctx parentID newParentID newName (ID (inode_of s1 l)) l) s1 = Some (errno, s', []) ∧
    (errno ≠ 0 → s_inodes s' = s_inodes s1) ∧ (errno = 0 → renamed ctx parentID newParentID newName l s1 s').
Proof.
  intros Hwf Hm Eloc. set (id := ID (inode_of s1 l)) in *. unfold rename_remote. go_run.
  destruct (on_net (api_RenameItem ctx (ItemID id) newName "") s1) as [[e|item] s2] eqn:Ern; cbn [fst snd];
    apply on_net_inv in Ern as [Ern Ein2]; [by exists EIO, s2|].
  assert (Hdone : ∀ s3, s_inodes s3 = s_inodes s1 →
    (if decide (parentID = newParentID) then s_net s3 = s_net s2
     else ∃ item2, api_MoveItem ctx (ItemID id) (ItemID newParentID) "" (s_net s2) = (inr item2, s_net s3)) →
    renamed ctx parentID newParentID newName l s1
      (on_inodes (upd l (rename_inode newName None))
        (on_inodes (MoveChild (w_now (s_net s3)) parentID newParentID (ID (inode_of s3 l))) s3))).
  { intros s3 Ein3 Hmoved. unfold renamed. cbv zeta. fold id. rewrite Eloc. unfold inode_of. cbn [on_inodes s_inodes s_net]. rewrite Ein3.
    destruct (moved_node parentID newParentID l newName None (w_now (s_net s3)) (s_inodes s1) Hm) as (Hn & _ & Hl).
    split; [exact Hn|]. split; [|by exists item, (s_net s2)].
    intros p lc Hlc Hp'. apply (Hl p lc Hlc Hp'). by eapply wf_get. }
  destruct (decide (parentID = newParentID)) as [Ep|Ep].
  - cbn [res_bind negb]. rewrite run_moved. eexists 0, _. split; [reflexivity|]. split; [done|]. intros _. by apply Hdone.
  - rewrite run_bind. go_run. destruct (on_net (api_MoveItem ctx (ItemID id) (ItemID newParentID) "") s2) as [[e|item2] s3] eqn:Emv;
      cbn [fst snd run negb]; apply on_net_inv in Emv as [Emv Ein3]; [by exists EIO, s3; rewrite Ein3|].
    rewrite run_moved. eexists 0, _. split; [reflexivity|]. split; [done|]. intros _. apply Hdone; [congruence|eauto].
Qed.

(** C18: A rename does all of its local work or none of it. A name the drive
    refuses is refused at once: nothing is looked up, asked or changed. A rename that
    fails leaves the tree as the lookup left it. A rename that succeeds gives the
    item its new name and lists it in its new folder; for an item the drive knows,
    only after the drive accepted the new name and, when the folder changes, the
    move; for one that exists only here, without any request, the session that is
    to upload it following it under its new name and folder. *)
Theorem rename_all_or_nothing ctx parentID name newParentID newName (s : St) :
  cache_wf (s_inodes s) →
  ∃ errno s', run (doRename true ctx parentID name newParentID newName) s = Some (errno, s', []) ∧
    if isNameRestricted newName then errno = EINVAL ∧ s' = s else
    ∃ r s1, on_cache (GetChildren parentID (Some (fetchChildrenWithOffline ctx))) s = (r, s1) ∧
      (errno ≠ 0 → s_inodes s' = s_inodes s1) ∧
      (errno = 0 → ∃ m l, r = inr m ∧ m !! name = Some l ∧ renamed ctx parentID newParentID newName l s1 s').
Proof.
  intros Hwf. unfold doRename. destruct (isNameRestricted newName); [by exists EINVAL, s|].
  unfold lookupChild, list_children. rewrite run_bind. go_run.
  destruct (on_cache (GetChildren parentID (Some (fetchChildrenWithOffline ctx))) s) as [[e|m] s1] eqn:Er; cbn [fst snd run].
  { exists EIO, s1. split; [done|]. by eexists _, s1. }
  destruct (listing_valid ctx parentID s s1 m Hwf Er) as [Hwf1 Hm].
  destruct (m !! name) as [l|] eqn:El; cbn [run]; [|exists ENOENT, s1; split; [done|]; by eexists _, s1].
  specialize (Hm name l El). unfold read_inode. go_run. destruct (isLocalID (ID (inode_of s1 l))) eqn:Eloc.
  - destruct (run_rename_local ctx parentID newParentID newName l s1 Hwf1 Hm Eloc) as (s' & -> & Hr).
    exists 0, s'. split; [done|]. exists (inr m), s1. split; [done|]. split; [done|]. intros _. by exists m, l.
  - destruct (run_rename_remote ctx parentID newParentID newName l s1 Hwf1 Hm Eloc) as (errno & s' & -> & He & Hr).
    exists errno, s'. split; [done|]. exists (inr m), s1. split; [done|]. split; [done|]. intros E0. exists m, l. auto.
Qed.
End rename.

(** ** On an example mount *)

(** A drive with one file and one folder, and a mount that holds a copy of the
    file, changed since. *)
Definition b_inode : Inode :=
  set_hasChanges true (SetParentID "root" (inode_of_item (set_item_Name "b.txt" (set_item_ID "b" zero_DriveItem)))).
Definition b_cloud : Cloud :=
  mkCloud {[ "b" := mkRItem "root" "b.txt" false [9] "7"; "d" := mkRItem "root" "d" true [] "3" ]} 8 1700000000000000000 [].
Definition b_sys : Sys MapDB Cloud :=
  mkSys (mkUM [] [] ∅ 0 0 0 2 3) ∅ 0 (Some example_uploads_db) (add_inode b_inode NewInodeCache) example_content b_cloud.

Lemma flush_reaches_drive_witness :
  ∃ s1 s2 s3 s4 p it, run (Fsync true 0%N) b_sys = Some (0, s1, []) ∧
    run (uploadLoop_case EvQueue) s1 = Some (tt, s2, []) ∧
    run (uploadLoop_case (EvTick map_order)) s2 = Some (tt, s3, [executeUpload p]) ∧
    run (executeUpload p) s3 = Some (tt, s4, []) ∧
    cl_items (s_net s4) !! "b" = Some it ∧ ri_content it = replicate 10 0.
Proof.
  destruct (ContentCache.Snapshot "b" example_content) as [r c'] eqn:Es.
  assert (Er : r = inr ("/c/snapshots/snapshot-5", 10)) by (apply (f_equal fst) in Es; cbn in Es; rewrite <-Es; vm_compute; reflexivity).
  subst r. assert (Hdata : content_of "b" example_content = replicate 10 0) by (vm_compute; reflexivity).
  destruct (request false "b" "root" "b.txt" (replicate 10 0) "" b_cloud) as [r w'] eqn:Eq.
  destruct (accepted_inr r) as [item ->]; [apply (f_equal fst) in Eq; cbn [fst] in Eq; rewrite <-Eq; vm_compute; reflexivity|].
  destruct (flush_reaches_drive map_order (λ m, reflexivity _) 0%N "/c/snapshots/snapshot-5" 10 c' item w' b_sys)
    as (s1 & s2 & s3 & s4 & p & it & R1 & _ & R2 & R3 & R4 & Hit & Hc & _ & Hid & _).
  - reflexivity.
  - exact example_content_ok.
  - exact Es.
  - discriminate.
  - reflexivity.
  - reflexivity.
  - split; [discriminate|reflexivity].
  - change (content_of _ (s_content b_sys)) with (content_of "b" example_content). rewrite Hdata. exact Eq.
  - by intros [].
  - exists s1, s2, s3, s4, p, it. rewrite (Hid eq_refl) in Hit. rewrite <-Hdata. by split_and!.
Defined.

(** "b.txt" is moved to the folder "d" as "c.txt". *)
Lemma rename_all_or_nothing_witness :
  ∃ s' s1, run (doRename true Background "root" "b.txt" "d" "c.txt") b_sys = Some (0, s', []) ∧
    ∃ m l, on_cache (GetChildren "root" (Some (fetchChildrenWithOffline Background))) b_sys = (inr m, s1) ∧
      m !! "b.txt" = Some l ∧ renamed Background "root" "d" "c.txt" l s1 s'.
Proof.
  assert (Hx : ∃ x, x = b_sys) by (by eexists). destruct Hx as [x Ex]. rewrite <-Ex.
  destruct (rename_all_or_nothing Background "root" "b.txt" "d" "c.txt" x) as (errno & s' & Hr & Hcase).
  { rewrite Ex. apply ext_Insert; [apply alloc_spec|]. apply wf_alloc, wf_new. }
  assert (He : errno = 0).
  { apply (f_equal (option_map (λ r, r.1.1))) in Hr. rewrite Ex in Hr. vm_compute in Hr. by injection Hr. }
  subst errno. change (isNameRestricted "c.txt") with false in Hcase. destruct Hcase as (r & s1 & Er & _ & Hok).
  destruct (Hok eq_refl) as (m & l & -> & Hl & Hren). exists s', s1. split; [exact Hr|]. by exists m, l.
Defined.

(** ** What the file system does not protect against *)

(** What a sequence of operations leaves, as [f] sees it. *)
Definition after {A B} (t : Res (Sys MapDB Cloud) A) (s : Sys MapDB Cloud) (f : A → Sys MapDB Cloud → B) : option B :=
  (λ r, f r.1.1 r.1.2) <$> run t s.

(** A download that was interrupted leaves what it received; opening the file to
    write then takes these bytes for the file: nothing is requested, and saving
    publishes them. *)
Example truncated_download_is_kept :
  let c := (ContentCache.InsertStream "x" [[1; 2]] (Some (EMsg "connection lost")) example_content).2 in
  let s := mkSys (s_um b_sys) ∅ 0 (s_db b_sys) (add_inode (SetID "x" b_inode) NewInodeCache) c b_cloud in
  after (FsOps.Open Background 0%N 2) s (λ errno s, (errno, content_of "x" (s_content s))) = Some (0, [1; 2]).
Proof. vm_compute. reflexivity. Qed.

(** A file the drive has content of, emptied here and flushed: it is clean, nothing
    is to be uploaded, and the drive keeps the old content. *)
Example emptied_file_stays :
  after (FsOps.Write 0%N [1; 2; 3] 0 ;;; Setattr 0 0 0%N (mkSetAttrIn None None (Some 0)) ;;; Fsync true 0%N) b_sys
    (λ errno s, (errno, content_of "b" (s_content s), hasChanges (inode_of s 0%N), queue (s_um s),
                 ri_content <$> cl_items (s_net s) !! "b")) = Some (0, [], false, [], Some [9]).
Proof. vm_compute. reflexivity. Qed.

(** Opening a file read-only while it has changes that were not flushed replaces
    them by the drive's version: the cached bytes do not have the known hash. *)
Example read_drops_unsaved_changes :
  let hash := SumQuickXORHash [9] in
  let i := set_DriveItem_of (set_item_File (Some (mkFile (mkHashes "" hash))) (DriveItem_of b_inode)) b_inode in
  let s := mkSys (s_um b_sys) ∅ 0 (s_db b_sys) (add_inode i NewInodeCache) example_content b_cloud in
  after (FsOps.Write 0%N [1; 2; 3] 0 ;;; FsOps.Open Background 0%N 0) s
    (λ errno s, (errno, content_of "b" (s_content s), hasChanges (inode_of s 0%N))) = Some (0, [9], true).
Proof. vm_compute. reflexivity. Qed.

(** After a move on the drive, the inode still names its old folder. *)
Example moved_inode_keeps_parent :
  after (doRename true Background "root" "b.txt" "d" "c.txt") b_sys
    (λ errno s, (errno, (λ l, (Name (inode_of s l), ParentID (inode_of s l))) <$> Get (s_inodes s) "b"))
  = Some (0, Some ("c.txt", "root")).
Proof. vm_compute. reflexivity. Qed.

(** When the drive accepts the new name and refuses the move, the caller is told
    of a failure and the file has its new name on the drive. *)
Example half_done_rename :
  let s := mkSys (s_um b_sys) ∅ 0 (s_db b_sys) (s_inodes b_sys) (s_content b_sys)
    (mkCloud (cl_items b_cloud) 8 1700000000000000000 [None; None; Some (graph_error 503)]) in
  after (doRename true Background "root" "b.txt" "d" "c.txt") s
    (λ errno s, (errno, ri_name <$> cl_items (s_net s) !! "b", Name ∘ inode_of s <$> Get (s_inodes s) "b"))
  = Some (EIO, Some "c.txt", Some "b.txt").
Proof. vm_compute. reflexivity. Qed.

(** A file created, written, flushed and deleted before its upload is uploaded
    all the same: deleting it does not cancel the session. *)
Example deleted_file_is_uploaded :
  after (Readdir Background OneCloudFS ;;;
         do* r := Create 0 0 Background (Some [1; 2; 3; 4]) OneCloudFS "n.txt" 420 in
         match r with
         | inr (DriveItemNode l, _) => FsOps.Write l [1; 2; 3] 0 ;;; Fsync true l ;;; uploadLoop_case EvQueue
         | _ => Ret tt
         end ;;;
         do* errno := Unlink Background OneCloudFS "n.txt" in
         executeUpload 0%N ;;; Ret errno) b_sys
    (λ errno s, (errno, bool_decide ([1; 2; 3] ∈ (λ kv, ri_content kv.2) <$> map_to_list (cl_items (s_net s))))) = Some (0, true).
Proof. vm_compute. reflexivity. Qed.

(** A new file that is not uploaded yet disappears from its folder when the
    folder is listed again. *)
Example local_file_vanishes :
  let later c := mkCloud (cl_items c) (cl_next c) (cl_now c + 3600 * Second) [] in
  after (Readdir Background OneCloudFS ;;;
         Create 0 0 Background (Some [1; 2; 3; 4]) OneCloudFS "n.txt" 420 ;;;
         do* r1 := lookupChild Background "root" "n.txt" in
         atomic_ (λ s, mkSys (s_um s) (s_objs s) (s_next s) (s_db s) (s_inodes s) (s_content s) (later (s_net s))) ;;;
         do* r2 := lookupChild Background "root" "n.txt" in
         Ret (r1, r2)) b_sys
    (λ r s, (bool_decide (is_Some (match r.1 with inr l => Some l | inl _ => None end)), r.2)) = Some (true, inl ENOENT).
Proof. vm_compute. reflexivity. Qed.
