(* ===== verification/Account.v ===== *)
(** Accounts and their tokens (internal/auth/account.go, httptools.go,
    interfaces.go, keyring.go): the account file, the keyring entries, and the
    renewal of the tokens with its error paths. The keyring and the merging of
    the default configuration are third-party code: the classes [Keyring] and
    [Mergo] have the operations the code calls. *)

From S2P Require Export InodeCache GraphClient.

#[local] Open Scope Z_scope.
#[local] Open Scope go_scope.

(** ** The account *)

Definition authClientID : string := "a074b377-e82d-41a0-b7b3-88c57c011510".
Definition authCodeURL : string := "https://login.microsoftonline.com/common/oauth2/v2.0/authorize".
Definition authTokenURL : string := "https://login.microsoftonline.com/common/oauth2/v2.0/token".
Definition authRedirectURL : string := "http://localhost:9090/callback".

Record AuthConfig := mkAuthConfig { ClientID : string; CodeURL : string; TokenURL : string; RedirectURL : string }.
Definition zero_AuthConfig := mkAuthConfig "" "" "" "".

(** [mergo.Merge(dst, src)] on two of them: the error, and what [dst] becomes. *)
Class Mergo := mergo_Merge : AuthConfig → AuthConfig → option error * AuthConfig.
Definition ApplyDefaults `{Mergo} (c : AuthConfig) : option error * AuthConfig :=
  mergo_Merge c (mkAuthConfig authClientID authCodeURL authTokenURL authRedirectURL).

Record AccountPersistedConfig := mkPersisted {
  pc_DefaultMountpoint : string;
  pc_CacheDir : string;
  pc_CacheTTL : Duration;
  pc_CacheMaxEntries : Z;
  pc_CacheMaxSize : Z;
  pc_DeltaInterval : Duration;
  pc_MaxUploadsInFlight : Z;
  pc_MaxUploadRetries : Z;
  pc_HTTPTimeout : Duration;
  pc_GraphRetries : Z;
  pc_PreWarmDepth : option Z;
}.
Definition zero_Persisted := mkPersisted "" "" 0 0 0 0 0 0 0 0 None.

(** [Account]. [acc_keyring]: the field is not nil (the keyring is one object,
    in the world). [acc_tokenFile]: the name of its file in the configuration
    directory, the only one the code writes in. *)
Record Account := mkAccount {
  acc_keyring : bool;
  acc_Name : string;
  acc_Config : AuthConfig;
  acc_Mount : AccountPersistedConfig;
  acc_ExpiresAt : Z;
  acc_AccessToken : string;
  acc_RefreshToken : string;
  acc_tokenFile : string;
  acc_lastKeyringErr : option error;
}.
Definition set_tokens (access refresh : string) (expires : Z) (a : Account) : Account :=
  mkAccount (acc_keyring a) (acc_Name a) (acc_Config a) (acc_Mount a) expires access refresh (acc_tokenFile a) (acc_lastKeyringErr a).
Definition set_lastKeyringErr (e : option error) (a : Account) : Account :=
  mkAccount (acc_keyring a) (acc_Name a) (acc_Config a) (acc_Mount a) (acc_ExpiresAt a) (acc_AccessToken a)
    (acc_RefreshToken a) (acc_tokenFile a) e.
Definition KeyringSaveFailed (a : Account) : bool := bool_decide (is_Some (acc_lastKeyringErr a)).

(** *** Its file *)

Record accountJSON := mkAccountJSON {
  aj_Name : string; aj_Config : AuthConfig; aj_Mount : AccountPersistedConfig; aj_ExpiresAt : Z }.
Definition toJSON (a : Account) : accountJSON :=
  mkAccountJSON (acc_Name a) (acc_Config a) (acc_Mount a) (acc_ExpiresAt a).

Definition enc_AuthConfig (c : AuthConfig) : json :=
  JObj [("clientID", enc_string (ClientID c)); ("codeURL", enc_string (CodeURL c));
        ("tokenURL", enc_string (TokenURL c)); ("redirectURL", enc_string (RedirectURL c))].
Definition enc_num_field (k : string) (n : Z) : list (string * json) := omit_if (n =? 0) k (JNum n).
Definition enc_Persisted (p : AccountPersistedConfig) : json :=
  JObj (enc_str_field "defaultMountpoint" (pc_DefaultMountpoint p) ++ enc_str_field "cacheDir" (pc_CacheDir p)
        ++ enc_num_field "cacheTTL" (pc_CacheTTL p) ++ enc_num_field "cacheMaxEntries" (pc_CacheMaxEntries p)
        ++ enc_num_field "cacheMaxSize" (pc_CacheMaxSize p) ++ enc_num_field "deltaInterval" (pc_DeltaInterval p)
        ++ enc_num_field "maxUploadsInFlight" (pc_MaxUploadsInFlight p) ++ enc_num_field "maxUploadRetries" (pc_MaxUploadRetries p)
        ++ enc_num_field "httpTimeout" (pc_HTTPTimeout p) ++ enc_num_field "graphRetries" (pc_GraphRetries p)
        ++ match pc_PreWarmDepth p with Some n => [("preWarmDepth", JNum n)] | None => [] end).
(** [json.MarshalIndent] of these fields does not fail. *)
Definition enc_accountJSON (a : accountJSON) : json :=
  JObj [("name", enc_string (aj_Name a)); ("config", enc_AuthConfig (aj_Config a));
        ("mount", enc_Persisted (aj_Mount a)); ("expires_at", JNum (aj_ExpiresAt a))].

Definition AuthConfig_fields : list (string * decoder AuthConfig) := [
  ("clientID", dec_field ClientID (λ v c, mkAuthConfig v (CodeURL c) (TokenURL c) (RedirectURL c)) dec_string);
  ("codeURL", dec_field CodeURL (λ v c, mkAuthConfig (ClientID c) v (TokenURL c) (RedirectURL c)) dec_string);
  ("tokenURL", dec_field TokenURL (λ v c, mkAuthConfig (ClientID c) (CodeURL c) v (RedirectURL c)) dec_string);
  ("redirectURL", dec_field RedirectURL (λ v c, mkAuthConfig (ClientID c) (CodeURL c) (TokenURL c) v) dec_string)].
Definition dec_AuthConfig : decoder AuthConfig := dec_struct AuthConfig_fields.
Definition Persisted_fields : list (string * decoder AccountPersistedConfig) := [
  ("defaultMountpoint", dec_field pc_DefaultMountpoint (λ v '(mkPersisted _ b c d e f g h i j k), mkPersisted v b c d e f g h i j k) dec_string);
  ("cacheDir", dec_field pc_CacheDir (λ v '(mkPersisted a _ c d e f g h i j k), mkPersisted a v c d e f g h i j k) dec_string);
  ("cacheTTL", dec_field pc_CacheTTL (λ v '(mkPersisted a b _ d e f g h i j k), mkPersisted a b v d e f g h i j k) dec_int64);
  ("cacheMaxEntries", dec_field pc_CacheMaxEntries (λ v '(mkPersisted a b c _ e f g h i j k), mkPersisted a b c v e f g h i j k) dec_int64);
  ("cacheMaxSize", dec_field pc_CacheMaxSize (λ v '(mkPersisted a b c d _ f g h i j k), mkPersisted a b c d v f g h i j k) dec_int64);
  ("deltaInterval", dec_field pc_DeltaInterval (λ v '(mkPersisted a b c d e _ g h i j k), mkPersisted a b c d e v g h i j k) dec_int64);
  ("maxUploadsInFlight", dec_field pc_MaxUploadsInFlight (λ v '(mkPersisted a b c d e f _ h i j k), mkPersisted a b c d e f v h i j k) dec_int64);
  ("maxUploadRetries", dec_field pc_MaxUploadRetries (λ v '(mkPersisted a b c d e f g _ i j k), mkPersisted a b c d e f g v i j k) dec_int64);
  ("httpTimeout", dec_field pc_HTTPTimeout (λ v '(mkPersisted a b c d e f g h _ j k), mkPersisted a b c d e f g h v j k) dec_int64);
  ("graphRetries", dec_field pc_GraphRetries (λ v '(mkPersisted a b c d e f g h i _ k), mkPersisted a b c d e f g h i v k) dec_int64);
  ("preWarmDepth", dec_field pc_PreWarmDepth (λ v '(mkPersisted a b c d e f g h i j _), mkPersisted a b c d e f g h i j v) (dec_ptr 0 dec_int64))].
Definition dec_Persisted : decoder AccountPersistedConfig := dec_struct Persisted_fields.
(** [json.Unmarshal] into an [Account]: the tokens have no key. *)
Definition Account_fields : list (string * decoder accountJSON) := [
  ("name", dec_field aj_Name (λ v a, mkAccountJSON v (aj_Config a) (aj_Mount a) (aj_ExpiresAt a)) dec_string);
  ("config", dec_field aj_Config (λ v a, mkAccountJSON (aj_Name a) v (aj_Mount a) (aj_ExpiresAt a)) dec_AuthConfig);
  ("mount", dec_field aj_Mount (λ v a, mkAccountJSON (aj_Name a) (aj_Config a) v (aj_ExpiresAt a)) dec_Persisted);
  ("expires_at", dec_field aj_ExpiresAt (λ v a, mkAccountJSON (aj_Name a) (aj_Config a) (aj_Mount a) v) dec_int64)].
Definition zero_accountJSON := mkAccountJSON "" zero_AuthConfig zero_Persisted 0.
Definition dec_accountJSON : decoder accountJSON := dec_struct Account_fields.

(** ** The keyring *)

(** [zalando/go-keyring]: a secret by service and user. *)
Class Keyring (K : Type) := {
  keyring_Get : string → string → K → error + string;
  keyring_Set : string → string → string → K → (error + unit) * K;
  keyring_Delete : string → string → K → (error + unit) * K;
}.
Definition keyringService : string := "onecloudriver".
Definition keyringKeys (name : string) : string * string :=
  (keyringService +:+ ":" +:+ name, keyringService +:+ ":access:" +:+ name).

(** ** The configuration directory

    An entry is a directory, or a file with the JSON value it holds ([None]:
    other text). Each system call may fail; a failed write may leave the file
    truncated. *)
Inductive DirEnt := SubDir | JsonFile (doc : option json).
Record ConfigDir := mkConfigDir { cd_entries : gmap string DirEnt; cd_faults : list (option (error * bool)) }.
Definition next_fault (d : ConfigDir) : option (error * bool) * ConfigDir :=
  match cd_faults d with
  | [] => (None, d)
  | f :: fs => (f, mkConfigDir (cd_entries d) fs)
  end.
Definition put_entry (name : string) (e : DirEnt) (d : ConfigDir) : ConfigDir :=
  mkConfigDir (<[name := e]> (cd_entries d)) (cd_faults d).
Definition os_WriteFile (name : string) (doc : json) (d : ConfigDir) : (error + unit) * ConfigDir :=
  let '(f, d) := next_fault d in
  match f, cd_entries d !! name with
  | Some (e, true), Some SubDir | Some (e, false), _ => (inl e, d)
  | Some (e, true), _ => (inl e, put_entry name (JsonFile None) d)
  | None, Some SubDir => (inl (EErrno EISDIR), d)
  | None, _ => (inr tt, put_entry name (JsonFile (Some doc)) d)
  end.

(** ** Errors and text *)

(** [IsOffline]; [urlError]: the chain has a [*url.Error]. *)
Definition IsOffline (urlError : bool) (err : error) : bool :=
  urlError || negb (Contains (Error err) "HTTP ").

(** [secureString]. *)
Definition secureString (s : string) : string :=
  match chars s with
  | [] => "***"
  | [a] => of_chars [a] +:+ "***"
  | a :: _ =>
      match Split s "@"%char with
      | [user; domain] => match chars user with
                          | [] => of_chars [a] +:+ "****"
                          | u :: _ => of_chars [u] +:+ "****@" +:+ domain
                          end
      | _ => of_chars [a] +:+ "****"
      end
  end.

(** [AuthError], decoded as far as it goes: a member of another shape is
    skipped, and the error [json.Unmarshal] then reports is ignored. *)
Record AuthError := mkAuthError {
  ae_Error : string; ae_ErrorDescription : string; ae_ErrorCodes : option (list Z); ae_ErrorURI : string;
  ae_Timestamp : string; ae_TraceID : string; ae_CorrelationID : string }.
Definition zero_AuthError := mkAuthError "" "" None "" "" "" "".
Definition AuthError_fields : list (string * decoder AuthError) := [
  ("error", dec_field ae_Error (λ v '(mkAuthError _ b c d e f g), mkAuthError v b c d e f g) dec_string);
  ("error_description", dec_field ae_ErrorDescription (λ v '(mkAuthError a _ c d e f g), mkAuthError a v c d e f g) dec_string);
  ("error_codes", dec_field ae_ErrorCodes (λ v '(mkAuthError a b _ d e f g), mkAuthError a b v d e f g) (dec_slice 0 dec_int64));
  ("error_uri", dec_field ae_ErrorURI (λ v '(mkAuthError a b c _ e f g), mkAuthError a b c v e f g) dec_string);
  ("timestamp", dec_field ae_Timestamp (λ v '(mkAuthError a b c d _ f g), mkAuthError a b c d v f g) dec_string);
  ("trace_id", dec_field ae_TraceID (λ v '(mkAuthError a b c d e _ g), mkAuthError a b c d e v g) dec_string);
  ("correlation_id", dec_field ae_CorrelationID (λ v '(mkAuthError a b c d e f _), mkAuthError a b c d e f v) dec_string)].
Definition best_effort {T} (fields : list (string * decoder T)) (zero : T) (b : Body) : T :=
  match b_more b, b_json b with
  | false, Some (JObj kvs) =>
      foldl (λ t kv, match field_for fields kv.1 with Some d => default t (d kv.2 t) | None => t end) zero kvs
  | _, _ => zero
  end.

(** The answer of the token endpoint. *)
Record Tokens := mkTokens { tk_Access : string; tk_Refresh : string; tk_ExpiresIn : Z }.
Definition dec_Tokens : decoder Tokens := dec_struct [
  ("access_token", dec_field tk_Access (λ v t, mkTokens v (tk_Refresh t) (tk_ExpiresIn t)) dec_string);
  ("refresh_token", dec_field tk_Refresh (λ v t, mkTokens (tk_Access t) v (tk_ExpiresIn t)) dec_string);
  ("expires_in", dec_field tk_ExpiresIn (λ v t, mkTokens (tk_Access t) (tk_Refresh t) v) dec_int64)].

(** ** The operations *)

(** The rest of the world an account lives in. *)
Record Env (K W : Type) := mkEnv { env_keyring : K; env_dir : ConfigDir; env_net : W }.
Arguments mkEnv {K W}. Arguments env_keyring {K W}. Arguments env_dir {K W}. Arguments env_net {K W}.

Section account.
Context {K W : Type} `{Keyring K} `{World W} `{Clock W}.
Abbreviation E := (Env K W).
(** An account and its world. *)
Definition AS : Type := Account * E.

Definition httpClient : HTTPDoer := HttpClient (15 * Second) None.

Definition on_keyring {A} (f : K → A * K) (e : E) : A * E :=
  let '(a, k) := f (env_keyring e) in (a, mkEnv k (env_dir e) (env_net e)).
Definition on_dir {A} (f : ConfigDir → A * ConfigDir) (e : E) : A * E :=
  let '(a, d) := f (env_dir e) in (a, mkEnv (env_keyring e) d (env_net e)).
Definition on_world {A} (f : W → A * W) (e : E) : A * E :=
  let '(a, w) := f (env_net e) in (a, mkEnv (env_keyring e) (env_dir e) w).

(** [saveUnsafe]: the refresh token, the access token, then the file. *)
Definition save_refresh : AS → AS := λ '(a, e),
  let a := set_lastKeyringErr None a in
  if decide (acc_RefreshToken a = "") then (a, e)
  else if negb (acc_keyring a) then (set_lastKeyringErr (Some (EMsg "no keyring configured")) a, e)
  else match on_keyring (keyring_Set keyringService (keyringKeys (acc_Name a)).1 (acc_RefreshToken a)) e with
       | (inl err, e) => (set_lastKeyringErr (Some err) a, e)
       | (inr _, e) => (a, e)
       end.
Definition save_access (a : Account) (e : E) : E :=
  if decide (acc_AccessToken a = "") then e
  else if negb (acc_keyring a) then e
  else (on_keyring (keyring_Set keyringService (keyringKeys (acc_Name a)).2 (acc_AccessToken a)) e).2.
Definition saveUnsafe : SE AS error unit := λ s,
  let '(a, e) := save_refresh s in
  let e := save_access a e in
  match on_dir (os_WriteFile (acc_tokenFile a) (enc_accountJSON (toJSON a))) e with
  | (inl err, e) => (inl (EWrap "error saving account file: " err ""), (a, e))
  | (inr _, e) => (inr tt, (a, e))
  end.
Definition Save : SE AS error unit := saveUnsafe.

(** [purgeInvalidRefreshTokenLocked]. *)
Definition purgeInvalidRefreshTokenLocked : AS → AS := λ '(a, e),
  let a := set_tokens "" "" (acc_ExpiresAt a) a in
  if negb (acc_keyring a) then (a, e) else
  match on_keyring (keyring_Delete keyringService (keyringKeys (acc_Name a)).1) e with
  | (inl _, e) => (a, e)
  | (inr _, e) => (a, (on_keyring (keyring_Delete keyringService (keyringKeys (acc_Name a)).2) e).2)
  end.

(** The form of the renewal request, in key order. *)
Definition refresh_form (a : Account) : list (string * string) :=
  [("client_id", ClientID (acc_Config a)); ("grant_type", "refresh_token");
   ("redirect_uri", RedirectURL (acc_Config a)); ("refresh_token", acc_RefreshToken a)].
Definition form_body (q : list (string * string)) : ReqBody := mkReqBody (PBytes (string_bytes (Values_Encode q))) None true.
Definition post_form (url : string) (q : list (string * string)) : error + Request :=
  match NewRequest "POST" url (Some (form_body q)) with
  | inl err => inl err
  | inr req => inr (set_Header {[ "Content-Type" := "application/x-www-form-urlencoded" ]} req)
  end.

Definition valid_tokens (a : Account) (now : Time) : bool :=
  (Unix now <? acc_ExpiresAt a) && negb (bool_decide (acc_AccessToken a = "")).

(** What [Refresh] makes of a renewal that was refused. *)
Definition refresh_refused (resp : Response) (s : AS) : (error + unit) * AS :=
  let authErr := best_effort AuthError_fields zero_AuthError (resp_Body resp) in
  if bool_decide (ae_Error authErr = "invalid_grant") || bool_decide (ae_Error authErr = "interaction_required") then
    (inl (EMsg ("the refresh token is no longer valid (" +:+ ae_Error authErr +:+ "): " +:+ ae_ErrorDescription authErr
                +:+ " — re-authentication required with 'account add'")), purgeInvalidRefreshTokenLocked s)
  else
    (inl (EMsg ("microsoft rejected the renewal (HTTP " +:+ pretty (resp_StatusCode resp) +:+ "): "
                +:+ TrimSpace (bytes_string (body_bytes (resp_Body resp))))), s).
(** ... and of new tokens: they are taken, saved, and given up when the file
    cannot be written. *)
Definition refresh_taken (t : Tokens) (s : AS) : (error + unit) * AS :=
  let '(a, e) := s in
  let refresh := if decide (tk_Refresh t = "") then acc_RefreshToken a else tk_Refresh t in
  let a' := set_tokens (tk_Access t) refresh (i64 (Unix (w_now (env_net e)) + tk_ExpiresIn t)) a in
  match saveUnsafe (a', e) with
  | (inl err, (a', e)) =>
      (inl (EWrap "tokens renewed but could not be saved: " err ""),
       (set_tokens (acc_AccessToken a) (acc_RefreshToken a) (acc_ExpiresAt a) a', e))
  | (inr _, s) => (inr tt, s)
  end.
Definition refresh_response (resp : Response) (s : AS) : (error + unit) * AS :=
  match ReadAll (resp_Body resp) with
  | inl err => (inl (EWrap "reading refresh response: " err ""), s)
  | inr _ =>
      if 400 <=? resp_StatusCode resp then refresh_refused resp s else
      match Unmarshal dec_Tokens (mkTokens "" "" 0) (resp_Body resp) with
      | inl err => (inl (EWrap "error parsing renewal response: " err ""), s)
      | inr t =>
          if decide (tk_Access t = "") then (inl (EMsg "no access_token received in renewal"), s)
          else refresh_taken t s
      end
  end.
(** [Refresh]: the errors of an [http.Client] are [*url.Error] values. *)
Definition Refresh : SE AS error unit := λ s,
  let '(a, e) := s in
  if valid_tokens a (w_now (env_net e)) then (inr tt, s) else
  match post_form (TokenURL (acc_Config a)) (refresh_form a) with
  | inl err => (inl (EWrap "creating refresh request: " err ""), s)
  | inr req =>
      match on_world (io_Do httpClient req) e with
      | (inl err, e) =>
          (if IsOffline true err then
             if decide (acc_AccessToken a = "") then inl (EWrap "no connection and no access token in memory: " err "")
             else inr tt
           else inl (EWrap "network failure during renewal: " err ""), (a, e))
      | (inr resp, e) => refresh_response resp (a, e)
      end
  end.

Definition GetAccessToken : SE AS error string :=
  let* _ := Refresh in λ s, (inr (acc_AccessToken s.1), s).
End account.

(** An account is a token provider: its world is a world of the Graph client. *)
#[export] Instance AS_World {K W} `{World W} : World (@AS K W) := {
  raw_do d req s := let '(r, n, w) := raw_do d req (env_net s.2) in
                    ((r, n), (s.1, mkEnv (env_keyring s.2) (env_dir s.2) w));
  time_Sleep t s := (s.1, mkEnv (env_keyring s.2) (env_dir s.2) (time_Sleep t (env_net s.2)));
  go_spawn f s := f s;
}.
Definition account_provider {K W} `{Keyring K} `{World W} `{Clock W} : TokenProvider (@AS K W) := λ _, GetAccessToken.
