(* ===== verification/Login.v ===== *)
(** The login and the accounts of the process (internal/auth/flow.go,
    manager.go): the callback server and the pasted URL that hand over the
    authorization code, its exchange, and the manager that loads, adds and
    removes accounts. What the browser shows is not modelled. *)

From stdpp Require Import sorting.
From S2P Require Export Account.

#[local] Open Scope Z_scope.
#[local] Open Scope go_scope.

(** ** Login sessions *)

(** [sha256.Sum256]. *)
Class SHA256 := sha256_Sum256 : list Z → list Z.

(** [base64.RawURLEncoding]. *)
Definition rawurl_char (a : ascii) : list ascii :=
  if decide (a = "="%char) then [] else
  if decide (a = "+"%char) then ["-"%char] else if decide (a = "/"%char) then ["_"%char] else [a].
Definition base64_RawURL (b : list Z) : string := of_chars (b64_chars b ≫= rawurl_char).

Record authSession := mkAuthSession { state : string; verifier : string; challenge : string }.
(** [randomURLSafe] on what [rand.Read] gave. *)
Definition randomURLSafe (r : error + list Z) : error + string :=
  match r with inl e => inl (EWrap "generating random value: " e "") | inr b => inr (base64_RawURL b) end.
Definition newAuthSession `{SHA256} (r32 r64 : error + list Z) : error + authSession :=
  match randomURLSafe r32 with
  | inl e => inl e
  | inr state =>
      match randomURLSafe r64 with
      | inl e => inl e
      | inr verifier => inr (mkAuthSession state verifier (base64_RawURL (sha256_Sum256 (string_bytes verifier))))
      end
  end.
Definition matchesState (s : authSession) (got : string) : bool := bool_decide (state s = got).

(** What [buildAuthURL] adds to the query of [CodeURL], in key order. *)
Definition auth_query (config : AuthConfig) (s : authSession) : list (string * string) :=
  [("client_id", ClientID config); ("code_challenge", challenge s); ("code_challenge_method", "S256");
   ("redirect_uri", RedirectURL config); ("response_type", "code");
   ("scope", "user.read files.readwrite.all offline_access"); ("state", state s)].
(** [buildAuthURL], for a [CodeURL] without a query of its own. *)
Definition buildAuthURL (config : AuthConfig) (s : authSession) : string :=
  match url_Parse (CodeURL config) with
  | None => ""
  | Some _ => CodeURL config +:+ "?" +:+ Values_Encode (auth_query config s)
  end.

(** ** URLs *)

Definition hex_digit (a : ascii) : Z :=
  if is_digit a then byte_of a - 48 else byte_of (lower_ascii a) - 87.
(** [unescape] of well-formed escapes; [plus]: "+" is a space. *)
Fixpoint unescape (plus : bool) (l : list ascii) : list ascii :=
  match l with
  | "%"%char :: (a :: b :: l) => ascii_of (16 * hex_digit a + hex_digit b) :: unescape plus l
  | "+"%char :: l => (if plus then " "%char else "+"%char) :: unescape plus l
  | a :: l => a :: unescape plus l
  | [] => []
  end.
(** The path and the query text of a URL that parses. *)
Definition url_tail (raw : string) : list ascii * list ascii :=
  let u := match cut_chars "#"%char (chars raw) with Some (u, _) => u | None => chars raw end in
  let rest := match getScheme_from [] u with Some (Some (_, r)) => r | _ => u end in
  let '(rest, query) := match cut_chars "?"%char rest with Some p => p | None => (rest, []) end in
  let path := match rest with
              | "/"%char :: "/"%char :: auth => match cut_chars slash auth with Some (_, p) => slash :: p | None => [] end
              | _ => rest
              end in
  (path, query).
Definition url_Path (raw : string) : string := of_chars (unescape false (url_tail raw).1).
(** [u.Query().Get(key)]: the first pair of that key that unescapes. *)
Definition query_pair (l : list ascii) : option (string * string) :=
  if bool_decide (";"%char ∈ l) || bool_decide (l = []) then None else
  let '(k, v) := match cut_chars "="%char l with Some p => p | None => (l, []) end in
  if escapes_ok k && escapes_ok v then Some (of_chars (unescape true k), of_chars (unescape true v)) else None.
Definition query_Get (raw key : string) : string :=
  default "" (snd ∘ snd <$> list_find (λ kv, kv.1 = key) (omap query_pair (split_chars "&"%char (url_tail raw).2))).

(** [u.Hostname()]: without the port and the brackets. *)
Definition Hostname (host : string) : string :=
  match chars host with
  | "["%char :: l => match rcut_chars "]"%char l with Some (h, _) => of_chars h | None => host end
  | l => match rcut_chars ":"%char l with
         | Some (h, port) => if forallb is_digit port then of_chars h else host
         | None => host
         end
  end.

(** [net.ParseIP]: the 4 or 16 bytes of an address. *)
Definition ip_octet (l : list ascii) : option Z :=
  match l with
  | [] => None
  | "0"%char :: _ :: _ => None
  | _ => digits_val 0 l ≫= λ n, if (length l <=? 3)%nat && (n <=? 255) then Some n else None
  end.
Definition parseIPv4 (l : list ascii) : option (list Z) :=
  mapM ip_octet (split_chars "."%char l) ≫= λ b, if (length b =? 4)%nat then Some b else None.
Definition ip_group (l : list ascii) : option (list Z) :=
  if bool_decide (l = []) || negb (length l <=? 4)%nat || negb (forallb is_hex l) then None
  else let n := foldl (λ n a, 16 * n + hex_digit a) 0 l in Some [n / 256; n mod 256].
(** Groups separated by colons, the last of which may be an IPv4 address. *)
Fixpoint ip_groups (ls : list (list ascii)) : option (list Z) :=
  match ls with
  | [] => Some []
  | [l] => match parseIPv4 l with Some b => Some b | None => ip_group l end
  | l :: ls => g ← ip_group l; gs ← ip_groups ls; Some (g ++ gs)
  end.
(** Cut at the first "::". *)
Fixpoint cut_colons (l : list ascii) : option (list ascii * list ascii) :=
  match l with
  | ":"%char :: ":"%char :: l => Some ([], l)
  | a :: l => (λ p, (a :: p.1, p.2)) <$> cut_colons l
  | [] => None
  end.
Definition ip_part (l : list ascii) : option (list Z) := if decide (l = []) then Some [] else ip_groups (split_chars ":"%char l).
Definition parseIPv6 (l : list ascii) : option (list Z) :=
  match cut_colons l with
  | None => ip_part l ≫= λ b, if (length b =? 16)%nat then Some b else None
  | Some (pre, post) =>
      a ← (if decide (pre = []) then Some [] else mapM ip_group (split_chars ":"%char pre) ≫= λ gs, Some (concat gs));
      b ← ip_part post;
      if (length a + length b <=? 14)%nat then Some (a ++ replicate (16 - length a - length b) 0 ++ b) else None
  end.
Definition ParseIP (s : string) : option (list Z) :=
  if bool_decide (":"%char ∈ chars s) then parseIPv6 (chars s) else parseIPv4 (chars s).
Definition IsLoopback (ip : list Z) : bool :=
  match ip with
  | [a; _; _; _] => a =? 127
  | _ => bool_decide (ip = replicate 15 0 ++ [1])
         || (bool_decide (take 12 ip = replicate 10 0 ++ [255; 255]) && (ip !!! 12%nat =? 127))
  end.
Definition requireLoopbackRedirect (host : string) : option error :=
  let host := Hostname host in
  if decide (host = "localhost") then None else
  match ParseIP host with
  | Some ip => if IsLoopback ip then None else Some (EMsg ("redirect_uri host " +:+ Quote host +:+ " is not a loopback address"))
  | None => Some (EMsg ("redirect_uri host " +:+ Quote host +:+ " is not a loopback address"))
  end.

(** ** The authorization code *)

(** A request to the callback server: its three query parameters. *)
Record Callback := mkCallback { cb_state : string; cb_code : string; cb_error_description : string }.
(** What the handler sends on its channels, if anything. *)
Definition callback_handler (s : authSession) (r : Callback) : option (error + string) :=
  if negb (matchesState s (cb_state r)) then None
  else if negb (bool_decide (cb_error_description r = "")) then
    Some (inl (EMsg ("microsoft returned error: " +:+ cb_error_description r)))
  else if decide (cb_code r = "") then Some (inl (EMsg "authorization code not received in callback"))
  else Some (inr (cb_code r)).

(** What happens until the [select] fires: requests, or the end of the server. *)
Inductive ServerEvent := Requested (r : Callback) | ServeFailed (e : error).
Definition server_outcome (s : authSession) (ev : ServerEvent) : option (error + string) :=
  match ev with
  | Requested r => callback_handler s r
  | ServeFailed e => Some (inl (EWrap "local callback server failed: " e ""))
  end.
Definition is_code (o : error + string) : option string := match o with inr c => Some c | inl _ => None end.
Definition is_error (o : error + string) : option error := match o with inl e => Some e | inr _ => None end.
(** The [select]; [codeFirst] is its choice when both channels are ready. *)
Definition select_code (codeFirst : bool) (outs : list (error + string)) : error + string :=
  match head (omap is_code outs), head (omap is_error outs) with
  | Some c, Some e => if codeFirst then inr c else inl e
  | Some c, None => inr c
  | None, Some e => inl e
  | None, None => inl (EMsg "timeout waiting for authorization (2 minutes)")
  end.
Definition getAuthCodeLocalServer (config : AuthConfig) (s : authSession) (listen : option error)
    (events : list ServerEvent) (codeFirst : bool) : error + string :=
  match url_Parse (RedirectURL config) with
  | None => inl (EWrap "invalid redirect_uri: " (ErrURLParse (RedirectURL config)) "")
  | Some u =>
      let host := if decide (url_Host u = "") then "localhost:9090" else url_Host u in
      match requireLoopbackRedirect host, listen with
      | Some e, _ => inl e
      | None, Some e => inl (EWrap ("could not start local server on " +:+ host +:+ ": ") e "")
      | None, None => select_code codeFirst (omap (server_outcome s) events)
      end
  end.

(** [validatePastedRedirect], on the two texts. *)
Definition TrimSuffix_slash (s : string) : string :=
  match reverse (chars s) with "/"%char :: l => of_chars (reverse l) | _ => s end.
Definition validatePastedRedirect (pasted : string) (u : URL) (redirectURL : string) : option error :=
  match url_Parse redirectURL with
  | None => Some (EWrap "invalid redirect_uri: " (ErrURLParse redirectURL) "")
  | Some expected =>
      if negb (EqualFold (url_Scheme u) (url_Scheme expected)) || negb (EqualFold (url_Host u) (url_Host expected))
         || negb (bool_decide (TrimSuffix_slash (url_Path pasted) = TrimSuffix_slash (url_Path redirectURL)))
      then Some (EMsg ("pasted URL does not match the expected redirect " +:+ redirectURL)) else None
  end.
(** [getAuthCodeHeadless] on the line read, if any. *)
Definition getAuthCodeHeadless (config : AuthConfig) (s : authSession) (input : option string) : error + string :=
  match input with
  | None => inl (EMsg "error reading input")
  | Some line =>
      let response := TrimSpace line in
      match url_Parse response with
      | None => inl (EWrap "invalid URL: " (ErrURLParse response) "")
      | Some u =>
          match validatePastedRedirect response u (RedirectURL config) with
          | Some e => inl e
          | None =>
              if negb (matchesState s (query_Get response "state")) then
                inl (EMsg "'state' parameter does not match this login attempt; paste the URL from the browser window opened by this command")
              else
                let code := query_Get response "code" in
                if decide (code = "") then inl (EMsg "'code' parameter not found in URL. Did you copy the correct URL?")
                else inr code
          end
      end
  end.

(** ** The exchange of the code *)

Definition exchange_form (config : AuthConfig) (code codeVerifier : string) : list (string * string) :=
  [("client_id", ClientID config); ("code", code)]
  ++ (if decide (codeVerifier = "") then [] else [("code_verifier", codeVerifier)])
  ++ [("grant_type", "authorization_code"); ("redirect_uri", RedirectURL config)].
(** The text of the refusal; [None]: the body is not a JSON object of that shape. *)
Definition dec_errDescription : decoder string :=
  dec_struct [("error_description", dec_field id (λ v _, v) dec_string)].
Definition cut_body (s : string) : string := if 200 <? Slen s then of_chars (take 200 (chars s)) +:+ "..." else s.

Section login.
Context {K W : Type} `{Keyring K} `{World W} `{Clock W} `{Mergo} `{SHA256}.
Abbreviation E := (Env K W).

Definition exchange_response (resp : Response) : error + Tokens :=
  match ReadAll (resp_Body resp) with
  | inl e => inl (EWrap "error reading response: " e "")
  | inr body =>
      if negb (resp_StatusCode resp =? 200) then
        match Unmarshal dec_errDescription "" (resp_Body resp) with
        | inl _ => inl (EMsg ("microsoft rejected the code (HTTP " +:+ pretty (resp_StatusCode resp)
                              +:+ "), non-JSON response: " +:+ cut_body (TrimSpace (bytes_string body))))
        | inr d => inl (EMsg ("microsoft rejected the code (HTTP " +:+ pretty (resp_StatusCode resp) +:+ "): " +:+ d))
        end
      else
        match Unmarshal dec_Tokens (mkTokens "" "" 0) (resp_Body resp) with
        | inl e => inl (EWrap "error parsing tokens: " e "")
        | inr t => if bool_decide (tk_Access t = "") || bool_decide (tk_Refresh t = "")
                   then inl (EMsg "response does not contain the expected tokens") else inr t
        end
  end.
Definition exchangeCodeForTokens (config : AuthConfig) (code codeVerifier : string) : SE W error Tokens := λ w,
  match post_form (TokenURL config) (exchange_form config code codeVerifier) with
  | inl e => (inl (EWrap "error creating token request: " e ""), w)
  | inr req =>
      match io_Do httpClient req w with
      | (inl e, w) => (inl (EWrap "network error obtaining tokens: " e ""), w)
      | (inr resp, w) => (exchange_response resp, w)
      end
  end.

(** ** The manager *)

(** [sanitizeFileName]: by rune, an invalid byte counting as one. *)
Definition allowed (a : ascii) : bool := is_letter a || is_digit a || bool_decide (a = "_"%char) || bool_decide (a = "-"%char).
Definition sanitize_char (a : ascii) : list ascii :=
  if in_range a 128 191 then [] else if allowed a then [a] else ["_"%char].
Definition sanitizeFileName (name : string) : string :=
  of_chars (chars (utf8_coerce (ReplaceAll (ReplaceAll name "."%char "_") "@"%char "_")) ≫= sanitize_char).
Definition getAccountFilePath (accountName : string) : string := sanitizeFileName accountName +:+ ".json".

(** The order in which a [range] over a map goes through the keys: Go picks one at
    random each time. *)
Class MapRange := map_range : list string → list string.
Definition range_any (r : MapRange) : Prop := ∀ l, r l ≡ₚ l.

(** [Manager]: its accounts by name, and the world. *)
Record Manager := mkManager { m_accounts : gmap string Account; m_keyring : bool }.
Definition MS : Type := Manager * E.
Definition set_accounts (f : gmap string Account → gmap string Account) (m : Manager) : Manager :=
  mkManager (f (m_accounts m)) (m_keyring m).

(** The system calls of [loadAccounts]. *)
Definition os_ReadDir (d : ConfigDir) : (error + list (string * bool)) * ConfigDir :=
  let '(f, d) := next_fault d in
  match f with
  | Some (e, _) => (inl e, d)
  | None => (inr ((λ n, (n, match cd_entries d !! n with Some SubDir => true | _ => false end)) <$> merge_sort string_le (elements (dom (cd_entries d)))), d)
  end.
Definition os_ReadFile (name : string) (d : ConfigDir) : (error + option json) * ConfigDir :=
  let '(f, d) := next_fault d in
  match f, cd_entries d !! name with
  | Some (e, _), _ => (inl e, d)
  | None, None => (inl (EErrno ENOENT), d)
  | None, Some SubDir => (inl (EErrno EISDIR), d)
  | None, Some (JsonFile doc) => (inr doc, d)
  end.
Definition os_Remove (name : string) (d : ConfigDir) : (error + unit) * ConfigDir :=
  let '(f, d) := next_fault d in
  match f, cd_entries d !! name with
  | Some (e, _), _ => (inl e, d)
  | None, None => (inl (EErrno ENOENT), d)
  | None, Some _ => (inr tt, mkConfigDir (delete name (cd_entries d)) (cd_faults d))
  end.

(** [keyring.Get], a failure leaving the token empty. *)
Definition keyring_token (key : string) (k : K) : string :=
  match keyring_Get keyringService key k with inr t => t | inl _ => "" end.
Definition load_one (entry : string * bool) (s : MS) : MS :=
  let '(m, e) := s in
  if entry.2 || negb (HasSuffix entry.1 ".json") then s else
  match on_dir (os_ReadFile entry.1) e with
  | (inl _, e) => (m, e)
  | (inr doc, e) =>
      match doc ≫= λ j, dec_accountJSON j zero_accountJSON with
      | None => (m, e)
      | Some j =>
          let config := (ApplyDefaults (aj_Config j)).2 in
          let keys := keyringKeys (aj_Name j) in
          let a := mkAccount (m_keyring m) (aj_Name j) config (aj_Mount j) (aj_ExpiresAt j)
                     (keyring_token keys.2 (env_keyring e)) (keyring_token keys.1 (env_keyring e)) entry.1 None in
          (set_accounts (<[aj_Name j := a]>) m, e)
      end
  end.
Definition loadAccounts : SE MS error unit := λ '(m, e),
  match on_dir os_ReadDir e with
  | (inl err, e) => (inl err, (m, e))
  | (inr files, e) => (inr tt, foldl (λ s f, load_one f s) (m, e) files)
  end.
Definition NewManagerWithDeps (e : E) : (error + unit) * MS := loadAccounts (mkManager ∅ true, e).

Definition GetAccount (name : string) (m : Manager) : error + Account :=
  match m_accounts m !! name with
  | None => inl (EMsg ("account '" +:+ name +:+ "' is not configured. Use 'onecloudriver account add'"))
  | Some a => inr a
  end.
Definition ListAccounts `{MapRange} (m : Manager) : list string := map_range (map_to_list (m_accounts m)).*1.
Definition ResolveMainAccountName `{MapRange} (m : Manager) : error + string :=
  match ListAccounts m with
  | [] => inl (EMsg "no accounts configured. Use 'onecloudriver account add' to add one")
  | [name] => inr name
  | names => inl (EMsg ("there are " +:+ pretty (Z.of_nat (length names))
                        +:+ " configured accounts. Specify which one to use with --account:" +:+ of_chars ["010"%char]
                        +:+ Join names "010"%char))
  end.
Definition RemoveAccount (name : string) : SE MS error unit := λ '(m, e),
  match m_accounts m !! name with
  | None => (inl (EMsg "account not found"), (m, e))
  | Some a =>
      let keys := keyringKeys name in
      let e := (on_keyring (keyring_Delete keyringService keys.1) e).2 in
      let e := (on_keyring (keyring_Delete keyringService keys.2) e).2 in
      match on_dir (os_Remove (acc_tokenFile a)) e with
      | (inl err, e) => if bool_decide (err = EErrno ENOENT) then (inr tt, (set_accounts (delete name) m, e))
                        else (inl (EWrap "error deleting file: " err ""), (m, e))
      | (inr _, e) => (inr tt, (set_accounts (delete name) m, e))
      end
  end.

(** ** Adding an account *)

(** What the user, the browser and the machine do during a login. *)
Record LoginInput := mkLoginInput {
  li_state : error + list Z; li_verifier : error + list Z;
  li_listen : option error; li_events : list ServerEvent; li_codeFirst : bool; li_line : option string }.

(** The code, from the local server or else from the pasted URL. *)
Definition login_code (config : AuthConfig) (s : authSession) (li : LoginInput) : error + string :=
  match getAuthCodeLocalServer config s (li_listen li) (li_events li) (li_codeFirst li) with
  | inr code => inr code
  | inl _ => getAuthCodeHeadless config s (li_line li)
  end.
Definition staticTokenProvider (token : string) : TokenProvider W := λ _ w, (inr token, w).

(** The account is registered once it is saved. *)
Definition register (name : string) (config : AuthConfig) (t : Tokens) : SE MS error Account := λ '(m, e),
  let a := mkAccount (m_keyring m) name config zero_Persisted (i64 (Unix (w_now (env_net e)) + tk_ExpiresIn t))
             (tk_Access t) (tk_Refresh t) (getAccountFilePath name) None in
  match saveUnsafe (a, e) with
  | (inl err, (_, e)) => (inl (EWrap "failed saving the new account: " err ""), (m, e))
  | (inr _, (a, e)) => (inr a, (set_accounts (<[acc_Name a := a]>) m, e))
  end.
Definition AddAccount (graphClientFactory : Client) (ctx : Ctx W) (config : AuthConfig) (li : LoginInput) : SE MS error Account := λ '(m, e),
  match ApplyDefaults config with
  | (Some err, _) => (inl (EWrap "Error applying default values: " err ""), (m, e))
  | (None, config) =>
      match newAuthSession (li_state li) (li_verifier li) with
      | inl err => (inl (EWrap "failed preparing the authentication session: " err ""), (m, e))
      | inr session =>
          match login_code config session li with
          | inl err => (inl (EWrap "failed obtaining code: " err ""), (m, e))
          | inr code =>
              match on_world (exchangeCodeForTokens config code (verifier session)) e with
              | (inl err, e) => (inl (EWrap "failed exchanging code: " err ""), (m, e))
              | (inr t, e) =>
                  match on_world (GetUser graphClientFactory ctx (staticTokenProvider (tk_Access t))) e with
                  | (inl err, e) => (inl (EWrap "failed obtaining user profile from Graph: " err ""), (m, e))
                  | (inr user, e) => register (user_UserPrincipalName user) config t (m, e)
                  end
              end
          end
      end
  end.
End login.
