(* ===== verification/Mount.v ===== *)
(** Mounting a drive (internal/fs/mount.go and cmd/onecloudriver/mount.go): the
    configuration and where it comes from, the check of the account, the
    services a mount starts and the order in which it stops them, and the
    pre-warming of the metadata cache. *)

From S2P Require Export FsOps DeltaSync Account.

#[local] Open Scope Z_scope.

(** ** The configuration *)

Record MountConfig := mkMountConfig {
  CacheDir : string;
  CacheTTL : Duration;
  CacheMaxEntries : Z;
  CacheMaxSize : Z;
  DeltaInterval : Duration;
  MaxUploadsInFlight : Z;
  MaxUploadRetries : Z;
  GraphRetries : Z;
  HTTPTimeout : Duration;
  PreWarmDepth : Z;
  DebugAddr : string;
  ControlSocket : string;
}.

(** A persisted value, when it is set. *)
Definition persisted_pos (v default : Z) : Z := if 0 <? v then v else default.
Definition persisted_str (v default : string) : string := if decide (v = "") then default else v.

Definition default_config (home accountName : string) : MountConfig :=
  let cacheBase := filepath_Join (filepath_Join home ".cache") "onecloudriver" in
  mkMountConfig (filepath_Join cacheBase accountName) (60 * Second) 2000 0 (5 * Minute) 5 5 3 (15 * Second) 2 "" "".

(** [DefaultMountConfig]; [home] is the variable HOME. *)
Definition DefaultMountConfig (home accountName : string) (persisted : option AccountPersistedConfig) : MountConfig :=
  let cfg := default_config home accountName in
  let cfg :=
    match persisted with
    | None => cfg
    | Some p =>
        mkMountConfig (persisted_str (pc_CacheDir p) (CacheDir cfg)) (persisted_pos (pc_CacheTTL p) (CacheTTL cfg))
          (persisted_pos (pc_CacheMaxEntries p) (CacheMaxEntries cfg)) (persisted_pos (pc_CacheMaxSize p) (CacheMaxSize cfg))
          (persisted_pos (pc_DeltaInterval p) (DeltaInterval cfg))
          (persisted_pos (pc_MaxUploadsInFlight p) (MaxUploadsInFlight cfg))
          (persisted_pos (pc_MaxUploadRetries p) (MaxUploadRetries cfg)) (persisted_pos (pc_GraphRetries p) (GraphRetries cfg))
          (persisted_pos (pc_HTTPTimeout p) (HTTPTimeout cfg)) (default (PreWarmDepth cfg) (pc_PreWarmDepth p))
          (DebugAddr cfg) (ControlSocket cfg)
    end in
  mkMountConfig (CacheDir cfg) (CacheTTL cfg) (CacheMaxEntries cfg) (CacheMaxSize cfg) (DeltaInterval cfg)
    (MaxUploadsInFlight cfg) (MaxUploadRetries cfg) (GraphRetries cfg) (HTTPTimeout cfg) (PreWarmDepth cfg) (DebugAddr cfg)
    (filepath_Join (CacheDir cfg) "control.sock").

(** *** The flags of the mount command *)

(** The values of the flags ([f_PreWarmDepth]: when it was given). *)
Record MountFlags := mkMountFlags {
  f_CacheDir : string; f_CacheTTL : Duration; f_CacheMaxEntries : Z; f_CacheMaxSize : string;
  f_DeltaInterval : Duration; f_MaxUploads : Z; f_UploadRetries : Z; f_GraphRetries : Z; f_HTTPTimeout : Duration;
  f_ControlSocket : string; f_PreWarmDepth : option Z; f_Debug : bool; f_DebugAddr : string }.
(** The flags of a command line without any. *)
Definition no_flags : MountFlags := mkMountFlags "" 0 0 "0" 0 0 0 0 0 "" None false "127.0.0.1:6060".

(** [humanize.ParseBytes]: an unsigned 64-bit size. *)
Class Humanize := ParseBytes : string → error + Z.

Section flags.
Context `{Humanize}.

(** [applyPreWarmDepthFlag]. *)
Definition applyPreWarmDepthFlag (depth : option Z) (cfg : Z) : error + Z :=
  match depth with
  | None => inr cfg
  | Some d => if (d <? 0) || (10 <? d)
              then inl (EMsg ("--pre-warm-depth must be in range [0, 10], got " +:+ pretty d)) else inr d
  end.

(** The configuration of [mountCmd]: the flags override the account's. *)
Definition mount_config (flags : MountFlags) (config : MountConfig) : error + MountConfig :=
  let cacheDir := persisted_str (f_CacheDir flags) (CacheDir config) in
  let maxSize :=
    if bool_decide (f_CacheMaxSize flags = "") || bool_decide (f_CacheMaxSize flags = "0") then inr (CacheMaxSize config)
    else match ParseBytes (f_CacheMaxSize flags) with
         | inl e => inl (EWrap "invalid value for --cache-max-size: " e "")
         | inr n => inr (i64 n)
         end in
  match maxSize with
  | inl e => inl e
  | inr maxSize =>
      let socket := if decide (f_ControlSocket flags = "") then filepath_Join cacheDir "control.sock"
                    else if decide (f_ControlSocket flags = "off") then "" else f_ControlSocket flags in
      match applyPreWarmDepthFlag (f_PreWarmDepth flags) (PreWarmDepth config) with
      | inl e => inl e
      | inr depth =>
          inr (mkMountConfig cacheDir (persisted_pos (f_CacheTTL flags) (CacheTTL config))
                 (persisted_pos (f_CacheMaxEntries flags) (CacheMaxEntries config)) maxSize
                 (persisted_pos (f_DeltaInterval flags) (DeltaInterval config))
                 (persisted_pos (f_MaxUploads flags) (MaxUploadsInFlight config))
                 (persisted_pos (f_UploadRetries flags) (MaxUploadRetries config))
                 (persisted_pos (f_GraphRetries flags) (GraphRetries config))
                 (persisted_pos (f_HTTPTimeout flags) (HTTPTimeout config)) depth
                 (if f_Debug flags then f_DebugAddr flags else "") socket)
      end
  end.
End flags.

(** [buildPersistedMountConfig]. *)
Definition buildPersistedMountConfig (persisted : AccountPersistedConfig) (mountPoint : string) (config : MountConfig)
    (cacheDirFromFlag : string) : AccountPersistedConfig :=
  mkPersisted mountPoint (if decide (cacheDirFromFlag = "") then CacheDir config else pc_CacheDir persisted)
    (CacheTTL config) (CacheMaxEntries config) (CacheMaxSize config) (DeltaInterval config) (MaxUploadsInFlight config)
    (MaxUploadRetries config) (HTTPTimeout config) (GraphRetries config) (Some (PreWarmDepth config)).

(** The mount point of [mountCmd]: the argument, the saved one, or a default. *)
Definition mount_point (args : list string) (a : Account) : string :=
  match args with
  | p :: _ => p
  | [] => persisted_str (pc_DefaultMountpoint (acc_Mount a)) ("./" +:+ acc_Name a)
  end.

(** ** Pre-warming *)

Section prewarm.
Context {W : Type} `{Clock W}.

(** The loop of [preWarm]: a breadth-first walk of at most [fuel] turns.
    [range n m] is the order in which the [n]-th turn ranges over a listing
    [m]; [visited] lists the keys of the map, the last one first. *)
Fixpoint preWarm_loop (fuel : nat) (ctx : Ctx W) (fetcher : ChildrenFetcher W) (range : nat → gmap string N → list N)
    (depth : Z) (queue : list (string * Z)) (visited : list string) (s : W * InodeCache) :
    option (option error * list string * (W * InodeCache)) :=
  match fuel with
  | O => None
  | S fuel =>
      match queue with
      | [] => Some (None, visited, s)
      | (id, level) :: queue =>
          match ctx s.1 with
          | Some err => Some (Some err, visited, s)
          | None =>
              if bool_decide (id ∈ visited) then preWarm_loop fuel ctx fetcher range depth queue visited s
              else
                let visited := id :: visited in
                match PrefetchChildren id (Some fetcher) s with
                | (inl _, s) => preWarm_loop fuel ctx fetcher range depth queue visited s
                | (inr children, s) =>
                    let subfolders :=
                      if level <? depth then
                        omap (λ l, if IsDir (deref s.2 l) then Some (ID (deref s.2 l), level + 1) else None)
                          (range (length visited) children)
                      else [] in
                    preWarm_loop fuel ctx fetcher range depth (queue ++ subfolders) visited s
                end
          end
      end
  end.

(** [preWarm]; the visited folders are reported with the error. *)
Definition preWarm (fuel : nat) (ctx : Ctx W) (fetcher : ChildrenFetcher W) (range : nat → gmap string N → list N)
    (depth : Z) (s : W * InodeCache) : option (option error * list string * (W * InodeCache)) :=
  if depth =? 0 then Some (None, [], s)
  else if (depth <? 0) || (10 <? depth)
  then Some (Some (EMsg ("preWarm depth out of range [0..10]: " +:+ pretty depth)), [], s)
  else preWarm_loop fuel ctx fetcher range depth [("root", 1)] [] s.

(** [context.WithTimeout(context.Background(), d)] made at the instant [t0]. *)
Definition timeout_ctx (t0 : Time) (d : Duration) : Ctx W := λ w,
  if time_Sub (w_now w) t0 <? d then None else Some context_DeadlineExceeded.

(** The goroutine of [Mount]. *)
Definition preWarm_fetcher `{GraphAPI W} (ctx : Ctx W) : ChildrenFetcher W := λ parentID '(w, c),
  let '(r, w) := fetchChildrenFromGraph ctx parentID w in (r, (w, c)).
Definition preWarm_goroutine `{GraphAPI W} (fuel : nat) (range : nat → gmap string N → list N) (config : MountConfig)
    (s : W * InodeCache) : option (W * InodeCache) :=
  if 0 <? PreWarmDepth config then
    let ctx := timeout_ctx (w_now s.1) (30 * Second) in
    snd <$> preWarm fuel ctx (preWarm_fetcher ctx) range (PreWarmDepth config) s
  else Some s.
End prewarm.

(** ** Starting and stopping *)

(** The client of a mount. *)
Definition mount_client (config : MountConfig) : Client :=
  let c := NewClient (if 0 <? HTTPTimeout config then [WithTimeout (HTTPTimeout config)] else []) in
  if 0 <? GraphRetries config then WithHTTPClient (NewRetryDoer (HTTPClient c) (GraphRetries config)) c else c.

#[export] Instance AS_Clock {K W} `{Clock W} : Clock (@AS K W) := λ s, w_now (env_net s.2).

Section account.
Context {K W : Type} `{Keyring K} `{World W} `{Clock W}.
Abbreviation AS := (@AS K W).

(** [printer.Clipboard] on a standard output that is no terminal. *)
Definition Clipboard : string := "[i]".

(** [healthCheck]: an account that cannot be reached may be mounted offline. *)
Definition rejected (name : string) (err : error) : error :=
  EWrap "token verification against Microsoft Graph failed: " err
    (nl +:+ nl +:+ Clipboard +:+ " Diagnosis: the access token for '" +:+ name +:+ "' is invalid." +:+ nl
     +:+ "   Common causes:" +:+ nl
     +:+ "   • The session expired and the refresh token was revoked" +:+ nl
     +:+ "   • The account was deleted or the password changed" +:+ nl
     +:+ "   • The application was revoked in the Azure portal" +:+ nl +:+ nl
     +:+ "   Solution: re-authenticate with:" +:+ nl
     +:+ "     onecloudriver account remove " +:+ name +:+ nl
     +:+ "     onecloudriver account add" +:+ nl).
Definition healthCheck (ctx : Ctx AS) (graphClient : Client) : SE AS error unit := λ s,
  match GetAccessToken s with
  | (inl err, s) =>
      (if fs_isNetworkError err then inr tt else inl (EWrap "could not obtain access token: " err ""), s)
  | (inr _, s) =>
      match GetItem graphClient ctx account_provider (Some (ItemID "root")) s with
      | (inl err, s) => (if fs_isNetworkError err then inr tt else inl (rejected (acc_Name s.1) err), s)
      | (inr _, s) => (inr tt, s)
      end
  end.
End account.

Section services.
Context {D W : Type} `{Bolt D} `{Clock W} `{TimeText} `{JsonLen}.
Abbreviation St := (Sys D W).
Abbreviation DS := (DeltaSync St).

(** The caches and the services of [Mount], on the disk and the world; [opened]
    is what opening the database gives. *)
Definition content_dir (config : MountConfig) : string := filepath_Join (CacheDir config) "content".
Definition bolt_path (config : MountConfig) : string := filepath_Join (CacheDir config) "inodes.db".
Definition no_uploads : UploadManager := mkUM [] [] ∅ 0 0 0 0 0.
Definition mount_services (config : MountConfig) (opened : (error * bool) + D) : SE (Disk * W) error (DS * St) := λ '(d, w),
  match ContentCache.NewContentCache (content_dir config) d with
  | (inl e, d) => (inl (EWrap "error creating ContentCache: " e ""), (d, w))
  | (inr content, d) =>
      let inodes := SetMaxEntries (CacheMaxEntries config) (SetBaseTTL (CacheTTL config) NewInodeCache) in
      let content := ContentCache.SetMaxSize (CacheMaxSize config) content in
      let '(db, inodes) :=
        match InitBoltDB (w_now w) (bolt_path config) opened inodes with inl _ => (None, inodes) | inr r => r end in
      let s := NewUploadManager (MaxUploadsInFlight config) (MaxUploadRetries config)
                 (mkSys no_uploads ∅ 0 db inodes content w) in
      (inr (SetUploadQuery (Some HasPendingUpload) NewDeltaSync, s), (d, w))
  end.

(** The interval of the delta loop. *)
Definition delta_interval (config : MountConfig) : Duration :=
  if DeltaInterval config <=? 0 then 5 * Minute else DeltaInterval config.

(** The signal handler, once the services have stopped: the dirty inodes, the
    whole tree, the open contents, the database. Also gives the file of the
    database as it is left; [close_err] is the error of closing it. *)
Definition unmount (close_err : option error) (s : St) : option D * St :=
  let s := on_db (λ dc, (SerializeDirty dc).2) s in
  let s := on_db (λ dc, (SerializeAll dc).2) s in
  let s := set_content (ContentCache.CloseAll (s_content s)) s in
  ((SerializeAll (s_db s, s_inodes s)).2.1, on_db (λ dc, (CachePersist.Close close_err dc).2) s).
End services.

(** [Mount] up to its wait for the end: the mount point, the check of the
    account, the services, the FUSE server ([fuse] is its error). A success
    gives the services and the state they share, which holds the disk and the
    world from then on. *)
Section mount.
Context {D K W : Type} `{Bolt D} `{Keyring K} `{World W} `{Clock W} `{TimeText} `{JsonLen}.
Abbreviation AS := (@AS K W).
Abbreviation St := (Sys D AS).

Definition check_mountpoint (mountpoint : string) : SE Disk error unit := λ d,
  match os_Stat mountpoint d with
  | (inl _, d) => (inl (EMsg ("mount point '" +:+ mountpoint +:+ "' does not exist")), d)
  | (inr info, d) =>
      (if fi_IsDir info then inr tt else inl (EMsg ("mount point '" +:+ mountpoint +:+ "' is not a directory")), d)
  end.
Definition Mount (mountpoint : string) (config : MountConfig) (opened : (error * bool) + D) (fuse : option error) :
    SE (Disk * AS) error (DeltaSync St * St) := λ '(d, w),
  match check_mountpoint mountpoint d with
  | (inl e, d) => (inl e, (d, w))
  | (inr _, d) =>
      match healthCheck Background (mount_client config) w with
      | (inl e, w) => (inl e, (d, w))
      | (inr _, w) =>
          match mount_services config opened (d, w) with
          | (inl e, dw) => (inl e, dw)
          | (inr ds, dw) =>
              match fuse with
              | Some e => (inl (EWrap "error mounting FUSE: " e ""), dw)
              | None => (inr ds, dw)
              end
          end
      end
  end.
End mount.
