(* ===== verification/AuthTheorems.v ===== *)
(** The properties of the accounts: what a renewal leaves behind, which
    authorization codes a login accepts, and what a restart finds. *)

From stdpp Require Import sorting.
From S2P Require Export Login.

#[local] Open Scope Z_scope.
#[local] Open Scope go_scope.

(** ** What the keyring and the merge promise *)

Class KeyringLaws (K : Type) `{Keyring K} := {
  keyring_set svc u p k : ∃ k', keyring_Set svc u p k = (inr tt, k') ∧ keyring_Get svc u k' = inr p ∧
    ∀ u', u' ≠ u → keyring_Get svc u' k' = keyring_Get svc u' k;
  keyring_delete svc u k t : keyring_Get svc u k = inr t →
    ∃ k' e, keyring_Delete svc u k = (inr tt, k') ∧ keyring_Get svc u k' = inl e ∧
      ∀ u', u' ≠ u → keyring_Get svc u' k' = keyring_Get svc u' k;
  keyring_delete_none svc u k e : keyring_Get svc u k = inl e →
    ∃ r k', keyring_Delete svc u k = (r, k') ∧ ∀ u', keyring_Get svc u' k' = keyring_Get svc u' k;
}.
Definition fill (x y : string) : string := if decide (x = "") then y else x.
Class MergoLaws `{Mergo} := mergo_fills c d :
  mergo_Merge c d = (None, mkAuthConfig (fill (ClientID c) (ClientID d)) (fill (CodeURL c) (CodeURL d))
                             (fill (TokenURL c) (TokenURL d)) (fill (RedirectURL c) (RedirectURL d))).

Lemma ApplyDefaults_again `{MergoLaws} c c' : ApplyDefaults c = (None, c') → ApplyDefaults c' = (None, c').
Proof.
  unfold ApplyDefaults. rewrite !mergo_fills. intros [= <-]. cbn [ClientID CodeURL TokenURL RedirectURL]. f_equal.
  unfold fill. f_equal; by repeat case_decide.
Qed.

(** ** The renewal of the tokens *)

Section renewal.
Context {K W : Type} `{Keyring K} `{World W} `{Clock W}.

(** The file of the account holds it. *)
Definition on_file (a : Account) (e : Env K W) : Prop :=
  cd_entries (env_dir e) !! acc_tokenFile a = Some (JsonFile (Some (enc_accountJSON (toJSON a)))).
Definition same_tokens (a a' : Account) : Prop :=
  acc_AccessToken a' = acc_AccessToken a ∧ acc_RefreshToken a' = acc_RefreshToken a ∧ acc_ExpiresAt a' = acc_ExpiresAt a.
Definition same_identity (a a' : Account) : Prop :=
  acc_Name a' = acc_Name a ∧ acc_Config a' = acc_Config a ∧ acc_Mount a' = acc_Mount a ∧
  acc_tokenFile a' = acc_tokenFile a ∧ acc_keyring a' = acc_keyring a.
(** [a'] has the tokens the endpoint gave for the refresh token of [a]. *)
Definition renewed (a a' : Account) (e : Env K W) : Prop :=
  ∃ req resp w t, post_form (TokenURL (acc_Config a)) (refresh_form a) = inr req ∧
    io_Do httpClient req (env_net e) = (inr resp, w) ∧ resp_StatusCode resp < 400 ∧
    Unmarshal dec_Tokens (mkTokens "" "" 0) (resp_Body resp) = inr t ∧
    acc_AccessToken a' = tk_Access t ∧ acc_RefreshToken a' = fill (tk_Refresh t) (acc_RefreshToken a) ∧
    acc_ExpiresAt a' = i64 (Unix (w_now w) + tk_ExpiresIn t).

(** The endpoint granted the tokens [t] for the refresh token of [a]. *)
Definition granted (a : Account) (e : Env K W) (t : Tokens) : Prop :=
  ∃ req resp w, post_form (TokenURL (acc_Config a)) (refresh_form a) = inr req ∧
    io_Do httpClient req (env_net e) = (inr resp, w) ∧ resp_StatusCode resp < 400 ∧
    Unmarshal dec_Tokens (mkTokens "" "" 0) (resp_Body resp) = inr t.
(** The keyring [k] after the two tokens of the account were put into it; an empty
    one is not, and a keyring that refuses one is left as it makes itself. *)
Definition put_token (key v : string) (k : K) : K :=
  if decide (v = "") then k else (keyring_Set keyringService key v k).2.
Definition keyring_with (a : Account) (refresh access : string) (k : K) : K :=
  if acc_keyring a then put_token (keyringKeys (acc_Name a)).2 access (put_token (keyringKeys (acc_Name a)).1 refresh k) else k.
(** Of the directory, at most the file of the account has changed, and only to one
    that was not written completely. *)
Definition file_torn (a : Account) (e e' : Env K W) : Prop :=
  ∀ f, cd_entries (env_dir e') !! f = cd_entries (env_dir e) !! f ∨
    f = acc_tokenFile a ∧ cd_entries (env_dir e') !! f = Some (JsonFile None).

Lemma same_identity_refl a : same_identity a a.
Proof. by split_and!. Qed.
Lemma save_refresh_same (s : @AS K W) : let s' := save_refresh s in
  same_tokens s.1 s'.1 ∧ same_identity s.1 s'.1 ∧ env_dir s'.2 = env_dir s.2 ∧ env_net s'.2 = env_net s.2 ∧
  env_keyring s'.2 = if acc_keyring s.1 then put_token (keyringKeys (acc_Name s.1)).1 (acc_RefreshToken s.1) (env_keyring s.2)
                     else env_keyring s.2.
Proof.
  destruct s as [a e]. cbn -[on_keyring]. unfold put_token. case_decide; [by case_match; split_and!|]. destruct (acc_keyring a) eqn:Ek; cbn [negb].
  - unfold on_keyring. destruct (keyring_Set _ _ _ _) as [[?|?] k]; by split_and!.
  - by split_and!.
Qed.
Lemma save_access_same a (e : Env K W) :
  env_dir (save_access a e) = env_dir e ∧ env_net (save_access a e) = env_net e ∧
  env_keyring (save_access a e) = if acc_keyring a then put_token (keyringKeys (acc_Name a)).2 (acc_AccessToken a) (env_keyring e)
                                  else env_keyring e.
Proof.
  unfold save_access, on_keyring, put_token. case_decide; [by case_match|]. destruct (acc_keyring a); [|done]. cbn [negb].
  by destruct (keyring_Set _ _ _ _) as [r k].
Qed.

Lemma saveUnsafe_spec (s : @AS K W) r s' : saveUnsafe s = (r, s') →
  same_tokens s.1 s'.1 ∧ same_identity s.1 s'.1 ∧ env_net s'.2 = env_net s.2 ∧ (r = inr tt → on_file s'.1 s'.2).
Proof.
  unfold saveUnsafe. pose proof (save_refresh_same s) as (Ht & Hi & _ & Hw & _).
  destruct (save_refresh s) as [a e]. cbn [fst snd] in *. pose proof (save_access_same a e) as (_ & Hw' & _).
  unfold on_dir, os_WriteFile. destruct (next_fault _) as [f d]. intros E.
  split_and!; [| | |intros ->; revert E];
    repeat case_match; simplify_eq/=; auto; try congruence; intros; simplify_eq/=; unfold on_file; simpl; by rewrite lookup_insert_eq.
Qed.
(** What a save leaves behind outside the process. *)
Lemma saveUnsafe_stores (s : @AS K W) r s' : saveUnsafe s = (r, s') →
  env_keyring s'.2 = keyring_with s.1 (acc_RefreshToken s.1) (acc_AccessToken s.1) (env_keyring s.2) ∧
  (r ≠ inr tt → file_torn s.1 s.2 s'.2).
Proof.
  unfold saveUnsafe. pose proof (save_refresh_same s) as ((Ha & _ & _) & (Hn & _ & _ & Hf & Hk) & Hd & _ & Hr).
  destruct (save_refresh s) as [a e]. cbn [fst snd] in *. pose proof (save_access_same a e) as (Hd' & _ & Hacc).
  rewrite Hn, Hk, Ha, Hr in Hacc. rewrite Hd in Hd'.
  assert (Hkey : env_keyring (save_access a e) = keyring_with s.1 (acc_RefreshToken s.1) (acc_AccessToken s.1) (env_keyring s.2)).
  { rewrite Hacc. unfold keyring_with. by destruct (acc_keyring s.1). }
  unfold on_dir, os_WriteFile. rewrite Hd', Hf. destruct (next_fault (env_dir s.2)) as [ft d] eqn:En.
  assert (Hent : cd_entries d = cd_entries (env_dir s.2)) by (unfold next_fault in En; by destruct (cd_faults _); simplify_eq).
  intros E. split; [by repeat case_match; simplify_eq/=|].
  intros Hne g. repeat case_match; simplify_eq/=; rewrite ?Hent; auto.
  all: destruct (decide (g = acc_tokenFile s.1)) as [->|Hg]; [rewrite lookup_insert_eq; auto|left; by rewrite lookup_insert_ne by done].
Qed.

Lemma purge_spec (s : @AS K W) : let s' := purgeInvalidRefreshTokenLocked s in
  acc_AccessToken s'.1 = "" ∧ acc_RefreshToken s'.1 = "" ∧ same_identity s.1 s'.1 ∧ env_dir s'.2 = env_dir s.2.
Proof.
  destruct s as [a e]. cbn -[on_keyring]. case_match; [by split_and!|]. unfold on_keyring.
  destruct (keyring_Delete _ _ _) as [[?|?] k]; [by split_and!|]. simpl. destruct (keyring_Delete _ _ k) as [? ?]. by split_and!.
Qed.

(** The endpoint said that the session is worth nothing. *)
Definition dead_session (resp : Response) : Prop :=
  400 ≤ resp_StatusCode resp ∧
  ae_Error (best_effort AuthError_fields zero_AuthError (resp_Body resp)) ∈ ["invalid_grant"; "interaction_required"].
Definition answered_dead (a : Account) (e : Env K W) : Prop :=
  ∃ req resp w, post_form (TokenURL (acc_Config a)) (refresh_form a) = inr req ∧
    io_Do httpClient req (env_net e) = (inr resp, w) ∧ dead_session resp.

(** [s'] is [s] after a renewal that failed. Either nothing has changed that outlives
    the process, and the tokens in memory have not either; or the endpoint granted
    new tokens and the file could not be written: the tokens in memory are the old
    ones, while the keyring was given the new ones; or the session is dead and its
    tokens are forgotten. *)
Definition not_renewed (grant : Tokens → Prop) (dead : Prop) (s s' : @AS K W) : Prop :=
  (same_tokens s.1 s'.1 ∧ env_keyring s'.2 = env_keyring s.2 ∧ env_dir s'.2 = env_dir s.2) ∨
  (∃ t, grant t ∧ same_tokens s.1 s'.1 ∧ file_torn s.1 s.2 s'.2 ∧
     env_keyring s'.2 = keyring_with s.1 (fill (tk_Refresh t) (acc_RefreshToken s.1)) (tk_Access t) (env_keyring s.2)) ∨
  (dead ∧ acc_AccessToken s'.1 = "" ∧ acc_RefreshToken s'.1 = "" ∧ env_dir s'.2 = env_dir s.2).

Lemma not_renewed_refl grant dead (s : @AS K W) : not_renewed grant dead s s.
Proof. left. by split_and!. Qed.

Lemma refresh_taken_spec t (s : @AS K W) r s' : refresh_taken t s = (r, s') →
  same_identity s.1 s'.1 ∧
  env_keyring s'.2 = keyring_with s.1 (fill (tk_Refresh t) (acc_RefreshToken s.1)) (tk_Access t) (env_keyring s.2) ∧
  match r with
  | inr _ => on_file s'.1 s'.2 ∧ acc_AccessToken s'.1 = tk_Access t ∧
      acc_RefreshToken s'.1 = fill (tk_Refresh t) (acc_RefreshToken s.1) ∧
      acc_ExpiresAt s'.1 = i64 (Unix (w_now (env_net s.2)) + tk_ExpiresIn t)
  | inl _ => same_tokens s.1 s'.1 ∧ file_torn s.1 s.2 s'.2
  end.
Proof.
  destruct s as [a e]. unfold refresh_taken. set (a1 := set_tokens _ _ _ a).
  destruct (saveUnsafe (a1, e)) as [r1 [a2 e2]] eqn:Es.
  pose proof (saveUnsafe_spec _ _ _ Es) as (Ht & Hi & _ & Hf). pose proof (saveUnsafe_stores _ _ _ Es) as [Hk Htorn].
  cbn [fst snd] in *. destruct r1 as [err|[]]; intros [= <- <-]; cbn [fst snd].
  - split_and!; [exact Hi|exact Hk|by split_and!|by apply Htorn].
  - destruct Ht as (Ha & Hr & He). split_and!; [exact Hi|exact Hk|by apply Hf|exact Ha|exact Hr|exact He].
Qed.

Lemma refresh_response_spec resp (s : @AS K W) r s' : refresh_response resp s = (r, s') →
  same_identity s.1 s'.1 ∧
  match r with
  | inr _ => on_file s'.1 s'.2 ∧ resp_StatusCode resp < 400 ∧ acc_AccessToken s'.1 ≠ "" ∧ 
      env_keyring s'.2 = keyring_with s.1 (acc_RefreshToken s'.1) (acc_AccessToken s'.1) (env_keyring s.2) ∧ ∃ t,
      Unmarshal dec_Tokens (mkTokens "" "" 0) (resp_Body resp) = inr t ∧ acc_AccessToken s'.1 = tk_Access t ∧
      acc_RefreshToken s'.1 = fill (tk_Refresh t) (acc_RefreshToken s.1) ∧
      acc_ExpiresAt s'.1 = i64 (Unix (w_now (env_net s.2)) + tk_ExpiresIn t)
  | inl _ => not_renewed (λ t, resp_StatusCode resp < 400 ∧ Unmarshal dec_Tokens (mkTokens "" "" 0) (resp_Body resp) = inr t)
               (dead_session resp) s s'
  end.
Proof.
  assert (Hsame : ∀ grant dead, same_identity s.1 s.1 ∧ not_renewed grant dead s s) by (split; [apply same_identity_refl|apply not_renewed_refl]).
  unfold refresh_response. destruct (ReadAll (resp_Body resp)) as [?|?]; [intros [= <- <-]; apply Hsame|].
  destruct (Z.leb_spec 400 (resp_StatusCode resp)).
  - unfold refresh_refused. pose proof (purge_spec s) as (Ha & Hr & Hi & Hd).
    destruct (_ || _) eqn:Ed; intros [= <- <-]; [|apply Hsame].
    split; [exact Hi|]. right. right. split_and!; [split; [lia|]|exact Ha|exact Hr|exact Hd]. rewrite !elem_of_cons.
    apply orb_prop in Ed as [Ed%bool_decide_eq_true|Ed%bool_decide_eq_true]; auto.
  - destruct (Unmarshal _ _ _) as [?|t] eqn:Et; [intros [= <- <-]; apply Hsame|].
    case_decide as Ea; [intros [= <- <-]; apply Hsame|].
    intros Hr. destruct (refresh_taken_spec t s r s' Hr) as (Hi & Hk & Hcase). split; [exact Hi|].
    destruct r as [err|[]]; [right; left; exists t; by split_and!; try apply Hcase|].
    destruct Hcase as (Hf & Hacc & Hrt & Hx). split_and!; [done|lia|congruence|by rewrite Hrt, Hacc|]. by exists t.
Qed.

End renewal.

(** ** The code of a login *)

(** A host is one of the machine itself: "localhost", an address in 127.0.0.0/8, its
    form in IPv6, or ::1. *)
Definition loopback_host (host : string) : Prop :=
  Hostname host = "localhost" ∨
  ∃ ip rest, ParseIP (Hostname host) = Some ip ∧
    (ip = 127 :: rest ∨ ip = replicate 10 0 ++ [255; 255; 127] ++ rest ∨ ip = replicate 15 0 ++ [1]).
(** The callback server listens on the host of the redirect address. *)
Definition loopback_redirect (config : AuthConfig) : Prop :=
  ∃ u, url_Parse (RedirectURL config) = Some u ∧
    loopback_host (if decide (url_Host u = "") then "localhost:9090" else url_Host u).
(** A request to it, or a pasted URL, that carries the state of this login; the
    pasted URL has the scheme, the host and the path of the redirect address. *)
Definition own_callback (s : authSession) (li : LoginInput) (code : string) : Prop :=
  ∃ r, Requested r ∈ li_events li ∧ cb_state r = state s ∧ cb_error_description r = "" ∧ cb_code r = code.
Definition own_paste (config : AuthConfig) (s : authSession) (li : LoginInput) (code : string) : Prop :=
  ∃ line u expected, li_line li = Some line ∧ url_Parse (TrimSpace line) = Some u ∧ url_Parse (RedirectURL config) = Some expected ∧
    EqualFold (url_Scheme u) (url_Scheme expected) = true ∧ EqualFold (url_Host u) (url_Host expected) = true ∧
    TrimSuffix_slash (url_Path (TrimSpace line)) = TrimSuffix_slash (url_Path (RedirectURL config)) ∧
    query_Get (TrimSpace line) "state" = state s ∧ query_Get (TrimSpace line) "code" = code.
(** [req] posts the form of these pairs to [url]. *)
Definition posts_form (url : string) (pairs : list (string * string)) (req : Request) : Prop :=
  req_Method req = "POST" ∧ req_URL req = url ∧ req_Body req = Some (PBytes (string_bytes (Values_Encode pairs))) ∧
  req_Header req !! "Content-Type" = Some "application/x-www-form-urlencoded".
(** The exchange of [code] for [t]: the form that is sent has the code, the verifier
    of the login and the redirect address, and [t] is what the answer holds. *)
Definition exchanged `{World W} (config : AuthConfig) (s : authSession) (code : string) (t : Tokens) (w : W) : Prop :=
  ∃ req resp w', posts_form (TokenURL config)
      [("client_id", ClientID config); ("code", code); ("code_verifier", verifier s);
       ("grant_type", "authorization_code"); ("redirect_uri", RedirectURL config)] req ∧
    io_Do httpClient req w = (inr resp, w') ∧ resp_StatusCode resp = 200 ∧
    Unmarshal dec_Tokens (mkTokens "" "" 0) (resp_Body resp) = inr t ∧ tk_Access t ≠ "" ∧ tk_Refresh t ≠ "".
(** The address that is opened in the browser carries the state of the login and, in
    place of the verifier, its hash. *)
Definition pledged `{SHA256} (config : AuthConfig) (s : authSession) : Prop :=
  challenge s = base64_RawURL (sha256_Sum256 (string_bytes (verifier s))) ∧
  ("code_challenge", challenge s) ∈ auth_query config s ∧ ("code_challenge_method", "S256") ∈ auth_query config s ∧
  ("state", state s) ∈ auth_query config s.

Lemma IsLoopback_ip ip : IsLoopback ip = true →
  ∃ rest, ip = 127 :: rest ∨ ip = replicate 10 0 ++ [255; 255; 127] ++ rest ∨ ip = replicate 15 0 ++ [1].
Proof.
  assert (H6 : bool_decide (ip = replicate 15 0 ++ [1])
      || (bool_decide (take 12 ip = replicate 10 0 ++ [255; 255]) && (ip !!! 12%nat =? 127)) = true →
    ∃ rest, ip = 127 :: rest ∨ ip = replicate 10 0 ++ [255; 255; 127] ++ rest ∨ ip = replicate 15 0 ++ [1]).
  { intros [E%bool_decide_eq_true|[E%bool_decide_eq_true Ex%Z.eqb_eq]%andb_prop]%orb_prop; [exists []; auto|].
    destruct (ip !! 12%nat) as [x|] eqn:Hx.
    - rewrite (list_lookup_total_correct _ _ _ Hx) in Ex. subst x. exists (drop 13 ip). right. left.
      rewrite <-(take_drop_middle _ _ _ Hx) at 1. by rewrite E, <-app_assoc.
    - by rewrite list_lookup_total_alt, Hx in Ex. }
  unfold IsLoopback. repeat (case_match; try exact H6). intros ->%Z.eqb_eq. eauto.
Qed.
Lemma requireLoopback_host host : requireLoopbackRedirect host = None → loopback_host host.
Proof.
  unfold requireLoopbackRedirect, loopback_host. cbn zeta. case_decide; [by left|]. destruct (ParseIP _) as [ip|]; [|done].
  destruct (IsLoopback ip) eqn:E; [|done]. intros _. right. apply IsLoopback_ip in E as [rest E]. by exists ip, rest.
Qed.
Lemma validatePasted_same p u r : validatePastedRedirect p u r = None →
  ∃ expected, url_Parse r = Some expected ∧ EqualFold (url_Scheme u) (url_Scheme expected) = true ∧
    EqualFold (url_Host u) (url_Host expected) = true ∧ TrimSuffix_slash (url_Path p) = TrimSuffix_slash (url_Path r).
Proof.
  unfold validatePastedRedirect. destruct (url_Parse r) as [x|]; [|done].
  destruct (EqualFold (url_Scheme u) _) eqn:Es, (EqualFold (url_Host u) _) eqn:Eh; try done. case_bool_decide; [|done].
  intros _. by exists x.
Qed.
(** Random bytes give a text. *)
Lemma base64_RawURL_nonempty b : b ≠ [] → base64_RawURL b ≠ "".
Proof.
  assert (Hc : ∀ n l, rawurl_char (b64_char (Z.land (Z.shiftr n 18) 63)) ++ l ≠ []).
  { intros n l. unfold rawurl_char. change 63 with (Z.ones 6). rewrite Z.land_ones by lia. change (2 ^ 6) with 64.
    rewrite decide_False by apply b64_char_mod. by repeat case_decide. }
  unfold base64_RawURL. destruct b as [|x [|y [|z b]]]; [done|..]; intros _ E%(f_equal chars);
    rewrite chars_of_chars in E; cbn [b64_chars mbind list_bind] in E; by apply Hc in E.
Qed.
(** The login without the requests that do not carry its state. *)
Definition own_event (s : authSession) (ev : ServerEvent) : bool :=
  match ev with Requested r => matchesState s (cb_state r) | ServeFailed _ => true end.
Definition drop_foreign (s : authSession) (li : LoginInput) : LoginInput :=
  mkLoginInput (li_state li) (li_verifier li) (li_listen li) (List.filter (own_event s) (li_events li)) (li_codeFirst li) (li_line li).

Lemma select_code_inr b outs code : select_code b outs = inr code → inr code ∈ outs.
Proof.
  unfold select_code. intros E. assert (Hh : head (omap is_code outs) = Some code).
  { destruct (head (omap is_code outs)), (head (omap is_error outs)), b; by simplify_eq. }
  apply head_Some_elem_of, list_elem_of_omap in Hh as ([?|c] & Hin & Hc); by simplify_eq/=.
Qed.
Lemma server_outcomes_own s evs : omap (server_outcome s) (List.filter (own_event s) evs) = omap (server_outcome s) evs.
Proof.
  induction evs as [|ev evs IH]; [done|]. cbn [List.filter]. destruct (own_event s ev) eqn:Eo; cbn [omap list_omap]; rewrite <-IH; [done|].
  destruct ev as [r|?]; [|done]. cbn [own_event] in Eo. cbn [server_outcome]. unfold callback_handler. by rewrite Eo.
Qed.
Lemma callback_code s r code : callback_handler s r = Some (inr code) →
  cb_state r = state s ∧ cb_error_description r = "" ∧ cb_code r = code ∧ code ≠ "".
Proof.
  unfold callback_handler, matchesState. case_bool_decide; simpl; [|done]. case_bool_decide; simpl; [|done]. case_decide; [done|].
  intros [= <-]. by split_and!.
Qed.
Lemma login_code_own config s li code : login_code config s li = inr code →
  code ≠ "" ∧ ((loopback_redirect config ∧ own_callback s li code) ∨ own_paste config s li code).
Proof.
  unfold login_code. destruct (getAuthCodeLocalServer _ _ _ _ _) as [e|c] eqn:El.
  - clear El e. unfold getAuthCodeHeadless. destruct (li_line li) as [line|] eqn:Eline; [|done].
    destruct (url_Parse _) as [u|] eqn:Eu; [|done]. destruct (validatePastedRedirect _ _ _) eqn:Ev; [done|].
    unfold matchesState. case_bool_decide as Es; cbn [negb]; [|done]. case_decide as Ec; [done|]. intros [= <-].
    apply validatePasted_same in Ev as (x & Hx & Hv). split; [done|]. right. exists line, u, x. by split_and!; try apply Hv.
  - intros [= <-]. unfold getAuthCodeLocalServer in El. destruct (url_Parse _) as [u|] eqn:Eu; [|done].
    destruct (requireLoopbackRedirect _) eqn:Er; [done|]. destruct (li_listen li); [done|].
    apply select_code_inr, list_elem_of_omap in El as ([r|e] & Hin & Ho); [|done]. cbn [server_outcome] in Ho.
    apply callback_code in Ho as (Hs & He & Hc & Hne). split; [done|]. left.
    split; [exists u; split; [done|by apply requireLoopback_host]|]. by exists r.
Qed.
Lemma login_code_foreign config s li : login_code config s (drop_foreign s li) = login_code config s li.
Proof.
  unfold login_code, getAuthCodeLocalServer, drop_foreign. cbn [li_listen li_events li_codeFirst li_line].
  by rewrite server_outcomes_own.
Qed.

Section login.
Context {K W : Type} `{Keyring K} `{World W} `{Clock W} `{Mergo} `{SHA256}.

Lemma register_spec name config t (s : @MS K W) a s' : register name config t s = (inr a, s') →
  acc_Name a = name ∧ acc_Config a = config ∧ acc_AccessToken a = tk_Access t ∧ acc_RefreshToken a = tk_Refresh t ∧
  acc_tokenFile a = getAccountFilePath name ∧ on_file a s'.2 ∧ m_accounts s'.1 = <[name := a]> (m_accounts s.1) ∧
  m_keyring s'.1 = m_keyring s.1 ∧ ∃ a0, saveUnsafe (a0, s.2) = (inr tt, (a, s'.2)) ∧
    acc_keyring a0 = m_keyring s.1 ∧ acc_Mount a0 = zero_Persisted ∧ - 2 ^ 63 ≤ acc_ExpiresAt a0 < 2 ^ 63.
Proof.
  destruct s as [m e]. unfold register. set (a0 := mkAccount _ _ _ _ _ _ _ _ _).
  destruct (saveUnsafe (a0, e)) as [[err|[]] [a1 e1]] eqn:Es; intros Hr; simplify_eq/=.
  destruct (saveUnsafe_spec _ _ _ Es) as ((Ha & Hrf & He) & (Hn & Hc & Hm & Hf & Hk) & _ & Hof). cbn [fst snd] in *.
  specialize (Hof eq_refl). change (acc_Name a0) with name in Hn. rewrite Hn in *.
  split_and!; [done..|]. exists a0. split_and!; [done..| |]; apply i64_range.
Qed.

Lemma exchangeCode_sends config s code (w : W) t w' :
  verifier s ≠ "" → exchangeCodeForTokens config code (verifier s) w = (inr t, w') → exchanged config s code t w.
Proof.
  intros Hv. unfold exchangeCodeForTokens, post_form, NewRequest. destruct (url_Parse _); [|done].
  match goal with |- context [io_Do _ ?r _] => set (req := r) end.
  destruct (io_Do httpClient req w) as [[err|resp] w1] eqn:Ew; [done|]. intros [= Hr _]. exists req, resp, w1. revert Hr.
  unfold exchange_response. destruct (ReadAll _); [done|]. destruct (Z.eqb_spec (resp_StatusCode resp) 200); cbn [negb]; [|by case_match].
  destruct (Unmarshal _ _ _) as [?|t0]; [done|]. repeat case_bool_decide; try done. intros [= ->]. split_and!; try done.
  unfold posts_form, req, form_body, exchange_form. rewrite decide_False by done. split_and!; try done.
Qed.

(** C17: A login only uses the code that was given to it. When an account is added,
    the code that was exchanged for its tokens came with the random state of this
    login: in a request to the callback server, which only listens on the machine
    itself ("localhost", 127.0.0.0/8 or ::1), or in a pasted URL with the scheme,
    the host and the path of the redirect address. The exchange is a POST to the
    token endpoint whose form has that code and the verifier of this login, of which
    the address opened in the browser only carried the SHA-256, and the account has
    the tokens of its answer. Whatever other requests reach the callback server,
    before, between or after, change nothing at all. (The random source gave some
    bytes for the verifier.) *)
Theorem code_belongs_to_login cli (ctx : Ctx W) config li (s : @MS K W) a s' :
  (∀ b, li_verifier li = inr b → b ≠ []) →
  AddAccount cli ctx config li s = (inr a, s') →
  ∃ config' session code t,
    ApplyDefaults config = (None, config') ∧ newAuthSession (li_state li) (li_verifier li) = inr session ∧
    code ≠ "" ∧ ((loopback_redirect config' ∧ own_callback session li code) ∨ own_paste config' session li code) ∧
    pledged config' session ∧ exchanged config' session code t (env_net s.2) ∧
    acc_AccessToken a = tk_Access t ∧ acc_RefreshToken a = tk_Refresh t ∧
    m_accounts s'.1 = <[acc_Name a := a]> (m_accounts s.1) ∧
    AddAccount cli ctx config (drop_foreign session li) s = AddAccount cli ctx config li s.
Proof.
  intros Hrand. destruct s as [m e]. unfold AddAccount. destruct (ApplyDefaults config) as [[err|] config'] eqn:Ed; [done|].
  destruct (newAuthSession (li_state li) (li_verifier li)) as [err|session] eqn:Es; [done|].
  destruct (login_code config' session li) as [err|code] eqn:Ec; [done|].
  destruct (login_code_own _ _ _ _ Ec) as [Hne Hown]. intros Hadd.
  destruct (on_world (exchangeCodeForTokens config' code (verifier session)) e) as [[err|t] e1] eqn:Ex; [done|].
  destruct (on_world (GetUser _ _ _) e1) as [[err|user] e2] eqn:Eu; [done|].
  apply register_spec in Hadd as (Hn & _ & Ha & Hr & _ & _ & Hm & _).
  assert (Hs : verifier session ≠ "" ∧ challenge session = base64_RawURL (sha256_Sum256 (string_bytes (verifier session)))).
  { unfold newAuthSession, randomURLSafe in Es. destruct (li_state li), (li_verifier li) as [?|b] eqn:Eb; simplify_eq/=.
    split; [|done]. by apply base64_RawURL_nonempty, Hrand. }
  assert (Hx : exchanged config' session code t (env_net e)).
  { unfold on_world in Ex. destruct (exchangeCodeForTokens _ _ _ _) as [r w] eqn:Ex'. simplify_eq.
    by eapply exchangeCode_sends; [apply Hs|]. }
  exists config', session, code, t. rewrite Hn. split_and!; [done|done|done|done| |exact Hx|done|done|done|].
  { split_and!; [apply Hs|unfold auth_query; set_solver..]. }
  change (newAuthSession (li_state (drop_foreign session li)) (li_verifier (drop_foreign session li)))
    with (newAuthSession (li_state li) (li_verifier li)).
  by rewrite Es, login_code_foreign, Ec, Ex, Eu.
Qed.
End login.

(** ** The accounts of a new process *)

Definition config_ok (c : AuthConfig) : Prop :=
  utf8_valid (ClientID c) ∧ utf8_valid (CodeURL c) ∧ utf8_valid (TokenURL c) ∧ utf8_valid (RedirectURL c).
Definition int64 (n : Z) : Prop := - 2 ^ 63 ≤ n < 2 ^ 63.
Definition mount_ok (p : AccountPersistedConfig) : Prop :=
  utf8_valid (pc_DefaultMountpoint p) ∧ utf8_valid (pc_CacheDir p) ∧ int64 (pc_CacheTTL p) ∧ int64 (pc_CacheMaxEntries p) ∧
  int64 (pc_CacheMaxSize p) ∧ int64 (pc_DeltaInterval p) ∧ int64 (pc_MaxUploadsInFlight p) ∧ int64 (pc_MaxUploadRetries p) ∧
  int64 (pc_HTTPTimeout p) ∧ int64 (pc_GraphRetries p) ∧ opt_ok int64 (pc_PreWarmDepth p).
Definition account_ok (a : accountJSON) : Prop :=
  utf8_valid (aj_Name a) ∧ config_ok (aj_Config a) ∧ mount_ok (aj_Mount a) ∧ int64 (aj_ExpiresAt a).

Lemma config_roundtrip c : config_ok c → dec_AuthConfig (enc_AuthConfig c) zero_AuthConfig = Some c.
Proof.
  destruct c as [a b d e]. intros (Ha & Hb & Hd & He). unfold dec_AuthConfig, enc_AuthConfig. rewrite dec_struct_obj.
  cbn [ClientID CodeURL TokenURL RedirectURL] in *.
  repeat (rewrite dec_members_cons; cbn [fst snd]; unfold enc_string at 1; cbn -[utf8_coerce]; unfold enc_string).
  by rewrite Ha, Hb, Hd, He.
Qed.
(** Read back the next member. *)
Ltac member_num :=
  rewrite ?dec_members_app;
  erewrite dec_members_num; [|reflexivity|unfold int64 in *; lia|by intros []|reflexivity]; cbn [mbind option_bind].
Lemma mount_roundtrip p : mount_ok p → dec_Persisted (enc_Persisted p) zero_Persisted = Some p.
Proof.
  destruct p as [a b c d e f g h i j k]. intros (Ha & Hb & Hc & Hd & He & Hf & Hg & Hh & Hi & Hj & Hk).
  cbn [pc_DefaultMountpoint pc_CacheDir pc_CacheTTL pc_CacheMaxEntries pc_CacheMaxSize pc_DeltaInterval pc_MaxUploadsInFlight
       pc_MaxUploadRetries pc_HTTPTimeout pc_GraphRetries pc_PreWarmDepth] in *.
  unfold dec_Persisted, enc_Persisted, enc_num_field. rewrite dec_struct_obj.
  cbn [pc_DefaultMountpoint pc_CacheDir pc_CacheTTL pc_CacheMaxEntries pc_CacheMaxSize pc_DeltaInterval pc_MaxUploadsInFlight
       pc_MaxUploadRetries pc_HTTPTimeout pc_GraphRetries pc_PreWarmDepth].
  do 2 member_str. do 8 member_num. destruct k as [k|]; [|reflexivity].
  cbn [opt_ok] in Hk. unfold int64 in Hk. rewrite dec_members_cons. cbn [fst snd].
  change (field_for Persisted_fields "preWarmDepth") with (Some (snd (nth 10 Persisted_fields ("", λ _ _, None)))).
  cbn -[Z.pow Z.leb Z.opp]. unfold dec_int64, dec_int. by rewrite (proj2 (Z.leb_le _ k)), (proj2 (Z.leb_le k _)) by lia.
Qed.
Lemma account_roundtrip a : account_ok a → dec_accountJSON (enc_accountJSON a) zero_accountJSON = Some a.
Proof.
  destruct a as [n c m x]. intros (Hn & Hc & Hm & Hx). cbn [aj_Name aj_Config aj_Mount aj_ExpiresAt] in *.
  unfold dec_accountJSON, enc_accountJSON. cbn [aj_Name aj_Config aj_Mount aj_ExpiresAt]. rewrite dec_struct_obj.
  erewrite dec_members_string; [|reflexivity|done].
  rewrite dec_members_cons. cbn [fst snd].
  change (field_for Account_fields "config") with (Some (snd (nth 1 Account_fields ("", λ _ _, None)))).
  cbn [nth Account_fields snd]. unfold dec_field at 1. cbn [aj_Config zero_accountJSON]. rewrite config_roundtrip by done.
  cbn [fmap option_fmap option_map mbind option_bind]. rewrite dec_members_cons. cbn [fst snd].
  change (field_for Account_fields "mount") with (Some (snd (nth 2 Account_fields ("", λ _ _, None)))).
  cbn [nth Account_fields snd]. unfold dec_field at 1. cbn [aj_Mount zero_accountJSON]. rewrite mount_roundtrip by done.
  cbn [fmap option_fmap option_map mbind option_bind]. rewrite dec_members_cons. cbn [fst snd].
  change (field_for Account_fields "expires_at") with (Some (snd (nth 3 Account_fields ("", λ _ _, None)))).
  cbn [nth Account_fields snd]. unfold dec_field, dec_int64, dec_int, int64 in *.
  by rewrite (proj2 (Z.leb_le _ x)), (proj2 (Z.leb_le x _)) by lia.
Qed.

Section restart.
Context {K W : Type} `{Keyring K} `{!KeyringLaws K} `{World W} `{Clock W} `{Mergo} `{!MergoLaws} `{SHA256}.

(** The accounts of the process and what it keeps on disk and in the keyring. *)
Definition kept (name : string) (a : Account) (e : Env K W) : Prop :=
  acc_Name a = name ∧ acc_tokenFile a = getAccountFilePath name ∧ acc_keyring a = true ∧
  account_ok (toJSON a) ∧ ApplyDefaults (acc_Config a) = (None, acc_Config a) ∧ on_file a e ∧
  keyring_token (keyringKeys name).1 (env_keyring e) = acc_RefreshToken a ∧
  keyring_token (keyringKeys name).2 (env_keyring e) = acc_AccessToken a.
Definition apart (n1 n2 : string) : Prop :=
  getAccountFilePath n1 ≠ getAccountFilePath n2 ∧
  ∀ u1 u2, u1 ∈ [(keyringKeys n1).1; (keyringKeys n1).2] → u2 ∈ [(keyringKeys n2).1; (keyringKeys n2).2] → u1 ≠ u2.
Record stored (s : @MS K W) : Prop := {
  stored_keyring : m_keyring s.1 = true;
  stored_faults : cd_faults (env_dir s.2) = [];
  stored_kept name a : m_accounts s.1 !! name = Some a → kept name a s.2;
  stored_files f x : cd_entries (env_dir s.2) !! f = Some x → HasSuffix f ".json" = true →
    ∃ name a, m_accounts s.1 !! name = Some a ∧ acc_tokenFile a = f ∧ x = JsonFile (Some (enc_accountJSON (toJSON a)));
  stored_apart n1 n2 a1 a2 : m_accounts s.1 !! n1 = Some a1 → m_accounts s.1 !! n2 = Some a2 → n1 ≠ n2 → apart n1 n2;
}.

(** *** Loading *)

Lemma json_suffix name : HasSuffix (getAccountFilePath name) ".json" = true.
Proof.
  unfold getAccountFilePath, HasSuffix. rewrite chars_app, length_app.
  replace (_ + _ - _)%nat with (length (chars (sanitizeFileName name))) by lia. rewrite drop_app_length. by apply bool_decide_eq_true.
Qed.

Definition loaded (a : Account) : Account := set_lastKeyringErr None a.
Lemma load_account_file m (s : @MS K W) name a : stored s → m_accounts s.1 !! name = Some a → m_keyring m = true →
  load_one (acc_tokenFile a, false) (m, s.2) = (set_accounts (<[name := loaded a]>) m, s.2).
Proof.
  intros Hs Ha Hk. destruct (stored_kept s Hs name a Ha) as (Hn & Hf & Hkr & Hok & Hd & Hof & Hr & Hacc).
  destruct s as [m0 [k d w]]. cbn [fst snd env_dir env_keyring env_net] in *. unfold load_one. cbn [fst snd orb].
  replace (HasSuffix (acc_tokenFile a) ".json") with true by (by rewrite Hf, json_suffix).
  cbn [negb]. unfold on_dir, os_ReadFile, next_fault. cbn [env_dir]. pose proof (stored_faults _ Hs) as Hnf. cbn [snd env_dir] in Hnf. rewrite Hnf.
  unfold on_file in Hof. cbn [env_dir] in Hof. rewrite Hof. cbn [mbind option_bind env_keyring env_net].
  rewrite account_roundtrip by done. cbn [toJSON aj_Name aj_Config aj_Mount aj_ExpiresAt]. rewrite Hd, Hn, Hr, Hacc. cbn [snd].
  repeat f_equal. rewrite Hk. unfold loaded, set_lastKeyringErr. by rewrite Hkr, Hn.
Qed.

(** Loading the entries [l] of the directory, on top of [m]. *)
Lemma load_fold (s : @MS K W) (dir : string → bool) l m : stored s → m_keyring m = true →
  (∀ f, f ∈ l → ∃ x, cd_entries (env_dir s.2) !! f = Some x ∧ (x ≠ SubDir → dir f = false)) →
  ∃ m', foldl (λ s f, load_one f s) (m, s.2) ((λ f, (f, dir f)) <$> l) = (m', s.2) ∧ m_keyring m' = true ∧
    ∀ name, m_accounts m' !! name =
      match m_accounts s.1 !! name with
      | Some a => if decide (acc_tokenFile a ∈ l) then Some (loaded a) else m_accounts m !! name
      | None => m_accounts m !! name
      end.
Proof.
  intros Hs. revert m. induction l as [|f l IH]; intros m Hk Hl.
  { exists m. split_and!; [done|done|]. intros name. destruct (m_accounts s.1 !! name); [|done]. by rewrite decide_False by set_solver. }
  cbn [fmap list_fmap foldl]. destruct (Hl f) as (x & Hx & Hdir); [by left|].
  destruct (HasSuffix f ".json") eqn:Ef.
  - destruct (stored_files s Hs f x Hx Ef) as (n & a & Ha & <- & ->). rewrite Hdir by done.
    rewrite (load_account_file m s n a Hs Ha Hk).
    destruct (IH (set_accounts (<[n := loaded a]>) m)) as (m' & -> & Hk' & Hm'); [done|intros ? ?; apply Hl; by right|].
    exists m'. split_and!; [done|done|]. intros name. rewrite Hm'. cbn [m_accounts set_accounts].
    destruct (decide (name = n)) as [->|Hne].
    + rewrite Ha, lookup_insert_eq. case_decide; [|case_decide; [done|set_solver]]. by rewrite decide_True by (by right).
    + rewrite lookup_insert_ne by done. destruct (m_accounts s.1 !! name) as [a'|] eqn:Ha'; [|done].
      assert (acc_tokenFile a' ≠ acc_tokenFile a).
      { destruct (stored_kept s Hs _ _ Ha') as (_ & -> & _), (stored_kept s Hs _ _ Ha) as (_ & -> & _).
        by destruct (stored_apart s Hs name n a' a Ha' Ha Hne). }
      repeat case_decide; first [done|set_solver].
  - assert (Hskip : load_one (f, dir f) (m, s.2) = (m, s.2)) by (unfold load_one; cbn [fst snd]; by rewrite Ef, orb_true_r).
    rewrite Hskip. destruct (IH m) as (m' & -> & Hk' & Hm'); [done|intros ? ?; apply Hl; by right|].
    exists m'. split_and!; [done|done|]. intros name. rewrite Hm'. destruct (m_accounts s.1 !! name) as [a|] eqn:Ha; [|done].
    assert (acc_tokenFile a ≠ f).
    { destruct (stored_kept s Hs _ _ Ha) as (_ & -> & _). intros <-. by rewrite json_suffix in Ef. }
    repeat case_decide; first [done|set_solver].
Qed.

Lemma load_stored (s : @MS K W) : stored s →
  ∃ m', NewManagerWithDeps s.2 = (inr tt, (m', s.2)) ∧ m_accounts m' = loaded <$> m_accounts s.1.
Proof.
  intros Hs. pose proof (stored_faults s Hs) as Hnf. destruct s as [m [k d w]]. cbn [snd fst env_dir env_keyring env_net] in *.
  unfold NewManagerWithDeps, loadAccounts, on_dir, os_ReadDir, next_fault. cbn [env_dir env_keyring env_net]. rewrite Hnf.
  set (dir := λ n, match cd_entries d !! n with Some SubDir => true | _ => false end).
  destruct (load_fold _ dir (merge_sort string_le (elements (dom (cd_entries d)))) (mkManager ∅ true) Hs eq_refl) as (m' & Hf & _ & Hm').
  { intros f Hf. rewrite merge_sort_Permutation, elem_of_elements, elem_of_dom in Hf. destruct Hf as [x Hx].
    exists x. split; [exact Hx|]. intros Hne. unfold dir. rewrite Hx. by destruct x. }
  cbn [snd] in Hf. unfold dir in Hf. rewrite Hf. exists m'. split; [done|]. apply map_eq. intros name. rewrite Hm', lookup_fmap. cbn [fst m_accounts].
  destruct (m_accounts m !! name) as [a|] eqn:Ha; [|done]. rewrite decide_True; [done|].
  destruct (stored_kept _ Hs name a Ha) as (_ & _ & _ & _ & _ & Hof & _). unfold on_file in Hof. cbn [snd env_dir] in Hof.
  rewrite merge_sort_Permutation, elem_of_elements, elem_of_dom. by eexists.
Qed.

(** *** Saving *)

Lemma keys_differ n : (keyringKeys n).1 ≠ (keyringKeys n).2.
Proof.
  unfold keyringKeys. cbn [fst snd]. intros E%(f_equal (λ s, length (chars s))). revert E.
  rewrite !chars_app, !length_app. vm_compute (length (chars ":access:")). vm_compute (length (chars ":")). lia.
Qed.
Lemma token_set u p (k k' : K) : keyring_Get keyringService u k' = inr p → keyring_token u k' = p.
Proof. unfold keyring_token. by intros ->. Qed.
Lemma token_same u (k k' : K) : keyring_Get keyringService u k' = keyring_Get keyringService u k → keyring_token u k' = keyring_token u k.
Proof. unfold keyring_token. by intros ->. Qed.

(** What a save does to the world: the two keys of the account, and its file. *)
Definition saved_as (a : Account) (e e' : Env K W) : Prop :=
  cd_entries (env_dir e') = <[acc_tokenFile a := JsonFile (Some (enc_accountJSON (toJSON a)))]> (cd_entries (env_dir e)) ∧
  cd_faults (env_dir e') = [] ∧
  (∀ u, u ∉ [(keyringKeys (acc_Name a)).1; (keyringKeys (acc_Name a)).2] → keyring_token u (env_keyring e') = keyring_token u (env_keyring e)) ∧
  keyring_token (keyringKeys (acc_Name a)).1 (env_keyring e') =
    (if decide (acc_RefreshToken a = "") then keyring_token (keyringKeys (acc_Name a)).1 (env_keyring e) else acc_RefreshToken a) ∧
  keyring_token (keyringKeys (acc_Name a)).2 (env_keyring e') =
    (if decide (acc_AccessToken a = "") then keyring_token (keyringKeys (acc_Name a)).2 (env_keyring e) else acc_AccessToken a).
Lemma save_spec a (e : Env K W) : acc_keyring a = true → cd_faults (env_dir e) = [] →
  cd_entries (env_dir e) !! acc_tokenFile a ≠ Some SubDir → ∃ e', saveUnsafe (a, e) = (inr tt, (loaded a, e')) ∧ saved_as a e e'.
Proof.
  intros Hk Hf Hd. destruct e as [k d w]. cbn [env_dir] in *.
  assert (HS1 : ∃ k1, save_refresh (a, mkEnv k d w) = (loaded a, mkEnv k1 d w) ∧
    (∀ u, u ≠ (keyringKeys (acc_Name a)).1 → keyring_token u k1 = keyring_token u k) ∧
    keyring_token (keyringKeys (acc_Name a)).1 k1 = (if decide (acc_RefreshToken a = "") then keyring_token (keyringKeys (acc_Name a)).1 k else acc_RefreshToken a)).
  { unfold save_refresh. cbn [set_lastKeyringErr acc_RefreshToken acc_keyring acc_Name]. case_decide; [by exists k|].
    rewrite Hk. cbn [negb]. unfold on_keyring. cbn [env_keyring env_dir env_net].
    destruct (keyring_set keyringService (keyringKeys (acc_Name a)).1 (acc_RefreshToken a) k) as (k1 & -> & Hg & Ho).
    exists k1. split_and!; [done| |by apply token_set]. intros u Hu. by apply token_same, Ho. }
  destruct HS1 as (k1 & E1 & Ho1 & Hr1).
  assert (HS2 : ∃ k2, save_access (loaded a) (mkEnv k1 d w) = mkEnv k2 d w ∧
    (∀ u, u ≠ (keyringKeys (acc_Name a)).2 → keyring_token u k2 = keyring_token u k1) ∧
    keyring_token (keyringKeys (acc_Name a)).2 k2 = (if decide (acc_AccessToken a = "") then keyring_token (keyringKeys (acc_Name a)).2 k1 else acc_AccessToken a)).
  { unfold save_access. change (acc_AccessToken (loaded a)) with (acc_AccessToken a). change (acc_keyring (loaded a)) with (acc_keyring a).
    change (acc_Name (loaded a)) with (acc_Name a).
    destruct (decide (acc_AccessToken a = "")); [by exists k1|].
    rewrite Hk. cbn [negb]. unfold on_keyring. cbn [env_keyring env_dir env_net].
    destruct (keyring_set keyringService (keyringKeys (acc_Name a)).2 (acc_AccessToken a) k1) as (k2 & -> & Hg & Ho).
    exists k2. split_and!; [done| |by apply token_set]. intros u Hu. by apply token_same, Ho. }
  destruct HS2 as (k2 & E2 & Ho2 & Hr2).
  unfold saveUnsafe. rewrite E1, E2. unfold on_dir, os_WriteFile, next_fault. cbn [env_dir loaded set_lastKeyringErr acc_tokenFile].
  rewrite Hf. pose proof (keys_differ (acc_Name a)) as Hkd.
  exists (mkEnv k2 (put_entry (acc_tokenFile a) (JsonFile (Some (enc_accountJSON (toJSON a)))) d) w).
  split; [by destruct (cd_entries d !! acc_tokenFile a) as [[|]|]|].
  unfold saved_as. cbn [env_dir env_keyring put_entry cd_entries cd_faults]. split_and!; [done|done| | |].
  - intros u Hu. rewrite Ho2, Ho1 by set_solver. done.
  - by rewrite Ho2.
  - rewrite Hr2. destruct (decide (acc_AccessToken a = "")); [|done]. by apply Ho1.
Qed.

(** *** What every operation keeps *)

Lemma apart_sym n1 n2 : apart n1 n2 → apart n2 n1.
Proof. intros [Hf Hk]. split; [done|]. intros u1 u2 Hu1 Hu2 E. by apply (Hk u2 u1). Qed.
Lemma kept_frame n n' a (e e' : Env K W) f x : kept n' a e → apart n' n → f = getAccountFilePath n →
  (cd_entries (env_dir e') = <[f := x]> (cd_entries (env_dir e)) ∨ cd_entries (env_dir e') = delete f (cd_entries (env_dir e))) →
  (∀ u, u ∉ [(keyringKeys n).1; (keyringKeys n).2] → keyring_token u (env_keyring e') = keyring_token u (env_keyring e)) →
  kept n' a e'.
Proof.
  intros (Hn & Hf & Hkr & Hok & Hd & Hof & Hr & Hacc) [Hne Hkeys] -> He Hu. split_and!; [done..| | |].
  - unfold on_file in *. rewrite Hf in *. destruct He as [-> | ->]; [by rewrite lookup_insert_ne|by rewrite lookup_delete_ne].
  - rewrite <-Hr. apply Hu. intros Hin. by apply (Hkeys (keyringKeys n').1 (keyringKeys n').1); [left|..].
  - rewrite <-Hacc. apply Hu. intros Hin. by apply (Hkeys (keyringKeys n').2 (keyringKeys n').2); [right; left|..].
Qed.
Lemma stored_insert m (e e' : Env K W) n a : stored (m, e) → kept n a e' → cd_faults (env_dir e') = [] →
  cd_entries (env_dir e') = <[getAccountFilePath n := JsonFile (Some (enc_accountJSON (toJSON a)))]> (cd_entries (env_dir e)) →
  (∀ u, u ∉ [(keyringKeys n).1; (keyringKeys n).2] → keyring_token u (env_keyring e') = keyring_token u (env_keyring e)) →
  (∀ n', is_Some (m_accounts m !! n') → n' ≠ n → apart n' n) →
  stored (set_accounts (<[n := a]>) m, e').
Proof.
  intros Hs Hk Hnf He Hu Hap. split; cbn [fst snd m_keyring m_accounts set_accounts].
  - apply (stored_keyring _ Hs).
  - done.
  - intros n' a'. destruct (decide (n' = n)) as [->|Hne]; [rewrite lookup_insert_eq; by intros [= <-]|].
    rewrite lookup_insert_ne by done. intros Ha'. eapply kept_frame; [by apply (stored_kept _ Hs)|by apply Hap|done|by left|done].
  - intros f x. rewrite He. destruct (decide (f = getAccountFilePath n)) as [->|Hne].
    + rewrite lookup_insert_eq. intros [= <-] _. exists n, a. rewrite lookup_insert_eq. by destruct Hk as (_ & -> & _).
    + rewrite lookup_insert_ne by done. intros Hf Hsuf. destruct (stored_files _ Hs f x Hf Hsuf) as (n' & a' & Ha' & Hfile & Hx).
      exists n', a'. split_and!; [|done..]. rewrite lookup_insert_ne; [done|]. intros ->.
      destruct (stored_kept _ Hs _ _ Ha') as (_ & Hfile' & _). congruence.
  - intros n1 n2 a1 a2. destruct (decide (n1 = n)) as [->|], (decide (n2 = n)) as [->|]; intros Hl1 Hl2 Hne; [done|..].
    + rewrite lookup_insert_ne in Hl2 by done. apply apart_sym, Hap; [by eexists|done].
    + rewrite lookup_insert_ne in Hl1 by done. apply Hap; [by eexists|done].
    + rewrite lookup_insert_ne in Hl1, Hl2 by done. by apply (stored_apart _ Hs n1 n2 a1 a2).
Qed.

Lemma stored_not_dir (s : @MS K W) n : stored s → cd_entries (env_dir s.2) !! getAccountFilePath n ≠ Some SubDir.
Proof. intros Hs E. destruct (stored_files _ Hs _ _ E (json_suffix n)) as (? & ? & _ & _ & ?). done. Qed.
Lemma stored_others (s : @MS K W) n a : stored s → m_accounts s.1 !! n = Some a →
  ∀ n', is_Some (m_accounts s.1 !! n') → n' ≠ n → apart n' n.
Proof. intros Hs Ha n' [a' Ha'] Hne. by apply (stored_apart _ Hs n' n a' a). Qed.

(** Saving an account and registering it. *)
Lemma stored_save m (e e' : Env K W) n a : stored (m, e) → saved_as a e e' → acc_Name a = n → acc_keyring a = true →
  acc_tokenFile a = getAccountFilePath n → account_ok (toJSON a) → ApplyDefaults (acc_Config a) = (None, acc_Config a) →
  (acc_RefreshToken a = "" → keyring_token (keyringKeys n).1 (env_keyring e) = "") →
  (acc_AccessToken a = "" → keyring_token (keyringKeys n).2 (env_keyring e) = "") →
  (∀ n', is_Some (m_accounts m !! n') → n' ≠ n → apart n' n) →
  stored (set_accounts (<[n := loaded a]>) m, e').
Proof.
  intros Hs (He & Hnf & Hu & Hr & Hacc) Hn Hkr Hf Hok Hd Hr0 Ha0 Hap. rewrite Hn, Hf in *.
  apply (stored_insert m e e'); [done| |done|exact He|done|done]. split_and!; [done..| | |].
  - unfold on_file. change (acc_tokenFile (loaded a)) with (acc_tokenFile a). rewrite Hf, He. apply lookup_insert_eq.
  - rewrite Hr. destruct (decide (acc_RefreshToken a = "")) as [E|]; [rewrite Hr0 by done; by rewrite <-E|done].
  - rewrite Hacc. destruct (decide (acc_AccessToken a = "")) as [E|]; [rewrite Ha0 by done; by rewrite <-E|done].
Qed.

(** The account of [n] changes, its file does not. *)
Lemma stored_update m (e e' : Env K W) n a a' : stored (m, e) → m_accounts m !! n = Some a → kept n a' e' →
  env_dir e' = env_dir e →
  (∀ u, u ∉ [(keyringKeys n).1; (keyringKeys n).2] → keyring_token u (env_keyring e') = keyring_token u (env_keyring e)) →
  stored (set_accounts (<[n := a']>) m, e').
Proof.
  intros Hs Ha Hk Hd Hu. apply (stored_insert m e e'); [done|done| | |done|by apply (stored_others (m, e) n a)].
  - rewrite Hd. apply (stored_faults _ Hs).
  - rewrite Hd, insert_id; [done|]. destruct Hk as (_ & <- & _ & _ & _ & Hof & _). unfold on_file in Hof. by rewrite Hd in Hof.
Qed.

Lemma token_delete u (k : K) : ∃ r k', keyring_Delete keyringService u k = (r, k') ∧ keyring_token u k' = "" ∧
  (∀ u', u' ≠ u → keyring_token u' k' = keyring_token u' k) ∧ (keyring_token u k ≠ "" → r = inr tt).
Proof.
  destruct (keyring_Get keyringService u k) as [e|t] eqn:E.
  - destruct (keyring_delete_none keyringService u k e E) as (r & k' & Ek & Hg). exists r, k'. split_and!; [done| | |].
    + unfold keyring_token. by rewrite Hg, E.
    + intros u' _. apply token_same, Hg.
    + unfold keyring_token. by rewrite E.
  - destruct (keyring_delete keyringService u k t E) as (k' & e & Ek & Hg & Ho). exists (inr tt), k'. split_and!; [done| |intros u' Hu'; by apply token_same, Ho|done].
    unfold keyring_token. by rewrite Hg.
Qed.

Lemma stored_purge m (e : Env K W) n a : stored (m, e) → m_accounts m !! n = Some a → acc_RefreshToken a ≠ "" →
  stored (let '(a', e') := purgeInvalidRefreshTokenLocked (a, e) in (set_accounts (<[n := a']>) m, e')).
Proof.
  intros Hs Ha Hne. destruct (stored_kept _ Hs n a Ha) as (Hn & Hf & Hkr & Hok & Hd & Hof & Hr & Hacc).
  destruct e as [k d w]. cbn [snd env_keyring env_dir] in *.
  unfold purgeInvalidRefreshTokenLocked. cbn [acc_keyring acc_Name set_tokens]. rewrite Hkr, Hn. cbn [negb].
  unfold on_keyring. cbn [env_keyring env_dir env_net].
  destruct (token_delete (keyringKeys n).1 k) as (r1 & k1 & -> & Ht1 & Ho1 & Hr1). rewrite Hr1 by congruence.
  cbn [env_keyring env_dir env_net].
  destruct (token_delete (keyringKeys n).2 k1) as (r2 & k2 & -> & Ht2 & Ho2 & _). cbn [snd].
  apply (stored_update m (mkEnv k d w) _ n a); [done|done| |done|].
  - split_and!; cbn [acc_Name acc_tokenFile acc_keyring acc_Config acc_RefreshToken acc_AccessToken env_keyring];
      [done..| |by rewrite Ht2]. rewrite Ho2; [done|apply keys_differ].
  - intros u Hu. cbn [env_keyring]. rewrite Ho2, Ho1; [done|set_solver..].
Qed.

Lemma stored_taken m (e : Env K W) n a t r a' e' : stored (m, e) → m_accounts m !! n = Some a → acc_RefreshToken a ≠ "" →
  tk_Access t ≠ "" → refresh_taken t (a, e) = (r, (a', e')) → stored (set_accounts (<[n := a']>) m, e').
Proof.
  intros Hs Ha Hne Hta. destruct (stored_kept _ Hs n a Ha) as (Hn & Hf & Hkr & Hok & Hd & _). unfold refresh_taken.
  set (a1 := set_tokens _ _ _ a).
  destruct (save_spec a1 e) as (e1 & Es & Hsaved); [exact Hkr|apply (stored_faults _ Hs)| |].
  { change (acc_tokenFile a1) with (acc_tokenFile a). rewrite Hf. apply (stored_not_dir _ n Hs). }
  rewrite Es. intros [= _ <- <-]. apply (stored_save m e e1); [done|done|exact Hn|exact Hkr|exact Hf| |exact Hd| |done|by apply (stored_others (m, e) n a)].
  - destruct Hok as (? & ? & ? & _). split_and!; [done..|]. apply i64_range.
  - intros E. unfold a1 in E. cbn [set_tokens acc_RefreshToken] in E. by case_decide.
Qed.

Lemma stored_token m (e : Env K W) n a r a' e' : stored (m, e) → m_accounts m !! n = Some a → acc_RefreshToken a ≠ "" →
  GetAccessToken (a, e) = (r, (a', e')) → stored (set_accounts (<[n := a']>) m, e').
Proof.
  intros Hs Ha Hne. pose proof (stored_kept _ Hs n a Ha) as Hk. cbn [snd] in Hk.
  assert (Hsame : ∀ w, stored (set_accounts (<[n := a]>) m, mkEnv (env_keyring e) (env_dir e) w)).
  { intros w. by apply (stored_update m e _ n a a). }
  assert (Hnet : ∀ w, stored (m, mkEnv (env_keyring e) (env_dir e) w)).
  { intros w. specialize (Hsame w). unfold set_accounts in Hsame. rewrite insert_id in Hsame by done. by destruct m. }
  assert (He : e = mkEnv (env_keyring e) (env_dir e) (env_net e)) by (by destruct e).
  unfold GetAccessToken, Refresh, se_bind.
  destruct (valid_tokens a _); [intros [= _ <- <-]; rewrite He; apply Hsame|].
  destruct (post_form _ _) as [?|req]; [intros [= _ <- <-]; rewrite He; apply Hsame|].
  unfold on_world. destruct (io_Do httpClient req (env_net e)) as [[err|resp] w].
  { cbn [IsOffline orb]. case_decide; intros [= _ <- <-]; apply Hsame. }
  unfold refresh_response. destruct (ReadAll (resp_Body resp)); [intros [= _ <- <-]; apply Hsame|].
  destruct (400 <=? resp_StatusCode resp).
  { unfold refresh_refused. destruct (_ || _); intros Hp; [|simplify_eq; apply Hsame].
    pose proof (stored_purge m _ n a (Hnet w) Ha Hne) as Hpg. destruct (purgeInvalidRefreshTokenLocked _) as [a1 e1]. by simplify_eq. }
  destruct (Unmarshal _ _ _) as [?|t]; [intros [= _ <- <-]; apply Hsame|].
  case_decide as Eacc; [intros [= _ <- <-]; apply Hsame|].
  destruct (refresh_taken t _) as [r1 [a1 e1]] eqn:Et. pose proof (stored_taken m _ n a t r1 a1 e1 (Hnet w) Ha Hne Eacc Et).
  destruct r1; intros [= _ <- <-]; done.
Qed.

Lemma stored_remove m (e : Env K W) n r m' e' : stored (m, e) → RemoveAccount n (m, e) = (r, (m', e')) → stored (m', e').
Proof.
  intros Hs. unfold RemoveAccount. destruct (m_accounts m !! n) as [a|] eqn:Ha; [|by intros [= _ <- <-]].
  destruct (stored_kept _ Hs n a Ha) as (Hn & Hf & Hkr & Hok & Hd & Hof & Hr & Hacc). pose proof (stored_faults _ Hs) as Hnf.
  destruct e as [k d w]. unfold on_file in Hof. cbn [snd env_keyring env_dir] in *. unfold on_keyring. cbn [env_keyring env_dir env_net].
  destruct (token_delete (keyringKeys n).1 k) as (r1 & k1 & -> & _ & Ho1 & _). cbn [snd env_keyring env_dir env_net].
  destruct (token_delete (keyringKeys n).2 k1) as (r2 & k2 & -> & _ & Ho2 & _). cbn [snd].
  unfold on_dir, os_Remove, next_fault. cbn [env_dir]. rewrite Hnf, Hof. cbn [env_keyring env_net]. intros [= _ <- <-].
  split; cbn [fst snd m_keyring m_accounts set_accounts env_dir env_keyring cd_entries cd_faults].
  - apply (stored_keyring _ Hs).
  - exact Hnf.
  - intros n' a' [Hne Ha']%lookup_delete_Some. eapply (kept_frame n n' a' _ _ _ SubDir);
      [by apply (stored_kept _ Hs)|apply (stored_apart _ Hs n' n a' a); [done..|congruence]|reflexivity| |].
    + right. cbn [env_dir cd_entries snd]. by rewrite Hf.
    + intros u Hu. cbn [env_keyring snd]. rewrite Ho2, Ho1; [done|set_solver..].
  - intros f x [Hnf' Hx]%lookup_delete_Some Hsuf. destruct (stored_files _ Hs f x Hx Hsuf) as (n' & a' & Ha' & Hfile & Hx').
    exists n', a'. split_and!; [|done..]. rewrite lookup_delete_ne; [done|]. intros ->. cbn [fst] in Ha'. congruence.
  - intros n1 n2 a1 a2 [_ Hl1]%lookup_delete_Some [_ Hl2]%lookup_delete_Some. by apply (stored_apart _ Hs n1 n2 a1 a2).
Qed.

Lemma exchange_tokens config code v (w w' : W) t :
  exchangeCodeForTokens config code v w = (inr t, w') → tk_Access t ≠ "" ∧ tk_Refresh t ≠ "".
Proof.
  unfold exchangeCodeForTokens. destruct (post_form _ _); [done|]. destruct (io_Do _ _ _) as [[?|resp] ?]; [done|].
  intros [= E _]. revert E. unfold exchange_response. destruct (ReadAll _); [done|]. destruct (negb _); [by destruct (Unmarshal _ _ _)|].
  destruct (Unmarshal _ _ _) as [?|t']; [done|]. destruct (_ || _) eqn:Eo; [done|]. intros [= <-].
  by apply orb_false_iff in Eo as [?%bool_decide_eq_false ?%bool_decide_eq_false].
Qed.

Lemma stored_add cli (ctx : Ctx W) config li m (e : Env K W) a m' e' :
  stored (m, e) → AddAccount cli ctx config li (m, e) = (inr a, (m', e')) → account_ok (toJSON a) →
  (∀ n', is_Some (m_accounts m !! n') → n' ≠ acc_Name a → apart n' (acc_Name a)) → stored (m', e').
Proof.
  intros Hs. unfold AddAccount. destruct (ApplyDefaults config) as [[?|] config'] eqn:Ed; [done|].
  destruct (newAuthSession _ _) as [?|session]; [done|]. destruct (login_code _ _ _) as [?|code]; [done|].
  unfold on_world. destruct (exchangeCodeForTokens _ _ _ _) as [[?|t] w] eqn:Ex; [done|]. cbn [env_keyring env_dir env_net].
  destruct (GetUser _ _ _ _) as [[?|user] w']; [done|]. set (e1 := mkEnv _ _ w'). unfold register. set (a0 := mkAccount _ _ _ _ _ _ _ _ _).
  assert (Hs1 : stored (m, e1)).
  { destruct Hs as [H1' H2' H3' H4' H5']. by split. }
  destruct (exchange_tokens _ _ _ _ _ _ Ex) as [Hta Htr].
  destruct (save_spec a0 e1) as (e2 & Es & Hsaved); [exact (stored_keyring _ Hs)|exact (stored_faults _ Hs1)|exact (stored_not_dir _ _ Hs1)|].
  rewrite Es. intros [= <- <- <-] Hok Hap.
  apply (stored_save m e1 e2 (acc_Name a0) a0); [done|done|done|exact (stored_keyring _ Hs)|done|exact Hok|exact (ApplyDefaults_again _ _ Ed)|done|done|exact Hap].
Qed.

(** What a process does with its accounts, the rest of the world moving on.
    Names that share a file or a keyring key are not added; an account whose
    tokens were purged is only good for a new login. *)
Inductive auth_step : @MS K W → @MS K W → Prop :=
  | auth_add cli ctx config li m e a m' e' :
      AddAccount cli ctx config li (m, e) = (inr a, (m', e')) → account_ok (toJSON a) →
      (∀ n', is_Some (m_accounts m !! n') → n' ≠ acc_Name a → apart n' (acc_Name a)) → auth_step (m, e) (m', e')
  | auth_token n a m e r a' e' :
      m_accounts m !! n = Some a → acc_RefreshToken a ≠ "" → GetAccessToken (a, e) = (r, (a', e')) →
      auth_step (m, e) (set_accounts (<[n := a']>) m, e')
  | auth_remove n m e r m' e' : RemoveAccount n (m, e) = (r, (m', e')) → auth_step (m, e) (m', e')
  | auth_world m k d w w' : auth_step (m, mkEnv k d w) (m, mkEnv k d w').

Lemma stored_step s s' : stored s → auth_step s s' → stored s'.
Proof.
  intros Hs Hstep. destruct Hstep as [cli ctx config li m e a m' e' E Hok Hap|n a m e r a' e' Ha Hne E|n m e r m' e' E|m k d w w'].
  - by eapply stored_add.
  - by eapply stored_token.
  - by eapply stored_remove.
  - destruct Hs. by split.
Qed.

(** C16: The accounts survive a restart. From an empty configuration, whatever the
    process does, adding accounts, handing out tokens with every outcome of their
    renewal, removing accounts, a new process on the same configuration directory
    and keyring has exactly its accounts, with their names, configuration, mount
    preferences, expiry and both tokens; a purged or removed session does not come
    back. (The directory can be written, the keyring works, and no two names share
    a file or a key.) *)
Theorem accounts_survive_restart k w s s' :
  NewManagerWithDeps (mkEnv k (mkConfigDir ∅ []) w) = (inr tt, s) → rtc auth_step s s' →
  ∃ m', NewManagerWithDeps s'.2 = (inr tt, (m', s'.2)) ∧ m_accounts m' = set_lastKeyringErr None <$> m_accounts s'.1.
Proof.
  intros Hnew Hr. apply load_stored, (rtc_invariant auth_step stored s s'); [apply stored_step| |exact Hr].
  assert (Hs0 : s = (mkManager ∅ true, mkEnv k (mkConfigDir ∅ []) w)) by (by injection Hnew as <-). subst s. split; try done.
Qed.
End restart.

(** ** On an example machine *)

#[local] Instance MapKeyring : Keyring (gmap (string * string) string) := {
  keyring_Get svc u k := match k !! (svc, u) with Some t => inr t | None => inl (EMsg "secret not found in keyring") end;
  keyring_Set svc u p k := (inr tt, <[(svc, u) := p]> k);
  keyring_Delete svc u k := match k !! (svc, u) with
                            | Some _ => (inr tt, delete (svc, u) k)
                            | None => (inl (EMsg "secret not found in keyring"), k)
                            end;
}.
#[local] Instance MapKeyring_laws : KeyringLaws (gmap (string * string) string).
Proof.
  split; cbn [keyring_Get keyring_Set keyring_Delete MapKeyring].
  - intros svc u p k. exists (<[(svc, u) := p]> k). rewrite lookup_insert_eq. split_and!; [done..|].
    intros u' Hu. by rewrite lookup_insert_ne by congruence.
  - intros svc u k t. destruct (k !! (svc, u)) eqn:E; [|done]. intros _. exists (delete (svc, u) k). rewrite lookup_delete_eq.
    eexists. split_and!; [done..|]. intros u' Hu. by rewrite lookup_delete_ne by congruence.
  - intros svc u k e. destruct (k !! (svc, u)); [done|]. intros _. by eexists _, k.
Qed.
#[local] Instance FillMergo : Mergo := λ c d,
  (None, mkAuthConfig (fill (ClientID c) (ClientID d)) (fill (CodeURL c) (CodeURL d))
           (fill (TokenURL c) (TokenURL d)) (fill (RedirectURL c) (RedirectURL d))).
#[local] Instance FillMergo_laws : MergoLaws.
Proof. by intros c d. Qed.
#[local] Instance ZeroSHA : SHA256 := λ _, replicate 32 0.

(** A network that gives its answers in turn. *)
Record Script := mkScript { sc_answers : list (error + Response); sc_now : Time }.
#[local] Instance ScriptWorld : World Script := {
  raw_do _ _ w := match sc_answers w with
                  | r :: rs => (r, O, mkScript rs (sc_now w))
                  | [] => (inl (ENet true "i/o timeout"), O, w)
                  end;
  time_Sleep d w := mkScript (sc_answers w) (sc_now w + d);
  go_spawn f w := f w;
}.
#[local] Instance ScriptClock : Clock Script := sc_now.

Definition answer (code : Z) (j : json) : error + Response := inr (mkResponse code ∅ (mkBody [] None (Some j) false)).
Definition tokens_json (access refresh : string) (expires : Z) : json :=
  JObj [("access_token", JStr access); ("refresh_token", JStr refresh); ("expires_in", JNum expires)].
Definition login_world : Script :=
  mkScript [answer 200 (tokens_json "A" "R" 3600); answer 200 (JObj [("id", JStr "1"); ("userPrincipalName", JStr "ana@example.com")])]
    (1000 * Second).
(** The state of the login is "AQID"; another page tries to hand over its code first. *)
Definition example_login : LoginInput :=
  mkLoginInput (inr [1; 2; 3]) (inr [4; 5; 6]) None
    [Requested (mkCallback "guess" "evil" ""); Requested (mkCallback "AQID" "good" "")] true None.
Definition empty_env : Env (gmap (string * string) string) Script := mkEnv ∅ (mkConfigDir ∅ []) login_world.

Lemma code_belongs_to_login_witness :
  ∃ a s', AddAccount (NewClient []) Background zero_AuthConfig example_login (mkManager ∅ true, empty_env) = (inr a, s') ∧
    acc_Name a = "ana@example.com" ∧
    ∃ session code, newAuthSession (li_state example_login) (li_verifier example_login) = inr session ∧
      own_callback session example_login code ∧ code ≠ "" ∧ acc_AccessToken a = "A".
Proof.
  destruct (AddAccount (NewClient []) Background zero_AuthConfig example_login (mkManager ∅ true, empty_env)) as [[err|a] s'] eqn:E;
    [apply (f_equal fst) in E; vm_compute in E; discriminate|].
  assert (Ha : acc_Name a = "ana@example.com" ∧ acc_AccessToken a = "A").
  { apply (f_equal fst) in E. vm_compute in E. injection E as <-. by split. }
  destruct (code_belongs_to_login (NewClient []) Background zero_AuthConfig example_login _ _ _ ltac:(by intros [|??] Hb) E) as (c' & session & code & t & _ & Hs & Hne & Hown & _).
  exists a, s'. split; [done|]. split; [apply Ha|]. exists session, code. split_and!; [done| |done|apply Ha].
  destruct Hown as [[_ Hown]|(line & _ & _ & Hline & _)]; [exact Hown|discriminate].
Defined.

(** An account is added, its token expires and is renewed with a new refresh token:
    the next process has the new tokens. *)
Definition renewal_world (now : Time) : Script := mkScript [answer 200 (tokens_json "A2" "R2" 3600)] now.
Abbreviation ExEnv := (Env (gmap (string * string) string) Script).
Definition ana : Account :=
  mkAccount true "ana@example.com" (mkAuthConfig authClientID authCodeURL authTokenURL authRedirectURL) zero_Persisted 4600 "A" "R"
    "ana_example_com.json" None.
Definition ana_renewed : Account := set_tokens "A2" "R2" 9000 ana.
Definition ana_env (a : Account) (w : Script) : ExEnv :=
  mkEnv (<[("onecloudriver", "onecloudriver:access:ana@example.com") := acc_AccessToken a]>
           {[ ("onecloudriver", "onecloudriver:ana@example.com") := acc_RefreshToken a ]})
        (mkConfigDir {[ "ana_example_com.json" := JsonFile (Some (enc_accountJSON (toJSON a))) ]} []) w.
Definition ana_only (a : Account) : Manager := mkManager {[ "ana@example.com" := a ]} true.

Example ana_added : AddAccount (NewClient []) Background zero_AuthConfig example_login (mkManager ∅ true, empty_env)
  = (inr ana, (ana_only ana, ana_env ana (mkScript [] (1000 * Second)))).
Proof. vm_cast_no_check (eq_refl (@inr error Account ana, (ana_only ana, ana_env ana (mkScript [] (1000 * Second))))). Qed.
Example ana_token : GetAccessToken (ana, ana_env ana (renewal_world (5400 * Second)))
  = (inr "A2", (ana_renewed, ana_env ana_renewed (mkScript [] (5400 * Second)))).
Proof. vm_cast_no_check (eq_refl (@inr error string "A2", (ana_renewed, ana_env ana_renewed (mkScript [] (5400 * Second))))). Qed.

Lemma accounts_survive_restart_witness :
  ∃ m (s' : @MS (gmap (string * string) string) Script), NewManagerWithDeps s'.2 = (inr tt, (m, s'.2)) ∧
    m_accounts m = {[ "ana@example.com" := ana_renewed ]}.
Proof.
  edestruct (accounts_survive_restart (K := gmap (string * string) string) ∅ login_world) as (m' & Hm & Hacc).
  - reflexivity.
  - eapply rtc_l; [eapply (auth_add _ _ _ _ _ _ _ _ _ ana_added)| ].
    + split_and!; vm_compute; (reflexivity || done).
    + intros n' [? Hn']. done.
    + eapply rtc_l; [apply (auth_world _ _ _ _ (renewal_world (5400 * Second)))|].
      eapply rtc_l; [eapply (auth_token "ana@example.com" ana); [reflexivity|done|exact ana_token]|apply rtc_refl].
  - eexists m', _. split; [exact Hm|]. rewrite Hacc. vm_compute. reflexivity.
Defined.

(** ** What the renewal does not protect against *)

(** The endpoint rotates the refresh token, the keyring takes the new one, and the
    file cannot be written: the memory goes back to the old token. It is dead for
    the endpoint, and the next renewal then purges the new one from the keyring. *)
Definition dead_answer : error + Response := answer 400 (JObj [("error", JStr "invalid_grant")]).
Example rollback_loses_session :
  let e := ana_env ana (mkScript [answer 200 (tokens_json "A2" "R2" 3600); dead_answer] (5400 * Second)) in
  let e := mkEnv (env_keyring e) (mkConfigDir (cd_entries (env_dir e)) [Some (EErrno ENOSPC, false)]) (env_net e) in
  let key := (keyringKeys "ana@example.com").1 in
  let s1 := (GetAccessToken (ana, e)).2 in
  let s2 := (GetAccessToken s1).2 in
  (acc_RefreshToken s1.1, keyring_token key (env_keyring s1.2), keyring_token key (env_keyring s2.2)) = ("R", "R2", "").
Proof. vm_compute. reflexivity. Qed.

(** Two names share a file: the second account overwrites the first. *)
Example file_names_collide : getAccountFilePath "a.b@example.com" = getAccountFilePath "a_b@example.com".
Proof. vm_compute. reflexivity. Qed.

(** The query of a pasted URL, and the addresses a redirect may have. *)
Example query_example : query_Get "http://localhost:9090/callback?code=M.C5%20x&state=s%2Bt#_=_" "code" = "M.C5 x".
Proof. vm_compute. reflexivity. Qed.
Example loopback_examples :
  (λ h, bool_decide (requireLoopbackRedirect h = None)) <$>
    ["localhost:9090"; "127.0.0.1:80"; "[::1]:9090"; "[::ffff:127.0.0.1]"; "192.168.1.7:9090"; "localhost.example.com"; "127.0.0.256"; "[::2]"]
  = [true; true; true; true; false; false; false; false].
Proof. vm_compute. reflexivity. Qed.
Example TrimSpace_example : TrimSpace " a b
 " = "a b".
Proof. vm_compute. reflexivity. Qed.
Example secureString_examples : secureString <$> [""; "x"; "ana@example.com"; "@x"; "token"] = ["***"; "x***"; "a****@example.com"; "@****"; "t****"].
Proof. vm_compute. reflexivity. Qed.
