(* ===== verification/MountTheorems.v ===== *)
(** What mounting guarantees: the pre-warming of the metadata cache ends and
    lists what it promises, a mount that is stopped and started again finds its
    tree, its delta link and its pending uploads, and the preferences of a
    mount are those of the next one. *)

From S2P Require Import AuthTheorems GraphTheorems Mount Remote CacheProofs CacheTheorems UploadPersist UploadRetry UploadTheorems UploadPublish DeltaTheorems.

#[local] Open Scope Z_scope.

(** ** Pre-warming: every walk ends *)

Section walk.
Context {W : Type} `{Clock W}.
Context (ctx : Ctx W) (fetcher : ChildrenFetcher W) (range : nat → gmap string N → list N) (depth : Z).
Implicit Types (q : list (string * Z)) (s : W * InodeCache).

(** The queue the turn that lists [id] leaves. *)
Definition subfolders_of (n : nat) (level : Z) (r : error + gmap string N) (c : InodeCache) : list (string * Z) :=
  match r with
  | inl _ => []
  | inr children =>
      if level <? depth then
        omap (λ l, if IsDir (deref c l) then Some (ID (deref c l), level + 1) else None) (range n children)
      else []
  end.

Lemma preWarm_turn fuel id level q visited s :
  ctx s.1 = None → id ∉ visited →
  preWarm_loop (S fuel) ctx fetcher range depth ((id, level) :: q) visited s =
  let '(r, s') := PrefetchChildren id (Some fetcher) s in
  preWarm_loop fuel ctx fetcher range depth (q ++ subfolders_of (S (length visited)) level r s'.2) (id :: visited) s'.
Proof.
  intros Hc Hn. cbn [preWarm_loop]. rewrite Hc, bool_decide_eq_false_2 by done. cbn zeta.
  destruct (PrefetchChildren id (Some fetcher) s) as [[e|m] s']; [|done]. simpl. by rewrite app_nil_r.
Qed.

Definition ends q visited s : Prop := ∃ fuel r, preWarm_loop fuel ctx fetcher range depth q visited s = Some r.

Lemma ends_turn id level q visited s :
  (∀ q' visited' s', q' = q ∨ (level < depth ∧ ∃ sub, q' = q ++ sub ∧ Forall (λ x, x.2 = level + 1) sub) →
     ends q' visited' s') →
  ends ((id, level) :: q) visited s.
Proof.
  intros Hnext. destruct (ctx s.1) as [e|] eqn:Hc.
  { exists 1%nat. eexists. simpl. by rewrite Hc. }
  destruct (decide (id ∈ visited)) as [Hin|Hn].
  { destruct (Hnext q visited s ltac:(by left)) as (fuel & r & E). exists (S fuel), r.
    simpl. by rewrite Hc, bool_decide_eq_true_2. }
  destruct (PrefetchChildren id (Some fetcher) s) as [r s'] eqn:Er.
  destruct (Hnext (q ++ subfolders_of (S (length visited)) level r s'.2) (id :: visited) s') as (fuel & r' & E).
  - unfold subfolders_of. destruct r as [e|m]; [left; by rewrite app_nil_r|].
    destruct (Z.ltb_spec level depth); [|left; by rewrite app_nil_r]. right. split; [done|]. eexists. split; [done|].
    apply Forall_forall. intros x (l & _ & Hx)%list_elem_of_omap. destruct (IsDir _); [|done]. by injection Hx as <-.
  - exists (S fuel), r'. rewrite preWarm_turn, Er by done. done.
Qed.

(** The walk goes level by level: by induction on the levels that remain, and
    within a level on the folders of it that are still in the queue. *)
Lemma preWarm_ends (k : nat) q visited s :
  Forall (λ x, depth - Z.of_nat k ≤ x.2) q → ends q visited s.
Proof.
  revert q visited s. induction k as [|k IHk].
  { intros q. induction q as [|[id level] q IHq]; intros visited s Hq; [by exists 1%nat; eexists|].
    apply Forall_cons in Hq as [Hl Hq]. simpl in Hl. apply ends_turn.
    intros q' visited' s' [->|[? _]]; [by apply IHq|lia]. }
  intros q visited s Hq.
  (* [a] of the first level, [b] of the next ones *)
  assert (Hsplit : ∀ a b visited s, Forall (λ x, depth - Z.of_nat (S k) ≤ x.2) a →
    Forall (λ x, depth - Z.of_nat k ≤ x.2) b → ends (a ++ b) visited s).
  { clear q visited s Hq. induction a as [|[id level] a IHa]; intros b visited s Ha Hb; [by apply IHk|].
    apply Forall_cons in Ha as [Hl Ha]. simpl in Hl. apply ends_turn.
    intros q' visited' s' [->|[_ (sub & -> & Hsub)]]; [by apply IHa|]. rewrite <-app_assoc. apply IHa; [done|].
    apply Forall_app. split; [done|]. eapply Forall_impl; [exact Hsub|]. intros x ->. lia. }
  rewrite <-(app_nil_r q). by apply Hsplit.
Qed.
End walk.

(** ** What a prefetch leaves in the cache *)

Section listing.
Implicit Types c : InodeCache.

(** The end of a population, on the inode [p] of the folder. *)
Definition finish_listing (now : Time) (p : N) (ids : list string) (m : gmap string N) (c : InodeCache) : InodeCache :=
  let wasFetched := IsChildrenFetched (deref c p) in
  let c := upd p (BumpChildrenAccess now) (upd p (SetChildren now (Some ids)) c) in
  let c := updateEvictionEntry p now (registerTTL p c) in
  let c := if wasFetched then c else addCached 1 c in
  upd p (SetSubdir (count_dirs c m)) c.

Lemma finish_listing_view now p ids m c : valid c p →
  let c' := finish_listing now p ids m c in
  inodes c' = inodes c ∧ dirty c' = dirty c ∧ deleted c' = deleted c ∧
  children (deref c' p) = Some ids ∧ ∀ l, l ≠ p → deref c' l = deref c l.
Proof.
  intros Hv. unfold finish_listing. cbn zeta.
  set (cb := upd p (BumpChildrenAccess now) (upd p (SetChildren now (Some ids)) c)).
  set (c2 := updateEvictionEntry p now (registerTTL p cb)).
  set (c3 := if IsChildrenFetched (deref c p) then c2 else addCached 1 c2).
  assert (Hvb : valid cb p) by (apply valid_upd, valid_upd; done).
  assert (Hf : inodes c2 = inodes c ∧ dirty c2 = dirty c ∧ deleted c2 = deleted c).
  { subst c2. unfold updateEvictionEntry, registerTTL. by repeat case_match. }
  assert (Hview : ∀ l, deref c3 l = deref cb l ∧ (valid c3 l ↔ valid cb l)).
  { intros l. destruct (updateEvictionEntry_view p now (registerTTL p cb) l) as (U1&_&_&U4).
    destruct (registerTTL_view p cb l) as (R1&_&_&R4).
    assert (K : deref c3 l = deref c2 l ∧ (valid c3 l ↔ valid c2 l)) by (subst c3; by destruct (IsChildrenFetched _)).
    destruct K as [-> ->]. subst c2. by rewrite U1, U4, R1, R4. }
  assert (Hf3 : inodes c3 = inodes c ∧ dirty c3 = dirty c ∧ deleted c3 = deleted c)
    by (subst c3; by destruct (IsChildrenFetched _)).
  destruct Hf3 as (E1 & E2 & E3). split_and!; [done..| |].
  - rewrite deref_upd_eq by (by apply Hview). destruct (Hview p) as [-> _]. subst cb.
    rewrite deref_upd_eq by (by apply valid_upd). by rewrite deref_upd_eq.
  - intros l Hl. rewrite deref_upd_ne by done. destruct (Hview l) as [-> _]. subst cb. by rewrite !deref_upd_ne.
Qed.

(** The inode of the folder, made when it was not cached. *)
Definition listing_inode (pid : string) (parent : option N) (c : InodeCache) : N * InodeCache :=
  match parent with
  | Some p => (p, c)
  | None =>
      let '(p, c) := alloc (inode_of_item (set_item_Folder (Some zero_Folder)
                       (set_item_Name pid (set_item_ID pid zero_DriveItem)))) c in (p, inodes_Store pid p c)
  end.
Lemma listing_inode_view pid c : cache_wf c →
  let r := listing_inode pid (Get c pid) c in
  Get r.2 pid = Some r.1 ∧ valid r.2 r.1 ∧ dirty r.2 = dirty c ∧ deleted r.2 = deleted c ∧
  ∀ x, x ≠ pid → Get r.2 x = Get c x ∧ ∀ l, Get c x = Some l → l ≠ r.1 ∧ deref r.2 l = deref c l.
Proof.
  intros Hwf. unfold listing_inode. destruct (Get c pid) as [p|] eqn:Hp; cbn zeta.
  { split_and!; [done|by apply (wf_get c pid p Hwf)|done..|]. intros x Hx. split; [done|]. intros l Hl. split; [|done].
    intros E. apply Hx, (wf_inj c _ _ p Hwf); [simpl in E; by rewrite <-E|done]. }
  set (i := inode_of_item _). destruct (alloc_spec c i) as [Hv Hd]. cbn [alloc fst snd] in *. split_and!.
  - unfold Get. simpl. by rewrite lookup_insert_eq.
  - done.
  - done.
  - done.
  - intros x Hx. unfold Get. simpl. rewrite lookup_insert_ne by done. split; [done|]. intros l Hl.
    destruct (wf_get c x l Hwf Hl) as [Hval _]. split; [intros ->; pose proof (wf_fresh c Hwf _ Hval); lia|].
    by apply (deref_alloc_old c i).
Qed.

Lemma populate_stages now pid items c :
  let '(c1, ids, m) := foldl (populate_one pid false) (c, [], ∅) items in
  Get c1 pid = Get c pid →
  populate_children now pid (Get c pid) false items c =
  let '(p, c2) := listing_inode pid (Get c1 pid) c1 in (m, finish_listing now p ids m c2).
Proof.
  unfold populate_children, listing_inode, finish_listing. destruct (foldl _ _ _) as [[c1 ids] m]. intros ->.
  by destruct (Get c pid).
Qed.

(** Prefetched: the folder lists the items, each is cached as itself, nothing
    else moves and nothing becomes dirty. *)
Lemma populate_view now pid items c :
  cache_wf c → pid ∉ item_ID <$> items → NoDup (item_ID <$> items) → NoDup (item_Name <$> items) →
  let r := populate_children now pid (Get c pid) false items c in
  (∃ p, Get r.2 pid = Some p ∧ children (deref r.2 p) = Some (item_ID <$> items)) ∧
  (∀ item, item ∈ items → ∃ l, Get r.2 (item_ID item) = Some l ∧ deref r.2 l = child_inode pid item ∧
     r.1 !! item_Name item = Some l) ∧
  (∀ n, n ∉ item_Name <$> items → r.1 !! n = None) ∧
  (∀ x, x ∉ item_ID <$> items → x ≠ pid → Get r.2 x = Get c x ∧ ∀ l, Get c x = Some l → deref r.2 l = deref c l) ∧
  dirty r.2 = dirty c ∧ deleted r.2 = deleted c.
Proof.
  intros Hwf Hpid HN1 HN2. pose proof (populate_stages now pid items c) as Hst.
  destruct (populate_loop_old pid false items c [] ∅ Hwf) as (Hold&Hids&_).
  destruct (populate_loop_new pid false items c [] ∅ Hwf HN1 HN2) as (Hnew&HG&Hm).
  pose proof (ext_populate_loop pid false items (c, [], ∅)) as Hext.
  assert (Hdd : ∀ s, dirty (foldl (populate_one pid false) s items).1.1 = dirty s.1.1 ∧
                     deleted (foldl (populate_one pid false) s items).1.1 = deleted s.1.1).
  { clear. induction items as [|it items IH]; intros s; [done|]. cbn [foldl]. destruct (IH (populate_one pid false s it)) as [-> ->].
    by destruct s as [[c ids] m]. }
  specialize (Hdd (c, [], ∅)). destruct Hdd as [D1 D2].
  cbn zeta in *. destruct (foldl _ _ items) as [[c1 ids] m]. cbn [fst snd app] in *. subst ids.
  rewrite Hst by (by apply HG). assert (Hwf1 : cache_wf c1) by (by apply Hext).
  destruct (listing_inode_view pid c1 Hwf1) as (L1 & L2 & L3 & L4 & L5).
  destruct (listing_inode pid (Get c1 pid) c1) as [p c2]. cbn [fst snd] in *.
  destruct (finish_listing_view now p (item_ID <$> items) m c2 L2) as (F1 & F2 & F3 & F4 & F5).
  assert (HG' : ∀ x, Get (finish_listing now p (item_ID <$> items) m c2) x = Get c2 x) by (intros; unfold Get; by rewrite F1).
  assert (Hchild : ∀ item, item ∈ items → item_ID item ≠ pid).
  { intros item Hin Heq. apply Hpid. rewrite <-Heq. by apply list_elem_of_fmap_2. }
  split_and!.
  - exists p. by rewrite HG'.
  - intros item Hin. destruct (Hnew item Hin) as (l & Hl & Hd & Hml). exists l.
    destruct (L5 _ (Hchild item Hin)) as [E1 E2]. destruct (E2 l Hl) as [Hne E3].
    rewrite HG', E1, F5, E3 by done. done.
  - intros n Hn. by rewrite Hm, lookup_empty.
  - intros x Hx Hne. destruct (L5 x Hne) as [E1 E2]. rewrite HG', E1, HG by done. split; [done|].
    intros l Hl. destruct (E2 l) as [Hlp E3]; [by rewrite HG|]. rewrite F5, E3 by done. apply Hold.
    by apply (wf_get c x l Hwf).
  - congruence.
  - congruence.
Qed.
End listing.

(** ** What a pre-warming has listed *)

(** The folders of a drive, with what the drive answers for each: names are
    distinct within a folder, and an item is in one folder only. *)
Record drive_tree (remote : string → error + list DriveItem) : Prop := {
  dt_ids p items : remote p = inr items → NoDup (item_ID <$> items);
  dt_names p items : remote p = inr items → NoDup (item_Name <$> items);
  dt_parent p q items items' x : remote p = inr items → remote q = inr items' →
    x ∈ item_ID <$> items → x ∈ item_ID <$> items' → p = q;
  dt_root p items : remote p = inr items → "root" ∉ item_ID <$> items;
}.

(** The folders [k] levels below the root that the drive leads to. *)
Inductive below (remote : string → error + list DriveItem) : nat → string → Prop :=
  | below_root : below remote 0 "root"
  | below_child k p items item : below remote k p → remote p = inr items → item ∈ items → IsFolder item = true →
      below remote (S k) (item_ID item).

Section warm.
Context {W : Type} `{Clock W}.
Context (remote : string → error + list DriveItem) (Htree : drive_tree remote).
Context (ctx : Ctx W) (fetcher : ChildrenFetcher W) (range : nat → gmap string N → list N) (depth : Z).
Context (Hctx : ∀ w, ctx w = None).
Context (Hfetch : ∀ id w c, ∃ w', fetcher id (w, c) = (remote id, (w', c))).
Context (Hrange : ∀ n m, range n m ≡ₚ (map_to_list m).*2).
Implicit Types c : InodeCache.

Definition child_of (p x : string) : Prop := ∃ items, remote p = inr items ∧ x ∈ item_ID <$> items.

Lemma below_inv k x : below remote k x →
  (k = 0%nat ∧ x = "root") ∨ ∃ k' p, k = S k' ∧ below remote k' p ∧ child_of p x.
Proof.
  intros [|k' p items item Hp Hr Hin _]; [by left|]. right. exists k', p. split_and!; [done..|].
  exists items. split; [done|]. by apply list_elem_of_fmap_2.
Qed.
Lemma child_not_root p : ¬ child_of p "root".
Proof. intros (items & Hr & Hin). by apply (dt_root _ Htree p items Hr). Qed.
Lemma child_parent p q x : child_of p x → child_of q x → p = q.
Proof. intros (i1 & R1 & H1) (i2 & R2 & H2). by apply (dt_parent _ Htree p q i1 i2 x). Qed.
Lemma below_level k k' x : below remote k x → below remote k' x → k = k'.
Proof.
  revert k' x. induction k as [|k IH]; intros k' x Hk Hk'.
  - destruct (below_inv _ _ Hk) as [[_ ->]|(? & ? & ? & _)]; [|done].
    destruct (below_inv _ _ Hk') as [[-> _]|(k2 & p & -> & _ & Hc)]; [done|]. by apply child_not_root in Hc.
  - destruct (below_inv _ _ Hk) as [[? _]|(k1 & p & [= <-] & Hp & Hc)]; [done|].
    destruct (below_inv _ _ Hk') as [[-> ->]|(k2 & q & -> & Hq & Hc')]; [by apply child_not_root in Hc|].
    f_equal. apply (IH _ p); [done|]. by rewrite (child_parent p q x).
Qed.

(** The folder [x] was found by the walk. *)
Definition found (visited : list string) (x : string) : Prop := x = "root" ∨ ∃ p, p ∈ visited ∧ child_of p x.

Record walking (q : list (string * Z)) (visited : list string) (c : InodeCache) : Prop := {
  wk_wf : cache_wf c;
  wk_clean : dirty c = ∅ ∧ deleted c = ∅;
  wk_nodup : NoDup visited;
  wk_listed v items : v ∈ visited → remote v = inr items →
    ∃ p, Get c v = Some p ∧ children (deref c p) = Some (item_ID <$> items);
  wk_unlisted x l : x ∉ visited → Get c x = Some l → children (deref c l) = None;
  wk_cached x : is_Some (Get c x) → found visited x ∨ x ∈ visited;
  wk_queue x level : (x, level) ∈ q → found visited x ∧ ∃ k, below remote k x ∧ level = Z.of_nat k + 1 ∧ level ≤ depth;
  wk_visited v : v ∈ visited → found visited v ∧ ∃ k, below remote k v ∧ Z.of_nat k < depth;
  wk_closed v k items item : v ∈ visited → below remote k v → Z.of_nat k + 1 < depth → remote v = inr items →
    item ∈ items → IsFolder item = true → item_ID item ∈ visited ∨ ∃ level, (item_ID item, level) ∈ q;
  wk_root : "root" ∈ visited ∨ ∃ level, ("root", level) ∈ q;
}.

Lemma found_more visited id x : found visited x → found (id :: visited) x.
Proof. intros [->|(p & Hp & Hc)]; [by left|]. right. exists p. split; [by right|done]. Qed.

(** Leaving the first folder of the queue, once visited. *)
Lemma queue_rest (id x : string) (level : Z) q (visited : list string) :
  id ∈ visited → x ∈ visited ∨ (∃ lv, (x, lv) ∈ (id, level) :: q) → x ∈ visited ∨ ∃ lv, (x, lv) ∈ q.
Proof.
  intros Hid [Hx|[lv [E|Hq]%elem_of_cons]]; [by left|injection E as -> ->; by left|right; by exists lv].
Qed.
(** A folder met again is passed over. *)
Lemma walking_again id level q visited c :
  id ∈ visited → walking ((id, level) :: q) visited c → walking q visited c.
Proof.
  intros Hid []. constructor; try done.
  - intros x l Hx. apply wk_queue0. by right.
  - intros v k items item Hv Hb Hk Hr Hin Hf. apply (queue_rest id _ level); [done|]. by eapply wk_closed0.
  - by apply (queue_rest id _ level).
Qed.

(** What the visit of a folder leaves of the queue, whatever it lists. *)
Lemma walking_queue id level q q' visited c :
  id ∉ visited → walking ((id, level) :: q) visited c →
  (∀ v, v ∈ id :: visited → found (id :: visited) v ∧ ∃ k, below remote k v ∧ Z.of_nat k < depth) ∧
  (∀ x lv, (x, lv) ∈ q → found (id :: visited) x ∧ ∃ k, below remote k x ∧ lv = Z.of_nat k + 1 ∧ lv ≤ depth) ∧
  (∀ v k items item, v ∈ visited → below remote k v → Z.of_nat k + 1 < depth → remote v = inr items →
     item ∈ items → IsFolder item = true → item_ID item ∈ id :: visited ∨ ∃ lv, (item_ID item, lv) ∈ q ++ q') ∧
  ("root" ∈ id :: visited ∨ ∃ lv, ("root", lv) ∈ q ++ q').
Proof.
  intros Hid []. destruct (wk_queue0 id level ltac:(left)) as (Hfound & k & Hb & -> & Hle).
  assert (Hrest : ∀ x, x ∈ visited ∨ (∃ lv, (x, lv) ∈ (id, Z.of_nat k + 1) :: q) →
                       x ∈ id :: visited ∨ ∃ lv, (x, lv) ∈ q ++ q').
  { intros x [Hx|[lv [E|Hq]%elem_of_cons]]; [left; by right|injection E as -> ->; left; left|].
    right. exists lv. apply elem_of_app. by left. }
  split_and!.
  - intros v [->|Hv]%elem_of_cons; [split; [by apply found_more|]; exists k; split; [done|lia]|].
    destruct (wk_visited0 v Hv). split; [by apply found_more|done].
  - intros x lv Hx. destruct (wk_queue0 x lv) as [? ?]; [by right|]. split; [by apply found_more|done].
  - intros v k' items item Hv Hb' Hk Hr Hin Hf. apply Hrest. by eapply wk_closed0.
  - by apply Hrest.
Qed.

(** A visited folder the drive does not list is left out of the cache. *)
Lemma walking_failed id level q visited c n e :
  id ∉ visited → remote id = inl e → walking ((id, level) :: q) visited c →
  walking q (id :: visited) (set_misses n c).
Proof.
  intros Hid He Hw. destruct (walking_queue id level q [] visited c Hid Hw) as (Qv & Qq & Qc & Qr).
  rewrite app_nil_r in *. destruct Hw. constructor; try done.
  - by eapply (ext_same c).
  - by apply NoDup_cons.
  - intros v items [->|Hv]%elem_of_cons Hr; [congruence|]. by apply wk_listed0.
  - intros x l [_ Hx]%not_elem_of_cons. by apply wk_unlisted0.
  - intros x Hx. destruct (wk_cached0 x Hx); [left; by apply found_more|right; by right].
  - intros v k' items item [->|Hv]%elem_of_cons Hb' Hk Hr Hin Hf; [congruence|]. by eapply Qc.
Qed.

(** The children of a folder that was not visited are new. *)
Lemma new_children id visited x :
  id ∉ visited → found visited id → (∀ v, v ∈ visited → found visited v) → child_of id x → x ≠ id ∧ x ∉ visited.
Proof.
  intros Hid Hfound Hv Hc.
  assert (Hx : ¬ found visited x).
  { intros [->|(p & Hp & Hc')]; [by apply child_not_root in Hc|]. by rewrite (child_parent p id x) in Hp. }
  split; [intros ->; by apply Hx|]. intros ?%Hv. by apply Hx.
Qed.

Lemma child_inode_IsDir id item : IsDir (child_inode id item) = IsFolder item.
Proof. unfold IsDir, child_inode. cbn zeta. by case_bool_decide. Qed.

(** What is queued: the folders of the listing, one level below. *)
Lemma subfolders_spec n level id (items : list DriveItem) (m : gmap string N) c x lv :
  (∀ item, item ∈ items → ∃ l, Get c (item_ID item) = Some l ∧ deref c l = child_inode id item ∧
     m !! item_Name item = Some l) →
  (∀ nm, nm ∉ item_Name <$> items → m !! nm = None) →
  (x, lv) ∈ subfolders_of range depth n level (inr m) c ↔
  level < depth ∧ lv = level + 1 ∧ ∃ item, item ∈ items ∧ IsFolder item = true ∧ x = item_ID item.
Proof.
  intros P3 P4. unfold subfolders_of. destruct (Z.ltb_spec level depth); [|split; [by intros ?%elem_of_nil|lia]].
  assert (Hin : ∀ l, l ∈ range n m ↔ ∃ item, item ∈ items ∧ deref c l = child_inode id item ∧ m !! item_Name item = Some l).
  { intros l. rewrite Hrange, list_elem_of_fmap. split.
    - intros ([nm l'] & -> & Hm%elem_of_map_to_list). simpl.
      destruct (decide (nm ∈ item_Name <$> items)) as [(item & -> & Hin)%list_elem_of_fmap|Hn]; [|by rewrite P4 in Hm].
      destruct (P3 item Hin) as (l2 & _ & Hd & Hl2). exists item. split; [done|]. by simplify_eq.
    - intros (item & Hin & _ & Hl). exists (item_Name item, l). split; [done|]. by apply elem_of_map_to_list. }
  rewrite list_elem_of_omap. setoid_rewrite Hin. split.
  - intros (l & (item & Hit & Hd & _) & Hx). rewrite Hd, child_inode_ID, child_inode_IsDir in Hx.
    destruct (IsFolder item) eqn:Ef; [|done]. injection Hx as <- <-. eauto 10.
  - intros (_ & -> & item & Hit & Hf & ->). destruct (P3 item Hit) as (l & _ & Hd & Hl). exists l.
    split; [by exists item|]. by rewrite Hd, child_inode_ID, child_inode_IsDir, Hf.
Qed.

(** A visited folder the drive lists, once its listing is in the cache. *)
Lemma walking_listed id level q visited c now items n :
  id ∉ visited → remote id = inr items → walking ((id, level) :: q) visited c →
  let r := populate_children now id (Get c id) false items (set_misses n c) in
  walking (q ++ subfolders_of range depth (S (length visited)) level (inr r.1) r.2) (id :: visited) r.2.
Proof.
  intros Hid Hr Hw. cbn zeta. pose proof (wk_queue _ _ _ Hw id level ltac:(left)) as (Hfound & k & Hb & Hlv & Hle).
  set (r := populate_children _ _ _ _ _ _). set (sub := subfolders_of _ _ _ _ _ _).
  destruct (walking_queue id level q sub visited c Hid Hw) as (Qv & Qq & Qc & Qr).
  assert (Hnew : ∀ x, x ∈ item_ID <$> items → x ≠ id ∧ x ∉ visited).
  { intros x Hx. apply new_children; [done|done|intros v Hv; by apply (wk_visited _ _ _ Hw)|by exists items]. }
  destruct (populate_view now id items (set_misses n c)) as ((p & P1 & P2) & P3 & P4 & P5 & P6 & P7);
    [by eapply (ext_same c), Hw|by intros [? _]%Hnew|by eapply Htree|by eapply Htree|].
  change (Get (set_misses n c)) with (Get c) in *. fold r in P1, P2, P3, P4, P5, P6, P7.
  pose proof (λ x lv, subfolders_spec (S (length visited)) level id items r.1 r.2 x lv P3 P4) as Hsub. fold sub in Hsub.
  destruct Hw. constructor; [| |by apply NoDup_cons| | | | |done| |done].
  - by apply (ext_populate now id (Get c id) false items (set_misses n c)), (ext_same c).
  - by rewrite P6, P7.
  - intros v items' [->|Hv]%elem_of_cons Hr'; [assert (items' = items) as -> by congruence; by exists p|].
    destruct (wk_listed0 v items' Hv Hr') as (l & Hl & Hc). exists l.
    destruct (P5 v) as [E1 E2]; [by intros [? ?]%Hnew|by intros ->|]. by rewrite E1, E2.
  - intros x l [Hx Hxv]%not_elem_of_cons Hl.
    destruct (decide (x ∈ item_ID <$> items)) as [(item & -> & Hit)%list_elem_of_fmap|Hni].
    + destruct (P3 item Hit) as (l' & Hl' & Hd & _). assert (l = l') as -> by congruence. rewrite Hd.
      unfold child_inode. cbn zeta. by case_bool_decide.
    + destruct (P5 x Hni Hx) as [E1 E2]. rewrite E1 in Hl. rewrite (E2 l Hl). by eapply wk_unlisted0.
  - intros x Hx. destruct (decide (x ∈ item_ID <$> items)) as [Hi|Hni].
    { left. right. exists id. split; [left|]. by exists items. }
    destruct (decide (x = id)) as [->|Hne]; [right; left|]. destruct (P5 x Hni Hne) as [E1 _]. rewrite E1 in Hx.
    destruct (wk_cached0 x Hx); [left; by apply found_more|right; by right].
  - intros x lv [Hq|Hs]%elem_of_app; [by apply Qq|]. apply Hsub in Hs as (Hlt & -> & item & Hit & Hf & ->).
    split; [right; exists id; split; [left|]; exists items; split; [done|by apply list_elem_of_fmap_2]|].
    exists (S k). split; [by eapply below_child|lia].
  - intros v k' items' item [->|Hv]%elem_of_cons Hb' Hk Hr' Hin Hf; [|by eapply Qc].
    right. exists (level + 1). apply elem_of_app. right. apply Hsub.
    assert (k' = k) as -> by (by eapply below_level). assert (items' = items) as -> by congruence. split; [lia|]. eauto.
Qed.

Lemma walking_loop fuel q visited s res :
  walking q visited s.2 → preWarm_loop fuel ctx fetcher range depth q visited s = Some res →
  ∃ visited' s', res = (None, visited', s') ∧ walking [] visited' s'.2.
Proof.
  revert q visited s. induction fuel as [|fuel IH]; intros q visited [w c] Hw; [done|]. cbn [snd] in Hw.
  destruct q as [|[id level] q]; [intros [= <-]; eauto|].
  destruct (decide (id ∈ visited)) as [Hin|Hn].
  { cbn [preWarm_loop fst]. rewrite Hctx, bool_decide_eq_true_2 by done. apply IH. by eapply walking_again. }
  rewrite preWarm_turn by done. unfold PrefetchChildren, getChildren.
  assert (Hmiss : fresh_listing (w_now w) c (Get c id) = None).
  { unfold fresh_listing. destruct (Get c id) as [l|] eqn:El; [|done]. simpl.
    unfold IsChildrenFetched. by rewrite (wk_unlisted _ _ _ Hw id l). }
  rewrite Hmiss. destruct (Hfetch id w (set_misses (u64 (misses c + 1)) c)) as (w' & ->).
  destruct (remote id) as [e|items] eqn:Er.
  - cbn [subfolders_of]. rewrite app_nil_r. apply IH. by eapply walking_failed.
  - pose proof (walking_listed id level q visited c (w_now w') items (u64 (misses c + 1)) Hn Er Hw) as Hw'.
    cbn zeta in Hw'. destruct (populate_children _ _ _ _ _ _) as [m c']. by apply IH.
Qed.

(** What [walking] says of a walk that is over: the folders at most [depth]
    levels deep were visited, once each, and no other. *)
Lemma walking_done visited c : walking [] visited c →
  ∀ k id, below remote k id → Z.of_nat k < depth → id ∈ visited.
Proof.
  intros Hw k id Hb. induction Hb as [|k p items item Hb IH Hr Hin Hf]; intros Hk.
  - destruct (wk_root _ _ _ Hw) as [|[? ?%elem_of_nil]]; done.
  - destruct (wk_closed _ _ _ Hw p k items item) as [|[? ?%elem_of_nil]]; try done; [apply IH; lia|lia].
Qed.

Lemma walking_start c : 1 ≤ depth → cache_wf c → inodes c = ∅ → dirty c = ∅ → deleted c = ∅ → walking [("root", 1)] [] c.
Proof.
  intros Hd Hwf Hi H1 H2. assert (HG : ∀ x, Get c x = None) by (intros; unfold Get; by rewrite Hi, lookup_empty).
  constructor; [done|done|constructor|..].
  - by intros v items ?%elem_of_nil.
  - intros x l _. by rewrite HG.
  - intros x [l Hl]. by rewrite HG in Hl.
  - intros x level [= -> ->]%list_elem_of_singleton. split; [by left|]. exists 0%nat. split; [constructor|lia].
  - by intros v ?%elem_of_nil.
  - by intros v k items item ?%elem_of_nil.
  - right. exists 1. left.
Qed.
End warm.

(** C32: pre-warming ends, whatever the drive answers and does to the cache
    meanwhile, in whatever order the maps are ranged over and whatever was cached
    before: the folders may name each other in circles, since no level beyond
    [depth] is queued. *)
Theorem preWarm_terminates {W} `{Clock W} ctx fetcher range depth (s : W * InodeCache) :
  ∃ fuel r, preWarm fuel ctx fetcher range depth s = Some r.
Proof.
  unfold preWarm. destruct (depth =? 0); [by exists 0%nat; eexists|].
  destruct ((depth <? 0) || (10 <? depth)) eqn:E; [by exists 0%nat; eexists|].
  apply (preWarm_ends ctx fetcher range depth (Z.to_nat depth)). apply Forall_singleton. simpl. lia.
Qed.

(** C33: On a drive whose folders form a tree and that answers a listing of the same
    folder always alike, pre-warming an empty cache to a depth of 1 to 10, as long
    as its context does not expire and nothing else changes the cache meanwhile,
    visits the folders less than [depth] levels below the root, each once and no
    other; every one of them the drive listed has its whole list in the cache,
    whatever the order in which the maps are ranged over, and nothing is marked to
    be written. (A mount gives it a context of 30 seconds; when that expires the
    rest is left out, and [preWarm_terminates] holds all the same.) *)
Theorem preWarm_warms {W} `{Clock W} remote ctx fetcher range depth (w : W) c :
  drive_tree remote → (∀ w, ctx w = None) → (∀ id w c, ∃ w', fetcher id (w, c) = (remote id, (w', c))) →
  (∀ n m, range n m ≡ₚ (map_to_list m).*2) → 1 ≤ depth ≤ 10 →
  cache_wf c → inodes c = ∅ → dirty c = ∅ → deleted c = ∅ →
  ∃ fuel visited w' c', preWarm fuel ctx fetcher range depth (w, c) = Some (None, visited, (w', c')) ∧
    NoDup visited ∧ (∀ id, id ∈ visited ↔ ∃ k, below remote k id ∧ Z.of_nat k < depth) ∧
    (∀ k id items, below remote k id → Z.of_nat k < depth → remote id = inr items →
       ∃ p, Get c' id = Some p ∧ children (deref c' p) = Some (item_ID <$> items)) ∧
    cache_wf c' ∧ dirty c' = ∅ ∧ deleted c' = ∅.
Proof.
  intros Htree Hctx Hf Hr Hd Hwf Hi H1 H2.
  destruct (preWarm_ends ctx fetcher range depth (Z.to_nat depth) [("root", 1)] [] (w, c)) as (fuel & res & E).
  { apply Forall_singleton. simpl. lia. }
  destruct (walking_loop remote Htree ctx fetcher range depth Hctx Hf Hr fuel [("root", 1)] [] (w, c) res) as (visited & [w' c'] & -> & Hw);
    [apply walking_start; (done || lia)|done|].
  exists fuel, visited, w', c'. cbn [snd] in Hw. pose proof (walking_done remote depth visited c' Hw) as Hall.
  split; [|split; [apply Hw|split; [|split; [|split; [apply Hw|apply Hw]]]]].
  - unfold preWarm. rewrite (proj2 (Z.eqb_neq depth 0)), (proj2 (Z.ltb_ge depth 0)), (proj2 (Z.ltb_ge 10 depth)) by lia. done.
  - intros id. split; [intros Hv; by apply (wk_visited _ _ _ _ _ Hw)|]. intros (k & Hb & Hk). by eapply Hall.
  - intros k id items Hb Hk Hit. apply (wk_listed _ _ _ _ _ Hw id items); [by eapply Hall|done].
Qed.

(** Two levels of a small drive: the folder "c", a level further, is not listed. *)
Definition small_drive (id : string) : error + list DriveItem :=
  if decide (id = "root") then inr [folder_item "a" "root"; file_item "f" "root"; folder_item "b" "root"]
  else if decide (id = "a") then inr [folder_item "c" "a"; file_item "g" "a"]
  else if decide (id = "b") then inl context_DeadlineExceeded
  else inr [].
Lemma small_drive_tree : drive_tree small_drive.
Proof.
  assert (Hids : ∀ p items, small_drive p = inr items →
    (p = "root" ∧ items = [folder_item "a" "root"; file_item "f" "root"; folder_item "b" "root"]) ∨
    (p = "a" ∧ items = [folder_item "c" "a"; file_item "g" "a"]) ∨ items = []).
  { intros p items. unfold small_drive. repeat case_decide; intros [= <-]; auto. }
  constructor.
  - intros p items [[_ ->]|[[_ ->]| ->]]%Hids; by apply (bool_decide_unpack _).
  - intros p items [[_ ->]|[[_ ->]| ->]]%Hids; by apply (bool_decide_unpack _).
  - intros p q i1 i2 x [[-> ->]|[[-> ->]| ->]]%Hids [[-> ->]|[[-> ->]| ->]]%Hids; cbn; set_solver.
  - intros p items [[_ ->]|[[_ ->]| ->]]%Hids; cbn; set_solver.
Qed.

Definition drive_fetcher (id : string) (s : Cloud * InodeCache) : (error + list DriveItem) * (Cloud * InodeCache) :=
  (small_drive id, s).
Definition walk_order (n : nat) (m : gmap string N) : list N := (map_to_list m).*2.

Lemma preWarm_warms_witness :
  ∃ fuel visited w' c', preWarm fuel Background drive_fetcher walk_order 2 (example_cloud, NewInodeCache) = Some (None, visited, (w', c')) ∧
    "a" ∈ visited ∧ ("c" ∉ visited) ∧ dirty c' = ∅.
Proof.
  destruct (preWarm_warms small_drive Background drive_fetcher walk_order 2 example_cloud NewInodeCache)
    as (fuel & visited & w' & c' & E & _ & Hv & _ & _ & Hd & _).
  - apply small_drive_tree.
  - done.
  - intros id w c. by exists w.
  - done.
  - lia.
  - apply wf_new.
  - done.
  - done.
  - done.
  - assert (Ha : below small_drive 1 "a").
    { apply (below_child small_drive 0 "root" [folder_item "a" "root"; file_item "f" "root"; folder_item "b" "root"]
        (folder_item "a" "root")); [constructor|done|left|done]. }
    exists fuel, visited, w', c'. split; [exact E|]. split; [apply Hv; exists 1%nat; split; [exact Ha|lia]|]. split; [|exact Hd].
    intros (k & Hb & Hk)%Hv. assert (Hc : below small_drive 2 "c").
    { apply (below_child small_drive 1 "a" [folder_item "c" "a"; file_item "g" "a"] (folder_item "c" "a")); [exact Ha|done|left|done]. }
    pose proof (below_level small_drive small_drive_tree k 2 "c" Hb Hc). lia.
Defined.

(** The same walk, computed. *)
Example small_drive_walk :
  (λ r, (r.1, (λ id, bool_decide (is_Some (Get r.2.2 id))) <$> ["root"; "a"; "b"; "c"; "f"; "g"])) <$>
    preWarm 10 Background drive_fetcher walk_order 2 (example_cloud, NewInodeCache)
  = Some (None, ["b"; "a"; "root"], [true; true; true; true; true; true]).
Proof. vm_compute. reflexivity. Qed.

(** ** Stopping and starting again *)

(** Creating a bucket that exists changes nothing ([CreateBucketIfNotExists]),
    and the metadata bucket accepts what the cache writes. *)
Class MetadataWritable (D : Type) `{Bolt D} := {
  create_again d b : bolt_bucket d b = true → bolt_create b d = inr d;
  metadata_put id v d : ∃ d', bolt_put boltBucketMetadata id v d = inr d';
}.
#[global] Instance MapDB_MetadataWritable : MetadataWritable MapDB.
Proof.
  split; simpl; [|eauto]. intros [bs m] b Hb%bool_decide_eq_true. simpl in *. do 2 f_equal. set_solver.
Qed.

Section remount.
Context {D W : Type} `{UploadsWritable D, !BoltLaws D, !MetadataWritable D, Clock W, GraphAPI W, TimeText, JsonLen}.
Abbreviation St := (Sys D W).

(** Deleting a session leaves the delta bucket and the cache alone. *)
Lemma DeleteUploadSession_link id db (c : InodeCache) :
  GetDeltaLink (DeleteUploadSession id (db, c)).1 = GetDeltaLink db ∧ (DeleteUploadSession id (db, c)).2 = c.
Proof.
  destruct db as [d|]; [|done].
  unfold DeleteUploadSession, logged, with_db, db_Update, need_bucket, bucket_Delete, se_bind, se_get, se_ret, se_fail. cbn [fst].
  destruct (bolt_bucket d boltBucketUploads); [|done]. destruct (bolt_delete _ _ _) as [e|d'] eqn:E; [done|].
  destruct (bolt_commit d d'); [done|]. split; [|done]. cbn. unfold GetDeltaLink.
  by rewrite (delete_bucket _ _ _ _ _ E), (delete_get _ _ _ _ E), decide_False by (by intros []).
Qed.
Definition link_view (s : St) := (GetDeltaLink (s_db s), s_inodes s).
Lemma on_db_delete_view id (s : St) : link_view (on_db (DeleteUploadSession id) s) = link_view s.
Proof.
  unfold on_db, link_view. destruct (DeleteUploadSession_link id (s_db s) (s_inodes s)) as [E1 E2].
  destruct (DeleteUploadSession id _) as [db c]. cbn in *. by rewrite E1, E2.
Qed.
Lemma new_manager_view a b (s : St) : link_view (NewUploadManager a b s) = link_view s.
Proof.
  unfold NewUploadManager, restoreIncompleteSessions. cbv zeta. set (s0 := on_um _ s).
  change (link_view s) with (link_view s0). generalize s0 (LoadUploadSessions (s_db s0)). clear s s0. intros s l.
  revert s. induction l as [|[id data] l IH]; intros s; [done|]. cbn [foldl]. rewrite IH.
  unfold restore_one_session. destruct (NewUploadSessionJSON data) as [e|u]; [apply on_db_delete_view|].
  unfold new_session. destruct (negb _); [done|]. rewrite on_db_delete_view. unfold discard, link_view.
  by destruct (DiscardSnapshot _ _).
Qed.

(** What opening the database of an earlier mount gives. *)
Lemma InitBoltDB_reopened now path d (c : InodeCache) :
  bolt_bucket d boltBucketMetadata = true → bolt_bucket d boltBucketDelta = true → bolt_bucket d boltBucketUploads = true →
  InitBoltDB now path (inr d) c =
  inr (Some d, foldl (λ c kv, restore_one now kv c) c (bolt_foreach d boltBucketMetadata)).
Proof.
  intros HA HB HC. unfold InitBoltDB, db_Update, se_bind. rewrite !create_again by done. rewrite uploads_commit.
  unfold DeserializeFromDisk, se_bind, se_get, se_modify. cbn [fst]. by rewrite HA.
Qed.

(** The file an unmount leaves: the tree, and the other buckets as they were. *)
Lemma unmount_file (s : St) d :
  s_db s = Some d → bolt_bucket d boltBucketMetadata = true →
  ∃ d' s', unmount None s = (Some d', s') ∧ s_db s' = None ∧ (∀ b, bolt_bucket d' b = bolt_bucket d b) ∧
    (∀ b k, b ≠ boltBucketMetadata → bolt_get d' b k = bolt_get d b k) ∧
    ∀ id, id ∈ toPersist (s_inodes s) → on_disk (s_inodes s) d' id.
Proof.
  intros Hdb Hb. unfold unmount, on_db. rewrite Hdb. unfold SerializeDirty, SerializeAll, CachePersist.Close.
  cbn [with_db]. pose proof (SerializeDirty_framed (d, s_inodes s)) as F1.
  destruct (SerializeDirty_db (d, s_inodes s)) as [r1 [d1 c1]]. cbn [snd s_db s_inodes] in *.
  pose proof (SerializeAll_framed (d1, c1)) as F2. destruct (SerializeAll_db (d1, c1)) as [r2 [d2 c2]].
  cbn [snd s_db s_inodes set_content s_content s_um s_objs s_next s_net] in *.
  pose proof (transitivity F1 F2) as F. pose proof (SerializeAll_framed (d2, c2)) as F3.
  assert (Htree : same_tree (s_inodes s) c2) by apply F.
  destruct (SerializeAll_writes c2 d2) as (d3 & r3 & c3 & E3 & _ & _ & Hok & Hfail).
  { pose proof (fr_bucket _ _ F boltBucketMetadata) as E. cbn in E. congruence. }
  { intros id v d0 _. apply metadata_put. }
  unfold SerializeAll. cbn [with_db]. rewrite E3 in *. cbn [snd fst] in *. exists d3. eexists. split; [done|]. split; [done|].
  pose proof (transitivity F F3) as FF. split; [apply FF|]. split; [intros b k Hne; by apply (fr_get _ _ FF)|].
  destruct (decide (r3 = inr tt)) as [->|Hr].
  - destruct (Hok eq_refl) as (_ & _ & Hd). intros id Hid. destruct Htree as [T1 T2].
    assert (Ht : toPersist c2 = toPersist (s_inodes s)) by (unfold toPersist, deref, Get; by rewrite T1, T2).
    rewrite <-Ht in Hid. specialize (Hd id Hid). unfold on_disk, Get, deref in *. by rewrite <-T1, <-T2.
  - destruct (Hfail Hr) as (_ & _ & _ & d4 & e & He). by rewrite uploads_commit in He.
Qed.

(** The state the services start in. *)
Lemma mount_services_state config d (dw dw' : Disk * W) ds (s2 : St) :
  bolt_bucket d boltBucketMetadata = true → bolt_bucket d boltBucketDelta = true → bolt_bucket d boltBucketUploads = true →
  mount_services config (inr d) dw = (inr (ds, s2), dw') →
  ∃ c0 content, cache_wf c0 ∧ (∀ id, Get c0 id = None) ∧
    s2 = NewUploadManager (MaxUploadsInFlight config) (MaxUploadRetries config) (mkSys no_uploads ∅ 0 (Some d)
      (foldl (λ c kv, restore_one (w_now dw.2) kv c) c0 (bolt_foreach d boltBucketMetadata)) content dw.2).
Proof.
  intros HA HB HC. destruct dw as [disk w]. unfold mount_services.
  destruct (ContentCache.NewContentCache (content_dir config) disk) as [[e|content] disk']; [done|].
  rewrite InitBoltDB_reopened by done. intros [= _ <- _]. eexists _, _. split_and!; [| |done].
  - by apply (ext_same NewInodeCache), wf_new.
  - done.
Qed.

(** C8: stopping a mount and starting it again brings back what it had recorded:
    every browsed inode (listed, or with a parent) whose texts are UTF-8, whose
    counters are within their widths and which has a JSON form comes back under its
    ID as it was (its instants to the millisecond); the drive is followed from the
    link reached; and every upload the loop had registered, of texts in UTF-8, is
    pending again with the same target, with no other. What is still in the channel
    of the manager when it stops is not recorded and does not come back. The
    database accepts what is written to its buckets, which exist, and holds the
    registered sessions as they are, as it does in every state the manager reaches;
    no upload is between the two steps in which it gives a file its ID; and the
    database closes without an error. *)
Theorem remount_restores config (s s' s2 : St) d d' (dw dw' : Disk * W) ds :
  stored_in s d → cache_wf (s_inodes s) →
  bolt_bucket d boltBucketMetadata = true → bolt_bucket d boltBucketDelta = true →
  unmount None s = (Some d', s') → mount_services config (inr d') dw = (inr (ds, s2), dw') →
  (∀ id l, let i := deref (s_inodes s) l in Get (s_inodes s) id = Some l → in_tree i → inode_json_ok i → is_Some (AsJSON i) →
     ∃ l2, Get (s_inodes s2) id = Some l2 ∧ deref (s_inodes s2) l2 = trunc_ms i) ∧
  GetDeltaLink (s_db s2) = GetDeltaLink (s_db s) ∧
  (∀ id p u, sessions (s_um s) !! id = Some p → s_objs s !! p = Some u → target_ok u →
     ∃ p' u', sessions (s_um s2) !! id = Some p' ∧ s_objs s2 !! p' = Some u' ∧ target u' = target u ∧ us_State u' = uploadPending) ∧
  (∀ id, sessions (s_um s) !! id = None → sessions (s_um s2) !! id = None).
Proof.
  intros Hst Hwf HA HB Hun Hms.
  destruct (unmount_file s d (st_db _ _ Hst) HA) as (d1 & s1 & E & _ & Hbk & Hget & Hdisk).
  rewrite Hun in E. injection E as <- <-.
  assert (Hup : has_uploads d') by (unfold has_uploads; rewrite Hbk; apply Hst).
  assert (Hent : ∀ id, entry d' id = entry d id) by (intros; by apply Hget).
  destruct (mount_services_state config d' dw dw' ds s2) as (c0 & content & Hwf0 & Hno & ->); [by rewrite Hbk|by rewrite Hbk|done|done|].
  set (s0 := mkSys _ _ _ _ _ _ _).
  pose proof (new_manager_view (MaxUploadsInFlight config) (MaxUploadRetries config) s0) as [= Hlink Hin].
  destruct (new_manager_restored (MaxUploadsInFlight config) (MaxUploadRetries config) s0 d')
    as (s3 & d3 & _ & Hs3 & _ & _ & HR); [done..|].
  split_and!.
  - cbv zeta. intros id l Hl Htree Hjs Hj. rewrite Hin. apply tree_restored; try done.
    split; [apply Hwf0|]. intros id' l' Hl'. by rewrite Hno in Hl'.
  - rewrite Hlink. cbn [s_db s0]. rewrite (st_db _ _ Hst). unfold GetDeltaLink. by rewrite Hbk, Hget.
  - intros id p u Hp Hu Hok. destruct (st_active _ _ Hst id p u Hp Hu) as (j & Hj & Hdec).
    destruct (Hdec Hok) as (u' & Hu' & Et).
    destruct (restored_entry d' s3 _ d3 id (VJson j) u' Hup HR) as (_ & p' & Hp' & Hv'); [by rewrite Hent|done|].
    exists p', (setState uploadPending None u'). split_and!; [done..| |by destruct u']. rewrite <-Et. by destruct u'.
  - intros id Hp. apply (restored_none d' s3 _ d3 id Hup Hs3 HR). by rewrite Hent, (st_only _ _ Hst id Hp).
Qed.
End remount.

(** A mount with the file "f1", of which an upload is pending. *)
Definition running : Sys MapDB Cloud := on_inodes (λ _, add_inode stale_file (add_inode root_inode NewInodeCache)) example_sys.
Definition example_config : MountConfig := DefaultMountConfig "/home/ana" "ana" None.
Definition stopped_file : MapDB := default example_db (unmount None running).1.
Definition restarted : Sys MapDB Cloud :=
  match (mount_services example_config (inr stopped_file) (ContentCache.disk (s_content running), example_cloud)).1 with
  | inr (_, s) => s
  | inl _ => running
  end.

Lemma running_stored : stored_in running example_uploads_db.
Proof.
  assert (Hs : stored running).
  { unfold running. eapply stored_same; [apply same_store_inodes|].
    apply (new_manager_stored 2 0 example_before example_uploads_db); [done|done|done|].
    intros id v u. unfold entry. cbn [bolt_get MapDB_Bolt md_data example_uploads_db].
    destruct (decide (id = "f1")) as [->|Hn].
    - rewrite lookup_singleton_eq. intros [= <-]. vm_compute. by intros [= <-].
    - rewrite lookup_singleton_ne by congruence. discriminate. }
  destruct Hs as [d Hs]. pose proof (st_db _ _ Hs) as E.
  assert (E' : s_db running = Some example_uploads_db) by (vm_compute; reflexivity).
  rewrite E' in E. by injection E as <-.
Qed.

Lemma running_unmounts : unmount None running = (Some stopped_file, (unmount None running).2).
Proof. vm_compute. reflexivity. Qed.
Lemma running_remounts : ∃ ds dw, mount_services example_config (inr stopped_file)
    (ContentCache.disk (s_content running), example_cloud) = (inr (ds, restarted), dw).
Proof.
  unfold restarted. set (r := mount_services _ _ _). assert (E : match r.1 with inr _ => true | inl _ => false end = true)
    by (vm_compute; reflexivity). destruct r as [[e|[ds s]] dw]; [done|]. by exists ds, dw.
Qed.
Lemma running_wf : cache_wf (s_inodes running).
Proof.
  unfold running, add_inode. cbn [s_inodes on_inodes]. destruct (alloc_spec NewInodeCache root_inode) as [V1 _].
  set (c1 := InodeCache.Insert 0 (Some (alloc root_inode NewInodeCache).1) (alloc root_inode NewInodeCache).2).
  assert (W1 : cache_wf c1) by (apply (ext_Insert 0); [done|]; apply wf_alloc, wf_new).
  change (cache_wf (InodeCache.Insert 0 (Some (alloc stale_file c1).1) (alloc stale_file c1).2)).
  apply (ext_Insert 0); [by apply alloc_spec|by apply wf_alloc].
Qed.

Lemma remount_restores_witness :
  (∃ l2, Get (s_inodes restarted) "f1" = Some l2 ∧ Name (deref (s_inodes restarted) l2) = "a.txt") ∧
  ∃ p' u', sessions (s_um restarted) !! "f1" = Some p' ∧ s_objs restarted !! p' = Some u' ∧ us_State u' = uploadPending.
Proof.
  assert (Hx : ∃ x, x = running) by (by exists running). destruct Hx as [x Ex].
  assert (Hf : ∃ f, f = stopped_file) by (by eexists). destruct Hf as [f Ef].
  assert (Hy : ∃ y, y = restarted) by (by eexists). destruct Hy as [y Ey]. rewrite <-Ey.
  destruct running_remounts as (ds & dw & Em). rewrite <-Ef, <-Ey in Em.
  destruct (remount_restores (D := MapDB) (W := Cloud) example_config x (unmount None x).2 y example_uploads_db f
    (ContentCache.disk (s_content running), example_cloud) dw ds) as (Htree & _ & Hsess & _).
  - rewrite Ex. exact running_stored.
  - rewrite Ex. exact running_wf.
  - reflexivity.
  - reflexivity.
  - rewrite Ex, Ef. exact running_unmounts.
  - exact Em.
  - split.
    + destruct (Htree "f1" 1%N) as (l2 & Hl & Hd).
      * rewrite Ex. vm_compute. reflexivity.
      * rewrite Ex. right. vm_compute. discriminate.
      * rewrite Ex. apply (bool_decide_unpack _). vm_compute. exact I.
      * rewrite Ex. vm_compute. eauto.
      * exists l2. split; [exact Hl|]. rewrite Hd, Ex. vm_compute. reflexivity.
    + destruct (Hsess "f1" 0%N (setNextRetryAt zeroTime (setState uploadPending None example_session)))
        as (p' & u' & Hp & Hu & _ & Hst).
      * rewrite Ex. vm_compute. reflexivity.
      * rewrite Ex. vm_compute. reflexivity.
      * split_and!; (vm_compute; reflexivity) || (vm_compute; done) || constructor.
      * exists p', u'. split; [exact Hp|]. split; [exact Hu|exact Hst].
Defined.

(** ** The preferences of an account *)

Section preferences.
Context `{Humanize}.

Lemma persisted_pos_positive x d : 0 < d → 0 < persisted_pos x d.
Proof. intros Hd. unfold persisted_pos. by destruct (Z.ltb_spec 0 x). Qed.
Lemma persisted_pos_keeps x d : 0 < x → persisted_pos x d = x.
Proof. intros Hx. unfold persisted_pos. by rewrite (proj2 (Z.ltb_lt 0 x)). Qed.
Lemma persisted_str_again x d : persisted_str (persisted_str x d) d = persisted_str x d.
Proof. unfold persisted_str. destruct (decide (x = "")); [by case_decide|by rewrite decide_False]. Qed.

(** The settings that are saved with the account, but for where its cache is. The
    control socket and the debug address are not among them: no mount saves them. *)
Definition same_settings (c c' : MountConfig) : Prop :=
  CacheTTL c = CacheTTL c' ∧ CacheMaxEntries c = CacheMaxEntries c' ∧ CacheMaxSize c = CacheMaxSize c' ∧
  DeltaInterval c = DeltaInterval c' ∧ MaxUploadsInFlight c = MaxUploadsInFlight c' ∧ MaxUploadRetries c = MaxUploadRetries c' ∧
  GraphRetries c = GraphRetries c' ∧ HTTPTimeout c = HTTPTimeout c' ∧ PreWarmDepth c = PreWarmDepth c'.

(** What a mount without flags makes of saved preferences. *)
Lemma no_flags_config home name p :
  ∃ c, mount_config no_flags (DefaultMountConfig home name (Some p)) = inr c ∧
    CacheDir c = persisted_str (pc_CacheDir p) (CacheDir (default_config home name)) ∧
    same_settings c (DefaultMountConfig home name (Some p)).
Proof. eexists. split; [reflexivity|]. split; [reflexivity|]. by split_and!. Qed.
(** The settings of any mount are positive, but for the size limit and the depth. *)
Lemma settings_positive flags home name p c :
  mount_config flags (DefaultMountConfig home name p) = inr c →
  0 < CacheTTL c ∧ 0 < CacheMaxEntries c ∧ 0 < DeltaInterval c ∧ 0 < MaxUploadsInFlight c ∧ 0 < MaxUploadRetries c ∧
  0 < GraphRetries c ∧ 0 < HTTPTimeout c.
Proof.
  unfold mount_config. destruct (_ : error + Z) as [e|sz]; [done|]. destruct (applyPreWarmDepthFlag _ _) as [e|depth]; [done|].
  intros [= <-]. destruct p; cbn -[persisted_pos Z.mul]; split_and!; repeat apply persisted_pos_positive; done.
Qed.

(** C34: The settings of a mount that are saved are those of the next one. What
    mounting saves in the account, read back from the account file, makes a mount
    without flags run with the same lifetimes, limits, intervals, retries and
    pre-warming depth, at the same mount point; the cache directory is the same too,
    unless it was given by a flag, which is for one mount only. The control socket
    and the debug address are not saved at all ([debug_address_not_saved]). The size
    of the cache is not negative, and what is saved are texts in UTF-8 and 64-bit
    numbers. *)
Theorem mount_preferences_persist flags home name p mp c :
  mount_config flags (DefaultMountConfig home name (Some p)) = inr c → 0 ≤ CacheMaxSize c →
  let p' := buildPersistedMountConfig p mp c (f_CacheDir flags) in
  mount_ok p' →
  ∃ p2 c2, dec_Persisted (enc_Persisted p') zero_Persisted = Some p2 ∧
    mount_config no_flags (DefaultMountConfig home name (Some p2)) = inr c2 ∧ same_settings c2 c ∧
    CacheDir c2 = (if decide (f_CacheDir flags = "") then CacheDir c
                   else persisted_str (pc_CacheDir p) (CacheDir (default_config home name))) ∧
    (mp ≠ "" → ∀ keyring aname config expires access refresh file err,
       mount_point [] (mkAccount keyring aname config p2 expires access refresh file err) = mp).
Proof.
  intros Hc Hsz p' Hok. destruct (no_flags_config home name p') as (c2 & E2 & Hdir & Hset).
  exists p', c2. split; [by apply mount_roundtrip|]. split; [done|].
  pose proof (settings_positive _ _ _ _ _ Hc) as (H1 & H2 & H3 & H4 & H5 & H6 & H7).
  split; [|split].
  - unfold same_settings. destruct Hset as (-> & -> & -> & -> & -> & -> & -> & -> & ->). unfold p', buildPersistedMountConfig.
    cbn -[persisted_pos Z.mul]. split_and!; try by apply persisted_pos_keeps.
    + unfold persisted_pos. destruct (Z.ltb_spec 0 (CacheMaxSize c)); lia.
    + done.
  - rewrite Hdir. unfold p', buildPersistedMountConfig. cbn [pc_CacheDir]. destruct (decide (f_CacheDir flags = "")) as [Ef|]; [|done].
    assert (Ed : CacheDir c = persisted_str (pc_CacheDir p) (CacheDir (default_config home name))).
    { revert Hc. unfold mount_config. destruct (_ : error + Z) as [e|sz]; [done|].
      destruct (applyPreWarmDepthFlag _ _) as [e|depth]; [done|]. intros [= <-]. cbn [CacheDir]. by rewrite Ef. }
    rewrite Ed. apply persisted_str_again.
  - intros Hmp *. unfold mount_point, p', buildPersistedMountConfig, persisted_str. cbn. by rewrite decide_False.
Qed.
End preferences.

(** ** What the configuration comes to *)

#[global] Instance no_sizes : Humanize := λ s, inl (EMsg ("cannot parse " +:+ s)).

(** "--cache-max-size 0", which its help calls unlimited, keeps the limit the
    account was saved with. *)
Example zero_flag_keeps_limit :
  let saved := mkPersisted "" "" 0 0 1000000 0 0 0 0 0 None in
  match mount_config no_flags (DefaultMountConfig "/home/ana" "ana" (Some saved)) with
  | inr c => CacheMaxSize c = 1000000
  | inl _ => False
  end.
Proof. reflexivity. Qed.

(** The retries of a mount wrap those the client has already: with the default
    of three, a request the server keeps throttling is sent sixteen times. *)
Example mount_retries_multiply :
  length (net_log (@Do Net Throttling_World (HTTPClient (mount_client example_config)) example_put (mkNet [] [] [])).2) = 16%nat.
Proof. by vm_compute. Qed.

(** When another instance holds the database the mount goes on without one: it
    restores nothing and persists nothing. *)
Example second_mount_goes_on :
  match (mount_services (D := MapDB) (W := Cloud) example_config (inl (EMsg "timeout", true))
           (ContentCache.disk (s_content running), example_cloud)).1 with
  | inr (_, s) => s_db s = None ∧ sessions (s_um s) = ∅
  | inl _ => False
  end.
Proof. by vm_compute. Qed.

Definition tuned_flags : MountFlags := mkMountFlags "/tmp/c" (90 * Second) 0 "0" 0 8 0 0 0 "" (Some 4) false "127.0.0.1:6060".
Lemma mount_preferences_persist_witness :
  ∃ p2 c2, mount_config no_flags (DefaultMountConfig "/home/ana" "ana" (Some p2)) = inr c2 ∧
    CacheTTL c2 = 90 * Second ∧ MaxUploadsInFlight c2 = 8 ∧ PreWarmDepth c2 = 4 ∧ CacheDir c2 = "/home/ana/.cache/onecloudriver/ana".
Proof.
  destruct (mount_config tuned_flags (DefaultMountConfig "/home/ana" "ana" (Some zero_Persisted))) as [e|c] eqn:E; [discriminate|].
  destruct (mount_preferences_persist tuned_flags "/home/ana" "ana" zero_Persisted "/mnt/od" c) as (p2 & c2 & _ & Hc2 & Hs & Hd & _).
  - exact E.
  - vm_compute in E. injection E as <-. cbn. lia.
  - vm_compute in E. injection E as <-. unfold mount_ok, int64, opt_ok, utf8_valid. cbn -[Z.pow utf8_coerce]. split_and!; (lia || (vm_compute; reflexivity)).
  - exists p2, c2. vm_compute in E. injection E as <-.
    destruct Hs as (H1 & _ & _ & _ & H5 & _ & _ & _ & H9). split; [exact Hc2|]. split; [exact H1|]. split; [exact H5|].
    split; [exact H9|]. rewrite Hd. reflexivity.
Defined.

(** A control socket of one's own and the debug server are for one mount only. *)
Example debug_address_not_saved :
  let flags := mkMountFlags "" 0 0 "0" 0 0 0 0 0 "/run/ana.sock" None true "127.0.0.1:6060" in
  match mount_config flags (DefaultMountConfig "/home/ana" "ana" (Some zero_Persisted)) with
  | inl _ => False
  | inr c =>
      let p := buildPersistedMountConfig zero_Persisted "/mnt/od" c (f_CacheDir flags) in
      match mount_config no_flags (DefaultMountConfig "/home/ana" "ana" (Some p)) with
      | inl _ => False
      | inr c2 => (DebugAddr c, ControlSocket c) = ("127.0.0.1:6060", "/run/ana.sock") ∧
          (DebugAddr c2, ControlSocket c2) = ("", "/home/ana/.cache/onecloudriver/ana/control.sock")
      end
  end.
Proof. vm_compute. done. Qed.
