(* ===== verification/SystemInvariant.v ===== *)
(** The state the services of a mount share, under every interleaving of their
    goroutines: the requests of the FUSE server, the upload loop and the uploads
    it launches, the turns of the delta synchronisation, the sweeps of the cache.
    Each action of each of them keeps the pointers of the caches and of the upload
    manager led to objects; the IDs of the cache map are those of its inodes as
    long as no upload re-keys a new file in two steps. *)

From S2P Require Export FsOps DeltaSync Mount Remote UploadTheorems FsTheorems MountTheorems.

#[local] Open Scope Z_scope.
#[local] Open Scope res_scope.

(** ** Operations on the database *)

Section persist.
Context {D : Type} `{Bolt D} `{TimeText} `{JsonLen}.

(** A persisted operation moves to a later state of the cache. *)
Definition persists {A} (m : SE (PState (D := D)) error A) : Prop := ∀ d c, cache_ext c (m (d, c)).2.2.

Lemma persists_ret {A} (a : A) : persists (se_ret a).
Proof. by intros d c. Qed.
Lemma persists_fail {A} e : persists (A := A) (se_fail e).
Proof. by intros d c. Qed.
Lemma persists_get_bind {A} (k : PState → SE PState error A) : (∀ s, persists (k s)) → persists (se_bind se_get k).
Proof. intros Hk d c. apply Hk. Qed.
Lemma persists_bind {A B} (m : SE PState error A) (k : A → SE PState error B) :
  persists m → (∀ a, persists (k a)) → persists (se_bind m k).
Proof.
  intros Hm Hk d c. unfold se_bind. specialize (Hm d c). destruct (m (d, c)) as [[e|a] [d1 c1]]; cbn [snd] in *; [exact Hm|].
  etrans; [exact Hm|apply Hk].
Qed.
Lemma persists_try {A B} (m : SE PState error A) (k : error + A → SE PState error B) :
  persists m → (∀ r, persists (k r)) → persists (se_try m k).
Proof.
  intros Hm Hk d c. unfold se_try. specialize (Hm d c). destruct (m (d, c)) as [r [d1 c1]]; cbn [snd] in *.
  etrans; [exact Hm|apply Hk].
Qed.
Lemma persists_modify (f : InodeCache → InodeCache) :
  (∀ c, cache_ext c (f c)) → persists (se_modify (λ '(d, c), (d, f c))).
Proof. intros Hf d c. apply Hf. Qed.
Lemma persists_iter {A} (f : A → SE PState error unit) l : (∀ a, persists (f a)) → persists (se_iter f l).
Proof. intros Hf. induction l as [|a l IH]; [apply persists_ret|]. apply persists_bind; auto. Qed.
Lemma persists_Put b k v : persists (bucket_Put b k v).
Proof. intros d c. unfold bucket_Put. by destruct (bolt_put _ _ _ _). Qed.
Lemma persists_Delete b k : persists (bucket_Delete b k).
Proof. intros d c. unfold bucket_Delete. by destruct (bolt_delete _ _ _). Qed.
Lemma persists_need b e : persists (need_bucket b e).
Proof. apply persists_get_bind. intros s. destruct (bolt_bucket _ _); [apply persists_ret|apply persists_fail]. Qed.
Lemma persists_bytes n : persists (add_bytes n).
Proof. apply persists_modify. intros c. by apply ext_same. Qed.
Lemma persists_Update fn : persists fn → persists (db_Update fn).
Proof.
  intros Hf d c. unfold db_Update. specialize (Hf d c). destruct (fn (d, c)) as [[e|u] [d1 c1]]; [exact Hf|].
  by destruct (bolt_commit d d1).
Qed.
Create HintDb persists discriminated.
#[local] Hint Resolve persists_ret persists_fail persists_Put persists_Delete persists_need persists_bytes persists_Update
  persists_bind persists_iter : persists.

Lemma ext_clear_marks c : cache_ext c (set_deleted ∅ (set_dirty ∅ c)).
Proof.
  assert (Hok : cache_ok c → cache_ok (set_deleted ∅ (set_dirty ∅ c))) by (intros Hc; split; try apply Hc; done).
  split; [split; [by apply wf_of_ok|exact Hok]|done].
Qed.
Lemma persists_dirty_one id : persists (dirty_one id).
Proof.
  apply persists_get_bind. intros s. destruct (Get s.2 id) as [l|]; [|apply persists_Delete]. cbv zeta.
  destruct (_ && _); auto with persists.
Qed.
Lemma persists_batches one remark firstErr bs :
  (∀ id, persists (one id)) → (∀ id c, cache_ext c (remark id c)) → persists (run_batches one remark firstErr bs).
Proof.
  intros Ho Hr. revert firstErr. induction bs as [|b bs IH]; intros firstErr; cbn [run_batches]; [apply persists_ret|].
  apply persists_bind; [|intros e; apply IH]. apply persists_try; [auto with persists|].
  intros [e|u]; [|apply persists_ret]. apply persists_bind; [|intros _; apply persists_ret].
  apply (persists_modify (λ c, foldl (λ c id, remark id c) c b)). intros c. induction b as [|id b IHb] in c |- *; [done|].
  cbn [foldl]. etrans; [apply Hr|apply IHb].
Qed.
Lemma persists_SerializeDirty : persists SerializeDirty_db.
Proof.
  apply persists_get_bind. intros s. apply persists_bind.
  { apply (persists_modify (λ c, set_deleted ∅ (set_dirty ∅ c))), ext_clear_marks. }
  intros _. destruct (_ && _); [apply persists_ret|].
  apply persists_bind; [apply persists_batches; [apply persists_dirty_one|intros; apply ext_markDirty]|]. intros e.
  apply persists_bind; [apply persists_batches; [auto with persists|intros; apply ext_markDeleted]|]. intros e'.
  destruct e'; [apply persists_fail|apply persists_ret].
Qed.

(** The operations of a mount, with or without a database. *)
Lemma with_db_ext {A} (none : A) m : persists m → ∀ db c, cache_ext c (with_db none m (db, c)).2.2.
Proof.
  intros Hm [d|] c; [|done]. unfold with_db. specialize (Hm d c). by destruct (m (d, c)) as [r [d1 c1]].
Qed.
Definition db_ext (f : option D * InodeCache → option D * InodeCache) : Prop := ∀ db c, cache_ext c (f (db, c)).2.
Lemma db_ext_link link : db_ext (SetDeltaLink link).
Proof. intros db c. apply with_db_ext. auto with persists. Qed.
Lemma db_ext_save id data : db_ext (SaveUploadSession id data).
Proof. intros db c. apply with_db_ext. auto with persists. Qed.
Lemma db_ext_delete id : db_ext (DeleteUploadSession id).
Proof. intros db c. apply with_db_ext. auto with persists. Qed.
Lemma db_ext_dirty : db_ext (λ dc, (SerializeDirty dc).2).
Proof. intros db c. apply with_db_ext, persists_SerializeDirty. Qed.
End persist.

Create HintDb quiet discriminated.

(** ** The invariant of the shared state *)

Section system.
Context {D W : Type} `{Bolt D} `{Clock W} `{GraphAPI W} `{LocalZone} `{TimeText} `{JsonLen}.
Abbreviation St := (Sys D W).
Abbreviation Go A := (Res St A).

(** [strict]: no upload is part of the mount. *)
Context (strict : bool).

Definition cache_inv (c : InodeCache) : Prop := if strict then cache_wf c else cache_ok c.
(** A pointer to a session. *)
Definition is_session (p : N) (s : St) : Prop := is_Some (s_objs s !! p).

Record sys_ok (s : St) : Prop := {
  so_cache : cache_inv (s_inodes s);
  so_fresh : ∀ p, is_session p s → (p < s_next s)%N;
  so_sessions : ∀ id p, sessions (s_um s) !! id = Some p → is_session p s;
  so_queue : ∀ p, p ∈ queue (s_um s) → is_session p s;
}.
(** What the goroutines rely on: an object stays where it is. *)
Definition sys_later (s s' : St) : Prop :=
  (∀ l, valid (s_inodes s) l → valid (s_inodes s') l) ∧ (∀ p, is_session p s → is_session p s').
#[global] Instance sys_later_preorder : PreOrder sys_later.
Proof. split; [by split|]. intros a b c [HA HB] [HC HD]. split; auto. Qed.
Definition sys_ext (s s' : St) : Prop := (sys_ok s → sys_ok s') ∧ sys_later s s'.
#[global] Instance sys_ext_preorder : PreOrder sys_ext.
Proof. split; [by split|]. intros a b c [HA HB] [HC HD]. split; [auto|by etrans]. Qed.

Lemma cache_inv_ok c : cache_inv c → cache_ok c.
Proof. unfold cache_inv. destruct strict; [apply wf_ok|done]. Qed.
Lemma ext_inv c c' : cache_ext c c' → cache_inv c → cache_inv c'.
Proof. intros [[HA HB] _]. unfold cache_inv. by destruct strict. Qed.

(** *** Changes of a part of the state *)

Lemma ext_parts (s s' : St) :
  cache_ext (s_inodes s) (s_inodes s') → s_objs s' = s_objs s → s_next s' = s_next s →
  sessions (s_um s') = sessions (s_um s) → queue (s_um s') = queue (s_um s) → sys_ext s s'.
Proof.
  intros Hc E1 E2 E3 E4. split; [|split; [apply Hc|intros p; unfold is_session; by rewrite E1]].
  intros [HA HB HC HD]. split; unfold is_session in *; rewrite ?E1, ?E2, ?E3, ?E4; try done. by eapply ext_inv.
Qed.
Lemma ext_on_inodes f (s : St) : cache_ext (s_inodes s) (f (s_inodes s)) → sys_ext s (on_inodes f s).
Proof. intros Hf. by apply ext_parts. Qed.
Lemma ext_on_content {A} (f : ContentCache → A * ContentCache) (s : St) : sys_ext s (on_content f s).2.
Proof. unfold on_content. destruct (f _). by apply ext_parts. Qed.
Lemma ext_on_disk {A} (f : Disk → A * Disk) (s : St) : sys_ext s (on_disk_ f s).2.
Proof. apply ext_on_content. Qed.
Lemma ext_on_net {A} (f : W → A * W) (s : St) : sys_ext s (on_net f s).2.
Proof. unfold on_net. destruct (f _). by apply ext_parts. Qed.
Lemma ext_set_content c (s : St) : sys_ext s (set_content c s).
Proof. by apply ext_parts. Qed.
Lemma ext_on_db f (s : St) : db_ext f → sys_ext s (on_db f s).
Proof.
  intros Hf. unfold on_db. specialize (Hf (s_db s) (s_inodes s)). destruct (f _) as [db c]. by apply ext_parts.
Qed.
Lemma ext_on_um f (s : St) :
  sessions (f (s_um s)) = sessions (s_um s) → queue (f (s_um s)) = queue (s_um s) → sys_ext s (on_um f s).
Proof. intros E1 E2. by apply ext_parts. Qed.
Lemma ext_upd_session p f (s : St) : sys_ext s (upd_session p f s).
Proof.
  assert (E : ∀ q, is_session q (upd_session p f s) ↔ is_session q s)
    by (intros q; apply (lookup_alter_is_Some f (s_objs s) p q)).
  split; [|split; [done|intros q; apply E]]. intros [HA HB HC HD]. split; [exact HA|..]; intros; apply E || apply HB; eauto.
  by apply E.
Qed.
Lemma ext_on_cache {A} (m : SE (W * InodeCache) error A) (s : St) :
  cache_ext (s_inodes s) (m (s_net s, s_inodes s)).2.2 → sys_ext s (on_cache m s).2.
Proof. unfold on_cache. destruct (m _) as [r [w c]]. intros Hc. by apply ext_parts. Qed.

(** *** The sessions *)

Lemma ext_discard p (s : St) : sys_ext s (discard p s).
Proof.
  unfold discard. destruct (DiscardSnapshot _ _) as [u d]. etrans; [apply ext_set_content|apply ext_upd_session].
Qed.
Lemma ext_persistSession id p (s : St) : sys_ext s (persistSession id p s).
Proof. apply ext_on_db, db_ext_save. Qed.
Lemma ext_drop_session id (s : St) : sys_ext s (on_um (λ m, set_sessions (delete id (sessions m)) m) s).
Proof.
  split; [|by split]. intros [HA HB HC HD]. split; try done. intros id' p. cbn. rewrite lookup_delete_Some. intros [_ ?]. by eapply HC.
Qed.
Lemma ext_finishSession id (s : St) : sys_ext s (finishSession id s).
Proof.
  unfold finishSession. destruct (sessions (s_um s) !! id) as [p|]; [|done].
  etrans; [apply ext_drop_session|]. etrans; [apply ext_discard|]. apply ext_on_db, db_ext_delete.
Qed.
Lemma ext_add_session id p (s : St) :
  is_session p s → sys_ext s (on_um (λ m, set_sessions (<[id := p]> (sessions m)) m) s).
Proof.
  intros Hp. split; [|by split]. intros [HA HB HC HD]. split; try done.
  intros id' p'. cbn. intros [[_ <-]|[_ ?]]%lookup_insert_Some; [exact Hp|by eapply HC].
Qed.
Lemma ext_enqueueSession p (s : St) : is_session p s → sys_ext s (enqueueSession p s).
Proof.
  intros Hp. unfold enqueueSession. cbv zeta.
  set (s1 := match sessions (s_um s) !! us_ID (session p s) with Some old => _ | None => s end).
  assert (Hs1 : sys_ext s s1).
  { subst s1. destruct (sessions (s_um s) !! _) as [old|]; [|done].
    etrans; [|apply ext_discard]. apply ext_upd_session. }
  etrans; [exact Hs1|]. etrans; [apply ext_add_session; by apply Hs1|]. apply ext_persistSession.
Qed.
(** Receiving from the queue. *)
Lemma ext_receive p q (s : St) : queue (s_um s) = p :: q →
  sys_later s (enqueueSession p (on_um (set_queue q) s)) ∧
  (sys_ok s → sys_ok (enqueueSession p (on_um (set_queue q) s))).
Proof.
  intros Eq. set (s1 := on_um (set_queue q) s).
  assert (Hs1 : sys_ok s → sys_ok s1 ∧ is_session p s1).
  { intros [HA HB HC HD]. split; [split; try done|]; [|apply HD; rewrite Eq; by left].
    intros p' Hp'. apply HD. rewrite Eq. by right. }
  assert (Hl : sys_later s1 (enqueueSession p s1)).
  { destruct (decide (is_session p s1)) as [Hp|Hp]; [by apply ext_enqueueSession|].
    unfold enqueueSession. cbv zeta. set (s2 := match sessions (s_um s1) !! us_ID (session p s1) with Some old => _ | None => s1 end).
    assert (Hs2 : sys_ext s1 s2).
    { subst s2. destruct (sessions (s_um s1) !! _) as [old|]; [|done]. etrans; [|apply ext_discard]. apply ext_upd_session. }
    etrans; [apply Hs2|]. etrans; [|apply ext_persistSession]. by split. }
  split; [exact Hl|]. intros Hs. destruct (Hs1 Hs) as [Hs2 Hp]. by apply ext_enqueueSession.
Qed.
(** A session that is sent. *)
Lemma ext_send u (s : St) :
  sys_ext s (let '(p, s) := new_session u s in on_um (λ m, set_queue (queue m ++ [p]) m) s).
Proof.
  cbn [new_session]. assert (Hmono : ∀ p, is_session p s → is_Some (<[s_next s := u]> (s_objs s) !! p)).
  { intros p Hp. apply lookup_insert_is_Some. destruct (decide (s_next s = p)); [by left|by right]. }
  split; [|split; [done|exact Hmono]]. intros [HA HB HC HD]. split; cbn; [exact HA|..].
  - intros p Hp. unfold is_session in Hp. cbn in Hp. apply lookup_insert_is_Some in Hp as [<-|[_ Hp]]; [lia|]. specialize (HB p Hp). lia.
  - intros id p Hp. by eapply Hmono, HC.
  - intros p [Hp| ->%list_elem_of_singleton]%elem_of_app; [by apply Hmono, HD|].
    unfold is_session. cbn. rewrite lookup_insert_eq. eauto.
Qed.

(** *** Goroutines that need to know nothing of the state *)

Abbreviation G := (guarded sys_ok sys_later).
Definition quiet {A} (m : Go A) : Prop := ∀ P : St → Prop, stable sys_later P → G A (λ _, P) P m.

Lemma quiet_ret {A} (a : A) : quiet (Ret a).
Proof. intros P HP. by apply guarded_ret. Qed.
Lemma quiet_bind {A B} (m : Go A) (k : A → Go B) : quiet m → (∀ a, quiet (k a)) → quiet (res_bind m k).
Proof. intros Hm Hk P HP. eapply guarded_bind; [by apply Hm|]. intros a. by apply Hk. Qed.
Lemma quiet_act {A} (f : St → option (St * Go A)) :
  (∀ s s' m, f s = Some (s', m) → sys_ext s s' ∧ quiet m) → quiet (Act f).
Proof.
  intros Hf P HP. apply guarded_act with (λ _, P).
  - intros s s' m Hs Hp E. destruct (Hf s s' m E) as [[HA HB] _]. split_and!; [by apply HA|exact HB|by eapply HP].
  - done.
  - intros s s' m Hs Hp E. by apply (Hf s s' m E).
Qed.
Lemma quiet_atomic {A} (f : St → A * St) : (∀ s, sys_ext s (f s).2) → quiet (atomic f).
Proof.
  intros Hf. apply quiet_act. intros s s' m E. specialize (Hf s). destruct (f s) as [a s1]. injection E as <- <-.
  split; [exact Hf|apply quiet_ret].
Qed.
Lemma quiet_atomic_ (f : St → St) : (∀ s, sys_ext s (f s)) → quiet (atomic_ f).
Proof. intros Hf. apply quiet_act. intros s s' m [= <- <-]. split; [apply Hf|apply quiet_ret]. Qed.
Lemma quiet_await ready (f : St → St) : (∀ s, sys_ext s (f s)) → quiet (await ready f).
Proof.
  intros Hf. apply quiet_act. intros s s' m E. destruct (ready s); [|done]. injection E as <- <-.
  split; [apply Hf|apply quiet_ret].
Qed.
Lemma quiet_fork child : quiet child → quiet (fork child).
Proof.
  intros Hc P HP. apply guarded_fork; [|by apply guarded_ret]. eapply guarded_post; [by apply Hc|done].
Qed.
Lemma quiet_iter {A} (f : A → Go unit) l : (∀ a, quiet (f a)) → quiet (res_iter f l).
Proof. intros Hf P HP. apply guarded_iter. intros a _. by apply Hf. Qed.

(** Actions that only read, and those on the content, the disk, the drive. *)
Lemma quiet_read {A} (f : St → A) : quiet (atomic (λ s, (f s, s))).
Proof. by apply quiet_atomic. Qed.
Lemma quiet_content {A} (f : ContentCache → A * ContentCache) : quiet (atomic (on_content f)).
Proof. apply quiet_atomic. intros s. apply ext_on_content. Qed.
Lemma quiet_content_of {A} (f : St → ContentCache → A * ContentCache) : quiet (atomic (λ s, on_content (f s) s)).
Proof. apply quiet_atomic. intros s. apply ext_on_content. Qed.
Lemma quiet_disk {A} (f : Disk → A * Disk) : quiet (atomic (on_disk_ f)).
Proof. apply quiet_atomic. intros s. apply ext_on_disk. Qed.
Lemma quiet_net {A} (f : W → A * W) : quiet (atomic (on_net f)).
Proof. apply quiet_atomic. intros s. apply ext_on_net. Qed.
Lemma quiet_inodes (f : St → InodeCache → InodeCache) :
  (∀ s c, cache_ext c (f s c)) → quiet (atomic_ (λ s, on_inodes (f s) s)).
Proof. intros Hf. apply quiet_atomic_. intros s. apply ext_on_inodes, Hf. Qed.
Lemma quiet_upd_node l f : (∀ i, ID (f i) = ID i) → quiet (upd_node l f).
Proof. intros Hf. apply (quiet_inodes (λ _, upd l f)). intros _ c. by apply ext_upd. Qed.
Lemma quiet_session p f : quiet (atomic_ (upd_session p f)).
Proof. apply quiet_atomic_. intros s. apply ext_upd_session. Qed.
Lemma quiet_um f : (∀ m, sessions (f m) = sessions m ∧ queue (f m) = queue m) → quiet (atomic_ (on_um f)).
Proof. intros Hf. apply quiet_atomic_. intros s. by apply ext_on_um; apply Hf. Qed.

(** A new inode is put in the tree in a second action: in between, the goroutine
    knows that it exists. *)
Lemma stable_valid l : stable sys_later (λ s, valid (s_inodes s) l).
Proof. intros s s' [HA _]. apply HA. Qed.
Lemma quiet_new_child {B} i pid (k : N → Go B) :
  (∀ l, quiet (k l)) →
  quiet (do* l := atomic (new_inode i) in atomic_ (on_inodes (InsertChild pid (Some l))) ;;; k l).
Proof.
  intros Hk P HP. eapply guarded_bind.
  { apply (guarded_atomic _ _ (λ l s, valid (s_inodes s) l)); [exact HP|intros l; apply stable_valid|].
    intros s Hs Hp. cbn [new_inode fst snd].
    assert (He : sys_ext s (on_inodes (λ _, (alloc i (s_inodes s)).2) s)) by apply ext_on_inodes, ext_alloc.
    split_and!; [by apply He|apply He|apply alloc_spec]. }
  intros l. cbv beta. apply (guarded_bind _ _ (λ _ s, P s)).
  - eapply guarded_post; [apply guarded_atomic_|].
    + intros s s' Hr [HA HB]. split; [by eapply HP|by eapply stable_valid].
    + intros s Hs [_ Hl]. assert (He : sys_ext s (on_inodes (InsertChild pid (Some l)) s))
        by (apply ext_on_inodes; by apply ext_InsertChild).
      split; [by apply He|apply He].
    + by intros _ s _ [? _].
  - intros _. by apply Hk.
Qed.

(** *** The requests of the FUSE server *)

Lemma quiet_read_inode l : quiet (read_inode (D := D) (W := W) l).
Proof. apply quiet_read. Qed.
Lemma quiet_clock : quiet (read_clock (D := D) (W := W)).
Proof. apply quiet_read. Qed.
Lemma quiet_list ctx parentID : quiet (list_children (D := D) ctx parentID).
Proof.
  apply quiet_atomic. intros s. apply ext_on_cache.
  pose proof (ext_getChildren parentID (Some (fetchChildrenWithOffline ctx)) true (s_net s) (s_inodes s) (fetch_ok_offline ctx)) as He.
  unfold GetChildren. exact He.
Qed.

(** Follow the code; a match is taken apart, an action that keeps the IDs is
    closed by computation. *)
Ltac quiet_step :=
  first
    [ apply quiet_ret | apply quiet_read_inode | apply quiet_clock | apply quiet_list | apply quiet_net
    | apply quiet_content | apply quiet_content_of | apply quiet_disk | apply quiet_session
    | apply quiet_read | solve [eauto with quiet]
    | apply quiet_new_child; intros ?
    | apply quiet_upd_node; intros ?; done
    | apply quiet_bind; [|intros ?]
    | match goal with
      | |- quiet (match ?x with _ => _ end) => destruct x
      end ].
Ltac quiet_go := repeat quiet_step.

Lemma quiet_remove pid l :
  quiet (atomic_ (λ s : St, on_inodes (RemoveChild pid (ID (inode_of s l))) s)).
Proof. apply (quiet_inodes (λ s, RemoveChild pid (ID (inode_of s l)))). intros s c. apply ext_RemoveChild. Qed.
Lemma quiet_move p1 p2 l : quiet (move_child (D := D) p1 p2 l).
Proof.
  unfold move_child. apply quiet_atomic_. intros s. apply ext_on_inodes, ext_MoveChild.
Qed.
#[local] Hint Resolve quiet_remove quiet_move : quiet.

Lemma ID_rename newName newParent i : ID (rename_inode newName newParent i) = ID i.
Proof. unfold rename_inode. by destruct newParent. Qed.
Lemma ID_written n i : ID (written n i) = ID i.
Proof. unfold written. cbv zeta. by destruct (_ <? _). Qed.
Lemma quiet_rename_inode l newName newParent : quiet (upd_node (D := D) (W := W) l (rename_inode newName newParent)).
Proof. apply quiet_upd_node. intros i. apply ID_rename. Qed.
Lemma quiet_written l n : quiet (upd_node (D := D) (W := W) l (written n)).
Proof. apply quiet_upd_node. intros i. apply ID_written. Qed.
#[local] Hint Resolve quiet_rename_inode quiet_written : quiet.

Lemma quiet_lookupChild ctx pid name : quiet (lookupChild (D := D) ctx pid name).
Proof. unfold lookupChild. quiet_go. Qed.
Lemma quiet_entry_out uid gid item : quiet (entry_out (D := D) uid gid item).
Proof. unfold entry_out. quiet_go. Qed.
Lemma quiet_deleteRemote ctx id : quiet (deleteRemote (D := D) ctx id).
Proof. unfold deleteRemote. quiet_go. Qed.
Lemma quiet_persist id p : quiet (atomic_ (persistSession (D := D) (W := W) id p)).
Proof. apply quiet_atomic_. intros s. apply ext_persistSession. Qed.
#[local] Hint Resolve quiet_lookupChild quiet_entry_out quiet_deleteRemote quiet_persist : quiet.
Lemma quiet_RenameSession id pid name : quiet (RenameSession (D := D) (W := W) id pid name).
Proof. unfold RenameSession. quiet_go. Qed.
#[local] Hint Resolve quiet_RenameSession : quiet.

Lemma quiet_doMkdir uid gid ctx pid name : quiet (doMkdir (D := D) uid gid ctx pid name).
Proof. unfold doMkdir. quiet_go. Qed.
Lemma quiet_doRmdir ctx pid name : quiet (doRmdir (D := D) ctx pid name).
Proof. unfold doRmdir. quiet_go. Qed.
Lemma quiet_doUnlink ctx pid name : quiet (doUnlink (D := D) ctx pid name).
Proof. unfold doUnlink. quiet_go. Qed.
Lemma quiet_doRename um ctx pid name pid' name' : quiet (doRename (D := D) um ctx pid name pid' name').
Proof. unfold doRename, rename_local, rename_remote. quiet_go. Qed.
Lemma quiet_doCreate uid gid ctx rand pid name mode : quiet (doCreate (D := D) uid gid ctx rand pid name mode).
Proof. unfold doCreate. quiet_go. Qed.
Lemma quiet_download ctx id : quiet (downloadContent (D := D) ctx id).
Proof.
  unfold downloadContent. apply quiet_bind; [|intros ?; quiet_go]. apply quiet_atomic. intros s.
  destruct (api_GetItemContentStream _ _ _) as [[chunks err] w]. by apply ext_parts.
Qed.
#[local] Hint Resolve quiet_doMkdir quiet_doRmdir quiet_doUnlink quiet_doRename quiet_doCreate quiet_download : quiet.
Lemma quiet_Open ctx l flags : quiet (FsOps.Open (D := D) ctx l flags).
Proof. unfold FsOps.Open, Open_read, Open_write, hasContentOnDisk, verifyCachedContent. quiet_go. Qed.
Lemma quiet_Read l len off : quiet (FsOps.Read (D := D) (W := W) l len off).
Proof. unfold FsOps.Read. quiet_go. Qed.
Lemma quiet_Write l data off : quiet (FsOps.Write (D := D) (W := W) l data off).
Proof. unfold FsOps.Write. quiet_go. Qed.

Lemma quiet_QueueUpload id pid name : quiet (QueueUpload (D := D) (W := W) id pid name).
Proof.
  unfold QueueUpload. apply quiet_bind; [apply quiet_content|]. intros [e|[path size]]; [apply quiet_ret|].
  destruct (size =? 0); [apply quiet_ret|]. destruct (NewUploadSessionSnapshot _ _ _ _ _) as [e|u]; [quiet_go|].
  apply quiet_bind; [|intros ?; apply quiet_ret]. apply quiet_await. intros s. apply ext_send.
Qed.
#[local] Hint Resolve quiet_QueueUpload quiet_Open quiet_Read quiet_Write : quiet.
Lemma quiet_Fsync um l : quiet (Fsync (D := D) (W := W) um l).
Proof. unfold Fsync. quiet_go. Qed.
#[local] Hint Resolve quiet_Fsync : quiet.
Lemma quiet_Flush um l : quiet (FsOps.Flush (D := D) (W := W) um l).
Proof.
  unfold FsOps.Flush. quiet_go. apply quiet_atomic_. intros s. apply ext_on_content.
Qed.
Lemma quiet_Getattr uid gid n : quiet (Getattr (D := D) uid gid n).
Proof. unfold Getattr. destruct n; quiet_go. Qed.
Lemma quiet_Setattr uid gid l in_ : quiet (Setattr (D := D) (W := W) uid gid l in_).
Proof. unfold Setattr. quiet_go. Qed.
#[local] Hint Resolve quiet_Flush quiet_Getattr quiet_Setattr : quiet.

Lemma quiet_in_folder {A} n (k : string → Go (Z + A)) : (∀ id, quiet (k id)) → quiet (in_folder n k).
Proof. intros Hk. unfold in_folder. destruct n; quiet_go; apply Hk. Qed.
Lemma quiet_in_folder_errno n (k : string → Go Z) : (∀ id, quiet (k id)) → quiet (in_folder_errno n k).
Proof. intros Hk. unfold in_folder_errno. apply quiet_bind; [|intros ?; quiet_go]. apply quiet_in_folder. intros id. apply quiet_bind; [apply Hk|intros ?; quiet_go]. Qed.

(** A request, with what the server passes. *)
Inductive Request :=
  | ReqGetattr (n : Node) | ReqReaddir (n : Node) | ReqLookup (n : Node) (name : string)
  | ReqMkdir (n : Node) (name : string) | ReqRmdir (n : Node) (name : string) | ReqUnlink (n : Node) (name : string)
  | ReqRename (n : Node) (name : string) (newParent : option Node) (newName : string)
  | ReqCreate (rand : option (list Z)) (n : Node) (name : string) (mode : Z)
  | ReqOpen (l : N) (flags : Z) | ReqRead (l : N) (len off : Z) | ReqWrite (l : N) (data : list Z) (off : Z)
  | ReqFsync (l : N) | ReqFlush (l : N) | ReqSetattr (l : N) (in_ : SetAttrIn).
Definition ignore {A} (m : Go A) : Go unit := do* _ := m in Ret tt.
Definition serve (uid gid : Z) (uploadManager : bool) (ctx : Ctx W) (r : Request) : Go unit :=
  match r with
  | ReqGetattr n => ignore (Getattr uid gid n)
  | ReqReaddir n => ignore (Readdir ctx n)
  | ReqLookup n name => ignore (FsOps.Lookup uid gid ctx n name)
  | ReqMkdir n name => ignore (Mkdir uid gid ctx n name)
  | ReqRmdir n name => ignore (Rmdir ctx n name)
  | ReqUnlink n name => ignore (Unlink ctx n name)
  | ReqRename n name newParent newName => ignore (Rename uploadManager ctx n name newParent newName)
  | ReqCreate rand n name mode => ignore (Create uid gid ctx rand n name mode)
  | ReqOpen l flags => ignore (FsOps.Open ctx l flags)
  | ReqRead l len off => ignore (FsOps.Read l len off)
  | ReqWrite l data off => ignore (FsOps.Write l data off)
  | ReqFsync l => ignore (Fsync uploadManager l)
  | ReqFlush l => ignore (FsOps.Flush uploadManager l)
  | ReqSetattr l in_ => ignore (Setattr uid gid l in_)
  end.
Lemma quiet_serve uid gid um ctx r : quiet (serve uid gid um ctx r).
Proof.
  assert (Hi : ∀ A (m : Go A), quiet m → quiet (ignore m)) by (intros A m Hm; apply quiet_bind; [exact Hm|intros; apply quiet_ret]).
  destruct r; cbn [serve]; apply Hi; try solve [eauto with quiet];
    try (apply quiet_in_folder; intros id); try (apply quiet_in_folder_errno; intros id).
  - unfold readdirChildren. quiet_go.
  - unfold fuseLookup. quiet_go.
  - quiet_go.
  - quiet_go.
  - quiet_go.
  - unfold resolveNewParentID. quiet_go.
  - quiet_go.
Qed.

(** *** Uploads *)

Lemma quiet_close r : quiet (closeContentReader (D := D) (W := W) r).
Proof.
  destruct r as [fd|data]; cbn [closeContentReader]; [|apply quiet_ret]. apply quiet_atomic_. intros s. apply ext_on_disk.
Qed.
Lemma quiet_open p : quiet (atomic (session_open (D := D) (W := W) p)).
Proof. apply quiet_atomic. intros s. apply ext_on_disk. Qed.
Lemma quiet_doUpload id isLocal pid name r size etag : quiet (atomic (doUpload (D := D) id isLocal pid name r size etag)).
Proof.
  apply quiet_atomic. intros s. unfold doUpload.
  assert (Hr : sys_ext s (read_content r s).2).
  { unfold read_content. destruct r as [fd|data]; [|done].
    pose proof (ext_on_disk (file_ReadAll fd) s) as He. by destruct (on_disk_ (file_ReadAll fd) s) as [? s1]. }
  destruct (read_content r s) as [[data err] s1]. cbv zeta. etrans; [exact Hr|]. apply ext_on_net.
Qed.
#[local] Hint Resolve quiet_close quiet_open quiet_doUpload : quiet.
Lemma quiet_upload id isLocal pid name p etag : quiet (upload (D := D) id isLocal pid name p etag).
Proof. unfold upload, uploadAfterConflict. quiet_go. Qed.
Lemma quiet_target id n n' p p' : quiet (applyInflightTargetChange (D := D) id n n' p p').
Proof. unfold applyInflightTargetChange. quiet_go. Qed.
Lemma quiet_failed p err : quiet (upload_failed (D := D) (W := W) p err).
Proof. unfold upload_failed. quiet_go. by apply quiet_um. Qed.
Lemma quiet_finish id : quiet (atomic_ (finishSession (D := D) (W := W) id)).
Proof. apply quiet_atomic_. intros s. apply ext_finishSession. Qed.
Lemma quiet_release : quiet (atomic_ (releaseInFlight (D := D) (W := W))).
Proof. apply quiet_um. intros m. by destruct (0 <? _). Qed.
#[local] Hint Resolve quiet_upload quiet_target quiet_failed quiet_finish quiet_release : quiet.

Section loose.
Context (Hloose : strict = false).

(** The first of the two steps by which a new file takes its ID. *)
Lemma quiet_upd_inode id f : quiet (atomic_ (on_inodes (D := D) (W := W) (upd_inode id f))).
Proof.
  apply quiet_atomic_. intros s. split.
  - intros [HA HB HC HD]. split; try done. unfold cache_inv in *. rewrite Hloose in *. cbn.
    unfold upd_inode. destruct (Get _ id); [by apply ok_upd|exact HA].
  - split; [|done]. intros l Hl. cbn. unfold upd_inode. destruct (Get _ id); [by apply valid_upd|exact Hl].
Qed.
Lemma quiet_succeeded p id pid name item createdNew :
  quiet (upload_succeeded (D := D) p id pid name item createdNew).
Proof.
  unfold upload_succeeded. apply quiet_bind.
  { destruct createdNew; [apply quiet_bind; [apply quiet_upd_inode|intros _]|apply quiet_upd_inode].
    apply (quiet_inodes (λ _, MoveID id (item_ID item))). intros _ c. apply ext_MoveID. }
  intros _. apply quiet_bind.
  { apply (quiet_inodes (λ s, Invalidate (w_now (s_net s)) pid)). intros s c. apply ext_Invalidate. }
  intros _. quiet_go. by apply quiet_um.
Qed.
#[local] Hint Resolve quiet_succeeded : quiet.
Lemma quiet_executeUpload p : quiet (executeUpload (D := D) p).
Proof. unfold executeUpload. quiet_go. Qed.
Lemma quiet_launch p : quiet (launchIfCapacity (D := D) p).
Proof.
  unfold launchIfCapacity. apply quiet_bind.
  - apply quiet_atomic. intros s. destruct (_ <=? _); [done|]. by apply ext_on_um.
  - intros []; [apply quiet_fork, quiet_executeUpload|apply quiet_ret].
Qed.
#[local] Hint Resolve quiet_launch : quiet.
Lemma quiet_processSession p : quiet (processSession (D := D) p).
Proof.
  unfold processSession. quiet_go.
  apply quiet_atomic_. intros s. apply ext_upd_session.
Qed.
Lemma behaved_loop ev (s : St) : behaved sys_ok sys_later s (uploadLoop_case (D := D) ev).
Proof.
  exists (λ _, True). split_and!; [done|done|]. destruct ev as [| |order]; cbn [uploadLoop_case].
  - apply guarded_act with (λ _ _, True); [|done|].
    + intros s1 s' m Hs _ E. destruct (queue (s_um s1)) as [|p q] eqn:Eq; [done|]. injection E as <- _.
      destruct (ext_receive p q s1 Eq) as [HA HB]. auto.
    + intros s1 s' m Hs _ E. destruct (queue (s_um s1)); [done|]. injection E as _ <-. by apply guarded_ret.
  - eapply guarded_post; [|done]. apply (quiet_act _); [|done]. intros s1 s' m E.
    destruct (deletionQueue (s_um s1)) as [|id q]; [done|]. injection E as <- <-. split; [|apply quiet_ret].
    etrans; [|apply ext_finishSession]. by apply ext_on_um.
  - eapply guarded_post; [|done]. apply quiet_bind; [apply quiet_read| |done]. intros ps. apply quiet_iter, quiet_processSession.
Qed.
End loose.

(** *** The changes of the drive *)

Abbreviation DS := (DeltaSync St).

Lemma ext_learn_root (s : St) (d : DS) : sys_ext s (learn_root s d).2.
Proof.
  unfold learn_root. destruct (rootIDOnce d); [done|]. cbv zeta.
  pose proof (ext_on_net (api_GetItem Background (ItemID "root")) s) as He. by destruct (on_net _ s) as [[e|root] s1].
Qed.
Lemma ext_resolveParentID pid delta (d : DS) (s : St) : sys_ext s (resolveParentID pid delta (d, s)).2.2.
Proof.
  unfold resolveParentID. destruct (is_root_item _ _); [done|]. destruct (_ || _); [done|]. destruct (decide _); [done|].
  assert (He : sys_ext s (if bool_decide (lookup_inode s pid = None) then learn_root s d else (d, s)).2)
    by (destruct (bool_decide _); [apply ext_learn_root|done]).
  by destruct (if bool_decide _ then _ else _) as [d1 s1].
Qed.
Lemma ext_content_delete id (s : St) : sys_ext s (content_delete id s).
Proof. apply ext_on_content. Qed.
Lemma ext_matches id f (s : St) : sys_ext s (contentMatchesRemote id f s).2.
Proof.
  unfold contentMatchesRemote. destruct f as [f|]; [|done]. cbv zeta. destruct (decide _); [done|].
  pose proof (ext_on_content (ContentCache.SumQuickXorHash id) s) as He. by destruct (on_content _ s) as [[sum|] s1].
Qed.
Lemma ext_deleted id pid delta local (s : St) : sys_ext s (delta_deleted id pid delta local s).2.
Proof.
  unfold delta_deleted. cbv zeta. destruct (match local with Some _ => _ | None => _ end); [done|]. cbn [snd].
  etrans; [|apply ext_content_delete]. apply ext_on_inodes, ext_RemoveChild.
Qed.
Lemma ext_new_child pid i c : cache_ext c (let '(l, c) := alloc i c in InsertChild pid (Some l) c).
Proof.
  change (cache_ext c (InsertChild pid (Some (alloc i c).1) (alloc i c).2)).
  etrans; [apply (ext_alloc c i)|]. apply ext_InsertChild. apply alloc_spec.
Qed.
Lemma ext_new id name pid delta (s : St) : sys_ext s (delta_new id name pid delta s).
Proof.
  unfold delta_new, GetChild, GetChildren, se_bind.
  pose proof (ext_getChildren pid None true (s_net s) (s_inodes s) I) as Hg.
  destruct (getChildren _ _ _ _) as [[e|m] [w c]]; cbn [snd] in Hg; unfold se_ret; cbv zeta;
    (etrans; [apply (ext_on_inodes (λ _, c)), Hg|]).
  - apply ext_on_inodes, ext_new_child.
  - destruct (m !! name) as [l|]; [|apply ext_on_inodes, ext_new_child].
    destruct (isLocalID _); apply ext_on_inodes; [apply ext_MoveID|apply ext_new_child].
Qed.
Lemma ext_moved id name pid delta l (s : St) : sys_ext s (delta_moved id name pid delta l s).
Proof.
  unfold delta_moved. cbv zeta. destruct (_ && _); [done|].
  etrans; [apply ext_on_inodes, ext_MoveChild|]. apply ext_on_inodes, ext_upd. intros i.
  by destruct (item_Parent _).
Qed.
Lemma ID_remote_meta item i : ID (remote_meta item i) = ID i.
Proof. unfold remote_meta. cbv zeta. by destruct (item_File item). Qed.
Lemma ext_modified pending id delta l (s : St) : sys_ext s (delta_modified pending id delta l s).
Proof.
  unfold delta_modified. cbv zeta. destruct (negb _); [done|]. destruct (hasChanges _); [done|]. destruct pending; [done|].
  destruct (decide _); [done|]. set (s1 := on_inodes _ s).
  assert (He : sys_ext s s1) by (apply ext_on_inodes, ext_upd; intros i; apply ID_remote_meta).
  pose proof (ext_matches id (item_File (delta_Item delta)) s1) as Hm.
  destruct (contentMatchesRemote _ _ s1) as [[] s2]; cbn [snd] in Hm; (etrans; [exact He|]); [exact Hm|].
  etrans; [exact Hm|apply ext_content_delete].
Qed.
Lemma ext_root delta (s : St) : sys_ext s (delta_root delta s).
Proof.
  unfold delta_root. destruct (lookup_inode s "root") as [l|]; [|done]. apply ext_on_inodes.
  etrans; [|apply ext_markDirty]. by apply ext_upd.
Qed.
Lemma ext_applyDelta delta (ds : DS * St) : sys_ext ds.2 (applyDelta delta ds).2.2.
Proof.
  destruct ds as [d s]. unfold applyDelta. cbv zeta.
  pose proof (ext_resolveParentID (match item_Parent (delta_Item delta) with Some p => parent_ID p | None => "" end) delta d s) as Hr.
  destruct (resolveParentID _ delta (d, s)) as [pid [d1 s1]]. cbn [snd] in *.
  destruct (is_root_item pid delta); [etrans; [exact Hr|apply ext_root]|].
  destruct (lookup_inode s1 pid); [|exact Hr]. etrans; [exact Hr|].
  destruct (delta_Deleted delta) as [del|], (lookup_inode s1 (item_ID (delta_Item delta))) as [l|]; cbn [snd].
  - pose proof (ext_deleted (item_ID (delta_Item delta)) pid delta (Some l) s1) as He. by destruct (delta_deleted _ _ _ _ s1).
  - pose proof (ext_deleted (item_ID (delta_Item delta)) pid delta None s1) as He. by destruct (delta_deleted _ _ _ _ s1).
  - etrans; [apply ext_moved|apply ext_modified].
  - apply ext_new.
Qed.
Lemma ext_applyAll items (ds : DS * St) : sys_ext ds.2 (applyAll items ds).2.2.
Proof.
  revert ds. induction items as [|item items IH]; intros [d s]; cbn [applyAll]; [done|].
  assert (Ha : sys_ext s (applyOrReport item (d, s)).2.2).
  { unfold applyOrReport. pose proof (ext_applyDelta item (d, s)) as He.
    destruct (applyDelta item (d, s)) as [[e|] [d1 s1]]; cbn [snd] in *; [|exact He]. by destruct (errors_Is _ _). }
  destruct (applyOrReport item (d, s)) as [again ds1]. specialize (IH ds1). destruct (applyAll items ds1) as [rest ds2].
  cbn [snd] in *. by etrans.
Qed.
Lemma ext_applyPage items pending (ds : DS * St) : sys_ext ds.2 (applyPage items pending ds).2.2.
Proof.
  unfold applyPage. pose proof (ext_applyAll items ds) as HA. destruct (applyAll items ds) as [blocked ds1].
  pose proof (ext_applyAll blocked ds1) as HB. destruct (applyAll blocked ds1) as [still ds2].
  pose proof (ext_applyAll pending ds2) as HC. destruct (applyAll pending ds2) as [merged ds3]. cbn [snd] in *.
  by do 2 etrans.
Qed.
Lemma ext_offline v (s : St) : sys_ext s (SetOffline_ v s).
Proof. by apply ext_on_inodes, ext_same. Qed.
Lemma ext_link link (s : St) : sys_ext s (SetDeltaLink_ link s).
Proof. apply ext_on_db, db_ext_link. Qed.
Lemma ext_serialize (s : St) : sys_ext s (SerializeDirty_ s).
Proof. apply ext_on_db, db_ext_dirty. Qed.
Lemma ext_apply_pending items (ds : DS * St) : sys_ext ds.2 (foldl (λ ds item, (applyDelta item ds).2) ds items).2.
Proof.
  revert ds. induction items as [|item items IH]; intros ds; [done|]. cbn [foldl].
  etrans; [apply (ext_applyDelta item ds)|apply IH].
Qed.
Lemma ext_poll fuel ctx link pending total (ds : DS * St) :
  match poll_loop fuel ctx link pending total ds with Some r => sys_ext ds.2 r.2.2 | None => True end.
Proof.
  revert link pending total ds. induction fuel as [|fuel IH]; intros link pending total [d s]; cbn [poll_loop]; [done|].
  pose proof (ext_on_net (api_PollDelta ctx link) s) as Hn.
  destruct (on_net (api_PollDelta ctx link) s) as [[err|[[items next] cont]] s1]; cbn [snd] in *.
  { destruct (fs_isNetworkError err); [etrans; [exact Hn|apply ext_offline]|exact Hn]. }
  pose proof (ext_applyPage items pending (d, s1)) as Hp. destruct (applyPage items pending (d, s1)) as [pending' [d2 s2]].
  cbn [snd] in *. cbv zeta. assert (Hs : sys_ext s (SetDeltaLink_ next s2)) by (do 2 (etrans; [eassumption|]); apply ext_link).
  destruct cont; cbn [negb].
  - specialize (IH next pending' (total + Z.of_nat (length items)) (d2, SetDeltaLink_ next s2)).
    destruct (poll_loop _ _ _ _ _ _) as [r|]; [|done]. cbn [snd] in *. by etrans.
  - cbn [snd]. etrans; [exact Hs|]. apply (ext_apply_pending _ (d2, _)).
Qed.
(** A turn of the loop. *)
Lemma ext_turn fuel ctx interval link (ds : DS * St) :
  match deltaLoop_turn fuel ctx interval link ds with Some r => sys_ext ds.2 r.2.2 | None => True end.
Proof.
  unfold deltaLoop_turn, pollAndApply. pose proof (ext_poll fuel ctx link [] 0 ds) as Hp.
  destruct (poll_loop _ _ _ _ _ _) as [[[[n l] [err|]] [d s]]|]; [..|done]; cbn [snd] in *; cbv zeta; cbn [snd].
  - etrans; [exact Hp|apply ext_offline].
  - transitivity s; [exact Hp|]. set (s1 := if InodeCache.IsOffline _ then _ else s).
    assert (Ho : sys_ext s s1) by (subst s1; destruct (InodeCache.IsOffline _); [apply ext_offline|done]).
    transitivity s1; [exact Ho|]. transitivity (SetDeltaLink_ l s1); [apply ext_link|apply ext_serialize].
Qed.

(** *** A mount at work *)

Context (uid gid : Z) (ctx : Ctx W).

(** What joins the goroutines of the mount at any moment: a request, a case of
    the upload loop, a change of the drive or a whole turn of the delta loop, a
    folder of the pre-warming, a sweep of the cache. *)
Inductive mount_goroutine : Go unit → Prop :=
  | run_request r : mount_goroutine (serve uid gid (negb strict) ctx r)
  | run_loop ev : strict = false → mount_goroutine (uploadLoop_case ev)
  | run_change delta d : mount_goroutine (atomic_ (λ s, (applyDelta delta (d, s)).2.2))
  | run_turn fuel interval link d : mount_goroutine (Act (λ s,
      match deltaLoop_turn fuel ctx interval link (d, s) with Some r => Some (r.2.2, Ret tt) | None => None end))
  | run_prewarm id : mount_goroutine (ignore (atomic (on_cache (PrefetchChildren id (Some (preWarm_fetcher ctx))))))
  | run_sweep : mount_goroutine (atomic_ (λ s, on_inodes (sweep (w_now (s_net s))) s)).
Inductive mount_step : St * list (Go unit) → St * list (Go unit) → Prop :=
  | mount_spawn s ts t : mount_goroutine t → mount_step (s, ts) (s, ts ++ [t])
  | mount_run c c' : pool_step c c' → mount_step c c'.

Lemma fetch_ok_prewarm : fetch_ok (preWarm_fetcher ctx).
Proof. intros id w c. unfold preWarm_fetcher. by destruct (fetchChildrenFromGraph ctx id w). Qed.
Lemma behaved_quiet (t : Go unit) s : quiet t → behaved sys_ok sys_later s t.
Proof. intros Ht. exists (λ _, True). split_and!; [done|done|]. eapply guarded_post; [by apply Ht|done]. Qed.
Lemma behaved_goroutine t s : mount_goroutine t → behaved sys_ok sys_later s t.
Proof.
  destruct 1 as [r|ev Hl|delta d|fuel interval link d|id|].
  - apply behaved_quiet, quiet_serve.
  - by apply behaved_loop.
  - apply behaved_quiet, quiet_atomic_. intros s1. apply (ext_applyDelta delta (d, s1)).
  - apply behaved_quiet, quiet_act. intros s1 s' m E. pose proof (ext_turn fuel ctx interval link (d, s1)) as Ht.
    destruct (deltaLoop_turn _ _ _ _ _) as [r|]; [|done]. injection E as <- <-. split; [exact Ht|apply quiet_ret].
  - apply behaved_quiet, quiet_bind; [|intros; apply quiet_ret]. apply quiet_atomic. intros s1. apply ext_on_cache.
    pose proof (ext_getChildren id (Some (preWarm_fetcher ctx)) false (s_net s1) (s_inodes s1) fetch_ok_prewarm) as He.
    unfold PrefetchChildren. exact He.
  - apply behaved_quiet, (quiet_inodes (λ s, sweep (w_now (s_net s)))). intros s1 c. apply ext_sweep.
Qed.
Lemma mount_reach (c c' : St * list (Go unit)) :
  pool_guarded sys_ok sys_later c → rtc mount_step c c' → pool_guarded sys_ok sys_later c' ∧ sys_later c.1 c'.1.
Proof.
  intros Hc Hr. induction Hr as [c|c c1 c2 Hs _ IH]; [done|].
  assert (Hc1 : pool_guarded sys_ok sys_later c1 ∧ sys_later c.1 c1.1).
  { destruct Hs as [s ts t Ht|c c' Hs]; [|exact (pool_guarded_step sys_ok sys_later c c' Hc Hs)]. split; [|done].
    apply pool_guarded_spawn; [exact Hc|by apply behaved_goroutine]. }
  destruct Hc1 as [Hc1 Hl1]. destruct (IH Hc1) as [Hc2 Hl2]. split; [exact Hc2|]. by etrans.
Qed.
End system.

(** *** The start of a mount *)

Section start.
Context {D W : Type} `{Bolt D} `{Clock W} `{GraphAPI W} `{LocalZone} `{TimeText} `{JsonLen}.
Abbreviation St := (Sys D W).
Abbreviation Go A := (Res St A).

Lemma ok_restore_one now kv c : cache_ok c → cache_ok (restore_one now kv c).
Proof.
  intros Hc. unfold restore_one. destruct (NewInodeJSON _) as [e|i]; [exact Hc|]. destruct (Get c kv.1); [exact Hc|].
  assert (Ha : cache_ok (inodes_Store kv.1 (nextLoc c) (alloc i c).2))
    by (apply ok_inodes_Store; [apply alloc_spec|by apply ok_alloc]).
  cbn [alloc] in *. cbv zeta. destruct (IsChildrenFetched i); auto with cache.
Qed.
Lemma ok_InitBoltDB now path (opened : (error * bool) + D) c db c' :
  InitBoltDB now path opened c = inr (db, c') → cache_ok c → cache_ok c'.
Proof.
  unfold InitBoltDB. destruct opened as [[e []]|d]; [done..|]. cbv zeta. intros E Hc.
  match type of E with match ?u with _ => _ end = _ => destruct u as [[e|u1] [d1 c1]] eqn:Eu end; [done|].
  assert (c1 = c) as ->.
  { revert Eu. unfold db_Update, se_bind. destruct (bolt_create _ d) as [e|d2]; [done|].
    destruct (bolt_create _ d2) as [e|d3]; [done|]. destruct (bolt_create _ d3) as [e|d4]; [done|].
    destruct (bolt_commit d d4); [done|]. by intros [= _ _ <-]. }
  unfold DeserializeFromDisk, se_bind, se_get in E. cbn [fst snd] in E. destruct (bolt_bucket d1 _).
  - cbn [se_modify] in E. injection E as _ <-. clear Eu. revert c Hc. generalize (bolt_foreach d1 boltBucketMetadata). intros l.
    induction l as [|kv l IH]; intros c Hc; [exact Hc|]. cbn [foldl]. apply IH. by apply ok_restore_one.
  - by injection E as _ <-.
Qed.

(** What a restart finds is put back as sessions that are all known. *)
Lemma ok_restore_session kv (s : St) : sys_ok false s → sys_ok false (restore_one_session kv s).
Proof.
  destruct kv as [id data]. unfold restore_one_session. destruct (NewUploadSessionJSON data) as [e|u].
  { apply (ext_on_db false), db_ext_delete. }
  cbn [new_session]. intros Hs. set (s1 := mkSys _ (<[s_next s := u]> (s_objs s)) _ _ _ _ _).
  assert (Hs1 : sys_ok false s1 ∧ is_session (s_next s) s1).
  { destruct Hs as [HA HB HC HD]. subst s1. split; [|unfold is_session; cbn; rewrite lookup_insert_eq; eauto].
    assert (Hmono : ∀ p, is_session p s → is_Some (<[s_next s := u]> (s_objs s) !! p)).
    { intros p Hp. apply lookup_insert_is_Some. destruct (decide (s_next s = p)); [by left|by right]. }
    split; cbn; [exact HA|..].
    - intros p Hp. unfold is_session in Hp. cbn in Hp. apply lookup_insert_is_Some in Hp as [<-|[_ Hp]]; [lia|].
      specialize (HB p Hp). lia.
    - intros id' p Hp. by eapply Hmono, HC.
    - intros p Hp. by apply Hmono, HD. }
  destruct Hs1 as [Hs1 Hp]. destruct (negb _).
  - apply (ext_add_session false); [by apply (ext_upd_session false)|by apply (ext_upd_session false)].
  - apply (ext_on_db false _ _ (db_ext_delete id)), (ext_discard false), Hs1.
Qed.
Lemma ok_NewUploadManager n m db c content (w : W) :
  cache_ok c → sys_ok (D := D) false (NewUploadManager n m (mkSys no_uploads ∅ 0 db c content w)).
Proof.
  intros Hc. unfold NewUploadManager, restoreIncompleteSessions. cbv zeta.
  match goal with |- sys_ok _ (foldl _ ?s0 ?l) => generalize l; assert (Hs : sys_ok (D := D) false s0); [|revert Hs; generalize s0] end.
  { split; [exact Hc|intros p [x Hx]|intros id p Hp|intros p Hp]; cbn in *;
      [by rewrite lookup_empty in Hx|by rewrite lookup_empty in Hp|by apply elem_of_nil in Hp]. }
  intros s Hs l. revert s Hs. induction l as [|kv l IH]; intros s Hs; [exact Hs|]. cbn [foldl]. by apply IH, ok_restore_session.
Qed.
Lemma ok_mount_services config opened dw (ds : DeltaSync St * St) dw' :
  mount_services config opened dw = (inr ds, dw') → sys_ok false ds.2.
Proof.
  destruct dw as [d w]. unfold mount_services. destruct (ContentCache.NewContentCache _ d) as [[e|content] d1]; [done|].
  cbv zeta. set (c0 := SetMaxEntries _ _).
  assert (Hc0 : cache_ok c0) by (apply (ok_same NewInodeCache); [done..|apply wf_new]).
  destruct (InitBoltDB (w_now w) _ opened c0) as [e|[db c]] eqn:Ei; cbv zeta; intros [= <- _]; cbn [snd]; apply ok_NewUploadManager.
  - exact Hc0.
  - by eapply ok_InitBoltDB.
Qed.

(** C2: while a mount is at work nothing it shares dangles, whatever the order
    in which its goroutines take their turns. From the state its services start
    in, with any database, every state reached by FUSE requests, the upload loop
    and the uploads it launches, changes of the drive, pre-warming and sweeps,
    action by action, has the following: the keys of the cache map, the sessions
    of the upload manager and the queue lead to objects; no ID is both to be
    rewritten and to be removed on disk; each TTL entry is in the bucket of its
    expiry; and a pointer that led to an inode or a session still does, so that
    the nodes the kernel and the goroutines hold stay good. Without uploads each
    key is moreover the ID of its inode. *)
Theorem mount_interleavings config opened dw dw' ds uid gid ctx (s : St) ts :
  (mount_services config opened dw = (inr ds, dw') →
   rtc (mount_step false uid gid ctx) (ds.2, []) (s, ts) → sys_ok false s ∧ sys_later ds.2 s) ∧
  (∀ s0, sys_ok true s0 → rtc (mount_step true uid gid ctx) (s0, []) (s, ts) →
     cache_wf (s_inodes s) ∧ sys_ok true s ∧ sys_later s0 s).
Proof.
  assert (Hgo : ∀ strict s0, sys_ok strict s0 → rtc (mount_step strict uid gid ctx) (s0, []) (s, ts) → sys_ok strict s ∧ sys_later s0 s).
  { intros strict s0 Hs0 Hr. destruct (mount_reach strict uid gid ctx (s0, []) (s, ts)) as [[Hs _] Hl]; [by split|done|]. done. }
  split.
  - intros Hm Hr. apply Hgo; [|exact Hr]. by eapply ok_mount_services.
  - intros s0 Hs0 Hr. destruct (Hgo true s0 Hs0 Hr) as [Hs Hl]. split_and!; [apply (so_cache _ _ Hs)|exact Hs|exact Hl].
Qed.
End start.

(** A restarted mount that sweeps its cache. *)
Lemma mount_interleavings_witness :
  sys_ok false (on_inodes (sweep (w_now (s_net restarted))) restarted).
Proof.
  destruct running_remounts as (ds & dw & Em).
  destruct (mount_interleavings (D := MapDB) (W := Cloud) example_config (inr stopped_file)
    (ContentCache.disk (s_content running), example_cloud) dw (ds, restarted) 0 0 Background
    (on_inodes (sweep (w_now (s_net restarted))) restarted) [Ret tt]) as [HA _].
  apply HA; [exact Em|]. cbn [snd].
  eapply rtc_l; [apply mount_spawn, run_sweep|]. eapply rtc_l; [|apply rtc_refl]. apply mount_run.
  apply (pool_act restarted _ [] []). reflexivity.
Defined.

(** A new file takes its ID in two steps. Deleted between the two, on the drive
    and here, it is found again by the second one: the deletion has succeeded and
    the file is back in the cache. *)
Example deletion_between_steps :
  after (do* r := Create 0 0 Background (Some [1; 2; 3; 4]) OneCloudFS "n.txt" 420 in
         match r with
         | inr (DriveItemNode l, _) =>
             do* i := read_inode l in
             do* u := atomic (on_net (api_UploadItem Background (ItemPath "/") "n.txt" (mkReqBody (PBytes [1; 2; 3]) None false) "")) in
             let id := match u with inr item => item_ID item | inl _ => "" end in
             atomic_ (on_inodes (upd_inode (ID i) (SetID id))) ;;;
             do* errno := Unlink Background OneCloudFS "n.txt" in
             atomic_ (on_inodes (MoveID (ID i) id)) ;;; Ret (errno, id)
         | _ => Ret (EIO, "")
         end) b_sys
    (λ r s, (r.1, bool_decide (is_Some (cl_items (s_net s) !! r.2)), (λ l, Name (inode_of s l)) <$> Get (s_inodes s) r.2))
  = Some (0, false, Some "n.txt").
Proof. vm_compute. reflexivity. Qed.
