(* ===== verification/Service.v ===== *)
(** The systemd integration (internal/service): the unit file that mounts an
    account at login, the state systemd reports of the instances, and the
    actions on them, with the results their structured output shows.

    The commands run ([systemctl], [journalctl], [mount], [fusermount3]) and the
    search path are the host's: the class [Host]. The text forms of the actions
    are in [ServiceText]. *)

From S2P Require Export GoText GoOS.

#[local] Open Scope Z_scope.

(** Running a command: its standard output and error, and how it ended; the
    search path; the mode of a file (whether it is regular, its permissions);
    and the absolute form of a path. *)
Class Host (S : Type) := {
  run_command : string → list string → S → (string * string * option error) * S;
  exec_LookPath : string → S → error + string;
  os_Mode : string → S → error + (bool * Z);
  filepath_Abs : string → S → error + string;
}.

(** ** internal/service/status.go *)

Definition defaultJournalLines : Z := 10.

Record UnitStatus := mkUnitStatus {
  st_Unit : string; st_Account : string; st_ActiveState : string; st_SubState : string; st_State : string;
  st_PID : Z; st_Mountpoint : string; st_JournalTail : list string }.

Definition unitName (account : string) : string := "onecloudriver@" +:+ account +:+ ".service".

Record unitShow := mkUnitShow {
  activeState : string; subState : string; pid : Z; execStart : string; enabled : string }.
Definition zero_Show : unitShow := mkUnitShow "" "" 0 "" "".
Definition set_activeState v u := mkUnitShow v (subState u) (pid u) (execStart u) (enabled u).
Definition set_subState v u := mkUnitShow (activeState u) v (pid u) (execStart u) (enabled u).
Definition set_pid v u := mkUnitShow (activeState u) (subState u) v (execStart u) (enabled u).
Definition set_execStart v u := mkUnitShow (activeState u) (subState u) (pid u) v (enabled u).
Definition set_enabled v u := mkUnitShow (activeState u) (subState u) (pid u) (execStart u) v.

(** What the lines of [parseUnitShowOutput] make of the unit, and whether
    ActiveState and SubState were seen. *)
Definition show_line (line : string) (s : unitShow * bool * bool) : error + (unitShow * bool * bool) :=
  let '(u, seenActive, seenSub) := s in
  match Cut line "=" with
  | None => inl (EMsg ("malformed systemctl property " +:+ Quote line))
  | Some (key, value) =>
      if decide (key = "ActiveState") then inr (set_activeState value u, true, seenSub)
      else if decide (key = "SubState") then inr (set_subState value u, seenActive, true)
      else if decide (key = "MainPID") then
        if decide (value = "") then inr s else
        match ParseInt value with
        | Some n => if n <? 0 then inl (EMsg ("invalid MainPID " +:+ Quote value)) else inr (set_pid n u, seenActive, seenSub)
        | None => inl (EMsg ("invalid MainPID " +:+ Quote value))
        end
      else if decide (key = "ExecStart") then inr (set_execStart value u, seenActive, seenSub)
      else if decide (key = "UnitFileState") then inr (set_enabled value u, seenActive, seenSub)
      else inr s
  end.
Fixpoint show_lines (lines : list string) (s : unitShow * bool * bool) : error + (unitShow * bool * bool) :=
  match lines with
  | [] => inr s
  | line :: lines => match show_line line s with inl e => inl e | inr s => show_lines lines s end
  end.
Definition parseUnitShowOutput (output : string) : error + unitShow :=
  let '(lines, err) := Scan output in
  match show_lines lines (zero_Show, false, false) with
  | inl e => inl e
  | inr (u, seenActive, seenSub) =>
      match err with
      | Some e => inl (EWrap "reading systemctl properties: " e "")
      | None => if negb seenActive || negb seenSub
                then inl (EMsg "systemctl output is missing ActiveState or SubState") else inr u
      end
  end.

Definition normalizeUnitState (active sub : string) : string :=
  if bool_decide (active = "active") && bool_decide (sub = "running") then "running"
  else if bool_decide (active = "activating") && bool_decide (sub = "auto-restart") then "restarting"
  else if decide (active = "activating") then "starting"
  else if decide (active = "deactivating") then "stopping"
  else if decide (active = "failed") then "failed"
  else if bool_decide (active = "inactive") || (bool_decide (active = "active") && bool_decide (sub = "exited")) then "stopped"
  else "unknown".

(** [decodeSystemdArgument]: the quotes around, and the [\xNN] escapes. *)
Fixpoint decode_chars (l : list ascii) : list ascii :=
  match l with
  | "092"%char :: (("x"%char :: a :: b :: l') as rest) =>
      match ParseHex2 a b with Some n => ascii_of n :: decode_chars l' | None => "092"%char :: decode_chars rest end
  | a :: l => a :: decode_chars l
  | [] => []
  end.
Definition unquote (l : list ascii) : list ascii :=
  match l, last l with
  | "034"%char :: _ :: _, Some "034"%char => take (length l - 2) (drop 1 l)
  | _, _ => l
  end.
Definition decodeSystemdArgument (value : string) : string := of_chars (decode_chars (unquote (chars value))).

(** [parseMountpoint]. *)
Definition argv_of (execStart : string) : string :=
  match Cut execStart "argv[]=" with
  | None => execStart
  | Some (_, command) => match Cut command " ;" with Some (before, _) => before | None => command end
  end.
Definition parseMountpoint (execStart : string) : string :=
  match Cut (argv_of execStart) " mount " with
  | None => ""
  | Some (_, rest) =>
      match Cut rest " -a " with
      | Some (mountpoint, _) => decodeSystemdArgument (TrimSpace mountpoint)
      | None => ""
      end
  end.

Section env.
(** [os.UserHomeDir], and the variable XDG_CONFIG_HOME. *)
Context (UserHomeDir : error + string) (XDG_CONFIG_HOME : string).

(** [concreteMountpoint]. *)
Definition concreteMountpoint (mountpoint account : string) : string :=
  let mountpoint := match UserHomeDir with inr home => ReplaceText mountpoint "%h" home | inl _ => mountpoint end in
  ReplaceText mountpoint "%i" account.
Definition expandMountpoint (mountpoint account : string) : string :=
  if decide (mountpoint = "") then "" else concreteMountpoint mountpoint account.

Definition buildUnitStatus (unit account : string) (show : unitShow) : UnitStatus :=
  mkUnitStatus unit account (activeState show) (subState show) (normalizeUnitState (activeState show) (subState show))
    (pid show) (expandMountpoint (parseMountpoint (execStart show)) account) [].

Section host.
Context {S : Type} `{Host S}.

(** The message of a command that failed. *)
Definition failure_message (stderr : string) (err : error) : string :=
  let message := TrimSpace stderr in if decide (message = "") then Error err else message.
Definition showUnit (unit : string) : SE S error unitShow := λ s,
  match run_command "systemctl" ["--user"; "show"; unit;
          "--property=ActiveState,SubState,MainPID,ExecStart,UnitFileState"; "--no-pager"] s with
  | (_, stderr, Some err, s) =>
      (inl (EWrap ("could not query systemd unit " +:+ unit +:+ ": " +:+ failure_message stderr err +:+ ": ") err ""), s)
  | (stdout, _, None, s) => (parseUnitShowOutput stdout, s)
  end.
Definition journalTail (unit : string) (lines : Z) : SE S error (list string) := λ s,
  let lines := if lines <=? 0 then defaultJournalLines else lines in
  match run_command "journalctl" ["--user"; "-u"; unit; "-n"; pretty lines; "--no-pager"] s with
  | (_, stderr, Some err, s) =>
      (inl (EWrap ("could not read journal for " +:+ unit +:+ ": " +:+ failure_message stderr err +:+ ": ") err ""), s)
  | (stdout, _, None, s) =>
      let trimmed := TrimNewlines stdout in
      (inr (if decide (trimmed = "") then [] else Split trimmed newline), s)
  end.

(** [queryUnitStatus]: the status and the error of the journal. *)
Definition set_JournalTail (l : list string) (u : UnitStatus) : UnitStatus :=
  mkUnitStatus (st_Unit u) (st_Account u) (st_ActiveState u) (st_SubState u) (st_State u) (st_PID u) (st_Mountpoint u) l.
Definition queryUnitStatus (account : string) : SE S error (UnitStatus * option error) := λ s,
  if decide (TrimSpace account = "") then (inl (EMsg "account must not be empty"), s) else
  match showUnit (unitName account) s with
  | (inl e, s) => (inl e, s)
  | (inr show, s) =>
      let status := buildUnitStatus (unitName account) account show in
      if decide (st_State status = "running") then (inr (status, None), s) else
      match journalTail (unitName account) defaultJournalLines s with
      | (inr journal, s) => (inr (set_JournalTail journal status, None), s)
      | (inl e, s) => (inr (status, Some e), s)
      end
  end.
(** [runningMountpoint]. *)
Definition runningMountpoint (account : string) (s : S) : option string * S :=
  match queryUnitStatus account s with
  | (inr (status, _), s) =>
      (if bool_decide (st_State status = "running") && negb (bool_decide (st_Mountpoint status = ""))
       then Some (st_Mountpoint status) else None, s)
  | (inl _, s) => (None, s)
  end.
End host.
End env.

(** ** internal/service/instances.go *)

Record InstanceInfo := mkInstanceInfo {
  in_Unit : string; in_Account : string; in_Enabled : string; in_ActiveState : string; in_SubState : string;
  in_State : string; in_Mountpoint : string }.

Definition serviceUnitPrefix : string := "onecloudriver@".
Definition serviceUnitSuffix : string := ".service".

Definition isNoInstalledUnitsMessage (message : string) : bool :=
  let message := ToLower message in
  Contains message "no files found" || Contains message "no units found" || Contains message "no units matching"
  || Contains message "0 units listed".
Definition isOnecloudriverUnit (unit : string) : bool :=
  HasPrefix unit serviceUnitPrefix && HasSuffix unit serviceUnitSuffix.
(** [accountFromUnit]: no account when it would be empty. *)
Definition accountFromUnit (unit : string) : option string :=
  if negb (isOnecloudriverUnit unit) then None else
  let account := TrimSuffix (TrimPrefix unit serviceUnitPrefix) serviceUnitSuffix in
  if decide (account = "") then None else Some account.

(** [parseInstalledUnits]: the distinct unit names of the first column, in
    order. *)
Definition unit_of_line (line : string) (seen : gset string) : error + gset string :=
  match Fields (TrimSpace line) with
  | [] => inr seen
  | unit :: _ =>
      if negb (isOnecloudriverUnit unit) then inr seen
      else if decide (unit = serviceUnitPrefix +:+ serviceUnitSuffix) then inr seen
      else match accountFromUnit unit with
           | None => inl (EMsg ("invalid onecloudriver unit name " +:+ Quote unit))
           | Some _ => inr ({[ unit ]} ∪ seen)
           end
  end.
Fixpoint units_of_lines (lines : list string) (seen : gset string) : error + gset string :=
  match lines with
  | [] => inr seen
  | line :: lines => match unit_of_line line seen with inl e => inl e | inr seen => units_of_lines lines seen end
  end.
Definition parseInstalledUnits (output : string) : error + list string :=
  let '(lines, err) := Scan output in
  match units_of_lines lines ∅ with
  | inl e => inl e
  | inr seen =>
      match err with
      | Some e => inl (EWrap "reading list-units output: " e "")
      | None => inr (merge_sort string_le (elements seen))
      end
  end.

(** The order of [listInstances]: by account, then by unit. *)
Definition instance_le (a b : InstanceInfo) : Prop :=
  if decide (in_Account a = in_Account b) then string_le (in_Unit a) (in_Unit b) else string_le (in_Account a) (in_Account b).
#[global] Instance instance_le_dec : RelDecision instance_le.
Proof. unfold instance_le, RelDecision. intros a b. destruct (decide _); apply _. Defined.

Section instances.
Context (UserHomeDir : error + string).
Context {S : Type} `{Host S}.

Definition listInstalledUnits : SE S error (list string) := λ s,
  match run_command "systemctl" ["--user"; "list-units"; "--all"; "--type=service"; "--no-legend"; "--plain"; "onecloudriver@*"] s with
  | (stdout, stderr, Some err, s) =>
      if bool_decide (stdout = "") && isNoInstalledUnitsMessage (TrimSpace stderr) then (inr [], s)
      else (inl (EWrap ("could not list installed systemd units: " +:+ failure_message stderr err +:+ ": ") err ""), s)
  | (stdout, _, None, s) => (parseInstalledUnits stdout, s)
  end.

Definition instance_info (unit account : string) (show : unitShow) : InstanceInfo :=
  let status := buildUnitStatus UserHomeDir unit account show in
  mkInstanceInfo unit account (enabled show) (st_ActiveState status) (st_SubState status) (st_State status) (st_Mountpoint status).
Fixpoint instances_of (units : list string) : SE S error (list InstanceInfo) :=
  match units with
  | [] => se_ret []
  | unit :: units => λ s,
      match showUnit unit s with
      | (inl e, s) => (inl (EWrap ("querying installed unit " +:+ unit +:+ ": ") e ""), s)
      | (inr show, s) =>
          match accountFromUnit unit with
          | None => (inl (EMsg ("invalid onecloudriver unit name " +:+ Quote unit)), s)
          | Some account =>
              match instances_of units s with
              | (inl e, s) => (inl e, s)
              | (inr rest, s) => (inr (instance_info unit account show :: rest), s)
              end
          end
      end
  end.
Definition listInstances : SE S error (list InstanceInfo) := λ s,
  match listInstalledUnits s with
  | (inl e, s) => (inl e, s)
  | (inr units, s) =>
      match instances_of units s with
      | (inl e, s) => (inl e, s)
      | (inr l, s) => (inr (merge_sort instance_le l), s)
      end
  end.
End instances.

(** ** internal/service/systemd.go *)

Definition normalizeMountpointForUnit (mountpoint : string) : string :=
  if decide (mountpoint = "~") then "%h"
  else if HasPrefix mountpoint "~/" then "%h/" +:+ TrimPrefix mountpoint "~/"
  else mountpoint.

(** [ServiceUnit]: the lines of the unit file. *)
Definition unit_lines (mountpoint binary : string) : list string :=
  ["[Unit]"; "Description=OneCloudRiver - OneDrive filesystem for %i"; "Documentation=man:onecloudriver(1)";
   "After=network-online.target"; "Wants=network-online.target"; ""; "[Service]"; "Type=simple";
   "ExecStart=" +:+ binary +:+ " mount " +:+ mountpoint +:+ " -a %i";
   "ExecStop=/bin/fusermount3 -uz " +:+ mountpoint; "ExecReload=/bin/fusermount3 -uz " +:+ mountpoint;
   "Restart=on-failure"; "RestartSec=10"; "StandardOutput=journal"; "StandardError=journal"; ""; "[Install]";
   "WantedBy=default.target"; ""].
Definition ServiceUnit (mountpoint binary : string) : string :=
  JoinText (unit_lines (normalizeMountpointForUnit mountpoint) binary) nl.

Section systemd.
Context (UserHomeDir : error + string) (XDG_CONFIG_HOME argv0 : string).
Context {S : Type} `{Host S}.
(** The host and its disk. *)
Abbreviation HS := (Disk * S)%type.

Definition ServiceFilePath : error + string :=
  let file configDir := filepath_Join (filepath_Join (filepath_Join configDir "systemd") "user") "onecloudriver@.service" in
  if decide (XDG_CONFIG_HOME = "") then
    match UserHomeDir with
    | inl err => inl (EWrap "could not determine HOME: " err "")
    | inr home => inr (file (filepath_Join home ".config"))
    end
  else inr (file XDG_CONFIG_HOME).

Definition isExecutableFile (path : string) (s : S) : bool :=
  match os_Mode path s with inl _ => false | inr (regular, perm) => regular && negb (Z.land perm 73 =? 0) end.
Definition resolveBinary (argv0 : string) (s : S) : error + string :=
  let argv0 := if HasSuffix (path_Base (TrimRight argv0 slash)) ".test" then "onecloudriver" else argv0 in
  let candidate :=
    if Contains argv0 "/" then
      match filepath_Abs argv0 s with
      | inl err => inl (EWrap ("could not resolve binary path " +:+ Quote argv0 +:+ ": ") err "")
      | inr abs => inr abs
      end
    else
      match exec_LookPath argv0 s with
      | inl err => inl (EWrap ("onecloudriver binary not found in PATH (tried " +:+ Quote argv0 +:+ "): ") err "")
      | inr p => inr p
      end in
  match candidate with
  | inl err => inl err
  | inr p => if isExecutableFile p s then inr p else inl (EMsg ("binary " +:+ Quote p +:+ " is not an executable file"))
  end.

Definition on_files {A} (m : Disk → (error + A) * Disk) : SE HS error A := λ '(d, s), let '(r, d) := m d in (r, (d, s)).
Definition command (name : string) (args : list string) : HS → (string * string * option error) * HS := λ '(d, s),
  let '(r, s) := run_command name args s in (r, (d, s)).
(** A command of which only the outcome matters. *)
Definition run_quiet (name : string) (args : list string) (s : HS) : option error * HS :=
  let '(_, _, err, s) := command name args s in (err, s).

(** [ensureMountpointDir] and its quiet form. *)
Definition ensureMountpointDir (mountpoint account : string) : SE HS error unit := λ s,
  let dir := concreteMountpoint UserHomeDir mountpoint account in
  match on_files (os_Stat dir) s with
  | (inr _, s) => (inr tt, s)
  | (inl err, s) =>
      if negb (os_IsNotExist err) then (inl (EWrap ("error checking mountpoint " +:+ Quote dir +:+ ": ") err ""), s) else
      match on_files (os_MkdirAll dir) s with
      | (inl err, s) => (inl (EWrap ("error creating mountpoint " +:+ Quote dir +:+ ": ") err ""), s)
      | (inr _, s) => (inr tt, s)
      end
  end.

Definition DefaultMountpointFor (account : string) : string :=
  match UserHomeDir with inl _ => "" | inr home => filepath_Join (filepath_Join home "OneDrive") account end.

Definition isMounted (mp : string) (s : HS) : (error + bool) * HS :=
  match command "mount" [] s with
  | (_, _, Some err, s) => (inl (EWrap "could not read the mount table: " err ""), s)
  | (out, _, None, s) => (inr (Contains out mp), s)
  end.
(** [unmount]; [errors.Join] puts the two errors one under the other. *)
Definition unmount_mp (mp : string) (s : HS) : option error * HS :=
  match run_quiet "fusermount3" ["-uz"; mp] s with
  | (None, s) => (None, s)
  | (Some err3, s) =>
      match run_quiet "fusermount" ["-uz"; mp] s with
      | (None, s) => (None, s)
      | (Some err, s) => (Some (EWrap ("could not unmount " +:+ mp +:+ ": " +:+ Error err3 +:+ nl) err ""), s)
      end
  end.
(** [UnmountMountpoint] and [unmountQuiet]. *)
Definition UnmountMountpoint (account : string) (s : HS) : option error * HS :=
  let mp := DefaultMountpointFor account in
  if decide (mp = "") then (None, s) else
  match isMounted mp s with
  | (inl err, s) => (Some err, s)
  | (inr false, s) => (None, s)
  | (inr true, s) => unmount_mp mp s
  end.

(** [Systemctl] and [runSystemctlQuiet], [EnableUnit] and its quiet form. *)
Definition runSystemctl (action unit : string) (s : HS) : option error * HS :=
  match run_quiet "systemctl" ["--user"; action; unit] s with
  | (Some err, s) => (Some (EWrap ("error running systemctl " +:+ action +:+ " " +:+ unit +:+ ": ") err ""), s)
  | (None, s) => (None, s)
  end.
Definition EnableUnit (account : string) (s : HS) : option error * HS :=
  let unit := unitName account in
  match run_quiet "systemctl" ["--user"; "enable"; "--now"; unit] s with
  | (Some err, s) => (Some (EWrap ("error enabling systemd unit " +:+ unit +:+ ": ") err ""), s)
  | (None, s) => (None, s)
  end.

(** ** internal/service/results.go *)

Record ActionResult := mkResult {
  ar_Action : string; ar_OK : bool; ar_Account : string; ar_AffectedAccounts : list string; ar_ServiceFile : string;
  ar_Mountpoint : string; ar_Warning : string; ar_Message : string; ar_Error : string }.
Definition new_result (action account mountpoint : string) : ActionResult :=
  mkResult action false account [] "" mountpoint "" "" "".
Definition set_OK (r : ActionResult) : ActionResult :=
  mkResult (ar_Action r) true (ar_Account r) (ar_AffectedAccounts r) (ar_ServiceFile r) (ar_Mountpoint r) (ar_Warning r)
    (ar_Message r) (ar_Error r).
Definition set_Error (e : string) (r : ActionResult) : ActionResult :=
  mkResult (ar_Action r) (ar_OK r) (ar_Account r) (ar_AffectedAccounts r) (ar_ServiceFile r) (ar_Mountpoint r) (ar_Warning r)
    (ar_Message r) e.
Definition set_ServiceFile (f : string) (r : ActionResult) : ActionResult :=
  mkResult (ar_Action r) (ar_OK r) (ar_Account r) (ar_AffectedAccounts r) f (ar_Mountpoint r) (ar_Warning r)
    (ar_Message r) (ar_Error r).
Definition set_Message (m : string) (r : ActionResult) : ActionResult :=
  mkResult (ar_Action r) (ar_OK r) (ar_Account r) (ar_AffectedAccounts r) (ar_ServiceFile r) (ar_Mountpoint r) (ar_Warning r)
    m (ar_Error r).
Definition set_Warning (w : string) (r : ActionResult) : ActionResult :=
  mkResult (ar_Action r) (ar_OK r) (ar_Account r) (ar_AffectedAccounts r) (ar_ServiceFile r) (ar_Mountpoint r) w
    (ar_Message r) (ar_Error r).
Definition set_Affected (l : list string) (r : ActionResult) : ActionResult :=
  mkResult (ar_Action r) (ar_OK r) (ar_Account r) l (ar_ServiceFile r) (ar_Mountpoint r) (ar_Warning r) (ar_Message r) (ar_Error r).

(** An action returns its result and its error. *)
Definition Action : Type := HS → (ActionResult * option error) * HS.
(** [result.Error = err.Error(); return result, ret]. *)
Definition failed (err ret : error) (r : ActionResult) (s : HS) : (ActionResult * option error) * HS :=
  ((set_Error (Error err) r, Some ret), s).
Definition failed_same (err : error) := failed err err.
Definition succeeded (r : ActionResult) (s : HS) : (ActionResult * option error) * HS := ((set_OK r, None), s).

(** The reload both installing and uninstalling end with. *)
Definition daemon_reload (r : ActionResult) : Action := λ s,
  match run_quiet "systemctl" ["--user"; "daemon-reload"] s with
  | (Some err, s) => failed err (EWrap "error reloading systemd daemon: " err "") r s
  | (None, s) => succeeded r s
  end.

Definition InstallServiceResult (mountpoint account : string) : Action := λ s,
  let result := new_result "install" account mountpoint in
  match ServiceFilePath with
  | inl err => failed_same err result s
  | inr path =>
      let result := set_ServiceFile path result in
      match resolveBinary argv0 s.2 with
      | inl err => failed_same err result s
      | inr binary =>
          match on_files (os_MkdirAll (path_Dir path)) s with
          | (inl err, s) => failed err (EWrap "error creating systemd directory: " err "") result s
          | (inr _, s) =>
              match on_files (os_WriteFile path (string_bytes (ServiceUnit mountpoint binary))) s with
              | (inl err, s) => failed err (EWrap "error writing service file: " err "") result s
              | (inr _, s) =>
                  match ensureMountpointDir mountpoint account s with
                  | (inl err, s) => failed_same err result s
                  | (inr _, s) => daemon_reload result s
                  end
              end
          end
      end
  end.

(** The actions on one unit: what is done first, and its warning. *)
Definition unit_action (action account : string) (result : ActionResult) : Action := λ s,
  match runSystemctl action (unitName account) s with
  | (Some err, s) => failed_same err result s
  | (None, s) => succeeded result s
  end.
Definition StartServiceResult (account : string) : Action := unit_action "start" account (new_result "start" account "").
Definition RestartServiceResult (account : string) : Action := unit_action "restart" account (new_result "restart" account "").
Definition StopServiceResult (account : string) : Action := λ s,
  let result := new_result "stop" account "" in
  let '(err, s) := UnmountMountpoint account s in
  let result := match err with Some err => set_Warning (Error err) result | None => result end in
  unit_action "stop" account result s.

(** [UninstallServiceResult]: the warnings of stopping the instances. *)
Definition warned (ws : list string) (r : option error * HS) : list string * HS :=
  (match r.1 with Some err => ws ++ [Error err] | None => ws end, r.2).
Definition stop_unit (unit : string) (ws : list string) (s : HS) : list string * HS :=
  let '(ws, s) := warned ws (runSystemctl "stop" unit s) in warned ws (runSystemctl "disable" unit s).
Definition remove_account (ws : list string * HS) (account : string) : list string * HS :=
  let '(ws, s) := warned ws.1 (UnmountMountpoint account ws.2) in stop_unit (unitName account) ws s.
Definition remove_unit (acc : list string * list string * HS) (unit : string) : list string * list string * HS :=
  let '(affected, ws, s) := acc in
  match accountFromUnit unit with
  | None => acc
  | Some account => let '(ws, s) := stop_unit unit ws s in (affected ++ [account], ws, s)
  end.
(** The accounts affected and the warnings, or the error of the unit list. *)
Definition stop_instances (accounts : list string) : SE HS error (list string * list string) := λ s,
  match accounts with
  | _ :: _ => let '(ws, s) := foldl remove_account ([], s) accounts in (inr (accounts, ws), s)
  | [] =>
      match command "systemctl" ["--user"; "list-units"; "--plain"; "--no-legend"; "onecloudriver@*"] s with
      | (_, _, Some err, s) =>
          (inr ([], ["could not list the running instances (they were not stopped): " +:+ Error err]), s)
      | (stdout, _, None, s) =>
          match parseInstalledUnits stdout with
          | inl err => (inl err, s)
          | inr units => let '(affected, ws, s) := foldl remove_unit ([], [], s) units in (inr (affected, ws), s)
          end
      end
  end.
Definition UninstallServiceResult (accounts : list string) : Action := λ s,
  let result := new_result "uninstall" "" "" in
  match ServiceFilePath with
  | inl err => failed_same err result s
  | inr path =>
      match stop_instances accounts s with
      | (inl err, s) => failed_same err result s
      | (inr (affected, ws), s) =>
          let result := set_Warning (JoinText ws "; ") (set_Affected (merge_sort string_le affected) result) in
          match on_files (os_Stat path) s with
          | (inl _, s) => succeeded (set_Message "The service was not installed." result) s
          | (inr _, s) =>
              match on_files (os_Remove path) s with
              | (inl err, s) => failed err (EWrap "error removing service file: " err "") result s
              | (inr _, s) =>
                  let message := match accounts with
                                 | _ :: _ => "Service uninstalled for all accounts."
                                 | [] => "Service uninstalled successfully."
                                 end in
                  daemon_reload (set_Message message (set_ServiceFile path result)) s
              end
          end
      end
  end.
End systemd.
