(* ===== verification/ServiceTheorems.v ===== *)
(** What the systemd integration guarantees: the mount point of an installed
    unit is the one its status reports, the outcome of an action and its
    document agree, and a broken binary is found before anything is written. *)

From S2P Require Export Service.

#[local] Open Scope Z_scope.

(** ** Units and accounts *)

Lemma HasPrefix_app p s : HasPrefix (p +:+ s) p = true.
Proof. unfold HasPrefix. induction p as [|a p IH]; [by destruct s|]. simpl. destruct (Ascii.ascii_dec a a); [exact IH|done]. Qed.
Lemma HasSuffix_app s p : HasSuffix (s +:+ p) p = true.
Proof.
  unfold HasSuffix. apply bool_decide_eq_true_2. rewrite chars_app, length_app.
  replace (length (chars s) + length (chars p) - length (chars p))%nat with (length (chars s)) by lia. apply drop_app_length.
Qed.
Lemma length_chars s : length (chars s) = String.length s.
Proof. unfold chars. induction s as [|a s IH]; simpl; [done|by rewrite IH]. Qed.
Lemma TrimPrefix_app p s : TrimPrefix (p +:+ s) p = s.
Proof.
  unfold TrimPrefix. rewrite HasPrefix_app, chars_app, <-length_chars, drop_app_length. apply of_chars_chars.
Qed.
Lemma TrimSuffix_app s p : TrimSuffix (s +:+ p) p = s.
Proof.
  unfold TrimSuffix. rewrite HasSuffix_app, <-!length_chars, chars_app, length_app.
  replace (length (chars s) + length (chars p) - length (chars p))%nat with (length (chars s)) by lia.
  rewrite take_app_length. apply of_chars_chars.
Qed.

Lemma unitName_eq a : unitName a = serviceUnitPrefix +:+ (a +:+ serviceUnitSuffix).
Proof. reflexivity. Qed.

(** The account of the unit of an account. *)
Lemma accountFromUnit_unitName a : accountFromUnit (unitName a) = if decide (a = "") then None else Some a.
Proof.
  unfold accountFromUnit, isOnecloudriverUnit. rewrite unitName_eq, HasPrefix_app, TrimPrefix_app, TrimSuffix_app.
  replace (HasSuffix (serviceUnitPrefix +:+ (a +:+ serviceUnitSuffix)) serviceUnitSuffix) with true; [done|].
  symmetry. change (serviceUnitPrefix +:+ (a +:+ serviceUnitSuffix)) with (serviceUnitPrefix +:+ a +:+ serviceUnitSuffix).
  assert (E : serviceUnitPrefix +:+ (a +:+ serviceUnitSuffix) = (serviceUnitPrefix +:+ a) +:+ serviceUnitSuffix)
    by (apply chars_inj; rewrite !chars_app, app_assoc; done).
  rewrite E. apply HasSuffix_app.
Qed.

(** ** Finding a word *)

Definition sp : ascii := " "%char.
Lemma cut_space q p l : sp ∉ p →
  cut_chars (sp :: q) (p ++ l) = (λ r, (p ++ r.1, r.2)) <$> cut_chars (sp :: q) l.
Proof.
  induction p as [|a p IH]; intros Hp.
  - simpl. destruct (cut_chars _ l) as [[x y]|]; done.
  - apply not_elem_of_cons in Hp as [Ha Hp]. simpl app.
    change (cut_chars (sp :: q) (a :: p ++ l)) with
      (if list_prefixb (sp :: q) (a :: p ++ l) then Some ([], drop (length (sp :: q)) (a :: p ++ l))
       else (λ r, (a :: r.1, r.2)) <$> cut_chars (sp :: q) (p ++ l)).
    simpl list_prefixb. rewrite bool_decide_eq_false_2 by done. simpl. rewrite IH by done.
    by destruct (cut_chars _ l) as [[x y]|].
Qed.
Lemma cut_step sub a l : list_prefixb sub (a :: l) = false →
  cut_chars sub (a :: l) = (λ r, (a :: r.1, r.2)) <$> cut_chars sub l.
Proof. intros E. cbn [cut_chars]. by rewrite E. Qed.
Lemma cut_here q l : cut_chars (sp :: q) (sp :: q ++ l) = Some ([], l).
Proof.
  assert (E : list_prefixb (sp :: q) ((sp :: q) ++ l) = true) by apply list_prefixb_app.
  simpl app in E. cbn [cut_chars]. rewrite E. simpl. by rewrite drop_app_length.
Qed.

(** A command line "binary mount mountpoint -a account ;" taken apart. *)
Section line.
Context (bin mp acc : list ascii).
Context (Hbin : sp ∉ bin) (Hmp : sp ∉ mp) (Hacc : sp ∉ acc).
Context (Hslash : head mp = Some slash) (Hsemi : head acc ≠ Some ";"%char).

Definition line_of : list ascii := bin ++ chars " mount " ++ mp ++ chars " -a " ++ acc.
Lemma cut_end post : cut_chars (chars " ;") (line_of ++ chars " ;" ++ post) = Some (line_of, post).
Proof.
  unfold line_of. rewrite <-!app_assoc. change (chars " ;") with (sp :: [";"%char]).
  rewrite cut_space by done. destruct mp as [|c mp']; [done|]. injection Hslash as ->.
  set (rest := (slash :: mp') ++ chars " -a " ++ acc ++ (sp :: [";"%char]) ++ post).
  assert (E1 : cut_chars (sp :: [";"%char]) (chars " mount " ++ rest) =
    (λ r, (chars " mount " ++ r.1, r.2)) <$> cut_chars (sp :: [";"%char]) rest)
    by (cbn; destruct (cut_chars _ _) as [[x y]|]; done).
  rewrite E1. unfold rest. rewrite cut_space by done.
  set (rest2 := acc ++ (sp :: [";"%char]) ++ post).
  assert (E2 : cut_chars (sp :: [";"%char]) (chars " -a " ++ rest2) =
    (λ r, (chars " -a " ++ r.1, r.2)) <$> cut_chars (sp :: [";"%char]) rest2).
  { change (chars " -a " ++ rest2) with (sp :: "-"%char :: "a"%char :: sp :: rest2).
    rewrite !cut_step; [by destruct (cut_chars _ rest2) as [[x y]|]|..|done|done|done].
    subst rest2. destruct acc as [|c acc']; [done|]. simpl. rewrite bool_decide_eq_false_2; [done|].
    intros <-. by apply Hsemi. }
  rewrite E2. unfold rest2. rewrite cut_space by done. change ((sp :: [";"%char]) ++ post) with (sp :: [";"%char] ++ post).
  rewrite cut_here. simpl. by rewrite app_nil_r.
Qed.
Lemma cut_mount : cut_chars (chars " mount ") line_of = Some (bin, mp ++ chars " -a " ++ acc).
Proof.
  unfold line_of. change (chars " mount ") with (sp :: chars "mount "). rewrite cut_space by done.
  rewrite <-app_comm_cons, cut_here. simpl. by rewrite app_nil_r.
Qed.
Lemma cut_account : cut_chars (chars " -a ") (mp ++ chars " -a " ++ acc) = Some (mp, acc).
Proof.
  change (chars " -a ") with (sp :: chars "-a "). rewrite cut_space by done.
  rewrite <-app_comm_cons, cut_here. simpl. by rewrite app_nil_r.
Qed.
End line.

(** ** Systemd *)

(** What [systemctl show] gives for the ExecStart of an instance, from the
    text of its template. *)
Class Systemd := systemd_exec : string → string → string.

(** A word systemd takes as it is, the specifiers apart: no space, no quote, no
    escape, no control character. *)
Definition plain_word (w : string) : Prop :=
  w ≠ "" ∧ Forall (λ a, 33 ≤ byte_of a < 127 ∧ a ∉ ["034"%char; "'"%char; "092"%char; ";"%char; "$"%char]) (chars w).

#[global] Instance plain_word_dec w : Decision (plain_word w).
Proof. unfold plain_word. apply _. Defined.

(** Its documentation: the command line of plain words is split at the spaces,
    %h and %i are replaced in each word, and the property shows the words in
    its field argv[]. *)
Class SystemdLaws (home : string) `{Systemd} := {
  systemd_argv text account ws :
    filter (λ l, HasPrefix l "ExecStart=" = true) (Split text newline) = ["ExecStart=" +:+ JoinText ws " "] →
    Forall plain_word ws →
    ∃ pre post, systemd_exec text account =
      pre +:+ "argv[]=" +:+ JoinText ((λ w, concreteMountpoint (inr home) w account) <$> ws) " " +:+ " ;" +:+ post ∧
      ∀ i, (i < length (chars pre))%nat → list_prefixb (chars "argv[]=")
        (drop i (chars pre ++ chars "argv[]=" ++
           chars (JoinText ((λ w, concreteMountpoint (inr home) w account) <$> ws) " " +:+ " ;" +:+ post))) = false;
}.

Lemma decode_plain l : "092"%char ∉ l → decode_chars l = l.
Proof.
  induction l as [|a l IH]; [done|]. intros [Ha Hl]%not_elem_of_cons. cbn [decode_chars].
  rewrite IH by done. destruct (decide (a = "092"%char)) as [->|]; [done|].
  destruct a as [[] [] [] [] [] [] [] []]; try done.
Qed.
Lemma unquote_plain l : head l = Some slash → unquote l = l.
Proof. destruct l as [|a l]; [done|]. by intros [= ->]. Qed.

(** The command line of the unit, read back from what systemd shows. *)
Lemma parse_shown pre post bin mp account :
  sp ∉ chars bin → sp ∉ chars mp → sp ∉ chars account → head (chars mp) = Some slash → head (chars account) ≠ Some ";"%char →
  "092"%char ∉ chars mp → TrimSpace mp = mp →
  let line := bin +:+ " mount " +:+ mp +:+ " -a " +:+ account in
  (∀ i, (i < length (chars pre))%nat →
     list_prefixb (chars "argv[]=") (drop i (chars pre ++ chars "argv[]=" ++ chars (line +:+ " ;" +:+ post))) = false) →
  parseMountpoint (pre +:+ "argv[]=" +:+ line +:+ " ;" +:+ post) = mp.
Proof.
  intros Hb Hm Ha Hsl Hse Hbs Htrim line Hpre. unfold parseMountpoint, argv_of, Cut.
  rewrite (chars_app pre), (chars_app "argv[]="), (cut_chars_first _ (chars pre)) by done.
  assert (El : chars line = line_of (chars bin) (chars mp) (chars account)) by (unfold line, line_of; by rewrite !chars_app).
  cbn [fmap option_fmap option_map fst snd]. rewrite chars_of_chars, (chars_app line), (chars_app " ;"), El, cut_end by done.
  cbn [fmap option_fmap option_map fst snd]. rewrite chars_of_chars, cut_mount by done.
  cbn [fmap option_fmap option_map fst snd]. rewrite chars_of_chars, cut_account by done.
  cbn [fmap option_fmap option_map fst snd]. rewrite of_chars_chars, Htrim. unfold decodeSystemdArgument.
  by rewrite unquote_plain, decode_plain, of_chars_chars.
Qed.

(** *** Words and lines *)

Lemma JoinText_chars ws c : chars (JoinText ws (String c "")) = join_chars c (chars <$> ws).
Proof.
  induction ws as [|w ws IH]; [done|]. destruct ws as [|w' ws]; [done|].
  change (JoinText (w :: w' :: ws) (String c "")) with (w +:+ String c "" +:+ JoinText (w' :: ws) (String c "")).
  by rewrite !chars_app, IH.
Qed.
Lemma Split_JoinText ws c : ws ≠ [] → Forall (λ w, c ∉ chars w) ws → Split (JoinText ws (String c "")) c = ws.
Proof.
  intros Hne Hws. unfold Split. rewrite JoinText_chars, split_join_chars.
  - rewrite <-list_fmap_compose. rewrite <-(list_fmap_id ws) at 2. apply list_fmap_ext. intros i w _. apply of_chars_chars.
  - by destruct ws.
  - by rewrite Forall_fmap.
Qed.
Lemma plain_no_char c w : plain_word w → byte_of c < 33 → c ∉ chars w.
Proof. intros [_ Hw] Hc Hin. rewrite Forall_forall in Hw. destruct (Hw c Hin). lia. Qed.

Lemma cut_none a q l : a ∉ l → cut_chars (a :: q) l = None.
Proof.
  induction l as [|b l IH]; [done|]. intros [Hb Hl]%not_elem_of_cons. rewrite cut_step, IH by done || (simpl; by rewrite bool_decide_eq_false_2).
  done.
Qed.
Definition percent : ascii := "%"%char.
Lemma ReplaceText_none s q new : percent ∉ chars s → ReplaceText s (String percent q) new = s.
Proof.
  intros Hs. unfold ReplaceText. destruct (String.length s) as [|n]; [by rewrite <-(of_chars_chars s) at 2|].
  cbn [replace_chars]. change (chars (String percent q)) with (percent :: chars q). rewrite cut_none by done. apply of_chars_chars.
Qed.
Lemma concrete_none home account s : percent ∉ chars s → concreteMountpoint (inr home) s account = s.
Proof. intros Hs. unfold concreteMountpoint. by rewrite !ReplaceText_none by (by rewrite ?ReplaceText_none). Qed.
Lemma concrete_instance home account : concreteMountpoint (inr home) "%i" account = account.
Proof.
  unfold concreteMountpoint. replace (ReplaceText "%i" "%h" home) with "%i" by reflexivity.
  unfold ReplaceText. replace (replace_chars _ _ _ _) with (chars account ++ []) by reflexivity.
  by rewrite app_nil_r, of_chars_chars.
Qed.

(** The only ExecStart line of the unit. *)
Lemma unit_exec_line m binary :
  filter (λ l, HasPrefix l "ExecStart=" = true) (unit_lines m binary) =
  ["ExecStart=" +:+ JoinText [binary; "mount"; m; "-a"; "%i"] " "].
Proof.
  unfold unit_lines. repeat (rewrite filter_cons_False by (simpl; discriminate)).
  rewrite filter_cons_True by apply HasPrefix_app. by f_equal.
Qed.

(** The unit that is written is read back. *)
Lemma unit_mountpoint_reported `{Systemd} home `{!SystemdLaws home} mountpoint binary account show :
  let dir := concreteMountpoint (inr home) (normalizeMountpointForUnit mountpoint) account in
  plain_word binary → plain_word (normalizeMountpointForUnit mountpoint) →
  percent ∉ chars binary → percent ∉ chars dir →
  head (chars dir) = Some slash → sp ∉ chars dir → "092"%char ∉ chars dir → TrimSpace dir = dir →
  sp ∉ chars account → head (chars account) ≠ Some ";"%char →
  st_Mountpoint (buildUnitStatus (inr home) (unitName account) account
    (set_execStart (systemd_exec (ServiceUnit mountpoint binary) account) show)) = dir.
Proof.
  intros dir Hbin Hm Hpb Hpd Hsl Hsp Hbs Htrim Hacc Hse. set (m := normalizeMountpointForUnit mountpoint) in *.
  assert (Hnl : Forall (λ w, newline ∉ chars w) (unit_lines m binary)).
  { assert (Hb : newline ∉ chars binary) by (by apply plain_no_char).
    assert (Hm' : newline ∉ chars m) by (by apply plain_no_char).
    unfold unit_lines. repeat (apply Forall_cons; split); [..|constructor]; rewrite ?chars_app, ?not_elem_of_app;
      split_and?; try done; by apply (bool_decide_unpack _). }
  destruct (systemd_argv (ServiceUnit mountpoint binary) account [binary; "mount"; m; "-a"; "%i"])
    as (pre & post & E & Hpre).
  - unfold ServiceUnit, nl. fold m. rewrite Split_JoinText by done. apply unit_exec_line.
  - rewrite !Forall_cons. split_and!; try done; by apply (bool_decide_unpack _).
  - cbn [fmap list_fmap] in E, Hpre. rewrite (concrete_none home account binary Hpb), concrete_instance in E, Hpre.
    change (concreteMountpoint (inr home) "mount" account) with "mount" in E, Hpre.
    change (concreteMountpoint (inr home) "-a" account) with "-a" in E, Hpre. fold dir in E, Hpre.
    cbn [buildUnitStatus st_Mountpoint set_execStart execStart]. rewrite E.
    change (JoinText [binary; "mount"; dir; "-a"; account] " ") with (binary +:+ " mount " +:+ dir +:+ " -a " +:+ account) in *.
    rewrite (parse_shown pre post binary dir account); try done; [|by apply plain_no_char].
    unfold expandMountpoint. destruct (decide (dir = "")) as [->|]; [done|]. by apply concrete_none.
Qed.

(** A manager that shows no more than the words. *)
Definition plain_systemd (home : string) : Systemd := λ text account,
  match filter (λ l, HasPrefix l "ExecStart=" = true) (Split text newline) with
  | [l] => "{ " +:+ "argv[]=" +:+ JoinText ((λ w, concreteMountpoint (inr home) w account) <$> Split (TrimPrefix l "ExecStart=") sp) " "
             +:+ " ;" +:+ " ignore_errors=no }"
  | _ => ""
  end.
Lemma plain_systemd_laws home : @SystemdLaws home (plain_systemd home).
Proof.
  constructor. intros text account ws Hf Hws. unfold systemd_exec, plain_systemd. rewrite Hf, TrimPrefix_app.
  destruct ws as [|w ws]; [exists "{ ", " ignore_errors=no }"|].
  { split; [reflexivity|]. intros [|[|i]] Hi; [reflexivity..|simpl in Hi; lia]. }
  change " " with (String sp "") at 2. rewrite Split_JoinText; [|done|].
  - exists "{ ", " ignore_errors=no }". split; [done|]. intros [|[|i]] Hi; [reflexivity..|simpl in Hi; lia].
  - eapply Forall_impl; [exact Hws|]. intros w' Hw'. by apply plain_no_char.
Qed.

(** ** The outcome of an action *)

Section outcomes.
Context (UserHomeDir : error + string) (XDG_CONFIG_HOME argv0 : string).
Context {S : Type} `{Host S}.

(** The document says whether there was an error, and shows its cause. *)
Definition agrees (r : (ActionResult * option error) * (Disk * S)) : Prop :=
  match r.1.2 with
  | None => ar_OK r.1.1 = true ∧ ar_Error r.1.1 = ""
  | Some e => ar_OK r.1.1 = false ∧ ∃ cause, ar_Error r.1.1 = Error cause ∧ (e = cause ∨ ∃ msg, e = EWrap msg cause "")
  end.
(** A result to which nothing happened yet. *)
Definition pending (r : ActionResult) : Prop := ar_OK r = false ∧ ar_Error r = "".

Lemma agrees_failed err ret r s : pending r → ret = err ∨ (∃ msg, ret = EWrap msg err "") → agrees (failed err ret r s).
Proof. intros [Hr _] He. split; [exact Hr|]. by exists err. Qed.
Lemma agrees_succeeded r s : pending r → agrees (succeeded r s).
Proof. by intros [_ He]. Qed.
Lemma agrees_same err r s : pending r → agrees (failed_same err r s).
Proof. intros Hr. apply agrees_failed; auto. Qed.
Lemma agrees_wrapped err msg r s : pending r → agrees (failed err (EWrap msg err "") r s).
Proof. intros Hr. apply agrees_failed; eauto. Qed.
#[local] Hint Resolve agrees_same agrees_wrapped agrees_succeeded : core.

Lemma agrees_reload r s : pending r → agrees (daemon_reload r s).
Proof. intros Hr. unfold daemon_reload. destruct (run_quiet _ _ s) as [[err|] s']; auto. Qed.
Lemma agrees_unit action account r s : pending r → agrees (unit_action action account r s).
Proof. intros Hr. unfold unit_action. destruct (runSystemctl _ _ s) as [[err|] s']; auto. Qed.
#[local] Hint Resolve agrees_reload agrees_unit : core.

Lemma agrees_install mountpoint account s : agrees (InstallServiceResult UserHomeDir XDG_CONFIG_HOME argv0 mountpoint account s).
Proof.
  unfold InstallServiceResult. cbv zeta.
  destruct (ServiceFilePath _ _) as [err|path]; [by apply agrees_same|]. assert (Hp : pending (set_ServiceFile path (new_result "install" account mountpoint))) by done.
  revert Hp. generalize (set_ServiceFile path (new_result "install" account mountpoint)). intros r Hr.
  destruct (resolveBinary _ _) as [err|binary]; [by auto|].
  destruct (on_files (os_MkdirAll _) s) as [[err|u] s1]; [by auto|].
  destruct (on_files (os_WriteFile _ _) s1) as [[err|u1] s2]; [by auto|].
  destruct (ensureMountpointDir _ _ _ s2) as [[err|u2] s3]; by auto.
Qed.
Lemma agrees_uninstall accounts s : agrees (UninstallServiceResult UserHomeDir XDG_CONFIG_HOME accounts s).
Proof.
  unfold UninstallServiceResult. cbv zeta. assert (Hp : pending (new_result "uninstall" "" "")) by done.
  destruct (ServiceFilePath _ _) as [err|path]; [by apply agrees_same|].
  destruct (stop_instances _ _ s) as [[err|[affected ws]] s1]; [by apply agrees_same|].
  assert (Hw : pending (set_Warning (JoinText ws "; ") (set_Affected (merge_sort string_le affected) (new_result "uninstall" "" "")))) by done.
  revert Hw. generalize (set_Warning (JoinText ws "; ") (set_Affected (merge_sort string_le affected) (new_result "uninstall" "" ""))).
  intros r Hr. destruct (on_files (os_Stat path) s1) as [[err|i] s2]; [by apply agrees_succeeded|].
  destruct (on_files (os_Remove path) s2) as [[err|u] s3]; [by auto|]. by apply agrees_reload.
Qed.
Lemma agrees_stop account s : agrees (StopServiceResult UserHomeDir account s).
Proof.
  unfold StopServiceResult. destruct (UnmountMountpoint _ account s) as [[err|] s1]; by apply agrees_unit.
Qed.

(** An installation whose binary cannot be resolved touches nothing. *)
Lemma install_unresolved mountpoint account s e :
  resolveBinary argv0 s.2 = inl e →
  ∃ r e', InstallServiceResult UserHomeDir XDG_CONFIG_HOME argv0 mountpoint account s = ((r, Some e'), s).
Proof.
  intros He. unfold InstallServiceResult, failed_same, failed. cbv zeta. destruct (ServiceFilePath _ _); [eauto|]. rewrite He. eauto.
Qed.
End outcomes.

(** ** What the actions do on a host *)

(** A host where every command succeeds; "mount" shows one mount point. *)
Record Recorder := mkRecorder { rec_mounts : string; rec_log : list (string * list string) }.
#[global] Instance Recorder_Host : Host Recorder := {
  run_command name args s :=
    ((if decide (name = "mount") then rec_mounts s else "", "", None), mkRecorder (rec_mounts s) (rec_log s ++ [(name, args)]));
  exec_LookPath p _ := inr ("/usr/bin/" +:+ p);
  os_Mode _ _ := inr (true, 493);
  filepath_Abs p _ := inr p;
}.
Definition empty_files : Disk := mkDisk ∅ ∅ {[ "/home/ana" ]} ∅ 0 0 [].

(** *** What an installation leaves on the disk *)

(** The file [path] of a disk has the contents [data]. *)
Definition holds (d : Disk) (path : string) (data : list Z) : Prop :=
  ∃ o f, d_names d !! path = Some o ∧ d_objs d !! o = Some f ∧ fo_data f = data.

Lemma OpenFile_fd path d fd d' : os_OpenFile path d = (inr fd, d') →
  ∃ o, d_names d' !! path = Some o ∧ d_fds d' !! fd = Some (mkFileDesc o 0).
Proof.
  assert (Hopen : ∀ d, (let '(fd, d) := if decide (path ∈ d_dirs d) then (inl (PathError "open" path EISDIR), d)
      else match d_names d !! path with
           | Some o => let '(fd, d) := open_obj o d in (inr fd, d)
           | None => if decide (path_Dir path ∈ d_dirs d) then
                 let '(o, d) := create_obj path d in let '(fd, d) := open_obj o d in (inr fd, d)
               else (inl (PathError "open" path ENOENT), d)
           end in (fd, d)) = (inr fd, d') →
    ∃ o, d_names d' !! path = Some o ∧ d_fds d' !! fd = Some (mkFileDesc o 0)).
  { intros d0. case_decide; [done|]. destruct (d_names d0 !! path) as [o|] eqn:Eo; cbn.
    - intros [= <- <-]. exists o. cbn. by rewrite lookup_insert_eq.
    - case_decide; [|done]. intros [= <- <-]. exists (d_next d0). cbn. by rewrite !lookup_insert_eq. }
  unfold os_OpenFile, sys. destruct (d_faults d) as [|[flt|] fs]; [| |]; intros E; (done || (eapply Hopen; by rewrite E)).
Qed.
Lemma Close_same fd d r d' : file_Close fd d = (r, d') → d_names d' = d_names d ∧ d_objs d' = d_objs d.
Proof. unfold file_Close, with_fd, sys. repeat case_match; intros; by simplify_eq/=. Qed.
Lemma WriteFile_holds path data d d' : os_WriteFile path data d = (inr tt, d') → holds d' path data.
Proof.
  unfold os_WriteFile. destruct (os_OpenFile path d) as [[e|fd] d1] eqn:Eo; [done|].
  apply OpenFile_fd in Eo as (o & Hn & Hfd). unfold file_Write, raw_write.
  destruct (fd_file fd d1) as [[f x]|] eqn:Ef; [|rewrite Ef; by destruct (file_Close fd d1)].
  unfold fd_file in Ef. rewrite Hfd in Ef. cbn in Ef. destruct (d_objs d1 !! o) as [y|] eqn:Ey; simplify_eq/=.
  assert (E2 : fd_file fd (set_data o [] d1) = Some (mkFileDesc o 0, mkFileObj [] (d_now d1))).
  { unfold fd_file. cbn. rewrite Hfd. cbn. by rewrite lookup_insert_eq. }
  rewrite E2. cbn [fd_obj fd_pos default].
  destruct (match d_faults _ with [] => _ | _ => _ end) as [[n e] d3] eqn:Ew.
  assert (H3 : d_names d3 = d_names d1 ∧ d_objs d3 !! o = Some (mkFileObj [] (d_now d1)) ∧ (e = None → n = length data)).
  { change (d_faults (set_data o [] d1)) with (d_faults d1) in Ew.
    destruct (d_faults d1) as [|[flt|] fs]; injection Ew as <- <- <-; (split; [done|]);
      (split; [cbn; by rewrite lookup_insert_eq|done]). }
  destruct H3 as (Hn3 & Ho3 & He). destruct e as [e|]; [by destruct (file_Close fd _)|]. rewrite He by done.
  set (d4 := set_pos fd _ _ _). assert (H4 : holds d4 path data).
  { unfold holds. exists o. unfold d4. destruct (Nat.eqb_spec (length data) 0) as [E|E].
    - apply nil_length_inv in E as ->. exists (mkFileObj [] (d_now d1)). cbn. by rewrite Hn3.
    - eexists. cbn. rewrite Hn3, lookup_insert_eq. split; [done|]. split; [done|]. cbn. rewrite firstn_all.
      unfold splice. cbn. by rewrite drop_nil, app_nil_r. }
  clearbody d4. destruct (file_Close fd d4) as [r d5] eqn:Ec. apply Close_same in Ec as [Hn5 Ho5].
  intros [= _ <-]. revert H4. unfold holds. by rewrite Hn5, Ho5.
Qed.
Lemma holds_same d d' path data : d_names d' = d_names d → d_objs d' = d_objs d → holds d path data → holds d' path data.
Proof. unfold holds. by intros -> ->. Qed.

(** The directory is there, or at least something of that name. *)
Definition present (d : Disk) (path : string) : Prop := path ∈ d_dirs d ∨ is_Some (d_names d !! path).
Lemma Stat_present path d r d' : os_Stat path d = (r, d') →
  d_names d' = d_names d ∧ d_objs d' = d_objs d ∧ (∀ i, r = inr i → present d' path).
Proof.
  assert (Hst : ∀ d, (if decide (path ∈ d_dirs d) then (inr dir_info, d)
      else match d_names d !! path ≫= λ o, d_objs d !! o with
           | Some f => (inr (file_info f), d)
           | None => (inl (PathError "stat" path ENOENT), d)
           end) = (r, d') → d' = d ∧ (∀ i, r = inr i → present d' path)).
  { intros d0. unfold present. case_decide; [by intros [= <- <-]; auto|].
    destruct (d_names d0 !! path) as [o|] eqn:Eo; cbn; [|by intros [= <- <-]].
    destruct (d_objs d0 !! o); intros [= <- <-]; split; try done. intros _ _. right. by rewrite Eo. }
  unfold os_Stat, sys. destruct (d_faults d) as [|[flt|] fs]; [|by intros [= <- <-]|]; intros E; by apply Hst in E as [-> ?].
Qed.
Lemma MkdirAll_present path d r d' : os_MkdirAll path d = (r, d') →
  d_names d' = d_names d ∧ d_objs d' = d_objs d ∧ (r = inr tt → present d' path).
Proof.
  unfold os_MkdirAll, sys, present. destruct (d_faults d) as [|[flt|] fs]; [|by intros [= <- <-]|]; cbn;
    (destruct (d_names d !! path) eqn:Ep; intros [= <- <-]; split_and!; try done; intros _; left; set_solver).
Qed.
Lemma install_leaves {S : Type} `{Host S} home XDG argv0 mountpoint account (s : Disk * S) res s' :
  InstallServiceResult (inr home) XDG argv0 mountpoint account s = ((res, None), s') →
  ∃ path binary, ServiceFilePath (inr home) XDG = inr path ∧ resolveBinary argv0 s.2 = inr binary ∧
    holds s'.1 path (string_bytes (ServiceUnit mountpoint binary)) ∧
    present s'.1 (concreteMountpoint (inr home) mountpoint account).
Proof.
  unfold InstallServiceResult, failed_same, failed. cbv zeta. destruct (ServiceFilePath _ _) as [e|path]; [done|].
  destruct (resolveBinary _ _) as [e|binary]; [done|]. destruct s as [d h]. cbn [snd] in *.
  unfold on_files at 1. destruct (os_MkdirAll _ d) as [[e|u] d1]; [done|].
  unfold on_files at 1. destruct (os_WriteFile path _ d1) as [[e|[]] d2] eqn:Ew; [done|]. apply WriteFile_holds in Ew.
  unfold ensureMountpointDir, on_files. cbv zeta. set (dir := concreteMountpoint _ _ _).
  destruct (os_Stat dir d2) as [r d3] eqn:Es. apply Stat_present in Es as (Hn & Ho & Hr).
  assert (Hend : ∀ d4 r0, daemon_reload r0 (d4, h) = ((res, None), s') → s'.1 = d4).
  { intros d4 r0. unfold daemon_reload, run_quiet, command, succeeded, failed. destruct (run_command _ _ h) as [[[? ?] [e|]] h']; [done|].
    by intros [= _ <-]. }
  destruct r as [e|i].
  - destruct (negb (os_IsNotExist e)); [done|]. destruct (os_MkdirAll dir d3) as [[e'|[]] d4] eqn:Em; [done|].
    apply MkdirAll_present in Em as (Hn' & Ho' & Hp). intros E. apply Hend in E as ->. exists path, binary.
    split_and!; [done|done| |by apply Hp]. apply (holds_same d2); [congruence..|exact Ew].
  - intros E. apply Hend in E as ->. exists path, binary. split_and!; [done|done| |by eapply Hr].
    by apply (holds_same d2).
Qed.

Lemma normalize_plain m : head (chars m) ≠ Some "~"%char → normalizeMountpointForUnit m = m.
Proof.
  intros Hm. unfold normalizeMountpointForUnit. case_decide as E; [by rewrite E in Hm|].
  destruct (HasPrefix m "~/") eqn:Ep; [|done]. exfalso. apply Hm. unfold HasPrefix in Ep.
  destruct m as [|a m]; [done|]. cbn in Ep. revert Ep. case_match; [by subst|done].
Qed.



(** The mount point of another account, of which this one's is a prefix, passes
    for it: the unmount is tried on a directory that is not mounted. *)
Example prefix_seems_mounted :
  rec_log (UnmountMountpoint (inr "/home/ana") "ana" (empty_files, mkRecorder "onecloudriver on /home/ana/OneDrive/ana2 type fuse" [])).2.2
  = [("mount", []); ("fusermount3", ["-uz"; "/home/ana/OneDrive/ana"])].
Proof. reflexivity. Qed.

(** Restarting runs no unmount of its own. *)
Example restart_only_restarts :
  rec_log (RestartServiceResult "ana" (empty_files, mkRecorder "" [])).2.2
  = [("systemctl", ["--user"; "restart"; "onecloudriver@ana.service"])].
Proof. reflexivity. Qed.

(** A mount point under "~" is written as %h in the unit, but its directory is
    made under a directory named "~". *)
Example tilde_directory :
  let r := InstallServiceResult (inr "/home/ana") "" "onecloudriver" "~/Drive" "ana" (empty_files, mkRecorder "" []) in
  ar_OK r.1.1 = true ∧ "~/Drive" ∈ d_dirs r.2.1 ∧
  (λ f, bool_decide (f = string_bytes (ServiceUnit "%h/Drive" "/usr/bin/onecloudriver"))) <$>
    (fo_data <$> (d_names r.2.1 !! "/home/ana/.config/systemd/user/onecloudriver@.service" ≫= λ o, d_objs r.2.1 !! o)) = Some true.
Proof. vm_compute. split; [done|]. split; [|done]. by apply (bool_decide_unpack _). Qed.

(** Text and escapes of a status. *)
Example parsed_status :
  parseMountpoint "{ path=/usr/bin/onecloudriver ; argv[]=/usr/bin/onecloudriver mount /home/ana/One\x20Drive -a ana ; ignore_errors=no }"
  = "/home/ana/One Drive" ∧ decodeSystemdArgument (String dquote ("a\x41\xzz" +:+ String dquote "")) = "aA\xzz".
Proof. split; vm_compute; reflexivity. Qed.
