(* ===== verification/Control.v ===== *)
(** The control channel of a mount (internal/control, internal/fs/control_info.go):
    an HTTP server on a Unix socket of the cache directory that reports what is
    mounted, and its client.

    The socket files are a table from paths to what is bound there, as
    [GoOS.Disk] is one of regular files; the faults of its calls are a script.
    A request is answered in one step. *)

From S2P Require Export Mount.

#[local] Open Scope Z_scope.

(** ** internal/control/control.go *)

Record APIInfo := mkAPIInfo { api_Name : string; api_Version : Z }.
Record DaemonInfo := mkDaemonInfo { dm_PID : Z; dm_StartedAt : string; dm_GoVersion : string; dm_BinaryVersion : string }.
Record AccountInfo := mkAccountInfo { ai_Name : string }.
Record MountInfo := mkMountInfo { mi_State : string; mi_Mountpoint : string; mi_CacheDir : string; mi_ConfigFile : string }.
Record ConfigInfo := mkConfigInfo {
  ci_CacheTTL : string; ci_CacheMaxEntries : Z; ci_CacheMaxSize : string; ci_DeltaInterval : string;
  ci_MaxUploadsInFlight : Z; ci_MaxUploadRetries : Z; ci_GraphRetries : Z; ci_HTTPTimeout : string;
  ci_PreWarmDepth : Z; ci_DebugAddr : string }.
Record Info := mkInfo_ {
  in_API : APIInfo; in_Daemon : DaemonInfo; in_Account : AccountInfo; in_Mount : MountInfo; in_Config : ConfigInfo }.

(** *** Their JSON *)

Definition enc_APIInfo (a : APIInfo) : json := JObj [("name", enc_string (api_Name a)); ("version", JNum (api_Version a))].
Definition enc_DaemonInfo (d : DaemonInfo) : json :=
  JObj (("pid", JNum (dm_PID d)) :: ("startedAt", enc_string (dm_StartedAt d)) :: ("goVersion", enc_string (dm_GoVersion d))
        :: enc_str_field "binaryVersion" (dm_BinaryVersion d)).
Definition enc_AccountInfo (a : AccountInfo) : json := JObj [("name", enc_string (ai_Name a))].
Definition enc_MountInfo (m : MountInfo) : json :=
  JObj (("state", enc_string (mi_State m)) :: ("mountpoint", enc_string (mi_Mountpoint m)) :: ("cacheDir", enc_string (mi_CacheDir m))
        :: enc_str_field "configFile" (mi_ConfigFile m)).
Definition enc_ConfigInfo (c : ConfigInfo) : json :=
  JObj [("cacheTTL", enc_string (ci_CacheTTL c)); ("cacheMaxEntries", JNum (ci_CacheMaxEntries c));
        ("cacheMaxSize", enc_string (ci_CacheMaxSize c)); ("deltaInterval", enc_string (ci_DeltaInterval c));
        ("maxUploadsInFlight", JNum (ci_MaxUploadsInFlight c)); ("maxUploadRetries", JNum (ci_MaxUploadRetries c));
        ("graphRetries", JNum (ci_GraphRetries c)); ("httpTimeout", enc_string (ci_HTTPTimeout c));
        ("preWarmDepth", JNum (ci_PreWarmDepth c)); ("debugAddr", enc_string (ci_DebugAddr c))].
(** [json.Marshal] of these fields does not fail. *)
Definition enc_Info (i : Info) : json :=
  JObj [("api", enc_APIInfo (in_API i)); ("daemon", enc_DaemonInfo (in_Daemon i)); ("account", enc_AccountInfo (in_Account i));
        ("mount", enc_MountInfo (in_Mount i)); ("config", enc_ConfigInfo (in_Config i))].

Definition zero_API := mkAPIInfo "" 0.
Definition zero_Daemon := mkDaemonInfo 0 "" "" "".
Definition zero_MountInfo := mkMountInfo "" "" "" "".
Definition zero_Config := mkConfigInfo "" 0 "" "" 0 0 0 "" 0 "".
Definition zero_Info := mkInfo_ zero_API zero_Daemon (mkAccountInfo "") zero_MountInfo zero_Config.

Definition API_fields : list (string * decoder APIInfo) := [
  ("name", dec_field api_Name (λ v a, mkAPIInfo v (api_Version a)) dec_string);
  ("version", dec_field api_Version (λ v a, mkAPIInfo (api_Name a) v) dec_int64)].
Definition Daemon_fields : list (string * decoder DaemonInfo) := [
  ("pid", dec_field dm_PID (λ v '(mkDaemonInfo _ b c d), mkDaemonInfo v b c d) dec_int64);
  ("startedAt", dec_field dm_StartedAt (λ v '(mkDaemonInfo a _ c d), mkDaemonInfo a v c d) dec_string);
  ("goVersion", dec_field dm_GoVersion (λ v '(mkDaemonInfo a b _ d), mkDaemonInfo a b v d) dec_string);
  ("binaryVersion", dec_field dm_BinaryVersion (λ v '(mkDaemonInfo a b c _), mkDaemonInfo a b c v) dec_string)].
Definition AccountInfo_fields : list (string * decoder AccountInfo) := [
  ("name", dec_field ai_Name (λ v _, mkAccountInfo v) dec_string)].
Definition MountInfo_fields : list (string * decoder MountInfo) := [
  ("state", dec_field mi_State (λ v '(mkMountInfo _ b c d), mkMountInfo v b c d) dec_string);
  ("mountpoint", dec_field mi_Mountpoint (λ v '(mkMountInfo a _ c d), mkMountInfo a v c d) dec_string);
  ("cacheDir", dec_field mi_CacheDir (λ v '(mkMountInfo a b _ d), mkMountInfo a b v d) dec_string);
  ("configFile", dec_field mi_ConfigFile (λ v '(mkMountInfo a b c _), mkMountInfo a b c v) dec_string)].
Definition ConfigInfo_fields : list (string * decoder ConfigInfo) := [
  ("cacheTTL", dec_field ci_CacheTTL (λ v '(mkConfigInfo _ b c d e f g h i j), mkConfigInfo v b c d e f g h i j) dec_string);
  ("cacheMaxEntries", dec_field ci_CacheMaxEntries (λ v '(mkConfigInfo a _ c d e f g h i j), mkConfigInfo a v c d e f g h i j) dec_int64);
  ("cacheMaxSize", dec_field ci_CacheMaxSize (λ v '(mkConfigInfo a b _ d e f g h i j), mkConfigInfo a b v d e f g h i j) dec_string);
  ("deltaInterval", dec_field ci_DeltaInterval (λ v '(mkConfigInfo a b c _ e f g h i j), mkConfigInfo a b c v e f g h i j) dec_string);
  ("maxUploadsInFlight", dec_field ci_MaxUploadsInFlight (λ v '(mkConfigInfo a b c d _ f g h i j), mkConfigInfo a b c d v f g h i j) dec_int64);
  ("maxUploadRetries", dec_field ci_MaxUploadRetries (λ v '(mkConfigInfo a b c d e _ g h i j), mkConfigInfo a b c d e v g h i j) dec_int64);
  ("graphRetries", dec_field ci_GraphRetries (λ v '(mkConfigInfo a b c d e f _ h i j), mkConfigInfo a b c d e f v h i j) dec_int64);
  ("httpTimeout", dec_field ci_HTTPTimeout (λ v '(mkConfigInfo a b c d e f g _ i j), mkConfigInfo a b c d e f g v i j) dec_string);
  ("preWarmDepth", dec_field ci_PreWarmDepth (λ v '(mkConfigInfo a b c d e f g h _ j), mkConfigInfo a b c d e f g h v j) dec_int64);
  ("debugAddr", dec_field ci_DebugAddr (λ v '(mkConfigInfo a b c d e f g h i _), mkConfigInfo a b c d e f g h i v) dec_string)].
Definition dec_API : decoder APIInfo := dec_struct API_fields.
Definition dec_Daemon : decoder DaemonInfo := dec_struct Daemon_fields.
Definition dec_AccountInfo : decoder AccountInfo := dec_struct AccountInfo_fields.
Definition dec_MountInfo : decoder MountInfo := dec_struct MountInfo_fields.
Definition dec_ConfigInfo : decoder ConfigInfo := dec_struct ConfigInfo_fields.
Definition Info_fields : list (string * decoder Info) := [
  ("api", dec_field in_API (λ v '(mkInfo_ _ b c d e), mkInfo_ v b c d e) dec_API);
  ("daemon", dec_field in_Daemon (λ v '(mkInfo_ a _ c d e), mkInfo_ a v c d e) dec_Daemon);
  ("account", dec_field in_Account (λ v '(mkInfo_ a b _ d e), mkInfo_ a b v d e) dec_AccountInfo);
  ("mount", dec_field in_Mount (λ v '(mkInfo_ a b c _ e), mkInfo_ a b c v e) dec_MountInfo);
  ("config", dec_field in_Config (λ v '(mkInfo_ a b c d _), mkInfo_ a b c d v) dec_ConfigInfo)].
Definition dec_Info : decoder Info := dec_struct Info_fields.

(** ** internal/fs/control_info.go *)

(** [humanize.Bytes]. *)
Class HumanizeBytes := humanize_Bytes : Z → string.
Definition formatCacheSize `{HumanizeBytes} (size : Z) : string := if size <=? 0 then "0" else humanize_Bytes size.
Record controlInfoProvider := mkProvider { pr_accountName : string; pr_mountpoint : string; pr_config : MountConfig }.
Definition provider_Info `{HumanizeBytes} (p : controlInfoProvider) : Info :=
  let cfg := pr_config p in
  mkInfo_ (mkAPIInfo "onecloudriver-control" 1) zero_Daemon (mkAccountInfo (pr_accountName p))
    (mkMountInfo "running" (pr_mountpoint p) (CacheDir cfg) "")
    (mkConfigInfo (duration_String (CacheTTL cfg)) (CacheMaxEntries cfg) (formatCacheSize (CacheMaxSize cfg))
       (duration_String (DeltaInterval cfg)) (MaxUploadsInFlight cfg) (MaxUploadRetries cfg) (GraphRetries cfg)
       (duration_String (HTTPTimeout cfg)) (PreWarmDepth cfg) (DebugAddr cfg)).

(** ** The socket files *)

Definition ENOTSOCK : Z := 88.
Definition EADDRINUSE : Z := 98.
Definition ECONNREFUSED : Z := 111.

(** A server: its handler answers from [sv_provider]; [sv_open] until [Close]. *)
Record Server := mkServer {
  sv_sockPath : string; sv_provider : Info; sv_startedAt : Time; sv_binaryVer : string; sv_PID : Z; sv_open : bool }.
(** What a path is bound to: the listener of a server, the socket of a process
    that died, or another file. *)
Inductive SockFile := Listening (server : nat) | Dead | Regular.
Record Sockets := mkSockets {
  so_files : gmap string SockFile; so_servers : gmap nat Server; so_next : nat; so_faults : list (option Z) }.
Definition set_files (f : gmap string SockFile → gmap string SockFile) (s : Sockets) : Sockets :=
  mkSockets (f (so_files s)) (so_servers s) (so_next s) (so_faults s).
Definition set_servers (f : gmap nat Server → gmap nat Server) (s : Sockets) : Sockets :=
  mkSockets (so_files s) (f (so_servers s)) (so_next s) (so_faults s).
Definition set_faults (f : list (option Z)) (s : Sockets) : Sockets :=
  mkSockets (so_files s) (so_servers s) (so_next s) f.
(** A call: the fault the script has for it, else its effect. *)
Definition sock_call {A} (op path : string) (m : Sockets → (error + A) * Sockets) (s : Sockets) : (error + A) * Sockets :=
  match so_faults s with
  | [] => m s
  | None :: fs => m (set_faults fs s)
  | Some n :: fs => (inl (PathError op path n), set_faults fs s)
  end.
Definition sock_Remove (path : string) : SE Sockets error unit := sock_call "remove" path (λ s,
  match so_files s !! path with
  | Some _ => (inr tt, set_files (delete path) s)
  | None => (inl (PathError "remove" path ENOENT), s)
  end).
(** [net.Listen("unix", path)]: the socket of the server to come. *)
Definition net_Listen (path : string) : SE Sockets error nat := sock_call "listen unix" path (λ s,
  match so_files s !! path with
  | Some _ => (inl (PathError "listen unix" path EADDRINUSE), s)
  | None => let n := so_next s in
            (inr n, mkSockets (<[path := Listening n]> (so_files s)) (so_servers s) (S n) (so_faults s))
  end).
Definition sock_Chmod (path : string) : SE Sockets error unit := sock_call "chmod" path (λ s, (inr tt, s)).
(** [ln.Close()] unlinks the path it was bound to, whatever is there by now. *)
Definition listener_Close (path : string) (s : Sockets) : Sockets := set_files (delete path) s.
(** The process of a server dies. *)
Definition killed (n : nat) (s : Sockets) : Sockets :=
  set_files (fmap (λ f, match f with Listening m => if decide (m = n) then Dead else f | _ => f end)) (set_servers (delete n) s).

(** ** internal/control/server.go *)

(** [runtime.Version()]. *)
Class GoRuntime := runtime_Version : string.

Section server.
Context `{GoRuntime}.

(** [NewServer] in the process [pid], at the instant [now]; the listener is the
    number of the server. *)
Definition NewServer (pid : Z) (now : Time) (sockPath : string) (provider : option Info) (binaryVersion : string) :
    SE Sockets error (option nat) := λ s,
  if decide (sockPath = "") then (inr None, s) else
  match provider with
  | None => (inl (EMsg "control server: provider must not be nil"), s)
  | Some info =>
      let start (s : Sockets) : (error + option nat) * Sockets :=
        match net_Listen sockPath s with
        | (inl err, s) => (inl (EWrap ("listening on unix socket " +:+ sockPath +:+ ": ") err ""), s)
        | (inr n, s) =>
            match sock_Chmod sockPath s with
            | (inl err, s) => (inl (EWrap "setting socket permissions: " err ""), listener_Close sockPath s)
            | (inr _, s) => (inr (Some n), set_servers (<[n := mkServer sockPath info now binaryVersion pid true]>) s)
            end
        end in
      match sock_Remove sockPath s with
      | (inl err, s) => if os_IsNotExist err then start s else (inl (EWrap "removing stale socket: " err ""), s)
      | (inr _, s) => start s
      end
  end.

(** [Close]; [hung]: a request is still being served when the five seconds of
    [Shutdown] are over. [None] is the nil server of a disabled channel. *)
Definition set_open (b : bool) (sv : Server) : Server :=
  mkServer (sv_sockPath sv) (sv_provider sv) (sv_startedAt sv) (sv_binaryVer sv) (sv_PID sv) b.
Definition Close (server : option nat) (hung : bool) (s : Sockets) : option error * Sockets :=
  match server ≫= λ n, (λ sv, (n, sv)) <$> so_servers s !! n with
  | None => (None, s)
  | Some (n, sv) =>
      if negb (sv_open sv) then (None, s) else
      let s := listener_Close (sv_sockPath sv) s in
      let err := if hung then Some context_DeadlineExceeded else None in
      let s := set_servers (<[n := set_open false sv]>) s in
      let '(removed, s) := sock_Remove (sv_sockPath sv) s in
      let err := match removed, err with
                 | inl osErr, None => if os_IsNotExist osErr then None else Some osErr
                 | _, err => err
                 end in
      (match err with Some e => Some (EWrap "shutting down control server: " e "") | None => None end, s)
  end.
Definition Addr (server : option nat) (s : Sockets) : string :=
  match server ≫= λ n, so_servers s !! n with Some sv => sv_sockPath sv | None => "" end.

(** The handlers: a status and a JSON document. *)
Definition reply (code : Z) (doc : json) : Response :=
  mkResponse code {["Content-Type" := "application/json"]} (mkBody [] None (Some doc) false).
Definition writeJSONError (status : Z) (message : string) : Response :=
  reply status (JObj [("error", JObj [("message", enc_string message)])]).
(** The runtime fields of [handleInfo]. *)
Definition stamp (sv : Server) (info : Info) : Info :=
  mkInfo_ (in_API info) (mkDaemonInfo (sv_PID sv) (format_RFC3339 (sv_startedAt sv)) runtime_Version (sv_binaryVer sv))
    (in_Account info) (in_Mount info) (in_Config info).
Definition handleInfo (sv : Server) (method : string) : Response :=
  if negb (bool_decide (method = "GET")) then writeJSONError 405 "method not allowed"
  else reply 200 (enc_Info (stamp sv (sv_provider sv))).
Definition handleNotFound : Response := writeJSONError 404 "not found".
(** [mux]; the path of the request is clean. *)
Definition mux (sv : Server) (method path : string) : Response :=
  if decide (path = "/v1/info") then handleInfo sv method else handleNotFound.

(** ** internal/control/client.go *)

Definition ErrNotRunning := ESentinel "control server not running (socket not found)".
Definition ErrNotFound := ESentinel "endpoint not found (404)".
Definition ErrMethodNotAllowed := ESentinel "method not allowed (405)".

(** The errors of the transport: a [*url.Error], a [*net.OpError], which wraps
    the call that failed, or another one. *)
Inductive neterr := UrlError (inner : neterr) | OpError (e : error) | Plain (e : error).
Fixpoint as_OpError (err : neterr) : option error :=
  match err with UrlError i => as_OpError i | OpError e => Some e | Plain _ => None end.
Fixpoint of_neterr (err : neterr) : error :=
  match err with
  | UrlError i => EWrap ("Get " +:+ Quote "http://localhost/v1/info" +:+ ": ") (of_neterr i) ""
  | OpError e | Plain e => e
  end.
Fixpoint unwrapToSyscallErrno (err : error) : option Z :=
  match err with EErrno n => Some n | EWrap _ e _ => unwrapToSyscallErrno e | _ => None end.
Definition isSocketUnreachable (opErr : error) : bool :=
  match unwrapToSyscallErrno opErr with
  | Some n => (n =? ENOENT) || (n =? ECONNREFUSED) || (n =? ENOTSOCK)
  | None => false
  end.
Definition isNotRunningError (err : neterr) : bool :=
  match err with Plain e => os_IsNotExist e | _ => false end
  || match as_OpError err with Some e => isSocketUnreachable e | None => false end.

(** A request on the socket: connecting may fail, the server answers. *)
Definition dial_error (path : string) (errno : Z) : neterr :=
  UrlError (OpError (EWrap ("dial unix " +:+ path +:+ ": ") (EWrap "connect: " (EErrno errno) "") "")).
Definition sock_Do (sockPath method path : string) (s : Sockets) : (neterr + Response) * Sockets :=
  match so_faults s with
  | Some n :: fs => (inl (dial_error sockPath n), set_faults fs s)
  | fs =>
      (match so_files s !! sockPath with
       | Some (Listening n) =>
           match so_servers s !! n with
           | Some sv => if sv_open sv then inr (mux sv method path) else inl (dial_error sockPath ECONNREFUSED)
           | None => inl (dial_error sockPath ECONNREFUSED)
           end
       | Some _ => inl (dial_error sockPath ECONNREFUSED)
       | None => inl (dial_error sockPath ENOENT)
       end, set_faults (tail fs) s)
  end.

(** [resp.Status]. *)
Definition resp_Status (code : Z) : string :=
  pretty code +:+ (if code =? 500 then " Internal Server Error" else "").
(** What [Client.Info] makes of the outcome of its request. *)
Definition info_outcome (r : neterr + Response) : error + Info :=
  match r with
  | inl err => if isNotRunningError err then inl ErrNotRunning
               else inl (EWrap "requesting info: " (of_neterr err) "")
  | inr resp =>
      if resp_StatusCode resp =? 200 then
        match Decode dec_Info zero_Info (resp_Body resp) with
        | inl err => inl (EWrap "decoding response: " err "")
        | inr info => inr info
        end
      else if resp_StatusCode resp =? 404 then inl ErrNotFound
      else if resp_StatusCode resp =? 405 then inl ErrMethodNotAllowed
      else inl (EMsg ("unexpected status: " +:+ resp_Status (resp_StatusCode resp)))
  end.
Definition Client_Info (sockPath : string) : SE Sockets error Info := λ s,
  let '(r, s) := sock_Do sockPath "GET" "/v1/info" s in (info_outcome r, s).
End server.
