(* ===== verification/ControlTheorems.v ===== *)
(** What the control channel guarantees: a client of the socket is told what the
    mount is, in every field, and learns that there is none once it is closed or
    its process has died. *)

From S2P Require Import Control AuthTheorems.

#[local] Open Scope Z_scope.

(** ** The JSON of the information *)

Definition daemon_ok (d : DaemonInfo) : Prop :=
  int64 (dm_PID d) ∧ utf8_valid (dm_StartedAt d) ∧ utf8_valid (dm_GoVersion d) ∧ utf8_valid (dm_BinaryVersion d).
Definition mountinfo_ok (m : MountInfo) : Prop :=
  utf8_valid (mi_State m) ∧ utf8_valid (mi_Mountpoint m) ∧ utf8_valid (mi_CacheDir m) ∧ utf8_valid (mi_ConfigFile m).
Definition configinfo_ok (c : ConfigInfo) : Prop :=
  utf8_valid (ci_CacheTTL c) ∧ int64 (ci_CacheMaxEntries c) ∧ utf8_valid (ci_CacheMaxSize c) ∧ utf8_valid (ci_DeltaInterval c) ∧
  int64 (ci_MaxUploadsInFlight c) ∧ int64 (ci_MaxUploadRetries c) ∧ int64 (ci_GraphRetries c) ∧ utf8_valid (ci_HTTPTimeout c) ∧
  int64 (ci_PreWarmDepth c) ∧ utf8_valid (ci_DebugAddr c).
(** Texts that are UTF-8 and numbers that fit: what a mount reports. *)
Definition info_ok (i : Info) : Prop :=
  utf8_valid (api_Name (in_API i)) ∧ int64 (api_Version (in_API i)) ∧ daemon_ok (in_Daemon i) ∧
  utf8_valid (ai_Name (in_Account i)) ∧ mountinfo_ok (in_Mount i) ∧ configinfo_ok (in_Config i).
#[export] Instance int64_dec n : Decision (int64 n).
Proof. unfold int64. apply _. Defined.
#[export] Instance info_ok_dec i : Decision (info_ok i).
Proof. unfold info_ok, daemon_ok, mountinfo_ok, configinfo_ok. apply _. Defined.

(** A number that is always written. *)
Lemma dec_members_int {T} (fields : list (string * decoder T)) {get : T → Z} {set} k n ms t :
  field_for fields k = Some (dec_field get set dec_int64) → int64 n →
  dec_members fields ((k, JNum n) :: ms) t = dec_members fields ms (set n t).
Proof.
  intros Hf Hn. rewrite dec_members_cons. cbn [fst snd]. rewrite Hf. unfold dec_field, dec_int64, dec_int, int64 in *.
  by rewrite (proj2 (Z.leb_le _ n)), (proj2 (Z.leb_le n _)) by lia.
Qed.
(** A field that is itself a struct. *)
Lemma dec_members_sub {T A} (fields : list (string * decoder T)) {get : T → A} {set} (d : decoder A) k j a ms t :
  field_for fields k = Some (dec_field get set d) → d j (get t) = Some a →
  dec_members fields ((k, j) :: ms) t = dec_members fields ms (set a t).
Proof. intros Hf Hd. rewrite dec_members_cons. cbn [fst snd]. rewrite Hf. unfold dec_field. by rewrite Hd. Qed.

Ltac next_field :=
  first [erewrite dec_members_string; [|reflexivity|assumption]
        |erewrite dec_members_int; [|reflexivity|assumption]].
Ltac struct_back := rewrite dec_struct_obj; repeat next_field; try reflexivity; by member_str.

Lemma dec_enc_API a : utf8_valid (api_Name a) → int64 (api_Version a) → dec_API (enc_APIInfo a) zero_API = Some a.
Proof. destruct a. intros. unfold dec_API, enc_APIInfo. by struct_back. Qed.
Lemma dec_enc_Daemon d : daemon_ok d → dec_Daemon (enc_DaemonInfo d) zero_Daemon = Some d.
Proof. destruct d. intros (? & ? & ? & ?). unfold dec_Daemon, enc_DaemonInfo. struct_back. Qed.
Lemma dec_enc_AccountInfo a : utf8_valid (ai_Name a) → dec_AccountInfo (enc_AccountInfo a) (mkAccountInfo "") = Some a.
Proof. destruct a. intros. unfold dec_AccountInfo, enc_AccountInfo. by struct_back. Qed.
Lemma dec_enc_MountInfo m : mountinfo_ok m → dec_MountInfo (enc_MountInfo m) zero_MountInfo = Some m.
Proof. destruct m. intros (? & ? & ? & ?). unfold dec_MountInfo, enc_MountInfo. struct_back. Qed.
Lemma dec_enc_ConfigInfo c : configinfo_ok c → dec_ConfigInfo (enc_ConfigInfo c) zero_Config = Some c.
Proof.
  destruct c. intros (? & ? & ? & ? & ? & ? & ? & ? & ? & ?). unfold dec_ConfigInfo, enc_ConfigInfo. struct_back.
Qed.
Lemma dec_enc_Info i : info_ok i → dec_Info (enc_Info i) zero_Info = Some i.
Proof.
  destruct i as [a d c m f]. intros (Ha & Hv & Hd & Hc & Hm & Hf). cbn [in_API in_Daemon in_Account in_Mount in_Config] in *.
  unfold dec_Info, enc_Info. rewrite dec_struct_obj. cbn [in_API in_Daemon in_Account in_Mount in_Config].
  erewrite dec_members_sub; [|reflexivity|by apply dec_enc_API].
  erewrite dec_members_sub; [|reflexivity|by apply dec_enc_Daemon].
  erewrite dec_members_sub; [|reflexivity|by apply dec_enc_AccountInfo].
  erewrite dec_members_sub; [|reflexivity|by apply dec_enc_MountInfo].
  erewrite dec_members_sub; [|reflexivity|by apply dec_enc_ConfigInfo].
  reflexivity.
Qed.

(** ** The server and its client *)

Section control.
Context `{GoRuntime}.

(** A server that started listens on its path. *)
Lemma NewServer_state pid now path info ver s n s' :
  NewServer pid now path (Some info) ver s = (inr (Some n), s') →
  so_files s' !! path = Some (Listening n) ∧ so_servers s' !! n = Some (mkServer path info now ver pid true).
Proof.
  unfold NewServer. destruct (decide (path = "")); [congruence|].
  assert (Hstart : ∀ s0, match net_Listen path s0 with
    | (inl err, s) => (inl (EWrap ("listening on unix socket " +:+ path +:+ ": ") err ""), s)
    | (inr n, s) =>
        match sock_Chmod path s with
        | (inl err, s) => (inl (EWrap "setting socket permissions: " err ""), listener_Close path s)
        | (inr _, s) => (inr (Some n), set_servers (<[n := mkServer path info now ver pid true]>) s)
        end
    end = (inr (Some n), s') →
    so_files s' !! path = Some (Listening n) ∧ so_servers s' !! n = Some (mkServer path info now ver pid true)).
  { intros s0. destruct (net_Listen path s0) as [[e|k] s1] eqn:E1; [congruence|].
    destruct (sock_Chmod path s1) as [[e|u] s2] eqn:E2; [congruence|]. intros [= -> <-].
    assert (Hf : so_files s1 !! path = Some (Listening n)).
    { revert E1. unfold net_Listen, sock_call. destruct (so_faults s0) as [|[f|] fs]; [|congruence|];
        (destruct (so_files _ !! path); [congruence|]); intros [= <- <-]; cbn; by rewrite lookup_insert_eq. }
    assert (Hs : so_files s2 = so_files s1).
    { revert E2. unfold sock_Chmod, sock_call. destruct (so_faults s1) as [|[f|] fs]; [|congruence|]; intros [= <- <-]; done. }
    cbn. by rewrite Hs, lookup_insert_eq. }
  destruct (sock_Remove path s) as [[e|u] s1]; [|apply Hstart].
  destruct (os_IsNotExist e); [apply Hstart|congruence].
Qed.
(** Without faults a server starts, unless a socket of its path is in the way
    after it was removed. *)
Lemma NewServer_starts pid now path info ver s :
  path ≠ "" → so_faults s = [] → ∃ n s', NewServer pid now path (Some info) ver s = (inr (Some n), s').
Proof.
  intros Hp Hf. unfold NewServer. rewrite decide_False by done. unfold sock_Remove, net_Listen, sock_Chmod, sock_call.
  rewrite Hf. destruct (so_files s !! path) eqn:E.
  - cbn. rewrite Hf, lookup_delete_eq. cbn. rewrite ?Hf. eauto.
  - cbn. rewrite Hf, E. cbn. rewrite ?Hf. eauto.
Qed.
(** A path where nobody answers. *)
Lemma Client_Info_none path s :
  so_faults s = [] → so_files s !! path = None ∨ so_files s !! path = Some Dead → (Client_Info path s).1 = inl ErrNotRunning.
Proof. intros Hf Hp. unfold Client_Info, sock_Do. rewrite Hf. by destruct Hp as [-> | ->]. Qed.
Lemma Client_Info_open path s n sv :
  so_faults s = [] → so_files s !! path = Some (Listening n) → so_servers s !! n = Some sv → sv_open sv = true →
  info_ok (stamp sv (sv_provider sv)) → (Client_Info path s).1 = inr (stamp sv (sv_provider sv)).
Proof.
  intros Hf Hl Hs Ho Hok. unfold Client_Info, sock_Do. rewrite Hf, Hl, Hs, Ho.
  change (mux sv "GET" "/v1/info") with (reply 200 (enc_Info (stamp sv (sv_provider sv)))).
  unfold info_outcome, reply, Decode. cbn [resp_StatusCode resp_Body b_json].
  change (200 =? 200) with true. cbv iota. by rewrite dec_enc_Info.
Qed.
(** Closing leaves nothing at the path, and the server closed. *)
Lemma Close_state path s n sv hung :
  so_faults s = [] → so_servers s !! n = Some sv → sv_open sv = true → sv_sockPath sv = path →
  ∃ e s', Close (Some n) hung s = (e, s') ∧ (hung = false → e = None) ∧ so_faults s' = [] ∧ so_files s' !! path = None ∧
    so_servers s' !! n = Some (set_open false sv).
Proof.
  intros Hf Hs Ho Hp. unfold Close, sock_Remove, sock_call. cbn [mbind option_bind]. rewrite Hs. cbn [fmap option_fmap option_map].
  rewrite Ho, Hp. cbn. rewrite Hf, lookup_delete_eq. eexists _, _. split; [reflexivity|].
  split_and!; [by intros ->|done|cbn; by rewrite lookup_delete_eq|cbn; by rewrite lookup_insert_eq].
Qed.

(** C21: the control channel tells the truth about its mount. A client that asks
    the socket of a server that started is answered with everything the mount
    reports, through the JSON document, and with the process, the starting time
    and the versions of the server, whatever the provider put there. Once the
    server is closed, and after its process died without closing it, the client
    reports that no server runs; closing again does nothing; and a new server
    can be started on the path a dead one left. *)
Theorem control_reports_mount pid now path info ver (s : Sockets) n s' :
  let sv := mkServer path info now ver pid true in
  NewServer pid now path (Some info) ver s = (inr (Some n), s') → so_faults s' = [] → info_ok (stamp sv info) →
  (Client_Info path s').1 = inr (mkInfo_ (in_API info) (mkDaemonInfo pid (format_RFC3339 now) runtime_Version ver)
                                   (in_Account info) (in_Mount info) (in_Config info)) ∧
  (∀ hung, ∃ e s2, Close (Some n) hung s' = (e, s2) ∧ (hung = false → e = None) ∧
     (Client_Info path s2).1 = inl ErrNotRunning ∧ ∀ hung', Close (Some n) hung' s2 = (None, s2)) ∧
  (Client_Info path (killed n s')).1 = inl ErrNotRunning ∧
  (∀ pid' now' info' ver', ∃ n' s2, NewServer pid' now' path (Some info') ver' (killed n s') = (inr (Some n'), s2)).
Proof.
  intros sv Hnew Hf Hok. destruct (NewServer_state _ _ _ _ _ _ _ _ Hnew) as [Hl Hs]. split_and!.
  - by rewrite (Client_Info_open path s' n sv).
  - intros hung. destruct (Close_state path s' n sv hung) as (e & s2 & HC & He & Hf2 & Hn & Hs2); [done..|].
    exists e, s2. split_and!; [done|done|by apply Client_Info_none; [|left]|].
    intros hung'. unfold Close. cbn [mbind option_bind]. by rewrite Hs2.
  - apply Client_Info_none; [done|right]. cbn. rewrite lookup_fmap, Hl. cbn. by rewrite decide_True.
  - intros. apply NewServer_starts; [|done]. intros ->. revert Hnew. unfold NewServer. by rewrite decide_True.
Qed.
End control.

(** ** A mount and its socket *)

#[global] Instance go_1_26 : GoRuntime := "go1.26.7".
#[global] Instance bytes_text : HumanizeBytes := λ n, pretty n +:+ " B".

Definition ana_info : Info :=
  provider_Info (mkProvider "ana@example.com" "/home/ana/OneDrive" (DefaultMountConfig "/home/ana" "ana@example.com" None)).
Definition ana_socket : string := "/home/ana/.cache/onecloudriver/ana@example.com/control.sock".
Definition no_sockets : Sockets := mkSockets ∅ ∅ 0 [].
Definition mounted_once : Sockets := (NewServer 1234 (1788602400 * Second) ana_socket (Some ana_info) "v0.1.5" no_sockets).2.

Lemma control_reports_mount_witness :
  (Client_Info ana_socket mounted_once).1
  = inr (mkInfo_ (in_API ana_info) (mkDaemonInfo 1234 "2026-09-05T10:00:00Z" "go1.26.7" "v0.1.5")
           (in_Account ana_info) (in_Mount ana_info) (in_Config ana_info)).
Proof.
  destruct (control_reports_mount 1234 (1788602400 * Second) ana_socket ana_info "v0.1.5" no_sockets 0 mounted_once) as [Hi _].
  - vm_compute. reflexivity.
  - reflexivity.
  - apply (bool_decide_unpack _). vm_compute. exact I.
  - exact Hi.
Defined.

(** The configuration as it is shown. *)
Example ana_config_shown :
  in_Config ana_info = mkConfigInfo "1m0s" 2000 "0" "5m0s" 5 5 3 "15s" 2 "".
Proof. reflexivity. Qed.

(** A second mount of the same cache directory, which goes on when the database
    is locked, takes the socket over; when the first one ends it removes the
    file of the second, whose channel is then out of reach while it runs. *)
Definition mounted_twice : Sockets := (NewServer 5678 (1788602400 * Second) ana_socket (Some ana_info) "" mounted_once).2.
Example socket_taken_over :
  (dm_PID ∘ in_Daemon <$> match (Client_Info ana_socket mounted_twice).1 with inr i => Some i | inl _ => None end) = Some 5678 ∧
  let s := (Close (Some 0%nat) false mounted_twice).2 in
  (sv_open <$> so_servers s !! 1%nat) = Some true ∧ (Client_Info ana_socket s).1 = inl ErrNotRunning.
Proof. by vm_compute. Qed.
