(* ===== verification/Commands.v ===== *)
(** The commands of the program (cmd/onecloudriver): the account and the items
    their flags name, the item commands on the Graph client, the one-shot
    synchronization, and the service commands in their structured form. A command
    gives its error and, where it shows one, the item or the list, which [Output]
    renders; messages on the way are not modelled. *)

From S2P Require Export Mount Login Service Control.

#[local] Open Scope Z_scope.

(** ** common.go: resources *)

(** "exactly one of" two flags. *)
Definition buildResource (itemID itemPath label : string) : error + Resource :=
  if (bool_decide (itemID = "") && bool_decide (itemPath = "")) || (negb (bool_decide (itemID = "")) && negb (bool_decide (itemPath = "")))
  then inl (EMsg ("you must specify exactly one of --id or --path" +:+ label))
  else if decide (itemID = "") then inr (ItemPath itemPath) else inr (ItemID itemID).
Definition destFlagsError : error := EMsg "you must specify exactly one of --dest-id or --dest-path for the destination".
Definition validateDestFlags (destID destPath : string) : option error :=
  if (bool_decide (destID = "") && bool_decide (destPath = "")) || (negb (bool_decide (destID = "")) && negb (bool_decide (destPath = "")))
  then Some destFlagsError else None.
Definition validateOptionalDestFlags (destID destPath : string) : option error :=
  if negb (bool_decide (destID = "")) && negb (bool_decide (destPath = "")) then Some destFlagsError else None.
Definition buildDestResource (destID destPath : string) : error + Resource :=
  match validateDestFlags destID destPath with
  | Some e => inl e
  | None => if decide (destID = "") then inr (ItemPath destPath) else inr (ItemID destID)
  end.
Definition buildOptionalDestResource (destID destPath : string) : error + option Resource :=
  match validateOptionalDestFlags destID destPath with
  | Some e => inl e
  | None =>
      if bool_decide (destID = "") && bool_decide (destPath = "") then inr None
      else if decide (destID = "") then inr (Some (ItemPath destPath)) else inr (Some (ItemID destID))
  end.
Definition buildOptionalResource (itemID itemPath : string) : error + option Resource :=
  if negb (bool_decide (itemID = "")) && negb (bool_decide (itemPath = ""))
  then inl (EMsg "you must specify exactly one of --id or --path")
  else if bool_decide (itemID = "") && bool_decide (itemPath = "") then inr None
  else if decide (itemID = "") then inr (Some (ItemPath itemPath)) else inr (Some (ItemID itemID)).
Definition validateOutputFlags (outputPath outputDir : string) : option error :=
  if (bool_decide (outputPath = "") && bool_decide (outputDir = "")) || (negb (bool_decide (outputPath = "")) && negb (bool_decide (outputDir = "")))
  then Some (EMsg "you must specify exactly one of --output or --output-dir") else None.
Definition validateOutputFormat (name : string) : option error :=
  if bool_decide (name ∈ ["text"; "json"; "yaml"]) then None
  else Some (EMsg ("unsupported format: " +:+ Quote name +:+ " (valid: text, json, yaml)")).
Definition requiredStringFlag (value missingMsg : string) : error + string :=
  if decide (value = "") then inl (EMsg missingMsg) else inr value.

(** ** common.go: the account *)

Definition resolveAccountName `{MapRange} (flag : string) (m : Manager) : error + string :=
  if decide (flag = "") then
    match ResolveMainAccountName m with
    | inl _ => inl (EMsg "you must specify an account with --account")
    | inr name => inr name
    end
  else inr flag.
Definition resolveAccount `{MapRange} (flag : string) (m : Manager) : error + Account :=
  match resolveAccountName flag m with
  | inl e => inl e
  | inr name =>
      match GetAccount name m with
      | inl e => inl (EWrap ("account '" +:+ name +:+ "' does not exist. Use 'onecloudriver account add' to add it: ") e "")
      | inr a => inr a
      end
  end.

(** ** The item commands, once the account is resolved *)

Section items.
Context {W : Type} `{World W}.
Context (cli : Client) (ctx : Ctx W) (tp : TokenProvider W) (pages : nat).

Definition lift {A} (r : error + A) : SE W error A := λ w, (r, w).
(** [fmt.Errorf("error ...: %w", err)]. *)
Definition during {A} (what : string) (m : SE W error A) : SE W error A := λ w,
  match m w with (inl e, w) => (inl (EWrap what e ""), w) | r => r end.
#[local] Open Scope go_scope.

Definition rm (id path etag : string) (force : bool) : SE W error unit :=
  let* r := lift (buildResource id path "") in
  if negb force then se_fail (EMsg "destructive operation: use --force to confirm deletion")
  else during "error deleting: " (DeleteItem cli ctx tp (Some r) etag).
Definition mv (id path destID destPath etag : string) : SE W error DriveItem :=
  let* r := lift (buildResource id path " for the source") in
  let* dest := lift (buildDestResource destID destPath) in
  during "error moving: " (MoveItem cli ctx tp (Some r) (Some dest) etag).
Definition rename (id path name etag : string) : SE W error DriveItem :=
  let* r := lift (buildResource id path "") in
  let* newName := lift (requiredStringFlag name "you must specify the new name with --name") in
  during "error renaming: " (RenameItem cli ctx tp (Some r) newName etag).
Definition mkdir (id path name : string) : SE W error DriveItem :=
  let* r := lift (buildResource id path "") in
  let* folderName := lift (requiredStringFlag name "you must specify the folder name with --name") in
  during "error creating folder: " (CreateFolder cli ctx tp (Some r) folderName).
Definition copy (id path name destID destPath : string) : SE W error string :=
  let* r := lift (buildResource id path " for the source") in
  if bool_decide (name = "") && bool_decide (destID = "") && bool_decide (destPath = "")
  then se_fail (EMsg "you must specify at least --name or --dest-id/--dest-path") else
  let* dest := lift (buildOptionalDestResource destID destPath) in
  during "error copying: " (CopyItem cli ctx tp (Some r) name dest).
Definition info (id path output : string) : SE W error DriveItem :=
  match validateOutputFormat output with
  | Some e => se_fail e
  | None =>
      let* r := lift (buildResource id path "") in
      during "error fetching information: " (GetItem cli ctx tp (Some r))
  end.

(** [listFolderContents]: of a file, the folder it is in. *)
Definition listFolderContents (r : Resource) : SE W error (list DriveItem) :=
  let* item := GetItem cli ctx tp (Some r) in
  if IsFolder item then paged (ListChildren pages cli ctx tp (Some (ItemID (item_ID item))))
  else match item_Parent item with
       | Some p => if decide (parent_ID p = "") then se_fail (EMsg ("cannot determine the parent folder of " +:+ Quote (item_Name item)))
                   else paged (ListChildren pages cli ctx tp (Some (ItemID (parent_ID p))))
       | None => se_fail (EMsg ("cannot determine the parent folder of " +:+ Quote (item_Name item)))
       end.
Definition list_items (id path output : string) : SE W error (list DriveItem) :=
  match validateOutputFormat output with
  | Some e => se_fail e
  | None =>
      let* r := lift (buildOptionalResource id path) in
      during "error listing files: "
        (match r with None => paged (ListDriveRoot pages cli ctx tp) | Some r => listFolderContents r end)
  end.

(** *** With files of the host *)

Abbreviation DW := (Disk * W)%type.
Definition on_disk_dw {A} (m : Disk → (error + A) * Disk) : SE DW error A := λ '(d, w), let '(r, d) := m d in (r, (d, w)).
Definition on_world_dw {A} (m : SE W error A) : SE DW error A := λ '(d, w), let '(r, w) := m w in (r, (d, w)).

(** [os.Create]: a file that exists is emptied. *)
Definition os_Create (path : string) (d : Disk) : (error + nat) * Disk :=
  match os_OpenFile path d with
  | (inl e, d) => (inl e, d)
  | (inr fd, d) => (inr fd, match fd_file fd d with Some (f, o) => set_data (fd_obj f) [] d | None => d end)
  end.
Definition fileWriter (fd : nat) : Writer Disk := mkWriter (λ p d, file_Write fd p d).

(** Where a download is written: the file named, or the remote name within a
    folder. *)
Definition output_path (r : Resource) (outputPath outputDir : string) : SE W error string :=
  if decide (outputDir = "") then se_ret outputPath else
  let* item := during "error fetching metadata: " (GetItem cli ctx tp (Some r)) in
  if IsFolder item then se_fail (EMsg ("cannot download a folder: " +:+ item_Name item))
  else if decide (item_Name item = "") then se_fail (EMsg "the item has no name (possibly the root)")
  else if negb (filepath_IsLocal (item_Name item))
  then se_fail (EMsg ("unsafe remote filename, download aborted: " +:+ Quote (item_Name item)))
  else se_ret (filepath_Join outputDir (item_Name item)).
(** The bytes into the open file; a failure removes the file. *)
Definition download_into (r : Resource) (path : string) (fd : nat) : SE DW error Z := λ '(d, w),
  let '(n, err, d, w) := GetItemContentStream cli ctx tp (Some r) (fileWriter fd) d w in
  match err with
  | Some e =>
      let '(_, d) := os_Remove path d in
      let '(_, d) := file_Close fd d in (inl (EWrap "error downloading: " e ""), (d, w))
  | None => let '(_, d) := file_Close fd d in (inr n, (d, w))
  end.
Definition download (id path outputPath outputDir : string) : SE DW error Z :=
  match validateOutputFlags outputPath outputDir with
  | Some e => se_fail e
  | None =>
      let* r := on_world_dw (lift (buildResource id path "")) in
      let* out := on_world_dw (output_path r outputPath outputDir) in
      let* fd := (λ dw, match on_disk_dw (os_Create out) dw with
                        | (inl e, dw) => (inl (EWrap "error creating output file: " e ""), dw) | r => r end) in
      download_into r out fd
  end.

(** [upload]; reading the file is one action with the upload. *)
Definition upload_file (r : Resource) (filePath : string) (fd : nat) (info : FileInfo) : SE DW error DriveItem := λ '(d, w),
  let '(data, d) := file_ReadAll fd d in
  let '(data, err) := match data with inl e => ([], Some e) | inr data => (data, None) end in
  let fileName := path_Base (TrimRight filePath slash) in
  let '(res, w) :=
    (if 4 * 1024 * 1024 <? fi_Size info then UploadItemStream cli ctx tp (Some r) fileName (Some (mkReader data err)) (fi_Size info) ""
     else UploadItem cli ctx tp (Some r) fileName (Some (mkReqBody (PBytes data) err false)) "") w in
  (match res with inl e => inl (EWrap "error uploading: " e "") | inr item => inr item end, (d, w)).
Definition upload (id path file : string) : SE DW error DriveItem :=
  let* r := on_world_dw (lift (buildResource id path " for the destination folder")) in
  let* filePath := on_world_dw (lift (requiredStringFlag file "you must specify the local file with --file")) in
  λ dw, match on_disk_dw (os_Open filePath) dw with
        | (inl e, dw) => (inl (EWrap "error opening local file: " e ""), dw)
        | (inr fd, dw) =>
            match on_disk_dw (file_Stat fd) dw with
            | (inl e, (d, w)) => (inl (EWrap "error getting file information: " e ""), ((file_Close fd d).2, w))
            | (inr info, dw) =>
                let '(res, (d, w)) := upload_file r filePath fd info dw in (res, ((file_Close fd d).2, w))
            end
        end.
End items.

(** ** account.go *)

(** [os.RemoveAll]: the path and what is below it; a path that is not there is
    no error. *)
Definition beneath (path p : string) : bool := bool_decide (p = path) || HasPrefix p (path +:+ "/").
Definition os_RemoveAll (path : string) : Disk → (error + unit) * Disk :=
  sys "unlinkat" path (λ d,
    (inr tt, set_d_names (filter (λ kv, beneath path kv.1 = false) (d_names d))
               (set_d_dirs (filter (λ p, beneath path p = false) (d_dirs d)) d))).

(** [bufio.Reader.ReadString] up to a newline, without its error. *)
Definition ReadLine (stdin : string) : string :=
  let l := chars stdin in
  of_chars (match list_find (λ a, a = newline) l with Some (n, _) => take (S n) l | None => l end).
Definition affirmative (response : string) : bool :=
  bool_decide (TrimSpace (ToLower response) ∈ ["y"; "yes"; "s"; "si"; "s" +:+ bytes_string [195; 173]]).
Definition confirmCacheDeletion (cacheDir : string) (purge keep : bool) (stdin : string) : SE Disk error unit := λ d,
  if keep then (inr tt, d)
  else if negb purge && negb (affirmative (ReadLine stdin)) then (inr tt, d)
  else match os_RemoveAll cacheDir d with
       | (inl err, d) => (if os_IsNotExist err then inr tt else inl (EWrap "error deleting cache: " err ""), d)
       | r => r
       end.

Section accounts.
Context {K W : Type} `{Keyring K} `{World W} `{Clock W} `{Mergo} `{SHA256}.

(** [account remove]: with [home], the variable HOME, the cache of the account. *)
Definition account_remove (home accountName : string) (purge keep : bool) (stdin : string) :
    SE (Disk * @MS K W) error unit := λ '(d, (m, e)),
  if purge && keep then (inl (EMsg "--purge and --keep are mutually exclusive"), (d, (m, e))) else
  match GetAccount accountName m with
  | inl err => (inl err, (d, (m, e)))
  | inr acc =>
      let cacheDir := CacheDir (DefaultMountConfig home accountName (Some (acc_Mount acc))) in
      match RemoveAccount accountName (m, e) with
      | (inl err, s) => (inl err, (d, s))
      | (inr _, s) => let '(r, d) := confirmCacheDeletion cacheDir purge keep stdin d in (r, (d, s))
      end
  end.
End accounts.

(** ** mount.go: the command *)

Definition set_Mount (p : AccountPersistedConfig) (a : Account) : Account :=
  mkAccount (acc_keyring a) (acc_Name a) (acc_Config a) p (acc_ExpiresAt a) (acc_AccessToken a) (acc_RefreshToken a)
    (acc_tokenFile a) (acc_lastKeyringErr a).

Section mounting.
Context {D K W : Type} `{Bolt D} `{Keyring K} `{World W} `{Clock W} `{TimeText} `{JsonLen} `{Humanize}.
Abbreviation AS := (@AS K W).

(** [mountCmd] for a resolved account: a token, the configuration, which is
    saved in the account (an account that cannot be saved is mounted), and
    [Mount]. [home] is the variable HOME. *)
Definition mount_command (home : string) (args : list string) (flags : MountFlags) (opened : (error * bool) + D) (fuse : option error) :
    SE (Disk * AS) error (DeltaSync (Sys D AS) * Sys D AS) := λ '(d, s),
  match GetAccessToken s with
  | (inl err, s) => (inl (EWrap ("could not obtain token for " +:+ acc_Name s.1 +:+ ": ") err ""), (d, s))
  | (inr _, (a, e)) =>
      match mount_config flags (DefaultMountConfig home (acc_Name a) (Some (acc_Mount a))) with
      | inl err => (inl err, (d, (a, e)))
      | inr config =>
          let mountPoint := mount_point args a in
          let a := set_Mount (buildPersistedMountConfig (acc_Mount a) mountPoint config (f_CacheDir flags)) a in
          let s := (Save (a, e)).2 in
          match Mount mountPoint config opened fuse (d, s) with
          | (inl err, ds) => (inl (EWrap "error mounting FUSE: " err ""), ds)
          | r => r
          end
      end
  end.
End mounting.

(** ** sync.go *)

(** [activeHolder]: the mount point of the instance found, "" when it is not
    known. The probes are tried in order: the control channel, the lock of the
    database, the service. *)
Definition detectActiveMountWith {S} (account : string) (sockInfo : error + Info) (cacheInUse : error + bool)
    (svcRunning : S → option string * S) (s : S) : option string * S :=
  let asked := match sockInfo with
               | inr info =>
                   if bool_decide (ai_Name (in_Account info) = account) && bool_decide (mi_State (in_Mount info) = "running")
                      && negb (bool_decide (mi_Mountpoint (in_Mount info) = ""))
                   then Some (mi_Mountpoint (in_Mount info)) else None
               | inl _ => None
               end in
  match asked with
  | Some mountpoint => (Some mountpoint, s)
  | None =>
      match cacheInUse with
      | inr true =>
          let '(mp, s) := svcRunning s in (Some (default "" mp), s)
      | _ => (None, s)
      end
  end.

(** [CacheDirInUse]; [probe] is what opening the database for 200 ms gives. *)
Definition CacheDirInUse {D} (cacheDir : string) (probe : (error * bool) + D) (d : Disk) : (error + bool) * Disk :=
  let dbPath := filepath_Join cacheDir "inodes.db" in
  match os_Stat dbPath d with
  | (inl err, d) =>
      (if os_IsNotExist err then inr false else inl (EWrap ("checking cache database " +:+ dbPath +:+ ": ") err ""), d)
  | (inr _, d) =>
      (match probe with
       | inl (_, true) => inr true
       | inl (err, false) => inl (EWrap ("probing cache database lock at " +:+ dbPath +:+ ": ") err "")
       | inr _ => inr false
       end, d)
  end.

Section sync.
Context {D W : Type} `{Bolt D} `{GraphAPI W} `{Clock W} `{TimeText} `{JsonLen}.

(** The cycle of [sync] on the caches of a mount that does not run; gives the
    number of changes and the file of the database as it is left. *)
Definition sync_cycle (fuel : nat) (ctx : Ctx W) (config : MountConfig) (opened : (error * bool) + D) (dw : Disk * W) :
    option ((error + Z) * option D * (Disk * W)) :=
  let '(d, w) := dw in
  match os_MkdirAll (CacheDir config) d with
  | (inl err, d) => Some (inl (EWrap ("error creating cache directory " +:+ CacheDir config +:+ ": ") err ""), None, (d, w))
  | (inr _, d) =>
      match InitBoltDB (w_now w) (bolt_path config) opened NewInodeCache with
      | inl err => Some (inl (EWrap "sync failed: " err ""), None, (d, w))
      | inr (db, inodes) =>
          match ContentCache.NewContentCache (content_dir config) d with
          | (inl err, d) =>
              Some (inl (EWrap "error creating ContentCache: " err ""), (SerializeAll (db, inodes)).2.1, (d, w))
          | (inr content, _) =>
              match PollOnce fuel ctx (NewDeltaSync, mkSys no_uploads ∅ 0 db inodes content w) with
              | None => None
              | Some (n, err, (_, s)) =>
                  let s := set_content (ContentCache.CloseAll (s_content s)) s in
                  Some (match err with Some e => inl (EWrap "error during delta sync: " e "") | None => inr n end,
                        (SerializeAll (s_db s, s_inodes s)).2.1, (ContentCache.disk (s_content s), s_net s))
              end
          end
      end
  end.
(** [sync], with the instance its probes found. *)
Definition sync (fuel : nat) (ctx : Ctx W) (config : MountConfig) (holder : option string) (opened : (error * bool) + D)
    (dw : Disk * W) : option ((error + Z) * option D * (Disk * W)) :=
  match holder with
  | Some _ => Some (inl (EMsg "sync failed: the cache directory is in use by an active mount or service"), None, dw)
  | None => sync_cycle fuel ctx config opened dw
  end.
End sync.

(** ** service.go *)

(** [expandHomePrefix]. *)
Definition expandHomePrefix (UserHomeDir : error + string) (path : string) : string :=
  match UserHomeDir with
  | inr home => if decide (path = "~") then home
                else if HasPrefix path "~/" then filepath_Join home (TrimPrefix path "~/") else path
  | inl _ => path
  end.
(** [resolveInstallMountpoint]: the mount point and the warning. *)
Definition resolveInstallMountpoint (UserHomeDir : error + string) (explicitFlag saved : string) : string * string :=
  if negb (bool_decide (explicitFlag = "")) then (expandHomePrefix UserHomeDir explicitFlag, "") else
  let fallback := expandHomePrefix UserHomeDir "~/OneDrive/%i" in
  if decide (saved = "") then (fallback, "")
  else if Contains saved "%i" then (expandHomePrefix UserHomeDir saved, "")
  else (fallback, "Ignoring account-specific saved mountpoint " +:+ Quote saved +:+ " (no %i placeholder); using " +:+ fallback).

(** The commands in their structured form (--output json or yaml; the text form is
    in [ServiceText]): the documents written and the error returned. [start] and
    [restart] do the same in both forms. *)
Definition not_OK (r : ActionResult) : ActionResult :=
  mkResult (ar_Action r) false (ar_Account r) (ar_AffectedAccounts r) (ar_ServiceFile r) (ar_Mountpoint r) (ar_Warning r)
    (ar_Message r) (ar_Error r).

Section service.
Context (UserHomeDir : error + string) (XDG_CONFIG_HOME argv0 : string).
Context {S : Type} `{Host S} `{MapRange}.
Abbreviation HS := (Disk * S)%type.
Definition ServiceCmd : Type := HS → (list ActionResult * option error) * HS.
Definition refuse (err : error) : ServiceCmd := λ s, (([], Some err), s).
(** One document, whether the action succeeded or not. *)
Definition document (act : @Action S) : ServiceCmd := λ s, let '(result, err, s) := act s in (([result], err), s).

(** [install] for one account. *)
Definition install_one (mountpoint : string) (enable : bool) (acc : Account) : @Action S := λ s,
  let '(mp, warn) := resolveInstallMountpoint UserHomeDir mountpoint (pc_DefaultMountpoint (acc_Mount acc)) in
  let '(result, err, s) := InstallServiceResult UserHomeDir XDG_CONFIG_HOME argv0 mp (acc_Name acc) s in
  let result := set_Warning warn result in
  match err with
  | Some _ => (result, err, s)
  | None =>
      if negb enable then (result, None, s) else
      match EnableUnit (acc_Name acc) s with
      | (Some err, s) => (set_Error (Error err) (not_OK result), Some err, s)
      | (None, s) => (result, None, s)
      end
  end.
(** [installAllStructured]: the accounts in order; what was done so far is in
    the document of a failure. *)
Fixpoint install_accounts (m : Manager) (mountpoint : string) (enable : bool) (accounts : list string)
    (affected warnings : list string) (serviceFile : string) : @Action S := λ s,
  let result := set_Affected affected (new_result "install" "" "") in
  match accounts with
  | [] =>
      let result := set_ServiceFile serviceFile (set_OK result) in
      (set_Warning (JoinText warnings "; ") result, None, s)
  | account :: accounts =>
      match GetAccount account m with
      | inl err => (set_Error (Error err) result, Some err, s)
      | inr acc =>
          let '(mp, warn) := resolveInstallMountpoint UserHomeDir mountpoint (pc_DefaultMountpoint (acc_Mount acc)) in
          let warnings := if bool_decide (warn = "") || bool_decide (warn ∈ warnings) then warnings else warnings ++ [warn] in
          match InstallServiceResult UserHomeDir XDG_CONFIG_HOME argv0 mp account s with
          | (res, Some err, s) => (set_Error (ar_Error res) result, Some err, s)
          | (res, None, s) =>
              match (if enable then EnableUnit account s else (None, s)) with
              | (Some err, s) => (set_Error (Error err) result, Some err, s)
              | (None, s) => install_accounts m mountpoint enable accounts (affected ++ [account]) warnings (ar_ServiceFile res) s
              end
          end
      end
  end.
Definition sorted_accounts (m : Manager) : list string := merge_sort string_le (ListAccounts m).
Definition installAllStructured (m : Manager) (mountpoint : string) (enable : bool) : ServiceCmd :=
  match sorted_accounts m with
  | [] => refuse (EMsg "no accounts configured. Use 'onecloudriver account add' to add one")
  | accounts => document (install_accounts m mountpoint enable accounts [] [] "")
  end.
Definition service_install (output mountpoint accountFlag : string) (enable all : bool) (m : Manager) : ServiceCmd :=
  match validateOutputFormat output with
  | Some err => refuse err
  | None =>
      if all then installAllStructured m mountpoint enable else
      match resolveAccount accountFlag m with
      | inl err => refuse err
      | inr acc => document (install_one mountpoint enable acc)
      end
  end.
Definition service_uninstall (output : string) (all : bool) (m : Manager) : ServiceCmd :=
  match validateOutputFormat output with
  | Some err => refuse err
  | None =>
      if negb all then document (UninstallServiceResult UserHomeDir XDG_CONFIG_HOME []) else
      match sorted_accounts m with
      | [] => refuse (EMsg "no accounts configured")
      | accounts => document (UninstallServiceResult UserHomeDir XDG_CONFIG_HOME accounts)
      end
  end.

(** [serviceOperationFunc], of [start] and [restart]: a document for each
    account, up to the first failure. *)
Definition serviceOperationAccount (act : string → @Action S) (m : Manager) (account : string) : ServiceCmd :=
  match GetAccount account m with
  | inl err => refuse err
  | inr _ => document (act account)
  end.
Fixpoint serviceOperation_all (act : string → @Action S) (m : Manager) (accounts : list string) : ServiceCmd := λ s,
  match accounts with
  | [] => (([], None), s)
  | account :: accounts =>
      match serviceOperationAccount act m account s with
      | (docs, Some err, s) => ((docs, Some err), s)
      | (docs, None, s) => let '(rest, err, s) := serviceOperation_all act m accounts s in ((docs ++ rest, err), s)
      end
  end.
Definition serviceOperationFunc (act : string → @Action S) (output : string) (all : bool) (args : list string) (m : Manager) :
    ServiceCmd :=
  match validateOutputFormat output with
  | Some err => refuse err
  | None =>
      match all, args with
      | true, _ :: _ => refuse (EMsg "cannot specify an account when using --all")
      | false, [] => refuse (EMsg "specify an account or use --all to start all")
      | true, [] =>
          match ListAccounts m with
          | [] => refuse (EMsg "no accounts configured")
          | accounts => serviceOperation_all act m accounts
          end
      | false, account :: _ => serviceOperationAccount act m account
      end
  end.

(** [stop]: the accounts are not looked up. *)
Fixpoint stop_accounts (accounts affected warnings : list string) : @Action S := λ s,
  let result := set_Affected affected (new_result "stop" "" "") in
  match accounts with
  | [] =>
      (set_Message "All accounts stopped." (set_Warning (JoinText warnings "; ") (set_OK result)), None, s)
  | account :: accounts =>
      match StopServiceResult UserHomeDir account s with
      | (res, Some err, s) => (set_Error (ar_Error res) result, Some err, s)
      | (res, None, s) =>
          stop_accounts accounts (affected ++ [account])
            (if decide (ar_Warning res = "") then warnings else warnings ++ [ar_Warning res]) s
      end
  end.
Definition service_stop (output : string) (all : bool) (args : list string) (m : Manager) : ServiceCmd :=
  match validateOutputFormat output with
  | Some err => refuse err
  | None =>
      if all then
        match sorted_accounts m with
        | [] => refuse (EMsg "no accounts configured")
        | accounts => document (stop_accounts accounts [] [])
        end
      else match args with
           | [] => refuse (EMsg "specify an account or use --all to stop all")
           | account :: _ => document (StopServiceResult UserHomeDir account)
           end
  end.
End service.
