(* ===== verification/CommandTheorems.v ===== *)
(** What the commands guarantee: a download stays in the folder it was given,
    whatever name the drive answers with, and touches no other file; a
    synchronisation leaves the cache of a running mount alone; the documents of
    the service commands agree with their exit status. *)

From S2P Require Import Commands ControlTheorems TransferTheorems ContentTheorems ServiceTheorems.
From S2P Require Import Remote UploadTheorems UploadPublish DeltaTheorems.

#[local] Open Scope Z_scope.

(** ** Paths below a folder *)

(** A path is cleaned to its components, from the root when it starts there. *)
Definition rooted (p : string) : bool := match chars p with a :: _ => bool_decide (a = slash) | [] => false end.
Definition components (p : string) : list seg := clean_segs (rooted p) (split_chars slash (chars p)).
Definition of_components (r : bool) (ss : list seg) : string :=
  match r, ss with
  | true, ss => of_chars (slash :: join_chars slash ss)
  | false, [] => "."
  | false, ss => of_chars (join_chars slash ss)
  end.
(** [p] is [dir], or below it: no component leads back up. *)
Definition below_dir (dir p : string) : Prop :=
  ∃ rest, Forall plain_seg rest ∧ p = of_components (rooted dir) (components dir ++ rest).

Lemma Clean_components p : Clean p = of_components (rooted p) (components p).
Proof.
  unfold Clean, of_components, components, rooted. destruct (chars p) as [|a l]; [done|].
  destruct (bool_decide (a = slash)); [done|]. by destruct (clean_segs false _).
Qed.

(** A ".." stays at the bottom of the stack once it is there. *)
Lemma clean_keeps_dotdot B X : dotdot ∈ X → dotdot ∈ foldl (clean_step false) X B.
Proof.
  revert X. induction B as [|s B IH]; intros X HX; [done|]. cbn [foldl]. apply IH. unfold clean_step.
  destruct (decide (s = [] ∨ s = dot)); [done|]. destruct (decide (s = dotdot)); [|by right].
  destruct X as [|t X]; [by apply elem_of_nil in HX|]. destruct (decide (t = dotdot)); [by left|].
  apply elem_of_cons in HX as [HX|HX]; [congruence|done].
Qed.
(** Without one, cleaning [B] on its own is cleaning it on top of anything. *)
Lemma clean_above r st B X :
  Forall plain_seg X → Forall (λ s, slash ∉ s) B → dotdot ∉ foldl (clean_step false) X B →
  foldl (clean_step r) (X ++ st) B = foldl (clean_step false) X B ++ st ∧ Forall plain_seg (foldl (clean_step false) X B).
Proof.
  revert X. induction B as [|s B IH]; intros X HX HB Hd; [done|]. apply Forall_cons in HB as [Hs HB].
  cbn [foldl] in *.
  assert (Hstep : clean_step r (X ++ st) s = clean_step false X s ++ st ∧ Forall plain_seg (clean_step false X s)).
  { revert Hd. unfold clean_step at 2 3 4 5. destruct (decide (s = [] ∨ s = dot)); [done|].
    destruct (decide (s = dotdot)) as [->|Hn].
    - destruct X as [|t X]; [intros Hd; by destruct (Hd (clean_keeps_dotdot B _ ltac:(by left)))|].
      apply Forall_cons in HX as [(_ & _ & Ht & _) HX]. cbn [app]. by rewrite !decide_False by done.
    - intros _. split; [done|]. constructor; [|done]. unfold plain_seg. naive_solver. }
  destruct Hstep as [-> Hp]. by apply IH.
Qed.
(** A ".." of the result comes from the text, and is its first component. *)
Lemma clean_no_dotdot B X : dotdot ∉ X → dotdot ∉ B → dotdot ∉ foldl (clean_step false) X B.
Proof.
  revert X. induction B as [|s B IH]; intros X HX HB; [done|]. apply not_elem_of_cons in HB as [Hs HB].
  cbn [foldl]. apply IH; [|done]. unfold clean_step. destruct (decide (s = [] ∨ s = dot)); [done|].
  rewrite decide_False by done. by apply not_elem_of_cons.
Qed.
Lemma clean_dotdot_last B X :
  (dotdot ∈ X → last X = Some dotdot) → dotdot ∈ foldl (clean_step false) X B →
  last (foldl (clean_step false) X B) = Some dotdot.
Proof.
  revert X. induction B as [|s B IH]; intros X HX; [done|]. cbn [foldl]. apply IH. unfold clean_step.
  destruct (decide (s = [] ∨ s = dot)); [done|]. destruct (decide (s = dotdot)) as [->|Hs].
  - destruct X as [|t X]; [done|]. destruct (decide (t = dotdot)) as [->|Ht].
    + intros _. rewrite last_cons_cons. apply HX. by left.
    + intros H. destruct X as [|u X]; [by apply elem_of_nil in H|]. rewrite <-(last_cons_cons t). apply HX. by right.
  - intros [?|H]%elem_of_cons; [done|]. destruct X as [|t X]; [by apply elem_of_nil in H|].
    rewrite last_cons_cons. by apply HX.
Qed.

(** [filepath.IsLocal] refuses what leads up. *)
Lemma local_no_dotdot name :
  filepath_IsLocal name = true → dotdot ∉ foldl (clean_step false) [] (split_chars slash (chars name)).
Proof.
  unfold filepath_IsLocal. destruct (HasPrefix name "/" || bool_decide (name = "")) eqn:E; [done|].
  apply orb_false_iff in E as [Hr Hn]. set (ss := split_chars slash (chars name)).
  destruct (existsb (λ s, bool_decide (s = dot) || bool_decide (s = dotdot)) ss) eqn:Ed.
  - intros Hl Hin. assert (Hrt : rooted name = false).
    { revert Hr Hn. unfold rooted, HasPrefix. destruct name as [|a name]; [done|]. cbn.
      intros Ha _. apply bool_decide_eq_false. intros ->. by destruct name. }
    pose proof (clean_dotdot_last ss [] ltac:(by intros ?%elem_of_nil) Hin) as Hlast.
    rewrite Clean_components, Hrt in Hl. unfold components, clean_segs in Hl. rewrite Hrt in Hl. fold ss in Hl.
    destruct (foldl (clean_step false) [] ss) as [|x l] eqn:Ef using rev_ind; [by apply elem_of_nil in Hin|].
    rewrite last_snoc in Hlast. injection Hlast as ->. rewrite reverse_snoc in Hl.
    clear IHl. destruct (reverse l) as [|t l']; [by vm_compute in Hl|].
    revert Hl. cbn. set (tl := String.string_of_list_ascii _). destruct tl; cbn; by rewrite orb_true_r.
  - intros _. apply clean_no_dotdot; [apply not_elem_of_nil|]. intros Hin. apply not_true_iff_false in Ed. apply Ed.
    apply existsb_exists. exists dotdot. split; [by apply list_elem_of_In|]. done.
Qed.

Lemma split_chars_app c l m : split_chars c (l ++ c :: m) = split_chars c l ++ split_chars c m.
Proof.
  induction l as [|a l IH]; cbn [app split_chars].
  - by rewrite decide_True.
  - destruct (decide (a = c)); [by rewrite IH|]. rewrite IH. pose proof (split_chars_nonnil c l).
    by destruct (split_chars c l).
Qed.
Lemma rooted_app dir l : dir ≠ "" → rooted (dir +:+ l) = rooted dir.
Proof. by destruct dir. Qed.
(** A local name joined to a folder is below it. *)
Lemma Join_below dir name : dir ≠ "" → filepath_IsLocal name = true → below_dir dir (filepath_Join dir name).
Proof.
  intros Hd Hl. pose proof (local_no_dotdot name Hl) as Hnd.
  assert (Hn : name ≠ "") by (by intros ->). unfold filepath_Join. rewrite !decide_False by done.
  rewrite Clean_components, rooted_app by done. unfold components at 1. rewrite rooted_app by done.
  destruct (clean_above (rooted dir) (foldl (clean_step (rooted dir)) [] (split_chars slash (chars dir)))
              (split_chars slash (chars name)) []) as [Hc Hp]; [done|apply split_chars_no_sep|done|].
  exists (reverse (foldl (clean_step false) [] (split_chars slash (chars name)))). split; [by apply Forall_reverse|].
  f_equal. unfold components, clean_segs. rewrite <-reverse_app. f_equal. rewrite <-Hc, app_nil_l, <-foldl_app.
  f_equal. rewrite !chars_app. apply (split_chars_app slash).
Qed.

(** ** What a download writes *)

(** A property of the output that each write keeps is kept by the download. *)
Section output.
Context {W O : Type} `{World W} (out : Writer O) (I : O → Prop).
Context (cli : Client) (ctx : Ctx W) (tp : TokenProvider W).
Hypothesis HI : ∀ p o, I o → I (w_Write out p o).2.

Lemma copy_chunks_keeps chunks err n o : I o → I (copy_chunks out chunks err n o).2.
Proof using HI.
  revert n o. induction chunks as [|p chunks IH]; intros n o Ho; cbn [copy_chunks]; [done|].
  pose proof (HI p o Ho) as Hw. destruct (w_Write out p o) as [[k e] o']. cbn [snd] in Hw.
  destruct e; [done|]. destruct (k =? length p)%nat; [by apply IH|done].
Qed.
Lemma downloadRange_keeps url s e o w : I o → I (downloadRange cli ctx tp url s e out o w).1.2.
Proof using HI.
  intros Ho. unfold downloadRange. destruct (doAuthenticatedRequestWithBody _ _ _ _ _ _ _ _ _) as [[er|resp] w1]; [done|].
  destruct (checkResponse resp); [done|]. destruct (negb _); [done|]. destruct (decide _); [done|].
  unfold io_Copy. pose proof (copy_chunks_keeps (b_chunks (resp_Body resp)) (b_err (resp_Body resp)) 0 o Ho) as Hc.
  destruct (copy_chunks out _ _ 0 o) as [[k er] o']. destruct er; [done|]. by destruct (_ =? _).
Qed.
Lemma download_loop_keeps url rs total o w : I o → I (download_loop cli ctx tp url out rs total o w).1.2.
Proof using HI.
  revert total o w. induction rs as [|[s e] rs IH]; intros total o w Ho; cbn [download_loop]; [done|].
  unfold ctx_check. destruct (ctx w); [done|].
  pose proof (downloadRange_keeps url s e o w Ho) as Hr.
  destruct (downloadRange cli ctx tp url s e out o w) as [[[n er] o'] w']. destruct er; [done|]. by apply IH.
Qed.
End output.
Lemma GetItemContentStream_keeps {W O} `{World W} (out : Writer O) (I : O → Prop) cli (ctx : Ctx W) tp r o w :
  (∀ p o, I o → I (w_Write out p o).2) → I o → I (GetItemContentStream cli ctx tp r out o w).1.2.
Proof.
  intros HI Ho. unfold GetItemContentStream. destruct (validateResource r); [done|]. destruct r as [res|]; [|done].
  destruct (GetItem cli ctx tp (Some res) w) as [[e|item] w1]; [done|]. destruct (2 ^ 63 - 1 <? item_Size item); [done|].
  match goal with |- context [download_loop ?a ?b ?c ?d ?e ?f ?g ?h ?i] =>
    pose proof (download_loop_keeps e (λ oh, I oh.1) a b c ltac:(intros p [o1 h1] H1; pose proof (HI p o1 H1) as Hw;
      cbn [MultiWriter w_Write]; destruct (w_Write out p o1) as [[k er] o2]; destruct er; [exact Hw|];
      destruct (k =? length p)%nat; exact Hw) d f g h i Ho) as Hl;
    destruct (download_loop a b c d e f g h i) as [[[n er] [o1 h1]] w2] end.
  cbn [fst snd] in Hl. destruct er; [done|]. destruct (item_File item); [|done]. by destruct (_ && _).
Qed.

Section spares.
Context (P : string → Prop).

(** The names outside [P], and the files without a name in it, are as in [d]. *)
Definition spares (d d' : Disk) : Prop :=
  (∀ p, ¬ P p → d_names d' !! p = d_names d !! p) ∧
  (∀ o x, d_objs d !! o = Some x → (∀ p, P p → d_names d !! p ≠ Some o) → d_objs d' !! o = Some x).
(** [fd] is open on a file of [P], or on a new one. *)
Definition writing (d : Disk) (fd : nat) (d' : Disk) : Prop :=
  spares d d' ∧
  ∀ f, d_fds d' !! fd = Some f → d_objs d !! fd_obj f = None ∨ ∃ p, P p ∧ d_names d !! p = Some (fd_obj f).

Lemma spares_same d d' : d_names d' = d_names d → d_objs d' = d_objs d → spares d d'.
Proof. by intros Hn Ho; split; [intros; rewrite Hn|intros; rewrite Ho]. Qed.
Lemma spares_fields d d' d2 : spares d d' → d_names d2 = d_names d' → d_objs d2 = d_objs d' → spares d d2.
Proof. intros [Hn Ho] E1 E2. split; intros; rewrite ?E1, ?E2; auto. Qed.
Lemma writing_fields d fd d' d2 :
  writing d fd d' → d_names d2 = d_names d' → d_objs d2 = d_objs d' → d_fds d2 = d_fds d' → writing d fd d2.
Proof. intros [Hs Hf] E1 E2 E3. split; [by eapply spares_fields|by rewrite E3]. Qed.
(** A write through the descriptor. *)
Lemma writing_set_data d fd d' f x : writing d fd d' → d_fds d' !! fd = Some f → writing d fd (set_data (fd_obj f) x d').
Proof.
  intros [[Hn Ho] Hf] Hfd. split; [split; [done|]|done]. intros o y Hy Hno. unfold set_data. cbn [d_objs set_d_objs].
  destruct (decide (o = fd_obj f)) as [->|]; [|rewrite lookup_insert_ne by done; by apply Ho].
  destruct (Hf f Hfd) as [HN|(p & Hp & Hpo)]; [congruence|by destruct (Hno p Hp)].
Qed.
Lemma fd_file_some fd d f o : fd_file fd d = Some (f, o) → d_fds d !! fd = Some f.
Proof. unfold fd_file. destruct (d_fds d !! fd) as [f'|]; [cbn|done]. destruct (d_objs d !! fd_obj f'); cbn; congruence. Qed.
Lemma writing_Write d fd p d' : writing d fd d' → writing d fd (file_Write fd p d').2.
Proof.
  intros Hw. unfold file_Write, raw_write. destruct (fd_file fd d') as [[f o]|] eqn:E; [|done].
  pose proof (fd_file_some _ _ _ _ E) as Hf.
  assert (Hgo : ∀ n d1, writing d fd d1 → d_fds d1 !! fd = Some f →
    writing d fd (set_pos fd f (fd_pos f + n) (if (n =? 0)%nat then d1 else set_data (fd_obj f) (splice (fd_pos f) (take n p) (fo_data o)) d1))).
  { intros n d1 Hd1 Hf1. set (d2 := if (n =? 0)%nat then _ else _).
    assert (Hd2 : writing d fd d2) by (subst d2; destruct (n =? 0)%nat; [done|by apply writing_set_data]).
    destruct Hd2 as [Hs Hfd]. split; [exact Hs|]. unfold set_pos. cbn [d_fds set_d_fds]. rewrite lookup_insert_eq.
    intros f' [= <-]. cbn [fd_obj]. apply (proj2 Hd1 f Hf1). }
  destruct (d_faults d') as [|[flt|] fs]; cbn [snd default]; apply Hgo;
    first [done|by eapply writing_fields].
Qed.

(** [os.Create] of a path of [P] gives such a descriptor. *)
Lemma writing_Create path d fd d' : P path → disk_ok d → os_Create path d = (inr fd, d') → writing d fd d'.
Proof.
  intros Hp Hok. unfold os_Create, os_OpenFile. rewrite sys_ok by apply Hok.
  destruct (decide (path ∈ d_dirs d)); [done|]. destruct (d_names d !! path) as [o|] eqn:En.
  - unfold open_obj. set (d1 := set_d_next _ _). intros [= <- <-].
    assert (Hw : writing d (d_next d) d1).
    { split; [by apply spares_same|]. cbn. rewrite lookup_insert_eq. intros f [= <-]. right. by exists path. }
    destruct (fd_file (d_next d) d1) as [[f x]|] eqn:E; [|done]. eapply writing_set_data; [done|by eapply fd_file_some].
  - destruct (decide (path_Dir path ∈ d_dirs d)); [|done]. unfold create_obj, open_obj. cbn [d_next set_d_next].
    assert (Hnew : d_objs d !! d_next d = None).
    { apply eq_None_not_Some. intros Hs. pose proof (do_next _ Hok _ Hs). lia. }
    set (d1 := set_d_next _ _). intros [= <- <-].
    assert (Hw : writing d (S (d_next d)) d1).
    { split; [split|].
      - intros q Hq. cbn. rewrite lookup_insert_ne; [done|]. by intros ->.
      - intros o x Ho _. cbn. rewrite lookup_insert_ne; [done|]. intros <-. congruence.
      - cbn. rewrite lookup_insert_eq. intros f [= <-]. by left. }
    destruct (fd_file _ d1) as [[f x]|] eqn:E; [|done]. eapply writing_set_data; [done|by eapply fd_file_some].
Qed.
Lemma Create_failed path d e d' : os_Create path d = (inl e, d') → spares d d'.
Proof.
  unfold os_Create, os_OpenFile, sys. destruct (d_faults d) as [|[flt|] fs];
    repeat match goal with |- context [decide ?X] => destruct (decide X) | |- context [d_names ?a !! ?b] => destruct (d_names a !! b) end;
    cbn; intros [= <- <-]; by apply spares_same.
Qed.
Lemma spares_Close d fd d' : spares d d' → spares d (file_Close fd d').2.
Proof.
  intros [Hn Ho]. unfold file_Close, with_fd, sys. destruct (fd_file fd d') as [[f0 x0]|]; [|done].
  destruct (d_faults d') as [|[flt|] fs]; [done|done|].
  match goal with |- context [fd_file ?a ?b] => by destruct (fd_file a b) as [[? ?]|] end.
Qed.
Lemma spares_Remove path d d' : P path → spares d d' → spares d (os_Remove path d').2.
Proof.
  intros Hp Hs. assert (Hgo : ∀ d2, d_names d2 = d_names d' → d_objs d2 = d_objs d' → spares d
    (if decide (path ∈ d_dirs d2) then (inl (PathError "remove" path ENOTEMPTY) : error + unit, d2)
     else match d_names d2 !! path with
          | Some _ => (inr tt, set_d_names (delete path (d_names d2)) d2)
          | None => (inl (PathError "remove" path ENOENT), d2) end).2).
  { intros d2 E1 E2. pose proof (spares_fields d d' d2 Hs E1 E2) as Hs2. destruct (decide _); [done|].
    destruct (d_names d2 !! path); [|done]. destruct Hs2 as [Hn Ho]. split; [|done].
    intros q Hq. cbn. rewrite lookup_delete_ne; [by apply Hn|]. by intros ->. }
  unfold os_Remove, sys. destruct (d_faults d') as [|[flt|] fs]; [by apply Hgo|by eapply spares_fields|by apply Hgo].
Qed.
End spares.

(** *** The download command *)

Section download.
Context {W : Type} `{World W} (cli : Client) (ctx : Ctx W) (tp : TokenProvider W).

Lemma output_path_below r dir w p w' :
  dir ≠ "" → output_path cli ctx tp r "" dir w = (inr p, w') → below_dir dir p.
Proof.
  intros Hd. unfold output_path. rewrite decide_False by done. unfold se_bind, during.
  destruct (GetItem cli ctx tp (Some r) w) as [[e|item] w1]; [done|].
  destruct (IsFolder item); [done|]. destruct (decide (item_Name item = "")); [done|].
  destruct (filepath_IsLocal (item_Name item)) eqn:El; [|done]. cbn. intros [= <- <-]. by apply Join_below.
Qed.

(** C20: a download stays in the folder it was given. With --output-dir the file
    is named by the drive: whatever the name is, whatever happens on the way
    (the item is refused, the transfer fails and the file is removed again),
    every name outside that folder leads where it led, and every file without a
    name in the folder keeps its contents. *)
Theorem download_stays_inside id path dir d w res d' w' :
  dir ≠ "" → disk_ok d →
  download cli ctx tp id path "" dir (d, w) = (res, (d', w')) →
  (∀ p, ¬ below_dir dir p → d_names d' !! p = d_names d !! p) ∧
  (∀ o x, d_objs d !! o = Some x → (∀ p, below_dir dir p → d_names d !! p ≠ Some o) → d_objs d' !! o = Some x).
Proof.
  intros Hd Hok E. change (spares (below_dir dir) d d'). revert E. unfold download.
  destruct (validateOutputFlags "" dir); [intros [= _ <- _]; by apply spares_same|].
  unfold se_bind, on_world_dw, lift. destruct (buildResource id path "") as [e|r]; [intros [= _ <- _]; by apply spares_same|].
  destruct (output_path cli ctx tp r "" dir w) as [[e|out] w1] eqn:Eo; [intros [= _ <- _]; by apply spares_same|].
  pose proof (output_path_below r dir w out w1 Hd Eo) as Hb. unfold on_disk_dw.
  destruct (os_Create out d) as [[e|fd] d1] eqn:Ec; [intros [= _ <- _]; by eapply Create_failed|].
  pose proof (writing_Create _ out d fd d1 Hb Hok Ec) as Hw. unfold download_into.
  pose proof (GetItemContentStream_keeps (fileWriter fd) (writing (below_dir dir) d fd) cli ctx tp (Some r) d1 w1
    ltac:(intros; by apply writing_Write) Hw) as Hs.
  destruct (GetItemContentStream cli ctx tp (Some r) (fileWriter fd) d1 w1) as [[[n err] d2] w2].
  cbn [fst snd] in Hs. destruct Hs as [Hs _]. destruct err as [e|].
  - pose proof (spares_Remove _ out d d2 Hb Hs) as Hr. destruct (os_Remove out d2) as [r1 d3].
    pose proof (spares_Close _ d fd d3 Hr) as Hc. destruct (file_Close fd d3) as [r2 d4]. by intros [= _ <- _].
  - pose proof (spares_Close _ d fd d2 Hs) as Hc. destruct (file_Close fd d2) as [r2 d4]. by intros [= _ <- _].
Qed.
End download.

(** A drive that answers with "hello.txt", and one that tries to leave. *)
Definition named_item (name : string) : json := JObj [
  ("id", JStr "01A"); ("name", JStr name); ("size", JNum 5);
  ("file", JObj [("hashes", JObj [("quickXorHash", JStr (SumQuickXORHash hello))])])].
Definition named_net (name : string) : Net := mkNet [json_reply 200 (named_item name); json_reply 200 (named_item name); hello_range] [] [].
Definition home_disk : Disk :=
  mkDisk {[ 0%nat := mkFileObj [115] 0 ]} {[ "/home/ana/.ssh/key" := 0%nat ]} {[ "/home/ana"; "/home/ana/dl" ]} ∅ 1 0 [].
Lemma home_disk_ok : disk_ok home_disk.
Proof.
  split; [done| | | |].
  - intros p o. cbn. intros [<- <-]%lookup_singleton_Some. by eexists.
  - intros fd f Hf. cbn in Hf. by rewrite lookup_empty in Hf.
  - intros o [x Ho]. cbn in *. apply lookup_singleton_Some in Ho as [<- _]. lia.
  - intros fd [x Hf]. cbn in Hf. by rewrite lookup_empty in Hf.
Qed.
Lemma download_stays_inside_witness :
  d_names (download net_client Background net_token "01A" "" "" "/home/ana/dl" (home_disk, named_net "hello.txt")).2.1
    !! "/home/ana/.ssh/key" = Some 0%nat.
Proof.
  destruct (download net_client Background net_token "01A" "" "" "/home/ana/dl" (home_disk, named_net "hello.txt"))
    as [res [d' w']] eqn:E.
  destruct (download_stays_inside net_client Background net_token "01A" "" "/home/ana/dl" home_disk
    (named_net "hello.txt") res d' w') as [Hn _].
  - discriminate.
  - exact home_disk_ok.
  - exact E.
  - cbn [snd fst]. rewrite Hn; [reflexivity|]. intros (rest & Hp & Heq).
    apply (f_equal chars) in Heq. unfold of_components in Heq. change (rooted "/home/ana/dl") with true in Heq.
    cbv iota beta in Heq. rewrite chars_of_chars in Heq. change (components "/home/ana/dl") with (chars <$> ["home"; "ana"; "dl"]) in Heq.
    apply (f_equal (λ l, nth 10 l "000"%char)) in Heq. destruct rest; vm_compute in Heq; discriminate.
Defined.
(** The file arrives in the folder; a name that leads out is refused before any
    file is created. *)
Example download_arrives :
  let r := download net_client Background net_token "01A" "" "" "/home/ana/dl" (home_disk, named_net "hello.txt") in
  r.1 = inr 5 ∧ (fo_data <$> (d_names r.2.1 !! "/home/ana/dl/hello.txt" ≫= λ o, d_objs r.2.1 !! o)) = Some hello.
Proof. by vm_compute. Qed.
Example download_escape_refused :
  let r := download net_client Background net_token "01A" "" "" "/home/ana/dl" (home_disk, named_net "../.ssh/key") in
  r.1 = inl (EMsg ("unsafe remote filename, download aborted: " +:+ Quote "../.ssh/key")) ∧ d_names r.2.1 = d_names home_disk.
Proof. by vm_compute. Qed.
(** With --output the file named is emptied first, and removed when the transfer
    fails: what was there before is lost. *)
Example failed_download_removes_the_file :
  let r := download net_client Background net_token "01A" "" "/home/ana/.ssh/key" ""
             (home_disk, mkNet [json_reply 404 (JObj [])] [] []) in
  (match r.1 with inl _ => true | inr _ => false end) = true ∧ d_names r.2.1 = ∅.
Proof. by vm_compute. Qed.

(** ** Synchronising beside a running mount *)

Section beside.
Context {D W S : Type} `{Bolt D} `{GraphAPI W} `{Clock W} `{TimeText} `{JsonLen} `{HumanizeBytes} `{GoRuntime}.

(** C37: a synchronisation leaves a running mount alone. While a mount of the
    account answers on the control socket of its cache directory, the probe
    finds its mount point, and when the socket says nothing but the lock of the
    database is held it still finds that there is a holder; in both cases the
    command ends with an error before it creates a folder, opens the database
    or polls the drive: the disk and the world are as before. *)
Theorem sync_spares_running_mount pid now (config : MountConfig) account mountpoint ver (socks s : Sockets) n
    (cacheInUse : error + bool) (svcRunning : S → option string * S) (h : S) fuel ctx (opened : (error * bool) + D) (dw : Disk * W) :
  let socket := filepath_Join (CacheDir config) "control.sock" in
  let info := provider_Info (mkProvider account mountpoint config) in
  NewServer pid now socket (Some info) ver socks = (inr (Some n), s) → so_faults s = [] → mountpoint ≠ "" →
  info_ok (stamp (mkServer socket info now ver pid true) info) →
  (let found := (detectActiveMountWith account (Client_Info socket s).1 cacheInUse svcRunning h).1 in
   found = Some mountpoint ∧ ∃ e, sync fuel ctx config found opened dw = Some (inl e, None, dw)) ∧
  (∀ e, let found := (detectActiveMountWith account (inl e) (inr true) svcRunning h).1 in
   is_Some found ∧ ∃ e, sync fuel ctx config found opened dw = Some (inl e, None, dw)).
Proof.
  intros socket info Hnew Hf Hmp Hok. destruct (NewServer_state _ _ _ _ _ _ _ _ Hnew) as [Hl Hs]. split.
  - rewrite (Client_Info_open socket s n _ Hf Hl Hs eq_refl Hok). unfold detectActiveMountWith.
    cbn [stamp sv_provider in_Account in_Mount info provider_Info ai_Name mi_State mi_Mountpoint pr_accountName pr_mountpoint].
    rewrite !bool_decide_true, bool_decide_false by done. cbn. eauto.
  - intros e. unfold detectActiveMountWith. destruct (svcRunning h) as [mp h']. cbn. eauto.
Qed.
End beside.

Definition ana_config : MountConfig := DefaultMountConfig "/home/ana" "ana@example.com" None.
Lemma sync_spares_running_mount_witness :
  ∃ e, sync (D := MapDB) (W := Cloud) 1 Background ana_config (Some "/home/ana/OneDrive") (inr (mkMapDB ∅ ∅)) (home_disk, example_cloud)
       = Some (inl e, None, (home_disk, example_cloud)).
Proof.
  destruct (sync_spares_running_mount (D := MapDB) (W := Cloud) (S := Recorder) 1234 (1788602400 * Second) ana_config "ana@example.com"
    "/home/ana/OneDrive" "v0.1.5" no_sockets mounted_once 0 (inr false) (λ h, (None, h)) (mkRecorder "" []) 1 Background
    (inr (mkMapDB ∅ ∅)) (home_disk, example_cloud)) as [Hs _].
  - vm_compute. reflexivity.
  - reflexivity.
  - discriminate.
  - apply (bool_decide_unpack _). vm_compute. exact I.
  - cbv zeta in Hs. destruct Hs as [Hf [e He]]. exists e. rewrite <-Hf. exact He.
Defined.

(** Synchronising has no upload manager to ask about pending uploads: with the
    session of a file still in the database, its cached version becomes that of
    the remote edit. The upload that is restored by the next mount then takes the
    remote edit for the version it started from and replaces it, where a running
    mount would have kept both. *)
Definition remote_edit : DeltaItem :=
  mkDelta (mkDriveItem "f1" "a.txt" 9 (Some 1800000000000000000) (Some (mkDriveItemParent "" "root" "" ""))
    None (Some zero_File) None "" "7" None) None.
Example sync_hides_conflict :
  contents_after (executeUpload 0%N) (applyDelta remote_edit (busy_delta, busy_sys)).2.2 = Some [[1; 2; 3]; [9]] ∧
  contents_after (executeUpload 0%N) (applyDelta remote_edit (NewDeltaSync, busy_sys)).2.2 = Some [[1; 2; 3]].
Proof. by vm_compute. Qed.

(** ** Documents and exit status *)

Section exit.
Context (UserHomeDir : error + string) (XDG_CONFIG_HOME argv0 : string).
Context {S : Type} `{Host S} `{MapRange}.
Abbreviation HS := (Disk * S)%type.

(** The documents written before the last one are of actions that succeeded; the
    last one is of the action that failed, unless it was refused before. *)
Definition succeeded_doc (d : ActionResult) : Prop := ar_OK d = true ∧ ar_Error d = "".
Definition reports (r : (list ActionResult * option error) * HS) : Prop :=
  match r.1.2 with
  | None => Forall succeeded_doc r.1.1
  | Some _ => ∃ before, Forall succeeded_doc before ∧
                (r.1.1 = before ∨ ∃ d, r.1.1 = before ++ [d] ∧ agrees ((d, r.1.2), r.2))
  end.

Lemma reports_refuse e s : reports (@refuse S e s).
Proof. exists []. split; [constructor|by left]. Qed.
Lemma reports_document (act : @Action S) s : agrees (act s) → reports (document act s).
Proof.
  unfold document, reports. destruct (act s) as [[r [e|]] s']; intros Ha.
  - exists []. split; [constructor|]. right. by exists r.
  - repeat constructor; apply Ha.
Qed.

(** A failure of one account, in the document of all of them. *)
Lemma agrees_relay res err (s s' : HS) r : agrees ((res, Some err), s) → ar_OK r = false → agrees ((set_Error (ar_Error res) r, Some err), s').
Proof. intros [_ Hc] Hr. split; [exact Hr|exact Hc]. Qed.
Lemma agrees_cause err r (s : HS) : ar_OK r = false → agrees ((set_Error (Error err) r, Some err), s).
Proof. intros Hr. split; [exact Hr|]. exists err. by split; [|left]. Qed.
Lemma agrees_install_one mountpoint enable acc s :
  agrees (install_one UserHomeDir XDG_CONFIG_HOME argv0 mountpoint enable acc s).
Proof.
  unfold install_one. destruct (resolveInstallMountpoint _ _ _) as [mp warn].
  pose proof (agrees_install UserHomeDir XDG_CONFIG_HOME argv0 mp (acc_Name acc) s) as Ha.
  destruct (InstallServiceResult _ _ _ mp (acc_Name acc) s) as [[r [e|]] s1]; [exact Ha|].
  destruct enable; cbn [negb]; [|exact Ha].
  destruct (EnableUnit (acc_Name acc) s1) as [[e|] s2]; [by apply agrees_cause|exact Ha].
Qed.
(** The accounts of the document are those that were done; all of them, exactly
    when no error is returned. *)
Definition affects (accounts before : list string) (r : (ActionResult * option error) * HS) : Prop :=
  ∃ l1 l2, accounts = l1 ++ l2 ∧ ar_AffectedAccounts r.1.1 = before ++ l1 ∧ (r.1.2 = None ↔ l2 = []).
Lemma affects_next account accounts before r : affects accounts (before ++ [account]) r → affects (account :: accounts) before r.
Proof. intros (l1 & l2 & -> & Ha & Hl). exists (account :: l1), l2. by rewrite Ha, <-(assoc_L (++)). Qed.
Lemma affects_failed account accounts before res e s :
  ar_AffectedAccounts res = before → affects (account :: accounts) before ((res, Some e), s).
Proof. intros Ha. exists [], (account :: accounts). split_and!; [done|by rewrite app_nil_r|done]. Qed.

Lemma install_accounts_report m mountpoint enable accounts affected warnings file s :
  let r := install_accounts UserHomeDir XDG_CONFIG_HOME argv0 m mountpoint enable accounts affected warnings file s in
  agrees r ∧ affects accounts affected r.
Proof.
  cbv zeta. revert affected warnings file s. induction accounts as [|a accounts IH]; intros affected warnings file s; cbn [install_accounts].
  { split; [done|]. exists [], []. split_and!; [done|by rewrite app_nil_r|done]. }
  destruct (GetAccount a m) as [e|acc]; [split; [by apply agrees_cause|by apply affects_failed]|].
  destruct (resolveInstallMountpoint _ _ _) as [mp warn].
  pose proof (agrees_install UserHomeDir XDG_CONFIG_HOME argv0 mp a s) as Ha.
  destruct (InstallServiceResult _ _ _ mp a s) as [[res [e|]] s1]; [split; [by eapply agrees_relay|by apply affects_failed]|].
  destruct (if enable then EnableUnit a s1 else (None, s1)) as [[e|] s2]; [split; [by apply agrees_cause|by apply affects_failed]|].
  match goal with |- agrees ?r ∧ _ => destruct (IH (affected ++ [a]) _ _ _ : agrees r ∧ _) as [H1 H2] end.
  split; [exact H1|by apply affects_next].
Qed.
Lemma stop_accounts_report accounts affected warnings s :
  let r := stop_accounts UserHomeDir accounts affected warnings s in agrees r ∧ affects accounts affected r.
Proof.
  cbv zeta. revert affected warnings s. induction accounts as [|a accounts IH]; intros affected warnings s; cbn [stop_accounts].
  { split; [done|]. exists [], []. split_and!; [done|by rewrite app_nil_r|done]. }
  pose proof (agrees_stop UserHomeDir a s) as Ha.
  destruct (StopServiceResult UserHomeDir a s) as [[res [e|]] s1]; [split; [by eapply agrees_relay|by apply affects_failed]|].
  match goal with |- agrees ?r ∧ _ => destruct (IH (affected ++ [a]) _ _ : agrees r ∧ _) as [H1 H2] end.
  split; [exact H1|by apply affects_next].
Qed.

Lemma operation_reports act m account s : (∀ s, agrees (act account s)) → reports (@serviceOperationAccount S act m account s).
Proof. intros Ha. unfold serviceOperationAccount. destruct (GetAccount account m); [apply reports_refuse|by apply reports_document]. Qed.
Lemma operation_all_reports act m accounts s :
  (∀ a s, agrees (act a s)) → reports (@serviceOperation_all S act m accounts s).
Proof.
  intros Ha. revert s. induction accounts as [|a accounts IH]; intros s; cbn [serviceOperation_all]; [by constructor|].
  pose proof (operation_reports act m a s (Ha a)) as H1.
  destruct (serviceOperationAccount act m a s) as [[docs [e|]] s1]; [exact H1|].
  pose proof (IH s1) as H2. destruct (serviceOperation_all act m accounts s1) as [[rest [e|]] s2]; unfold reports in *; cbn [fst snd] in *.
  - destruct H2 as (before & Hb & Hr). exists (docs ++ before).
    split; [by apply Forall_app|].
    destruct Hr as [->|(d & -> & Hd)]; [by left|right]. exists d. by rewrite <-(assoc_L (++)).
  - by apply Forall_app.
Qed.
Lemma operation_func_reports act output all args m s :
  (∀ a s, agrees (act a s)) → reports (@serviceOperationFunc S _ act output all args m s).
Proof.
  intros Ha. unfold serviceOperationFunc. destruct (validateOutputFormat output); [apply reports_refuse|].
  destruct all, args as [|a args]; try apply reports_refuse; [|by apply operation_reports].
  destruct (ListAccounts m) as [|a l]; [apply reports_refuse|by apply operation_all_reports].
Qed.

(** C36: the exit status of a service command and the documents it writes agree.
    Without an error every document says OK; with one, the documents before the
    last say OK, and the last, if the command got that far, says it failed and
    shows the cause of the error. For install and stop of all accounts the one
    document names the accounts that were done, in order: all of them exactly
    when there is no error. An installation whose binary cannot be resolved has
    touched neither the disk nor systemd. *)
Theorem service_exit_agrees output mountpoint flag enable all args m s :
  reports (service_install UserHomeDir XDG_CONFIG_HOME argv0 output mountpoint flag enable all m s) ∧
  reports (service_uninstall UserHomeDir XDG_CONFIG_HOME output all m s) ∧
  reports (serviceOperationFunc StartServiceResult output all args m s) ∧
  reports (serviceOperationFunc RestartServiceResult output all args m s) ∧
  reports (service_stop UserHomeDir output all args m s) ∧
  affects (sorted_accounts m) [] (install_accounts UserHomeDir XDG_CONFIG_HOME argv0 m mountpoint enable (sorted_accounts m) [] [] "" s) ∧
  affects (sorted_accounts m) [] (stop_accounts UserHomeDir (sorted_accounts m) [] [] s) ∧
  (∀ account e, resolveBinary argv0 s.2 = inl e →
     ∃ r e', InstallServiceResult UserHomeDir XDG_CONFIG_HOME argv0 mountpoint account s = ((r, Some e'), s)).
Proof.
  split_and!.
  - unfold service_install, installAllStructured. destruct (validateOutputFormat output); [apply reports_refuse|]. destruct all.
    + destruct (sorted_accounts m); [apply reports_refuse|]. apply reports_document, install_accounts_report.
    + destruct (resolveAccount flag m); [apply reports_refuse|]. apply reports_document, agrees_install_one.
  - unfold service_uninstall. destruct (validateOutputFormat output); [apply reports_refuse|]. destruct all; cbn [negb].
    + destruct (sorted_accounts m); [apply reports_refuse|]. apply reports_document, agrees_uninstall.
    + apply reports_document, agrees_uninstall.
  - apply operation_func_reports. intros. by apply agrees_unit.
  - apply operation_func_reports. intros. by apply agrees_unit.
  - unfold service_stop. destruct (validateOutputFormat output); [apply reports_refuse|]. destruct all.
    + destruct (sorted_accounts m); [apply reports_refuse|]. apply reports_document, stop_accounts_report.
    + destruct args; [apply reports_refuse|]. apply reports_document, agrees_stop.
  - apply install_accounts_report.
  - apply stop_accounts_report.
  - intros account e. apply install_unresolved.
Qed.
End exit.
