(* ===== verification/ServiceText.v ===== *)
(** The service commands in their text form (cmd/onecloudriver/service.go,
    internal/service/systemd.go and status.go): they go through variants of their
    own of the actions of [Service], which print as they go. The error a command
    returns and the warnings on the error output are modelled, and what the
    status shows; progress lines are not. *)

From S2P Require Export Commands.

#[local] Open Scope Z_scope.

(** ** internal/printer/printer.go *)

Definition symbolFor (tty : bool) (emoji ascii : string) : string := if tty then emoji else ascii.
Definition symbol_Success (tty : bool) : string := symbolFor tty "✅" "OK".
Definition symbol_Warning (tty : bool) : string := symbolFor tty "⚠️" "WARN".
Definition symbol_Error (tty : bool) : string := symbolFor tty "❌" "ERR".

Section text.
Context (UserHomeDir : error + string) (XDG_CONFIG_HOME argv0 : string).
Context {S : Type} `{Host S} `{MapRange}.
Abbreviation HS := (Disk * S)%type.

(** ** internal/service/systemd.go *)

(** A failure that is printed as a warning and does not end the action. *)
Definition warnf (message : error → string) (ws : list string) (r : option error * HS) : list string * HS :=
  (match r.1 with Some err => ws ++ [message err] | None => ws end, r.2).

Definition InstallService (mountpoint account : string) (s : HS) : option error * HS :=
  match ServiceFilePath UserHomeDir XDG_CONFIG_HOME with
  | inl err => (Some err, s)
  | inr path =>
      match resolveBinary argv0 s.2 with
      | inl err => (Some err, s)
      | inr binary =>
          match on_files (GoOS.os_MkdirAll (path_Dir path)) s with
          | (inl err, s) => (Some (EWrap "error creating systemd directory: " err ""), s)
          | (inr _, s) =>
              match on_files (GoOS.os_WriteFile path (string_bytes (ServiceUnit mountpoint binary))) s with
              | (inl err, s) => (Some (EWrap "error writing service file: " err ""), s)
              | (inr _, s) =>
                  match ensureMountpointDir UserHomeDir mountpoint account s with
                  | (inl err, s) => (Some err, s)
                  | (inr _, s) =>
                      match run_quiet "systemctl" ["--user"; "daemon-reload"] s with
                      | (Some err, s) => (Some (EWrap "error reloading systemd daemon: " err ""), s)
                      | (None, s) => (None, s)
                      end
                  end
              end
          end
      end
  end.

(** [UninstallService]: an account given, and a line of the unit list, of which
    the first column is stopped whatever it is ([Fields_nonblank]: a line that
    is not blank has one). *)
Definition uninstall_account (acc : list string * HS) (account : string) : list string * HS :=
  let '(ws, s) := acc in
  let '(ws, s) := warnf (λ err, "could not unmount the mountpoint of " +:+ account +:+ ": " +:+ Error err) ws
                    (UnmountMountpoint UserHomeDir account s) in
  let '(ws, s) := warnf Error ws (runSystemctl "stop" (unitName account) s) in
  warnf Error ws (runSystemctl "disable" (unitName account) s).
Definition uninstall_line (acc : list string * HS) (line : string) : list string * HS :=
  let '(ws, s) := acc in
  let line := TrimSpace line in
  if decide (line = "") then acc else
  match Fields line with
  | [] => acc
  | unit :: _ =>
      let '(ws, s) := warnf (λ err, "could not stop " +:+ unit +:+ ": " +:+ Error err) ws
                        (run_quiet "systemctl" ["--user"; "stop"; unit] s) in
      warnf (λ err, "could not disable " +:+ unit +:+ ": " +:+ Error err) ws
        (run_quiet "systemctl" ["--user"; "disable"; unit] s)
  end.
Definition uninstall_instances (accounts : list string) (s : HS) : list string * HS :=
  match accounts with
  | _ :: _ => foldl uninstall_account ([], s) accounts
  | [] =>
      let '(output, _, err, s) := command "systemctl" ["--user"; "list-units"; "--plain"; "--no-legend"; "onecloudriver@*"] s in
      foldl uninstall_line
        (warnf (λ err, "could not list the running instances (they were not stopped): " +:+ Error err) [] (err, s))
        (Split output newline)
  end.
Definition UninstallService (accounts : list string) (s : HS) : (list string * option error) * HS :=
  match ServiceFilePath UserHomeDir XDG_CONFIG_HOME with
  | inl err => (([], Some err), s)
  | inr path =>
      let '(ws, s) := uninstall_instances accounts s in
      match on_files (GoOS.os_Stat path) s with
      | (inl _, s) => ((ws, None), s)
      | (inr _, s) =>
          match on_files (GoOS.os_Remove path) s with
          | (inl err, s) => ((ws, Some (EWrap "error removing service file: " err "")), s)
          | (inr _, s) =>
              match run_quiet "systemctl" ["--user"; "daemon-reload"] s with
              | (Some err, s) => ((ws, Some (EWrap "error reloading systemd daemon: " err "")), s)
              | (None, s) => ((ws, None), s)
              end
          end
      end
  end.

(** ** internal/service/status.go *)

(** [printUnitStatus]. *)
Definition printUnitStatus (tty : bool) (status : UnitStatus) : string :=
  let symbol := if decide (st_State status = "failed") then symbol_Error tty
                else if decide (st_State status = "running") then symbol_Success tty else symbol_Warning tty in
  symbol +:+ " State:    " +:+ st_State status +:+ " (" +:+ st_ActiveState status +:+ ")" +:+ nl +:+
  "  Account:   " +:+ st_Account status +:+ nl +:+
  "  Unit:      " +:+ st_Unit status +:+ nl +:+
  "  SubState:  " +:+ st_SubState status +:+ nl +:+
  "  PID:      " +:+ (if st_PID status =? 0 then "-" else pretty (st_PID status)) +:+ nl +:+
  "  Mount:    " +:+ (if decide (st_Mountpoint status = "") then "-" else st_Mountpoint status) +:+ nl +:+
  match st_JournalTail status with
  | [] => ""
  | lines => nl +:+ "Last 10 journal lines:" +:+ nl +:+ foldr (λ line text, line +:+ nl +:+ text) "" lines
  end.

Definition on_host {A} (m : SE S error A) : SE HS error A := λ '(d, s), let '(r, s) := m s in (r, (d, s)).

(** [Status]: what it prints, and its warnings. *)
Definition Status (tty : bool) (args : list string) : SE HS error (string * list string) := λ s,
  match args with
  | account :: _ =>
      match on_host (queryUnitStatus UserHomeDir account) s with
      | (inl err, s) => (inl err, s)
      | (inr (status, journalErr), s) =>
          (inr (printUnitStatus tty status,
                match journalErr with Some err => ["Could not read the service journal: " +:+ Error err] | None => [] end), s)
      end
  | [] =>
      let '(output, _, err, s) := command "systemctl" ["--user"; "list-units"; "--plain"; "--no-legend"; "onecloudriver@*"] s in
      let path := match ServiceFilePath UserHomeDir XDG_CONFIG_HOME with inr path => path | inl _ => "" end in
      let '(installed, s) := on_files (GoOS.os_Stat path) s in
      (inr ("Active onecloudriver instances:" +:+ nl +:+ output +:+ match err with Some _ => "  (none)" +:+ nl | None => "" end +:+
            nl +:+ match installed with
                   | inr _ => symbol_Success tty +:+ " Service installed at: " +:+ path
                   | inl _ => symbol_Warning tty +:+ " Service not installed. Use 'onecloudriver service install' to install it."
                   end +:+ nl, []), s)
  end.

(** ** cmd/onecloudriver/service.go *)

(** [install]. *)
Fixpoint installAllText (m : Manager) (mountpoint : string) (enable : bool) (accounts : list string) (s : HS) : option error * HS :=
  match accounts with
  | [] => (None, s)
  | account :: accounts =>
      match GetAccount account m with
      | inl err => (Some err, s)
      | inr acc =>
          let '(mp, _) := resolveInstallMountpoint UserHomeDir mountpoint (pc_DefaultMountpoint (acc_Mount acc)) in
          match InstallService mp account s with
          | (Some err, s) => (Some err, s)
          | (None, s) =>
              match (if enable then EnableUnit account s else (None, s)) with
              | (Some err, s) => (Some err, s)
              | (None, s) => installAllText m mountpoint enable accounts s
              end
          end
      end
  end.
Definition install_text (mountpoint accountFlag : string) (enable all : bool) (m : Manager) (s : HS) : option error * HS :=
  if all then
    match ListAccounts m with
    | [] => (Some (EMsg "no accounts configured. Use 'onecloudriver account add' to add one"), s)
    | accounts => installAllText m mountpoint enable accounts s
    end
  else
    match resolveAccount accountFlag m with
    | inl err => (Some err, s)
    | inr acc =>
        let '(mp, _) := resolveInstallMountpoint UserHomeDir mountpoint (pc_DefaultMountpoint (acc_Mount acc)) in
        match InstallService mp (acc_Name acc) s with
        | (Some err, s) => (Some err, s)
        | (None, s) => if enable then EnableUnit (acc_Name acc) s else (None, s)
        end
    end.

(** [uninstall]: without accounts, --all says so and succeeds. *)
Definition uninstall_text (all : bool) (m : Manager) (s : HS) : (list string * option error) * HS :=
  if negb all then UninstallService [] s else
  match ListAccounts m with
  | [] => (([], None), s)
  | accounts => UninstallService accounts s
  end.

(** [stop]: the accounts that could not be stopped do not keep the others from
    it. *)
Fixpoint stop_all_text (accounts failed ws : list string) (s : HS) : (list string * option error) * HS :=
  match accounts with
  | [] => ((ws, match failed with [] => None | _ => Some (EMsg ("could not stop the service for: " +:+ JoinText failed ", ")) end), s)
  | account :: accounts =>
      let '(ws, s) := warnf Error ws (UnmountMountpoint UserHomeDir account s) in
      match runSystemctl "stop" (unitName account) s with
      | (Some err, s) => stop_all_text accounts (failed ++ [account]) (ws ++ [Error err]) s
      | (None, s) => stop_all_text accounts failed ws s
      end
  end.
Definition stop_text (all : bool) (args : list string) (m : Manager) (s : HS) : (list string * option error) * HS :=
  if all then
    match ListAccounts m with
    | [] => (([], Some (EMsg "no accounts configured")), s)
    | accounts => stop_all_text accounts [] [] s
    end
  else match args with
       | [] => (([], Some (EMsg "specify an account or use --all to stop all")), s)
       | account :: _ =>
           let '(ws, s) := warnf Error [] (UnmountMountpoint UserHomeDir account s) in
           let '(err, s) := runSystemctl "stop" (unitName account) s in ((ws, err), s)
       end.

(** [list] in both forms, and [status] in the structured one: one status, or the
    instances. *)
Definition service_list (output : string) : SE HS error (list InstanceInfo) := λ s,
  match validateOutputFormat output with
  | Some err => (inl err, s)
  | None => on_host (listInstances UserHomeDir) s
  end.
Definition service_status (output : string) (args : list string) : SE HS error (UnitStatus + list InstanceInfo) := λ s,
  match validateOutputFormat output with
  | Some err => (inl err, s)
  | None =>
      match args with
      | account :: _ =>
          match on_host (queryUnitStatus UserHomeDir account) s with
          | (inl err, s) => (inl err, s)
          | (inr (status, _), s) => (inr (inl status), s)
          end
      | [] =>
          match on_host (listInstances UserHomeDir) s with
          | (inl err, s) => (inl err, s)
          | (inr instances, s) => (inr (inr instances), s)
          end
      end
  end.
End text.
