(* ===== verification/ServiceTextTheorems.v ===== *)
(** The text form of the service commands against the structured one: they do
    the same to the disk and to systemd and return the same error, warnings and
    documents apart, whenever the structured form does not stop short. *)

From S2P Require Export ServiceText ServiceTheorems CommandTheorems.

#[local] Open Scope Z_scope.

(** ** The order of the names *)

Lemma leb_lt a b s t : String.leb (String a s) (String b t) = true ↔
  (N_of_ascii a < N_of_ascii b)%N ∨ a = b ∧ String.leb s t = true.
Proof.
  unfold String.leb. cbn [String.compare]. unfold Ascii.compare.
  destruct (N.compare_spec (N_of_ascii a) (N_of_ascii b)) as [E|E|E].
  - apply (f_equal ascii_of_N) in E. rewrite !ascii_N_embedding in E. subst b. split; [by right|].
    intros [HA|[_ HA]]; [lia|done].
  - split; [by left|done].
  - split; [done|]. intros [HA|[-> _]]; lia.
Qed.
#[export] Instance string_le_trans : Transitive string_le.
Proof.
  unfold string_le. intros s. induction s as [|a s IH]; intros t u; [by destruct u|].
  destruct t as [|b t]; [done|]. destruct u as [|c u]; [by destruct t|]. rewrite !leb_lt.
  intros [HA|[-> HA]] [HB|[-> HB]]; [left; lia|by left|by left|right; eauto].
Qed.
#[export] Instance string_le_anti : AntiSymm (=) string_le.
Proof. intros s t. apply String.leb_antisym. Qed.
#[export] Instance string_le_total : Total string_le.
Proof. intros s t. apply String.leb_total. Qed.

Lemma sort_sorted l l' : StronglySorted string_le l → l' ≡ₚ l → merge_sort string_le l' = l.
Proof.
  intros Hl Hp. apply (StronglySorted_unique string_le); [apply StronglySorted_merge_sort; apply _|exact Hl|].
  by rewrite merge_sort_Permutation.
Qed.
(** The names of a set that was filled from a sorted list without duplicates. *)
Lemma sort_of_set (l : list string) : StronglySorted string_le l → NoDup l → merge_sort string_le (elements (list_to_set (C := gset string) l)) = l.
Proof. intros Hl Hn. apply sort_sorted; [exact Hl|]. by apply elements_list_to_set. Qed.

(** ** The unit list *)

(** The first column of a line, and of the lines of the list. *)
Definition first_column (line : string) : option string := head (Fields (TrimSpace line)).
Definition listed (output : string) : list string := omap first_column (Split output newline).

(** A list as systemctl prints it: no carriage return, no line too long for a
    scanner, distinct units of the template in the order of their names. *)
Definition unit_listing (output : string) : Prop :=
  ("013"%char ∉ chars output) ∧ Forall (λ l, (length l < max_token)%nat) ((split_chars newline (chars output))) ∧
  StronglySorted string_le (listed output) ∧ NoDup (listed output) ∧
  Forall (λ u, is_Some (accountFromUnit u)) (listed output).

Lemma drop_cr_none l : "013"%char ∉ l → drop_cr l = l.
Proof.
  intros Hl. unfold drop_cr. rewrite <-elem_of_reverse in Hl. destruct (reverse l) as [|a r]; [done|].
  apply not_elem_of_cons in Hl as [Ha _]. destruct a as [[] [] [] [] [] [] [] []]; try done.
Qed.
Lemma scan_columns ls :
  Forall (λ l, "013"%char ∉ l) ls → Forall (λ l, (length l < max_token)%nat) ls →
  ∃ lines, scan_lines ls = (lines, None) ∧ omap first_column lines = omap first_column (of_chars <$> ls).
Proof.
  induction ls as [|l ls IH]; intros Hc Hs; [by exists []|].
  apply Forall_cons in Hc as [Hl Hc]. apply Forall_cons in Hs as [Hn Hs]. destruct (IH Hc Hs) as (lines & E & Eo).
  assert (Hstep : scan_lines (l :: ls) = (of_chars l :: lines, None) ∨ l = [] ∧ ls = []).
  { destruct l as [|a l]; [destruct ls as [|l' ls]; [by right|]|]; left.
    - change (scan_lines ([] :: l' :: ls)) with
        (if (max_token <=? 0)%nat then ([], Some ErrTooLong) else
         let '(rest, err) := scan_lines (l' :: ls) in (of_chars (drop_cr []) :: rest, err)).
      rewrite E. done.
    - change (scan_lines ((a :: l) :: ls)) with
        (if (max_token <=? length (a :: l))%nat then ([], Some ErrTooLong) else
         let '(rest, err) := scan_lines ls in (of_chars (drop_cr (a :: l)) :: rest, err)).
      rewrite (proj2 (Nat.leb_gt _ _)) by done. by rewrite E, drop_cr_none. }
  destruct Hstep as [->|[-> ->]]; [|by exists []]. exists (of_chars l :: lines). split; [done|].
  rewrite fmap_cons. cbn [omap list_omap]. by rewrite Eo.
Qed.

Lemma unit_of_column line seen :
  match first_column line with
  | None => unit_of_line line seen = inr seen
  | Some u => is_Some (accountFromUnit u) → unit_of_line line seen = inr ({[ u ]} ∪ seen)
  end.
Proof.
  unfold first_column, unit_of_line. destruct (Fields (TrimSpace line)) as [|u rest]; [done|]. cbn [head].
  intros [a Ha]. rewrite Ha. unfold accountFromUnit in Ha. destruct (isOnecloudriverUnit u); [|done]. cbn [negb] in *.
  destruct (decide (u = serviceUnitPrefix +:+ serviceUnitSuffix)) as [->|_]; [by vm_compute in Ha|done].
Qed.
Lemma units_of_columns lines seen :
  Forall (λ u, is_Some (accountFromUnit u)) (omap first_column lines) →
  units_of_lines lines seen = inr (list_to_set (omap first_column lines) ∪ seen).
Proof.
  revert seen. induction lines as [|line lines IH]; intros seen Hf.
  { cbn. by rewrite (left_id_L ∅ (∪)). }
  pose proof (unit_of_column line seen) as Hu. cbn [omap list_omap] in *.
  destruct (first_column line) as [u|] eqn:E; cbn [units_of_lines].
  - apply Forall_cons in Hf as [Hu1 Hf]. rewrite (Hu Hu1), IH by exact Hf. f_equal. set_solver.
  - rewrite Hu. by apply IH.
Qed.
(** The list is read as it is. *)
Lemma parse_listing output : unit_listing output → parseInstalledUnits output = inr (listed output).
Proof.
  intros (Hcr & Hs & Hsort & Hn & Hf). unfold parseInstalledUnits, Scan.
  destruct (scan_columns (split_chars newline (chars output))) as (lines & E & Eo); [|exact Hs|].
  - rewrite Forall_forall. intros l Hl Hin. apply Hcr. rewrite <-(join_split_chars newline (chars output)).
    clear - Hl Hin. induction (split_chars newline (chars output)) as [|w ws IH]; [by apply elem_of_nil in Hl|].
    destruct ws as [|w' ws]; [by apply list_elem_of_singleton in Hl as ->|].
    change (join_chars newline (w :: w' :: ws)) with (w ++ newline :: join_chars newline (w' :: ws)).
    apply elem_of_cons in Hl as [->|Hl]; apply elem_of_app; [by left|right; right; by apply IH].
  - fold (Split output newline) in Eo. fold (listed output) in Eo.
    rewrite E, units_of_columns, Eo, (right_id_L ∅ (∪)) by (by rewrite Eo). by rewrite sort_of_set.
Qed.

(** A line that is not blank has a first column: the code takes it unchecked. *)
Section columns.
Context (runes : list (list Z)) (Hrunes : [] ∉ runes).

Lemma strip_rune_None l : strip_rune runes l = None ↔ ∀ r, r ∈ runes → take (length r) l ≠ r.
Proof.
  unfold strip_rune. clear Hrunes. induction runes as [|r rs IH]; [split; [by intros _ r ?%elem_of_nil|done]|].
  cbn [omap list_omap]. destruct (decide (take (length r) l = r)) as [E|E]; cbn [head].
  - split; [done|]. intros HA. by destruct (HA r); [left|].
  - etrans; [exact IH|]. split.
    + by intros HA r' [->|Hr]%elem_of_cons; [|apply HA].
    + intros HA r' Hr. apply HA. by right.
Qed.
Lemma strip_rune_shorter l l' : strip_rune runes l = Some l' → (length l' < length l)%nat ∧ ∃ n, l' = drop n l.
Proof.
  unfold strip_rune. revert Hrunes. induction runes as [|r rs IH]; intros Hr; [done|].
  apply not_elem_of_cons in Hr as [Hr1 Hr]. cbn [omap list_omap].
  destruct (decide (take (length r) l = r)) as [E|E]; cbn [head]; [|by apply IH].
  intros [= <-]. apply (f_equal length) in E. rewrite length_take in E. destruct r; [done|]. cbn [length] in *.
  split; [rewrite length_drop; lia|eauto].
Qed.
Lemma trim_runes_stops fuel l : (length l ≤ fuel)%nat → strip_rune runes (trim_runes fuel runes l) = None.
Proof.
  revert l. induction fuel as [|fuel IH]; intros l Hl; cbn [trim_runes].
  - destruct l; [|cbn in Hl; lia]. apply strip_rune_None. intros [|z r] Hr; [done|]. done.
  - destruct (strip_rune runes l) as [l'|] eqn:E; [|exact E]. apply IH. apply strip_rune_shorter in E as [? _]. lia.
Qed.
Lemma trim_runes_suffix fuel l : ∃ n, trim_runes fuel runes l = drop n l.
Proof.
  revert l. induction fuel as [|fuel IH]; intros l; cbn [trim_runes]; [by exists 0%nat|].
  destruct (strip_rune runes l) as [l'|] eqn:E; [|by exists 0%nat].
  apply strip_rune_shorter in E as [_ [n ->]]. destruct (IH (drop n l)) as [k ->]. exists (n + k)%nat. by rewrite drop_drop.
Qed.
End columns.
Lemma fields_started fuel b cur l : fields_loop fuel (b :: cur) l ≠ [].
Proof.
  revert b cur l. induction fuel as [|fuel IH]; intros b cur l; [done|]. cbn [fields_loop].
  destruct l as [|a l]; [done|]. destruct (strip_rune space_runes (a :: l)); [done|apply IH].
Qed.
Lemma string_bytes_string l : Forall (λ b, 0 ≤ b < 256) l → string_bytes (bytes_string l) = l.
Proof.
  intros Hl. unfold string_bytes, bytes_string. rewrite chars_of_chars, <-list_fmap_compose.
  rewrite <-(list_fmap_id l) at 2. apply Forall_fmap_ext. eapply Forall_impl; [exact Hl|]. intros b. apply byte_of_ascii_of.
Qed.
Lemma Fields_nonblank line : TrimSpace line ≠ "" → Fields (TrimSpace line) ≠ [].
Proof.
  assert (Hr1 : [] ∉ space_runes) by (by apply (bool_decide_unpack _)).
  assert (Hr2 : [] ∉ reverse <$> space_runes) by (by apply (bool_decide_unpack _)).
  unfold TrimSpace. set (t := trim_front space_runes (string_bytes line)).
  set (x := reverse (trim_front (reverse <$> space_runes) (reverse t))).
  assert (Ht : strip_rune space_runes t = None) by (by apply trim_runes_stops).
  assert (Hx : ∃ k, x = take k t).
  { destruct (trim_runes_suffix _ Hr2 (length (reverse t)) (reverse t)) as [n En]. exists (length t - n)%nat.
    unfold x, trim_front. by rewrite En, drop_reverse, reverse_involutive. }
  assert (Hb : Forall (λ b, 0 ≤ b < 256) x).
  { destruct Hx as [k ->]. apply Forall_take. destruct (trim_runes_suffix _ Hr1 (length (string_bytes line)) (string_bytes line)) as [n En].
    unfold t, trim_front. rewrite En. apply Forall_drop. unfold string_bytes. apply Forall_fmap, Forall_forall.
    intros a _. unfold byte_of. pose proof (N_ascii_bounded a). cbn. lia. }
  intros Hne. unfold Fields. rewrite string_bytes_string by exact Hb.
  assert (Hn : strip_rune space_runes x = None).
  { apply strip_rune_None. intros r Hr E. destruct Hx as [k Ek]. rewrite strip_rune_None in Ht. apply (Ht r Hr).
    rewrite Ek, take_take in E. destruct (decide (length r ≤ k)%nat); [by rewrite Nat.min_l in E by lia|].
    rewrite Nat.min_r in E by lia. apply (f_equal length) in E as El. rewrite length_take in El. lia. }
  assert (Hx0 : x ≠ []) by (intros Ex; apply Hne; by rewrite Ex).
  destruct (String.length (bytes_string x)) as [|n] eqn:El.
  { destruct (bytes_string x) eqn:Eb; [done|]. by destruct Hne. }
  destruct x as [|b x']; [done|]. cbn [fields_loop]. rewrite Hn. apply fields_started.
Qed.

(** ** The same effects *)

Section effects.
Context (UserHomeDir : error + string) (XDG_CONFIG_HOME argv0 : string).
Context {S : Type} `{Host S}.
Abbreviation HS := (Disk * S)%type.

(** The error returned and the state left, of an action, of a command and of
    their text forms. *)
Definition outcome {A} (r : (A * option error) * HS) : option error * HS := (r.1.2, r.2).

Lemma install_text_same mountpoint account s :
  InstallService UserHomeDir XDG_CONFIG_HOME argv0 mountpoint account s
  = outcome (InstallServiceResult UserHomeDir XDG_CONFIG_HOME argv0 mountpoint account s).
Proof.
  unfold InstallService, InstallServiceResult, failed_same, failed, daemon_reload, outcome. cbv zeta.
  destruct (ServiceFilePath _ _) as [err|path]; [done|]. destruct (resolveBinary _ _) as [err|binary]; [done|].
  destruct (on_files (GoOS.os_MkdirAll _) s) as [[err|u] s1]; [done|].
  destruct (on_files (GoOS.os_WriteFile _ _) s1) as [[err|u1] s2]; [done|].
  destruct (ensureMountpointDir _ _ _ s2) as [[err|u2] s3]; [done|].
  by destruct (run_quiet _ _ s3) as [[err|] s4].
Qed.
Lemma install_all_same m mountpoint enable accounts affected warnings file s :
  installAllText UserHomeDir XDG_CONFIG_HOME argv0 m mountpoint enable accounts s
  = outcome (install_accounts UserHomeDir XDG_CONFIG_HOME argv0 m mountpoint enable accounts affected warnings file s).
Proof.
  revert affected warnings file s. induction accounts as [|a accounts IH]; intros; cbn [installAllText install_accounts]; [done|].
  destruct (GetAccount a m) as [e|acc]; [done|]. destruct (resolveInstallMountpoint _ _ _) as [mp warn].
  rewrite install_text_same. unfold outcome at 1.
  destruct (InstallServiceResult _ _ _ mp a s) as [[res [e|]] s1]; [done|]. cbn [fst snd].
  destruct (if enable then EnableUnit a s1 else (None, s1)) as [[e|] s2]; [done|]. apply IH.
Qed.

(** *** Stopping instances *)

(** A unit stopped and disabled, whatever comes of it. *)
Definition unit_stopped (s : HS) (unit : string) : HS :=
  (run_quiet "systemctl" ["--user"; "disable"; unit] (run_quiet "systemctl" ["--user"; "stop"; unit] s).2).2.
Definition account_removed (s : HS) (account : string) : HS :=
  unit_stopped (UnmountMountpoint UserHomeDir account s).2 (unitName account).

Lemma runSystemctl_state action unit (s : HS) : (runSystemctl action unit s).2 = (run_quiet "systemctl" ["--user"; action; unit] s).2.
Proof. unfold runSystemctl. by destruct (run_quiet _ _ s) as [[e|] s']. Qed.
Lemma stop_unit_state unit ws (s : HS) : (stop_unit unit ws s).2 = unit_stopped s unit.
Proof.
  unfold stop_unit, unit_stopped, warned. cbn [fst snd]. by rewrite !runSystemctl_state.
Qed.
Lemma uninstall_line_state acc line :
  (@uninstall_line S _ acc line).2 = match first_column line with Some unit => unit_stopped acc.2 unit | None => acc.2 end.
Proof.
  destruct acc as [ws s]. unfold uninstall_line, first_column. cbv zeta. cbn [snd].
  destruct (decide (TrimSpace line = "")) as [->|_]; [done|].
  by destruct (Fields (TrimSpace line)) as [|unit rest].
Qed.
Lemma uninstall_lines_state lines acc :
  (foldl (@uninstall_line S _) acc lines).2 = foldl unit_stopped acc.2 (omap first_column lines).
Proof.
  revert acc. induction lines as [|line lines IH]; intros acc; [done|]. cbn [foldl omap list_omap].
  rewrite IH, uninstall_line_state. by destruct (first_column line).
Qed.
Lemma remove_units_state units acc :
  Forall (λ u, is_Some (accountFromUnit u)) units →
  (foldl (@remove_unit S _) acc units).2 = foldl unit_stopped acc.2 units.
Proof.
  revert acc. induction units as [|u units IH]; intros [[affected ws] s] Hf; [done|].
  apply Forall_cons in Hf as [[a Ha] Hf]. cbn [foldl]. rewrite IH by exact Hf. f_equal. unfold remove_unit. rewrite Ha.
  pose proof (stop_unit_state u ws s) as Hs. by destruct (stop_unit u ws s) as [ws' s'].
Qed.
Lemma accounts_state accounts :
  (∀ acc, (foldl (uninstall_account UserHomeDir) acc accounts).2 = foldl account_removed acc.2 accounts) ∧
  (∀ acc, (foldl (remove_account UserHomeDir) acc accounts).2 = foldl account_removed acc.2 accounts).
Proof.
  induction accounts as [|a accounts [IH1 IH2]]; [done|]. split; intros [ws s]; cbn [foldl]; rewrite ?IH1, ?IH2; f_equal.
  - unfold uninstall_account, warnf, account_removed, unit_stopped. cbn [fst snd]. by rewrite !runSystemctl_state.
  - unfold remove_account, account_removed, warned at 1. cbn [fst snd]. apply stop_unit_state.
Qed.

(** The list the host gives, for the instances that run: nothing when it fails. *)
Definition lists_units (s : HS) : Prop :=
  match command "systemctl" ["--user"; "list-units"; "--plain"; "--no-legend"; "onecloudriver@*"] s with
  | (output, _, None, _) => unit_listing output
  | (output, _, Some _, _) => output = ""
  end.
Lemma instances_state accounts s : accounts ≠ [] ∨ lists_units s →
  ∃ r, stop_instances UserHomeDir accounts s = (inr r, (uninstall_instances UserHomeDir accounts s).2).
Proof.
  unfold stop_instances, uninstall_instances, lists_units. destruct accounts as [|a accounts].
  - intros [Hn|Hl]; [done|]. destruct (command _ _ s) as [[[output stderr] [err|]] s1].
    + subst output. eexists. done.
    + rewrite (parse_listing _ Hl). rewrite uninstall_lines_state. fold (listed output). cbn [warnf fst snd].
      destruct Hl as (_ & _ & _ & _ & Hf). pose proof (remove_units_state (listed output) ([], [], s1) Hf) as Hs.
      destruct (foldl remove_unit _ _) as [[affected ws] s2]. cbn [snd] in Hs. subst s2. eauto.
  - intros _. rewrite (proj1 (accounts_state (a :: accounts))). pose proof (proj2 (accounts_state (a :: accounts)) ([], s)) as Hs.
    destruct (foldl (remove_account _) _ _) as [ws s2]. cbn [snd] in *. subst s2. eauto.
Qed.
Lemma uninstall_text_same accounts s : accounts ≠ [] ∨ lists_units s →
  outcome (UninstallService UserHomeDir XDG_CONFIG_HOME accounts s)
  = outcome (UninstallServiceResult UserHomeDir XDG_CONFIG_HOME accounts s).
Proof.
  intros Hl. unfold UninstallService, UninstallServiceResult, failed_same, failed, succeeded, daemon_reload, outcome. cbv zeta.
  destruct (ServiceFilePath _ _) as [err|path]; [done|].
  destruct (instances_state accounts s Hl) as [[affected ws] ->].
  destruct (uninstall_instances _ accounts s) as [ws' s1]. cbn [snd].
  destruct (on_files (GoOS.os_Stat path) s1) as [[err|u] s2]; [done|].
  destruct (on_files (GoOS.os_Remove path) s2) as [[err|u2] s3]; [done|].
  by destruct (run_quiet _ _ s3) as [[err|] s4].
Qed.

(** *** Stopping the accounts *)

Definition account_stopped (s : HS) (account : string) : HS :=
  (runSystemctl "stop" (unitName account) (UnmountMountpoint UserHomeDir account s).2).2.
Definition stop_error (s : HS) (account : string) : option error :=
  (runSystemctl "stop" (unitName account) (UnmountMountpoint UserHomeDir account s).2).1.

Lemma stop_result_outcome account s :
  outcome (StopServiceResult UserHomeDir account s) = (stop_error s account, account_stopped s account).
Proof.
  unfold StopServiceResult, unit_action, failed_same, failed, succeeded, outcome, stop_error, account_stopped. cbv zeta.
  destruct (UnmountMountpoint _ account s) as [e s1]. cbn [fst snd]. by destruct (runSystemctl _ _ s1) as [[err|] s2].
Qed.
(** Every account can be stopped, one after the other. *)
Fixpoint all_stop (s : HS) (accounts : list string) : Prop :=
  match accounts with
  | [] => True
  | a :: accounts => stop_error s a = None ∧ all_stop (account_stopped s a) accounts
  end.

Lemma stop_text_step a accounts failed ws s : ∃ ws1 ws2,
  stop_all_text UserHomeDir (a :: accounts) failed ws s =
  match stop_error s a with
  | Some _ => stop_all_text UserHomeDir accounts (failed ++ [a]) ws1 (account_stopped s a)
  | None => stop_all_text UserHomeDir accounts failed ws2 (account_stopped s a)
  end.
Proof.
  unfold stop_error, account_stopped. cbn [stop_all_text]. unfold warnf. cbn [fst snd].
  destruct (UnmountMountpoint UserHomeDir a s) as [e1 s1]. cbn [fst snd].
  destruct (runSystemctl "stop" (unitName a) s1) as [[err|] s2]; cbn [fst snd]; eauto.
Qed.
(** The text form stops every account, and fails when one of them failed. *)
Lemma stop_all_text_spec accounts failed ws s :
  let r := stop_all_text UserHomeDir accounts failed ws s in
  r.2 = foldl account_stopped s accounts ∧ (r.1.2 = None ↔ failed = [] ∧ all_stop s accounts).
Proof.
  cbv zeta. revert failed ws s. induction accounts as [|a accounts IH]; intros failed ws s.
  { split; [done|]. cbn. destruct failed; [done|]. split; [done|by intros [? _]]. }
  destruct (stop_text_step a accounts failed ws s) as (ws1 & ws2 & ->). cbn [foldl all_stop].
  destruct (stop_error s a) as [err|].
  - destruct (IH (failed ++ [a]) ws1 (account_stopped s a)) as [HA HB]. split; [exact HA|]. rewrite HB. split.
    + intros [Hf _]. by destruct failed.
    + by intros [_ [? _]].
  - destruct (IH failed ws2 (account_stopped s a)) as [HA HB]. split; [exact HA|]. rewrite HB. naive_solver.
Qed.
(** The structured form stops the accounts up to the first failure. *)
Lemma stop_accounts_spec accounts affected warnings s :
  let r := stop_accounts UserHomeDir accounts affected warnings s in
  (r.1.2 = None ↔ all_stop s accounts) ∧ (r.1.2 = None → r.2 = foldl account_stopped s accounts).
Proof.
  cbv zeta. revert affected warnings s. induction accounts as [|a accounts IH]; intros affected warnings s; cbn [stop_accounts]; [done|].
  pose proof (stop_result_outcome a s) as Ho. unfold outcome in Ho. cbn [all_stop foldl].
  destruct (StopServiceResult UserHomeDir a s) as [[res [err|]] s1]; injection Ho as <- <-.
  - split; [|done]. split; [done|by intros [? _]].
  - match goal with |- context [stop_accounts _ _ ?f ?w s1] => destruct (IH f w s1) as [HA HB] end.
    split; [|exact HB]. rewrite HA. naive_solver.
Qed.

(** *** The commands *)

(** The accounts, in whatever order the map was ranged over. *)
Lemma accounts_perm (r1 r2 : MapRange) m : range_any r1 → range_any r2 → @ListAccounts r1 m ≡ₚ @ListAccounts r2 m.
Proof. intros H1 H2. unfold ListAccounts, map_range. etrans; [apply H1|symmetry; apply H2]. Qed.
Lemma sorted_in_order (r1 r2 : MapRange) m : range_any r1 → range_any r2 →
  StronglySorted string_le (@ListAccounts r1 m) → @sorted_accounts r2 m = @ListAccounts r1 m.
Proof. intros H1 H2 Hs. apply sort_sorted; [exact Hs|]. by apply accounts_perm. Qed.
Lemma resolve_any (r1 r2 : MapRange) flag m : range_any r1 → range_any r2 → @resolveAccount r1 flag m = @resolveAccount r2 flag m.
Proof.
  intros H1 H2. unfold resolveAccount, resolveAccountName. destruct (decide (flag = "")); [|done].
  unfold ResolveMainAccountName. pose proof (accounts_perm r1 r2 m H1 H2) as Hp.
  destruct (@ListAccounts r1 m) as [|a [|a' l]].
  - by apply Permutation_nil_l in Hp as <-.
  - by apply Permutation_singleton_l in Hp as <-.
  - pose proof (Permutation_length Hp) as Hn. by destruct (@ListAccounts r2 m) as [|b [|b' l']].
Qed.

(** C40: the text form of a service command does what the structured one does, in
    any valid output format, when the unit list is as systemctl prints it (or
    fails and is empty). Installing and uninstalling for one account leave the same
    disk and the same systemd and return the same error; so does stopping one. For
    all accounts the text form takes them in the order in which Go ranges over the
    map ([r1]), which is any, and the structured form in that of their names: when
    the two orders are the same, installing all of them has the same effects and
    error, uninstalling them too unless there are none (see
    [uninstall_all_differs]), and stopping them succeeds in one form exactly when it
    does in the other, with the same effects. In any order, the text form stops each
    of the accounts, whatever fails, and fails when one of them did. The status of
    an account fails in one form when it does in the other and leaves the host
    alike. *)
Theorem text_form_agrees (r1 r2 : MapRange) tty output mountpoint flag enable args m s :
  let in_order := StronglySorted string_le (@ListAccounts r1 m) in
  range_any r1 → range_any r2 → validateOutputFormat output = None → lists_units s →
  (∀ all, all = false ∨ in_order →
    @install_text UserHomeDir XDG_CONFIG_HOME argv0 _ _ r1 mountpoint flag enable all m s
    = outcome (@service_install UserHomeDir XDG_CONFIG_HOME argv0 _ _ r2 output mountpoint flag enable all m s)) ∧
  (∀ all, all = false ∨ (in_order ∧ m_accounts m ≠ ∅) →
    outcome (@uninstall_text UserHomeDir XDG_CONFIG_HOME _ _ r1 all m s)
    = outcome (@service_uninstall UserHomeDir XDG_CONFIG_HOME _ _ r2 output all m s)) ∧
  outcome (@stop_text UserHomeDir _ _ r1 false args m s) = outcome (@service_stop UserHomeDir _ _ r2 output false args m s) ∧
  (let text := @stop_text UserHomeDir _ _ r1 true args m s in
   let structured := @service_stop UserHomeDir _ _ r2 output true args m s in
   text.2 = foldl account_stopped s (@ListAccounts r1 m) ∧
   (text.1.2 = None ↔ m_accounts m ≠ ∅ ∧ all_stop s (@ListAccounts r1 m)) ∧
   (in_order → (text.1.2 = None ↔ structured.1.2 = None) ∧ (structured.1.2 = None → structured.2 = text.2))) ∧
  (∀ account, match Status UserHomeDir XDG_CONFIG_HOME tty [account] s, service_status UserHomeDir output [account] s with
    | (inr (text, _), s1), (inr (inl status), s2) => text = printUnitStatus tty status ∧ s1 = s2
    | (inl e1, s1), (inl e2, s2) => e1 = e2 ∧ s1 = s2
    | _, _ => False
    end).
Proof.
  intros in_order HA HB Ho Hl.
  assert (Hs : in_order → @sorted_accounts r2 m = @ListAccounts r1 m) by (intros; by apply sorted_in_order).
  assert (Hne : m_accounts m ≠ ∅ ↔ @ListAccounts r1 m ≠ []).
  { rewrite <-map_to_list_empty_iff. unfold ListAccounts, map_range. pose proof (HA (map_to_list (m_accounts m)).*1) as Hp.
    destruct (map_to_list (m_accounts m)) as [|x xs]; cbn [fmap list_fmap] in *.
    - by apply Permutation_nil_r in Hp as ->.
    - split; [|done]. intros _ E. rewrite E in Hp. by apply Permutation_nil_l in Hp. }
  split_and!.
  - intros all Hall. unfold install_text, service_install, installAllStructured. rewrite Ho. destruct all.
    + destruct Hall as [?|Hin]; [done|]. rewrite (Hs Hin). destruct (ListAccounts m) as [|a l]; [done|].
      rewrite (install_all_same _ _ _ _ [] [] ""). unfold document, outcome. by destruct (install_accounts _ _ _ _ _ _ _ _ _ _ s) as [[res e] s1].
    + rewrite (resolve_any r1 r2) by done. destruct (@resolveAccount r2 flag m) as [e|acc]; [done|]. unfold document, install_one.
      destruct (resolveInstallMountpoint _ _ _) as [mp warn]. rewrite install_text_same. unfold outcome at 1.
      destruct (InstallServiceResult _ _ _ mp (acc_Name acc) s) as [[res [e|]] s1]; [done|]. cbn [fst snd].
      destruct enable; cbn [negb]; [|done]. by destruct (EnableUnit (acc_Name acc) s1) as [[e|] s2].
  - assert (Hd : ∀ (act : @Action S), outcome (document act s) = outcome (act s))
      by (intros act; unfold document, outcome; by destruct (act s) as [[res e] s1]).
    intros all Hall. unfold uninstall_text, service_uninstall. rewrite Ho.
    destruct all; cbn [negb]; [|rewrite Hd; apply uninstall_text_same; by right].
    destruct Hall as [?|[Hin Hn]]; [done|]. rewrite (Hs Hin). apply Hne in Hn. destruct (ListAccounts m) as [|a l]; [done|].
    rewrite Hd. apply uninstall_text_same. by left.
  - unfold stop_text, service_stop. rewrite Ho. destruct args as [|a args]; [done|].
    pose proof (stop_result_outcome a s) as Hst. unfold outcome, document, warnf, stop_error, account_stopped in *. cbn [fst snd].
    destruct (StopServiceResult UserHomeDir a s) as [[res e] s1]. cbn [fst snd] in *.
    destruct (UnmountMountpoint UserHomeDir a s) as [e1 s2]. cbn [fst snd] in *.
    destruct (runSystemctl _ _ s2) as [e2 s3]. cbn [fst snd] in *. congruence.
  - cbv zeta. rewrite Hne. unfold stop_text, service_stop. rewrite Ho.
    destruct (ListAccounts m) as [|a l] eqn:E.
    { split_and!; [done|naive_solver|]. intros Hin. rewrite (Hs Hin). split; naive_solver. }
    destruct (stop_all_text_spec (a :: l) [] [] s) as [HC HD]. rewrite HC. split_and!; [done|naive_solver|].
    intros Hin. rewrite (Hs Hin). destruct (stop_accounts_spec (a :: l) [] [] s) as [HE HF].
    unfold document. destruct (stop_accounts UserHomeDir (a :: l) [] [] s) as [[res e] s1]. cbn [fst snd] in *.
    split; [rewrite HD, HE; naive_solver|exact HF].
  - intros account. unfold Status, service_status. rewrite Ho.
    by destruct (on_host (queryUnitStatus UserHomeDir account) s) as [[e|[status je]] s1].
Qed.
End effects.

(** ** On a host *)

(** A host with a unit list, where the commands on some units fail. *)
Record Machine := mkMachine { ma_units : string; ma_failing : list string; ma_ran : list (list string) }.
#[global] Instance Machine_Host : Host Machine := {
  run_command name args s :=
    (if bool_decide (last args = Some "onecloudriver@*") then (ma_units s, "", None)
     else ("", "", if decide (default "" (last args) ∈ ma_failing s) then Some (EMsg "exit status 1") else None),
     mkMachine (ma_units s) (ma_failing s) (ma_ran s ++ [name :: args]));
  exec_LookPath p _ := inr ("/usr/bin/" +:+ p);
  os_Mode _ _ := inr (true, 493);
  filepath_Abs p _ := inr p;
}.
#[local] Instance name_order : MapRange := merge_sort string_le.
Lemma name_order_any : range_any name_order.
Proof. intros l. apply merge_sort_Permutation. Qed.
Definition account_named (name : string) : Account :=
  mkAccount true name zero_AuthConfig zero_Persisted 0 "" "" "" None.
Definition two_accounts : Manager :=
  mkManager {[ "ana" := account_named "ana"; "zoe" := account_named "zoe" ]} true.
Definition two_units : string :=
  "onecloudriver@ana.service loaded active running OneDrive" +:+ nl +:+
  "onecloudriver@zoe.service loaded active running OneDrive" +:+ nl.
Definition machine (failing : list string) : Disk * Machine := (empty_files, mkMachine two_units failing []).

Lemma text_form_agrees_witness :
  outcome (uninstall_text (inr "/home/ana") "" true two_accounts (machine []))
  = outcome (service_uninstall (inr "/home/ana") "" "json" true two_accounts (machine [])).
Proof.
  destruct (text_form_agrees (S := Machine) (inr "/home/ana") "" "onecloudriver" name_order name_order true "json" "" "" true [] two_accounts (machine []))
    as (_ & HA & _).
  - apply name_order_any.
  - apply name_order_any.
  - reflexivity.
  - unfold lists_units, unit_listing. cbn [command run_command machine Machine_Host]. rewrite bool_decide_eq_true_2 by done.
    cbn [ma_units]. split_and!.
    + apply (bool_decide_unpack _). vm_compute. exact I.
    + apply (bool_decide_unpack _). vm_compute. exact I.
    + replace (listed two_units) with ["onecloudriver@ana.service"; "onecloudriver@zoe.service"] by (vm_compute; reflexivity).
      repeat constructor.
    + apply (bool_decide_unpack _). vm_compute. exact I.
    + apply (bool_decide_unpack _). vm_compute. exact I.
  - apply HA. right. split; [|by vm_compute]. apply StronglySorted_merge_sort; apply _.
Defined.

(** With a failure at the first account, the structured form leaves the second
    one mounted and running; the text form does not. *)
Example stop_all_differs :
  let stops (s : Disk * Machine) := bool_decide (["systemctl"; "--user"; "stop"; "onecloudriver@zoe.service"] ∈ ma_ran s.2) in
  let s := machine ["onecloudriver@ana.service"] in
  stops (stop_text (inr "/home/ana") true [] two_accounts s).2 = true ∧
  stops (service_stop (inr "/home/ana") "json" true [] two_accounts s).2 = false.
Proof. split; vm_compute; reflexivity. Qed.

(** Without accounts, uninstalling all of them succeeds in one form only. *)
Example uninstall_all_differs :
  let none := mkManager ∅ true in
  (uninstall_text (inr "/home/ana") "" true none (machine [])).1.2 = None ∧
  is_Some (service_uninstall (inr "/home/ana") "" "json" true none (machine [])).1.2.
Proof. vm_compute. split; [reflexivity|eauto]. Qed.

(** The text form stops whatever unit the list names, the structured one only the
    instances of the template. *)
Example uninstall_takes_other_units :
  let s : Disk * Machine := (empty_files, mkMachine ("onecloudriver@work.timer loaded active" +:+ nl) [] []) in
  let stops (s : Disk * Machine) := bool_decide (["systemctl"; "--user"; "stop"; "onecloudriver@work.timer"] ∈ ma_ran s.2) in
  stops (UninstallService (inr "/home/ana") "" [] s).2 = true ∧
  stops (UninstallServiceResult (inr "/home/ana") "" [] s).2 = false.
Proof. split; vm_compute; reflexivity. Qed.
