(* ===== verification/Output.v ===== *)
(** What the commands show (cmd/onecloudriver/output.go and formatOutput of
    common.go, formatServiceInstances of service.go, internal/i18n/detect.go):
    the tables and blocks of the text form, the documents of the structured ones,
    the language they are in.

    The catalog of messages, the parser of language tags and the two encoders are
    libraries: the classes [Catalog], [LanguageTags] and [Encoders]. *)

From S2P Require Export ServiceText.

#[local] Open Scope Z_scope.

(** ** internal/i18n *)

(** A value a message refers to. *)
Inductive Datum := DInt (n : Z) | DStr (s : string).
(** [L] and [Ld]. *)
Class Catalog := { i18n_L : string → string; i18n_Ld : string → list (string * Datum) → string }.
(** [language.Parse] and [Base], on a tag it accepts. *)
Class LanguageTags := language_base : string → option string.

(** The text before the first [c]: [strings.SplitN(s, c, 2)[0]]. *)
Definition before_first (c : ascii) (s : string) : string :=
  match Cut s (String c "") with Some (before, _) => before | None => s end.
Definition ParseLocale `{LanguageTags} (locale : string) : string :=
  let locale := TrimSpace locale in
  if bool_decide (locale ∈ [""; "C"; "POSIX"]) then "en" else
  let locale := ReplaceText (before_first "."%char (before_first "@"%char locale)) "_" "-" in
  match language_base locale with None => "en" | Some base => base end.
Fixpoint detect_from `{LanguageTags} (values : list string) : string :=
  match values with
  | [] => "en"
  | v :: values =>
      if decide (v = "") then detect_from values else
      let lang := ParseLocale v in if decide (lang = "en") then detect_from values else lang
  end.
(** [env]: the environment. *)
Definition DetectLanguage `{LanguageTags} (env : string → string) : string :=
  detect_from (env <$> ["LC_ALL"; "LC_MESSAGES"; "LANG"]).

(** ** Numbers and columns, as [fmt] writes them *)

(** The bytes of the rune a text starts with: one for an invalid one. *)
Definition continuation (b : Z) : bool := (128 <=? b) && (b <? 192).
Definition rune_len (l : list Z) : nat :=
  match l with
  | b0 :: b1 :: rest =>
      let two := (194 <=? b0) && (b0 <? 224) && continuation b1 in
      let second_ok :=
        if b0 =? 224 then (160 <=? b1) && (b1 <? 192)
        else if b0 =? 237 then (128 <=? b1) && (b1 <? 160)
        else if b0 =? 240 then (144 <=? b1) && (b1 <? 192)
        else if b0 =? 244 then (128 <=? b1) && (b1 <? 144)
        else continuation b1 in
      if two then 2%nat else
      match rest with
      | b2 :: rest =>
          if (224 <=? b0) && (b0 <? 240) && second_ok && continuation b2 then 3%nat else
          match rest with
          | b3 :: _ => if (240 <=? b0) && (b0 <? 245) && second_ok && continuation b2 && continuation b3 then 4%nat else 1%nat
          | [] => 1%nat
          end
      | [] => 1%nat
      end
  | _ => 1%nat
  end.
Fixpoint count_runes (fuel : nat) (l : list Z) : nat :=
  match fuel, l with S fuel, _ :: _ => S (count_runes fuel (drop (rune_len l) l)) | _, _ => 0%nat end.
Definition RuneCount (s : string) : nat := count_runes (String.length s) (string_bytes s).

Definition repeat_char (n : nat) (c : ascii) : string := of_chars (replicate n c).
(** [%-ns]: padded on the right to [n] runes. *)
Definition pad_right (n : nat) (s : string) : string := s +:+ repeat_char (n - RuneCount s) " "%char.

Definition round_half_even (a b : Z) : Z :=
  let q := a / b in let r := a mod b in
  if 2 * r <? b then q else if b <? 2 * r then q + 1 else if Z.even q then q else q + 1.
(** The integer a float64 holds for a size (of at most 64 bits). *)
Definition float_size (n : Z) : Z :=
  let k := Z.max 0 (Z.log2 n - 52) in round_half_even n (2 ^ k) * 2 ^ k.
(** [fmt.Sprintf("%.2f", float64(size)/1024)]. *)
Definition kb_text (size : Z) : string :=
  let q := round_half_even (float_size (Z.abs size) * 100) 1024 in
  (if size <? 0 then "-" else "") +:+ pretty (q / 100) +:+ "." +:+ of_chars (pad2 (q mod 100)).

(** [t.Format("2006-01-02 15:04:05")] of a time the drive sent: Graph gives its
    times in UTC. *)
Definition format_stamp (t : Time) : string :=
  let '(d, s) := @civil (λ _, 0) t in
  of_chars (pad4 (year d) ++ "-"%char :: pad2 (month d) ++ "-"%char :: pad2 (day d) ++ " "%char ::
            pad2 (s / 3600) ++ ":"%char :: pad2 (s / 60 mod 60) ++ ":"%char :: pad2 (s mod 60)).
Definition ModTimeString (item : DriveItem) : string :=
  match item_ModTime item with None => "N/A" | Some t => format_stamp t end.

(** ** The text form *)

Section text.
Context `{Catalog}.

Definition table_row (typ name size modified : string) : string :=
  pad_right 7 typ +:+ " | " +:+ pad_right 30 name +:+ " | " +:+ pad_right 10 size +:+ " | " +:+ modified +:+ nl.
Definition item_row (item : DriveItem) : string :=
  if IsFolder item
  then table_row (i18n_L "fmt.item.folder") (item_Name item) "-" (ModTimeString item)
  else table_row (i18n_L "fmt.item.file") (item_Name item) (i18n_Ld "fmt.size.bytes" [("Size", DInt (item_Size item))])
         (ModTimeString item).
Definition Concat (l : list string) : string := foldr (λ s t, s +:+ t) "" l.
(** [FormatDriveItems]. *)
Definition text_items (items : list DriveItem) : string :=
  nl +:+ table_row (i18n_L "fmt.list.header.type") (i18n_L "fmt.list.header.name") (i18n_L "fmt.list.header.size")
           (i18n_L "fmt.list.header.modified") +:+
  repeat_char 70 "-"%char +:+ nl +:+ Concat (item_row <$> items).

(** [FormatDriveItem]: a field, and one only shown when it is there. *)
Definition field (id gap value : string) : string := "  " +:+ i18n_L id +:+ ":" +:+ gap +:+ value +:+ nl.
Definition field_if (id gap value : string) : string := if decide (value = "") then "" else field id gap value.
Definition item_size_text (item : DriveItem) : string :=
  if IsFolder item then
    match item_Folder item with
    | Some f => i18n_Ld "fmt.item.elements" [("Count", DInt (folder_ChildCount f))]
    | None => "-"
    end
  else i18n_Ld "fmt.size.detail" [("Size", DInt (item_Size item)); ("Kb", DStr (kb_text (item_Size item)))].
Definition text_item (item : DriveItem) : string :=
  let rule := repeat_char 60 "="%char +:+ nl in
  Concat [
    nl; rule;
    "  " +:+ i18n_L (if IsFolder item then "fmt.info.folder" else "fmt.info.file") +:+ nl; rule;
    field "fmt.info.label.name" "        " (item_Name item);
    field "fmt.info.label.id" "          " (item_ID item);
    field "fmt.info.label.type" "        " (i18n_L (if IsFolder item then "fmt.item.folder" else "fmt.item.file"));
    field "fmt.info.label.size" "        " (item_size_text item);
    match item_CreatedTime item with Some t => field "fmt.info.label.created" "     " (format_stamp t) | None => "" end;
    field "fmt.info.label.modified" "    " (ModTimeString item);
    match item_File item with
    | Some f => field_if "fmt.info.label.sha1" "        " (hashes_SHA1Hash (file_Hashes f)) +:+
                field_if "fmt.info.label.quickxorhash" "" (hashes_QuickXorHash (file_Hashes f))
    | None => ""
    end;
    match item_Parent item with
    | Some p => field_if "fmt.info.label.drive" "       " (parent_DriveType p) +:+
                field_if "fmt.info.label.parentid" "   " (parent_ID p)
    | None => ""
    end;
    field_if "fmt.info.label.etag" "        " (item_ETag item);
    rule].

(** [formatServiceInstances]. *)
Definition instance_row (account enabled state substate mountpoint : string) : string :=
  pad_right 32 account +:+ " " +:+ pad_right 10 enabled +:+ " " +:+ pad_right 14 state +:+ " " +:+ pad_right 16 substate +:+ " "
  +:+ mountpoint +:+ nl.
Definition state_symbol (tty : bool) (state : string) : string :=
  if decide (state = "running") then symbol_Success tty
  else if decide (state = "failed") then symbol_Error tty else symbol_Warning tty.
Definition text_instances (tty : bool) (instances : list InstanceInfo) : string :=
  match instances with
  | [] => symbolFor tty "ℹ️" "INFO" +:+ " " +:+ i18n_L "cmd.service.no_services" +:+ nl
  | _ =>
      instance_row (i18n_L "cmd.service.header.account") (i18n_L "cmd.service.header.enabled") (i18n_L "cmd.service.header.state")
        (i18n_L "cmd.service.header.substate") (i18n_L "cmd.service.header.mountpoint") +:+
      Concat ((λ i, instance_row (Service.in_Account i) (in_Enabled i) (state_symbol tty (in_State i) +:+ " " +:+ in_State i)
                      (in_SubState i) (in_Mountpoint i)) <$> instances)
  end.
End text.

(** ** The formatters *)

Class Encoders (V : Type) := { json_MarshalIndent : V → error + string; yaml_Marshal : V → error + string }.

Definition serialized (what : string) (r : error + string) : error + string :=
  match r with inl err => inl (EWrap ("error serializing to " +:+ what +:+ ": ") err "") | inr out => inr out end.
(** [formatStructuredValue]. *)
Definition formatStructuredValue {V} `{Encoders V} (format : string) (v : V) : error + string :=
  let finish r := match r with inl err => inl err | inr out => inr (TrimRight out newline +:+ nl) end in
  if decide (format = "json") then finish (serialized "JSON" (json_MarshalIndent v))
  else if decide (format = "yaml") then finish (serialized "YAML" (yaml_Marshal v))
  else if decide (format = "text") then inl (EMsg "text output must be rendered by the caller, not formatStructuredValue")
  else match validateOutputFormat format with Some err => inl err | None => inr "" end.

Inductive Formatter := textFormatter | jsonFormatter | yamlFormatter.
(** [getFormatter]. *)
Definition getFormatter (name : string) : error + Formatter :=
  match validateOutputFormat name with
  | Some err => inl err
  | None => inr (if decide (name = "text") then textFormatter else if decide (name = "json") then jsonFormatter else yamlFormatter)
  end.
(** What is shown: items or one item; [formatOutput] prints it. *)
Inductive Shown := ShownItems (items : list DriveItem) | ShownItem (item : DriveItem).
Definition format_with `{Catalog} `{Encoders Shown} (f : Formatter) (v : Shown) : error + string :=
  match f with
  | textFormatter => inr (match v with ShownItems items => text_items items | ShownItem item => text_item item end)
  | jsonFormatter => serialized "JSON" (json_MarshalIndent v)
  | yamlFormatter => serialized "YAML" (yaml_Marshal v)
  end.

(** ** What they guarantee *)

Lemma TrimRight_last s c : last (chars (TrimRight s c)) ≠ Some c.
Proof.
  unfold TrimRight, TrimRight_chars. rewrite chars_of_chars, last_reverse. unfold TrimLeft_chars.
  generalize (reverse (chars s)). intros l. induction l as [|a l IH]; [done|]. cbn [drop_while].
  case_bool_decide as E; [exact IH|]. cbn. congruence.
Qed.
(** A structured document ends with one newline, and an unknown format gives an
    error before anything is encoded. *)
Lemma structured_document {V} `{Encoders V} format (v : V) :
  match formatStructuredValue format v with
  | inr doc => format ∈ ["json"; "yaml"] ∧ ∃ body, doc = body +:+ nl ∧ last (chars body) ≠ Some newline
  | inl _ => True
  end.
Proof.
  unfold formatStructuredValue. cbv zeta. destruct (decide (format = "json")) as [->|Hj].
  { destruct (json_MarshalIndent v); [done|]. split; [left|]. eexists. split; [reflexivity|]. apply TrimRight_last. }
  destruct (decide (format = "yaml")) as [->|Hy].
  { destruct (yaml_Marshal v); [done|]. split; [right; left|]. eexists. split; [reflexivity|]. apply TrimRight_last. }
  destruct (decide (format = "text")) as [->|Ht]; [done|]. unfold validateOutputFormat.
  rewrite bool_decide_eq_false_2; [done|]. rewrite !elem_of_cons. intros [?|[?|[?|?%elem_of_nil]]]; done.
Qed.
(** The language is that of the first variable which has one other than English. *)
Lemma DetectLanguage_spec `{LanguageTags} env :
  DetectLanguage env = "en" ∧ (∀ x, x ∈ ["LC_ALL"; "LC_MESSAGES"; "LANG"] → env x = "" ∨ ParseLocale (env x) = "en") ∨
  ∃ before x after, ["LC_ALL"; "LC_MESSAGES"; "LANG"] = before ++ x :: after ∧
    env x ≠ "" ∧ DetectLanguage env = ParseLocale (env x) ∧ DetectLanguage env ≠ "en" ∧
    ∀ y, y ∈ before → env y = "" ∨ ParseLocale (env y) = "en".
Proof.
  unfold DetectLanguage. generalize ["LC_ALL"; "LC_MESSAGES"; "LANG"]. intros xs.
  induction xs as [|x xs IH]; [left; split; [done|]; by intros x ?%elem_of_nil|]. cbn [fmap list_fmap detect_from].
  assert (Hskip : env x = "" ∨ ParseLocale (env x) = "en" →
    detect_from (env <$> xs) = "en" ∧ (∀ y, y ∈ x :: xs → env y = "" ∨ ParseLocale (env y) = "en") ∨
    ∃ before y after, x :: xs = before ++ y :: after ∧ env y ≠ "" ∧ detect_from (env <$> xs) = ParseLocale (env y) ∧
      detect_from (env <$> xs) ≠ "en" ∧ ∀ z, z ∈ before → env z = "" ∨ ParseLocale (env z) = "en").
  { intros Hx. destruct IH as [[HA HB]|(before & y & after & -> & HA & HB & HC & HD)]; [left|right].
    - split; [exact HA|]. by intros z [->|Hz]%elem_of_cons; auto.
    - exists (x :: before), y, after. split_and!; try done. by intros z [->|Hz]%elem_of_cons; auto. }
  destruct (decide (env x = "")) as [E|E]; [by apply Hskip; left|]. cbv zeta.
  destruct (decide (ParseLocale (env x) = "en")) as [El|El]; [by apply Hskip; right|].
  right. exists [], x, xs. split_and!; try done. by intros z ?%elem_of_nil.
Qed.

#[local] Instance example_tags : LanguageTags := λ s, match Split s "-"%char with b :: _ => if decide (b = "") then None else Some b | [] => None end.
#[local] Instance example_catalog : Catalog := {
  i18n_L id := id; i18n_Ld id data := match data with (_, DInt n) :: _ => pretty n +:+ " B" | _ => id end }.
(** "C.UTF-8" is no language, so the next variable counts. *)
Example detected : ParseLocale "es_ES.UTF-8@euro" = "es" ∧
  DetectLanguage (λ x, if decide (x = "LC_ALL") then "C" else if decide (x = "LANG") then "es_ES.UTF-8" else "") = "es".
Proof. split; vm_compute; reflexivity. Qed.
(** Sizes are rounded to even at the half; columns count runes. *)
Example shown_numbers : kb_text 1536 = "1.50" ∧ kb_text 1 = "0.00" ∧ kb_text (-1536) = "-1.50" ∧ kb_text 128 = "0.12" ∧ kb_text 384 = "0.38" ∧
  kb_text (2 ^ 53 + 1) = kb_text (2 ^ 53) ∧ RuneCount "año €" = 5%nat ∧ String.length (pad_right 7 "año") = 8%nat.
Proof. vm_compute. by split_and!. Qed.
Example shown_row :
  item_row (mkDriveItem "1" "a.txt" 12 (Some (1788602400 * Second)) None None (Some zero_File) None "" "" None)
  = "fmt.item.file | a.txt                          | 12 B       | 2026-09-05 10:00:00" +:+ nl.
Proof. vm_compute. reflexivity. Qed.
