(* ===== verification/Eviction.v ===== *)
(** The eviction controller (internal/fs/eviction.go): a lock around a pass, a
    flag that keeps a second pass from being launched, and a goroutine that
    launches one at each tick. The caches do not use it.

    A pass is code on the state [S] of its cache; the controller is beside it. *)

From S2P Require Export Sched.

#[local] Open Scope Z_scope.
#[local] Open Scope res_scope.

(** [update], [running], whether [stopCh] is open, closed or nil, and the count
    of [wg]. *)
Inductive StopCh := ChNil | ChOpen | ChClosed.
#[global] Instance StopCh_eq_dec : EqDecision StopCh.
Proof. solve_decision. Defined.
Record EvictionController := mkController {
  ec_interval : Z; ec_has_sweep : bool; ec_update : bool; ec_running : bool; ec_stopCh : StopCh; ec_wg : Z }.
Definition set_ec_update v c := mkController (ec_interval c) (ec_has_sweep c) v (ec_running c) (ec_stopCh c) (ec_wg c).
Definition set_ec_running v c := mkController (ec_interval c) (ec_has_sweep c) (ec_update c) v (ec_stopCh c) (ec_wg c).
Definition set_ec_stopCh v c := mkController (ec_interval c) (ec_has_sweep c) (ec_update c) (ec_running c) v (ec_wg c).
Definition set_ec_wg v c := mkController (ec_interval c) (ec_has_sweep c) (ec_update c) (ec_running c) (ec_stopCh c) v.
Definition NewEvictionController (interval : Z) (has_sweep : bool) : EvictionController :=
  mkController interval has_sweep false false ChNil 0.

(** A pass in the state it shares with the controller. *)
Fixpoint beside {C S A} (m : Res S A) : Res (C * S) A :=
  match m with
  | Ret a => Ret a
  | Act f => Act (λ cs, match f cs.2 with Some (s, m) => Some ((cs.1, s), beside m) | None => None end)
  | Fork child k => Fork (beside child) (beside k)
  end.

(** What runs beside leaves a level of the other part as it is. *)
Lemma owes_beside {C S A} (good : C → Prop) (level : C → Z) n (m : Res S A) :
  0 ≤ n → owes (λ cs : C * S, good cs.1) (λ cs, level cs.1) A (λ _ d, d = n) n (beside m).
Proof.
  revert n. revert m. revert A. fix IH 2. intros A m n Hn. destruct m as [a|f|child k]; cbn [beside].
  - by apply owes_ret.
  - apply owes_act with (λ _, n).
    + intros [c s] s' m' Hg _. cbn [fst snd]. destruct (f s) as [[s1 m1]|]; [|done]. intros [= <- _]. cbn. split_and!; [done|lia|done].
    + intros [c s] s' m' _ _. cbn [fst snd]. destruct (f s) as [[s1 m1]|]; [|done]. intros [= _ <-]. by apply IH.
  - apply (owes_fork _ _ _ _ 0 n); [done|done|by apply IH|by apply IH].
Qed.

Section controller.
Context {S : Type}.
Abbreviation St := (EvictionController * S)%type.
Abbreviation Go A := (Res St A).
Definition on_ec (f : EvictionController → EvictionController) (s : St) : St := (f s.1, s.2).

Definition Lock : Go unit := await (λ s, negb (ec_update s.1)) (on_ec (set_ec_update true)).
Definition Unlock : Go unit := atomic_ (on_ec (set_ec_update false)).
Definition RunSerialized (fn : Res S unit) : Go unit := Lock ;;; beside fn ;;; Unlock.
Definition RunOnce (fn : Res S unit) : Go bool :=
  do* was := atomic (λ s, (ec_running s.1, on_ec (set_ec_running true) s)) in
  if was : bool then Ret false else
  fork (RunSerialized fn ;;; atomic_ (on_ec (set_ec_running false))) ;;; Ret true.

(** The goroutine of [Start], for a number of turns; both channels may be ready,
    and [stop_first] is what [select] takes then. *)
Fixpoint ticker (turns : nat) (stop_first : nat → bool) (sweep : Res S unit) : Go unit :=
  match turns with
  | O => Ret tt
  | Datatypes.S turns =>
      do* stop := atomic (λ s, (bool_decide (ec_stopCh s.1 = ChClosed) && stop_first turns, s)) in
      if stop : bool then Ret tt else
      do* _ := RunOnce sweep in ticker turns stop_first sweep
  end.
Definition Start (turns : nat) (stop_first : nat → bool) (sweep : Res S unit) : Go unit :=
  do* c := atomic (λ s, (s.1, s)) in
  if (ec_interval c <=? 0) || negb (ec_has_sweep c) then Ret tt else
  if negb (bool_decide (ec_stopCh c = ChNil)) then Ret tt else
  atomic_ (on_ec (λ c, set_ec_stopCh ChOpen (set_ec_wg (ec_wg c + 1) c))) ;;;
  fork (ticker turns stop_first sweep ;;; atomic_ (on_ec (λ c, set_ec_wg (ec_wg c - 1) c))).
(** [Stop]; a second call between the close and the end of the first would panic,
    here it closes once more. *)
Definition Stop : Go unit :=
  do* c := atomic (λ s, (s.1, s)) in
  if bool_decide (ec_stopCh c = ChNil) then Ret tt else
  atomic_ (on_ec (set_ec_stopCh ChClosed)) ;;;
  await (λ s, ec_wg s.1 =? 0) (λ s, s) ;;;
  atomic_ (on_ec (set_ec_stopCh ChNil)).

(** ** One pass at a time *)

(** The lock and the flag, as units that a goroutine may hold. *)
Definition held (b : bool) : Z := if b then 1 else 0.
Definition lock_level (s : St) : Z := held (ec_update s.1).
Definition pass_level (s : St) : Z := held (ec_running s.1).
Definition anything (s : St) : Prop := True.
Abbreviation owing l n := (owes anything l unit (λ _ d, d = n)).

Lemma owes_on_ec (level : St → Z) n f :
  0 ≤ n → (∀ s, level (on_ec f s) = level s) → owing level n n (atomic_ (on_ec f)).
Proof. intros Hn Hf. apply owes_atomic_; [done|]. intros s _. by split. Qed.
Lemma owes_read {A} (level : St → Z) n (f : St → A) : 0 ≤ n → owes anything level A (λ _ d, d = n) n (atomic (λ s, (f s, s))).
Proof. intros Hn. apply owes_atomic; [done|]. by split. Qed.

Lemma Lock_takes : owing lock_level 1 0 Lock.
Proof.
  apply owes_act with (λ _, 1).
  - intros s s' m _ _ E. unfold lock_level. destruct (ec_update s.1); [done|]. injection E as <- _. by split_and!.
  - intros s s' m _ _ E. destruct (negb _); [|done]. injection E as _ <-. by apply owes_ret.
Qed.
Lemma Unlock_gives : owing lock_level 0 1 Unlock.
Proof.
  apply owes_act with (λ _, 0).
  - intros s s' m _ Hl [= <- _]. unfold lock_level in *. destruct (ec_update s.1); [by split_and!|]. cbn in Hl. lia.
  - intros s s' m _ _ [= _ <-]. by apply owes_ret.
Qed.
Lemma RunSerialized_lock fn : owing lock_level 0 0 (RunSerialized fn).
Proof.
  unfold RunSerialized. eapply owes_bind; [apply Lock_takes|]. intros _ ? ->.
  eapply owes_bind; [by apply (owes_beside (λ _, True) (λ c, held (ec_update c)))|]. intros _ ? ->. apply Unlock_gives.
Qed.
Lemma RunSerialized_pass fn n : 0 ≤ n → owing pass_level n n (RunSerialized fn).
Proof.
  intros Hn. unfold RunSerialized, Lock. eapply owes_bind.
  - apply owes_act with (λ _, n); intros s s' m _ _ E; (destruct (negb _); [|done]).
    + injection E as <- _. unfold pass_level. cbn. split_and!; [done|lia|done].
    + injection E as _ <-. by apply (owes_ret _ _ _ (λ _ d, d = n)).
  - intros _ ? ->. eapply owes_bind; [by apply (owes_beside (λ _, True) (λ c, held (ec_running c)))|]. intros _ ? ->. by apply owes_on_ec.
Qed.
Lemma RunOnce_lock fn : owes anything lock_level bool (λ _ d, d = 0) 0 (RunOnce fn).
Proof.
  unfold RunOnce. eapply owes_bind; [by apply owes_atomic|]. intros [] ? ->; [by apply owes_ret|].
  apply (owes_fork _ _ _ _ 0 0); [done|done| |by apply owes_ret].
  eapply owes_bind; [apply RunSerialized_lock|]. intros _ ? ->. by apply owes_on_ec.
Qed.
Lemma RunOnce_pass fn : owes anything pass_level bool (λ _ d, d = 0) 0 (RunOnce fn).
Proof.
  unfold RunOnce. eapply (owes_bind _ _ (λ (was : bool) d, d = if was then 0 else 1)).
  - apply owes_act with (λ s, if ec_running s.1 then 0 else 1).
    + intros s s' m _ _ [= <- _]. unfold pass_level. cbn. destruct (ec_running s.1); by split_and!.
    + intros s s' m _ _ [= _ <-]. by apply owes_ret.
  - intros [] ? ->; [by apply owes_ret|].
    apply (owes_fork _ _ _ _ 1 0); [done|done| |by apply owes_ret].
    eapply owes_bind; [by apply RunSerialized_pass|]. intros _ ? ->. apply owes_act with (λ _, 0).
    + intros s1 s1' m1 _ Hl [= <- _]. unfold pass_level in *. destruct (ec_running s1.1); [by split_and!|]. cbn in Hl. lia.
    + intros s1 s1' m1 _ _ [= _ <-]. by apply owes_ret.
Qed.

(** The goroutines of a controller's users. *)
Section users.
Context (level : St → Z).
Context (Hstop : ∀ v s, level (on_ec (set_ec_stopCh v) s) = level s).
Context (Hwg : ∀ v s, level (on_ec (set_ec_wg v) s) = level s).
Context (Honce : ∀ fn, owes anything level bool (λ _ d, d = 0) 0 (RunOnce fn)).

Lemma owes_ticker turns stop_first sweep : owing level 0 0 (ticker turns stop_first sweep).
Proof.
  induction turns as [|turns IH]; cbn [ticker]; [by apply owes_ret|].
  eapply owes_bind; [by apply owes_read|]. intros [] ? ->; [by apply owes_ret|].
  eapply owes_bind; [apply Honce|]. by intros _ ? ->.
Qed.
Lemma owes_Start turns stop_first sweep : owing level 0 0 (Start turns stop_first sweep).
Proof.
  unfold Start. eapply owes_bind; [by apply owes_read|]. intros c ? ->. destruct (_ || _); [by apply owes_ret|].
  destruct (negb _); [by apply owes_ret|]. eapply owes_bind.
  { apply owes_on_ec; [done|]. intros s. etrans; [apply (Hstop ChOpen (on_ec (set_ec_wg (ec_wg s.1 + 1)) s))|apply Hwg]. }
  intros _ ? ->. apply (owes_fork _ _ _ _ 0 0); [done|done| |by apply owes_ret].
  eapply owes_bind; [apply owes_ticker|]. intros _ ? ->. apply owes_on_ec; [done|]. intros s. apply Hwg.
Qed.
Lemma owes_Stop : owing level 0 0 Stop.
Proof.
  unfold Stop. eapply owes_bind; [by apply owes_read|]. intros c ? ->. destruct (bool_decide _); [by apply owes_ret|].
  eapply owes_bind; [apply owes_on_ec; [done|]; apply Hstop|]. intros _ ? ->. eapply owes_bind.
  - apply owes_act with (λ _, 0); intros s s' m _ _ E; (destruct (_ =? 0); [|done]).
    + injection E as <- _. split_and!; [done|lia|done].
    + injection E as _ <-. by apply (owes_ret _ _ _ (λ _ d, d = 0)).
  - intros _ ? ->. apply owes_on_ec; [done|]. apply Hstop.
Qed.
End users.

Inductive user : Go unit → Prop :=
  | user_Start turns stop_first sweep : user (Start turns stop_first sweep)
  | user_Stop : user Stop
  | user_RunOnce fn : user (do* _ := RunOnce fn in Ret tt)
  | user_RunSerialized fn : user (RunSerialized fn).
Inductive controller_step : St * list (Go unit) → St * list (Go unit) → Prop :=
  | controller_spawn s ts t : user t → controller_step (s, ts) (s, ts ++ [t])
  | controller_run c c' : pool_step c c' → controller_step c c'.

(** In every interleaving of its users the lock is held by the goroutine that is
    between [Lock] and [Unlock], hence by one at most, and the flag is set while
    one pass launched by [RunOnce] is on its way: what the goroutines of the pool
    still owe adds up to the lock, and to the flag. *)
Theorem passes_excluded interval has_sweep s0 c :
  rtc controller_step ((NewEvictionController interval has_sweep, s0), []) c →
  balanced anything lock_level c ∧ balanced anything pass_level c.
Proof.
  assert (Hlock : ∀ t, user t → owing lock_level 0 0 t).
  { destruct 1; [apply owes_Start|apply owes_Stop| |apply RunSerialized_lock]; try done; try apply RunOnce_lock.
    eapply owes_bind; [apply RunOnce_lock|]. intros _ ? ->. by apply owes_ret. }
  assert (Hpass : ∀ t, user t → owing pass_level 0 0 t).
  { destruct 1; [apply owes_Start|apply owes_Stop| |by apply RunSerialized_pass]; try done; try apply RunOnce_pass.
    eapply owes_bind; [apply RunOnce_pass|]. intros _ ? ->. by apply owes_ret. }
  intros Hr. remember ((NewEvictionController interval has_sweep, s0), []) as c0 eqn:E0.
  assert (Hb0 : balanced anything lock_level c0 ∧ balanced anything pass_level c0) by (subst c0; split; split; try done; constructor).
  clear E0. induction Hr as [c|c c1 c2 Hs _ IH]; [exact Hb0|]. apply IH. destruct Hb0 as [HA HB].
  destruct Hs as [s ts t Ht|c c' Hs].
  - split; [by apply balanced_spawn, Hlock|by apply balanced_spawn, Hpass].
  - split; [by eapply pool_step_balanced|by eapply pool_step_balanced].
Qed.
End controller.
