(* ===== verification/Lifecycle.v ===== *)
(** The background goroutines of a mount, from their start to their end: the
    sweeper of the metadata cache (internal/fs/cache.go), the loop of the delta
    synchronisation (internal/fs/delta.go) and that of the upload manager
    (internal/fs/upload_manager.go). Each ends when its channel is closed, and
    who closes it waits on its WaitGroup: no goroutine is left behind. *)

From S2P Require Export Sched DeltaSync Mount Uploads.
From S2P Require Import Eviction.

#[local] Open Scope Z_scope.
#[local] Open Scope res_scope.

(** [closeMu] (of the cache), [stopCh], the count of [wg], and whether the
    context the loop was given is cancelled. *)
Record Loop := mkLoop { closeMu : bool; stopCh : StopCh; wg : Z; cancelled : bool }.
Definition set_closeMu v l := mkLoop v (stopCh l) (wg l) (cancelled l).
Definition set_stopCh v l := mkLoop (closeMu l) v (wg l) (cancelled l).
Definition set_wg v l := mkLoop (closeMu l) (stopCh l) v (cancelled l).
Definition set_cancelled v l := mkLoop (closeMu l) (stopCh l) (wg l) v.
(** The fields a cache is made with, and those of the two services. *)
Definition idle_cache : Loop := mkLoop false ChNil 0 false.
Definition idle_service : Loop := mkLoop false ChOpen 0 false.

(** What [select] may see: a nil channel is never ready. *)
Definition stopping (l : Loop) : bool := bool_decide (stopCh l = ChClosed) || cancelled l.

Section loops.
Context {S : Type}.
Abbreviation St := (Loop * S)%type.
Abbreviation Go A := (Res St A).
Definition on_loop (f : Loop → Loop) (s : St) : St := (f s.1, s.2).
Definition add_wg (n : Z) : St → St := on_loop (λ l, set_wg (wg l + n) l).

(** A goroutine that does something at each turn until it is stopped, then its
    deferred [wg.Done]. [x] is what it carries from one turn to the next. After
    [turns] turns it only waits for the stop. Both cases of the [select] may be
    ready, or the channel be closed just after it was looked at: [stop_first] is
    what is taken then. *)
Fixpoint background {X : Set} (turn : X → Res S X) (stop_first : nat → bool) (turns : nat) (x : X) : Go unit :=
  match turns with
  | O => await (λ s, stopping s.1) (add_wg (-1))
  | Datatypes.S turns =>
      do* stop := atomic (λ s, if stopping s.1 && stop_first turns then (true, add_wg (-1) s) else (false, s)) in
      if stop : bool then Ret tt else
      do* x := beside (turn x) in background turn stop_first turns x
  end.

(** ** Starting and stopping *)

(** [StartSweep]: the critical section of [closeMu] never waits, it is one action. *)
Definition start_guarded (goroutine : Go unit) : Go unit :=
  Act (λ s, if closeMu s.1 then None else
            if decide (stopCh s.1 = ChNil)
            then Some (add_wg 1 (on_loop (set_stopCh ChOpen) s), fork goroutine)
            else Some (s, Ret tt)).
(** [Close]: the lock is held while the sweeper ends, and until the database is
    closed, which is [k]. *)
Definition stop_guarded (k : S → S) : Go unit :=
  Act (λ s, if closeMu s.1 then None else
            if decide (stopCh s.1 = ChNil) then Some ((s.1, k s.2), Ret tt)
            else Some (on_loop (λ l, set_closeMu true (set_stopCh ChClosed l)) s,
                       await (λ s, wg s.1 =? 0) (λ s, (set_closeMu false (set_stopCh ChNil s.1), k s.2)))).

(** [Start] of the two services. *)
Definition start (goroutine : Go unit) : Go unit := atomic_ (add_wg 1) ;;; fork goroutine.
(** [DeltaSync.Stop] leaves a closed channel closed; [UploadManager.Stop] would
    panic on it, which is no action at all. *)
Definition close_once : Go unit := atomic_ (on_loop (set_stopCh ChClosed)).
Definition close_open : Go unit :=
  Act (λ s, if decide (stopCh s.1 = ChOpen) then Some (on_loop (set_stopCh ChClosed) s, Ret tt) else None).
Definition wait : Go unit := await (λ s, wg s.1 =? 0) (λ s, s).
Definition StopDelta : Go unit := close_once ;;; wait.
Definition StopUploads : Go unit := close_open ;;; wait.
Definition cancelDelta : Go unit := atomic_ (on_loop (set_cancelled true)).
End loops.

(** The sweeper, on the database and the cache: an instant for each tick. *)
Section sweeper.
Context {D : Type} `{Bolt D} `{TimeText} `{JsonLen}.
Abbreviation PS := (option D * InodeCache)%type.
Definition sweep_tick (now : list Time) : Res PS (list Time) :=
  match now with
  | [] => Ret []
  | t :: now => do* _ := atomic_ (λ s, (s.1, sweep t s.2)) in Ret now
  end.
Definition StartSweep (stop_first : nat → bool) (ticks : list Time) : Res (Loop * PS) unit :=
  start_guarded (background sweep_tick stop_first (length ticks) ticks).
Definition CloseCache (close_err : option error) : Res (Loop * PS) unit :=
  stop_guarded (λ s, (CachePersist.Close close_err s).2).
End sweeper.

(** The loops of the services. *)
Section services.
Context {D W : Type} `{Bolt D} `{Clock W} `{GraphAPI W} `{TimeText} `{JsonLen}.
Abbreviation Sy := (Sys D W).
Abbreviation DS := (DeltaSync Sy).

(** A turn that runs out of fuel is one that has not ended. *)
Definition delta_turn (fuel : nat) (ctx : Ctx W) (interval : Duration) (link : string) : Res (DS * Sy) string :=
  Act (λ s, match deltaLoop_turn fuel ctx interval link s with
            | Some (link, _, s) => Some (s, Ret link)
            | None => None
            end).
Definition StartDelta (stop_first : nat → bool) (turns fuel : nat) (ctx : Ctx W) (interval : Duration) :
    Res (Loop * (DS * Sy)) unit :=
  start (do* link := atomic (λ s, (GetDeltaLink (s_db s.2.2), s)) in
         background (delta_turn fuel ctx interval) stop_first turns link).

Context `{LocalZone}.
Definition upload_turn (evs : list LoopEvent) : Res Sy (list LoopEvent) :=
  match evs with
  | [] => Ret []
  | ev :: evs => do* _ := uploadLoop_case ev in Ret evs
  end.
Definition StartUploads (stop_first : nat → bool) (evs : list LoopEvent) : Res (Loop * Sy) unit :=
  start (background upload_turn stop_first (length evs) evs).
End services.

(** ** What a goroutine still owes *)

(** Its [wg.Done]. *)
Section owing.
Context {S : Type} (good : Loop → Prop).
Abbreviation St := (Loop * S)%type.
Definition running (s : St) : Z := wg s.1.
Definition good_loop (s : St) : Prop := good s.1.
Abbreviation owing l n := (owes good_loop running unit (λ _ d, d = n) l).
Context (Hdone : ∀ l, good l → stopping l = true → 1 ≤ wg l → good (set_wg (wg l + -1) l)).

Lemma owes_background {X : Set} (turn : X → Res S X) stop_first turns x : owing 1 0 (background turn stop_first turns x).
Proof using Hdone.
  revert x. induction turns as [|turns IH]; intros x; cbn [background].
  - apply owes_act with (λ _, 0); intros s s' m Hg Hn E; (destruct (stopping s.1) eqn:Es; [|done]).
    + injection E as <- _. split_and!; [by apply Hdone|cbn; unfold running; lia|done].
    + injection E as _ <-. by apply (owes_ret _ _ _ (λ _ d, d = 0)).
  - eapply (owes_bind _ _ (λ (stop : bool) d, d = if stop then 0 else 1)).
    + apply owes_act with (λ s, if stopping s.1 && stop_first turns then 0 else 1); intros s s' m Hg Hn E;
        destruct (stopping s.1) eqn:Es, (stop_first turns); cbn [andb] in *; injection E as <- <-;
        try (by apply owes_ret); (split_and!; [by try apply Hdone|cbn; unfold running; lia|done]).
    + intros [] ? ->; [by apply (owes_ret _ _ _ (λ _ d, d = 0))|].
      eapply owes_bind; [by apply (owes_beside good wg 1)|]. intros y ? ->. apply IH.
Qed.
Lemma owes_other (m : Res S unit) : owing 0 0 (beside m).
Proof. by apply (owes_beside good wg 0). Qed.

(** Who owes nothing is not a goroutine that is to be waited for. *)
Lemma none_running n ts : pool_owes good_loop running n ts → n = 0 → Forall (owing 0 0) ts.
Proof.
  induction 1 as [|a m t ts Ha Ht Ho IH]; intros E; [constructor|].
  pose proof (pool_owes_nonneg _ _ _ _ Ho). assert (a = 0) as -> by lia. constructor; [exact Ht|apply IH; lia].
Qed.
Lemma one_running ts1 t1 ts2 t2 ts3 n :
  pool_owes good_loop running n (ts1 ++ t1 :: ts2 ++ t2 :: ts3) → n ≤ 1 → owing 0 0 t1 ∨ owing 0 0 t2.
Proof.
  intros (a & m & -> & Ha & _ & Ht1 & Hr & _)%pool_owes_one Hn. rewrite app_assoc in Hr.
  destruct (pool_owes_one _ _ _ _ _ _ Hr) as (b & k & -> & Hb & Hk & Ht2 & _ & _).
  destruct (decide (a = 0)) as [->|]; [by left|]. assert (b = 0) as -> by lia. by right.
Qed.
End owing.

(** ** The sweeper *)

Section sweeping.
Context {D : Type} `{Bolt D} `{TimeText} `{JsonLen}.
Abbreviation PS := (option D * InodeCache)%type.
Abbreviation Go A := (Res (Loop * PS) A).

(** The channel is there exactly while a sweeper runs, and is closed only under
    the lock. *)
Definition sweep_ok (l : Loop) : Prop :=
  cancelled l = false ∧
  match stopCh l with
  | ChNil => wg l = 0 ∧ closeMu l = false
  | ChOpen => wg l = 1 ∧ closeMu l = false
  | ChClosed => 0 ≤ wg l ≤ 1 ∧ closeMu l = true
  end.
Abbreviation owing l n := (owes (S := Loop * PS) (good_loop sweep_ok) running unit (λ _ d, d = n) l).

Lemma sweep_ok_done l : sweep_ok l → stopping l = true → 1 ≤ wg l → sweep_ok (set_wg (wg l + -1) l).
Proof.
  intros [Hc Ho] Hs Hw. split; [exact Hc|]. unfold stopping in Hs. rewrite Hc, orb_false_r in Hs.
  apply bool_decide_eq_true in Hs. cbn. rewrite Hs in *. split; [lia|tauto].
Qed.
Lemma owes_StartSweep stop_first ticks : owing 0 0 (StartSweep (D := D) stop_first ticks).
Proof.
  apply owes_act with (λ s, if decide (stopCh s.1 = ChNil) then 1 else 0); intros s s' m [Hc Ho] _ E;
    (destruct (closeMu s.1) eqn:El; [done|]); destruct (decide _) as [Hn|Hn]; injection E as <- <-.
  - split_and!; [|cbn; unfold running; lia|done]. split; [exact Hc|]. rewrite Hn in Ho. cbn. split; [lia|done].
  - split_and!; [by split; rewrite ?El|unfold running; lia|done].
  - apply (owes_fork _ _ _ _ 1 0); [done|done|apply owes_background, sweep_ok_done|by apply owes_ret].
  - by apply owes_ret.
Qed.
Lemma owes_CloseCache close_err : owing 0 0 (CloseCache close_err).
Proof.
  assert (Hend : owing 0 0 (await (λ s : Loop * PS, wg s.1 =? 0)
    (λ s, (set_closeMu false (set_stopCh ChNil s.1), (CachePersist.Close close_err s.2).2)))).
  { apply owes_act with (λ _, 0); intros s s' m [Hc Ho] _ E; (destruct (Z.eqb_spec (wg s.1) 0) as [Hw|]; [|done]).
    - injection E as <- _. split_and!; [|cbn; unfold running; cbn; lia|done]. by split.
    - injection E as _ <-. by apply (owes_ret _ _ _ (λ _ d, d = 0)). }
  apply owes_act with (λ _, 0); intros s s' m Hok _ E; pose proof Hok as [Hc Ho]; (destruct (closeMu s.1) eqn:El; [done|]);
    destruct (decide _) as [Hn|Hn]; injection E as <- <-; [| |by apply owes_ret|exact Hend].
  - split_and!; [exact Hok|cbn; unfold running; cbn; lia|done].
  - split_and!; [|cbn; unfold running; cbn; lia|done]. split; [exact Hc|]. cbn. destruct (stopCh s.1); [done|lia|].
    by destruct Ho as [_ ?].
Qed.

(** Who owes nothing never lowers the count, and goes on owing nothing. *)
Lemma owing_action f (s s' : Loop * PS) m :
  owing 0 0 (Act f) → good_loop sweep_ok s → 0 ≤ running s → f s = Some (s', m) →
  running s ≤ running s' ∧ (running s' = running s → owing 0 0 m).
Proof.
  intros Ho Hok Hn E. inversion Ho as [|? ? debt Hact Hnext|]; subst.
  destruct (Hact _ _ _ Hok Hn E) as (_ & Hd & Hp). split; [lia|]. intros Er.
  specialize (Hnext _ _ _ Hok Hn E). by replace (debt s) with 0 in Hnext by lia.
Qed.
(** A sweeper has its [wg.Done] to do. *)
Lemma sweeper_owes (s : PS) stop_first ticks :
  ¬ owing 0 0 (background sweep_tick stop_first (length ticks) ticks).
Proof.
  set (closing := (mkLoop true ChClosed 1 false, s)).
  assert (Hok : good_loop sweep_ok closing) by (split; [done|]; cbn; split; [lia|done]).
  assert (Hn : 0 ≤ running closing) by done.
  induction ticks as [|t ticks IH]; cbn [background length]; intros Ho.
  - destruct (owing_action _ _ _ _ Ho Hok Hn eq_refl) as [Hr _]. by cbn in Hr.
  - destruct (stop_first (length ticks)) eqn:Es.
    + destruct (owing_action _ closing _ _ Ho Hok Hn eq_refl) as [Hr _]. by cbn in Hr.
    + destruct (owing_action _ closing _ _ Ho Hok Hn eq_refl) as [_ Hk]. specialize (Hk eq_refl).
      destruct (owing_action _ _ _ _ Hk Hok Hn eq_refl) as [_ Hk2]. by apply IH, Hk2.
Qed.

(** The sweeper is started and the cache is closed by any goroutine, any number
    of times; the others use the cache without touching its sweeper. *)
Inductive cache_user : Go unit → Prop :=
  | user_StartSweep stop_first ticks : cache_user (StartSweep stop_first ticks)
  | user_Close close_err : cache_user (CloseCache close_err)
  | user_other (m : Res PS unit) : cache_user (beside m).
Inductive sweeper_step : (Loop * PS) * list (Go unit) → (Loop * PS) * list (Go unit) → Prop :=
  | sweeper_spawn s ts t : cache_user t → sweeper_step (s, ts) (s, ts ++ [t])
  | sweeper_run c c' : pool_step c c' → sweeper_step c c'.
Definition sweeper (t : Go unit) : Prop :=
  ∃ stop_first ticks, t = background sweep_tick stop_first (length ticks) ticks.

Lemma sweeper_balanced s0 c :
  rtc sweeper_step ((idle_cache, s0), []) c → balanced (good_loop sweep_ok) running c.
Proof.
  intros Hr. remember ((idle_cache, s0), []) as c0 eqn:E0.
  assert (Hb : balanced (good_loop sweep_ok) running c0) by (subst c0; split; [by split|constructor]).
  clear E0. induction Hr as [c|c c1 c2 Hs _ IH]; [exact Hb|]. apply IH. destruct Hs as [s ts t Ht|c c' Hs].
  - apply balanced_spawn; [exact Hb|]. destruct Ht; [apply owes_StartSweep|apply owes_CloseCache|apply owes_other].
  - by eapply pool_step_balanced.
Qed.

(** In every interleaving of those that start the sweeper, close the cache and
    use it, there is one sweeper at most, and none once a [Close] is through,
    until the next [StartSweep]. *)
Theorem one_sweeper s0 c :
  rtc sweeper_step ((idle_cache, s0), []) c →
  (∀ ts1 t1 ts2 t2 ts3, c.2 = ts1 ++ t1 :: ts2 ++ t2 :: ts3 → ¬ (sweeper t1 ∧ sweeper t2)) ∧
  (stopCh c.1.1 = ChNil → ∀ t, t ∈ c.2 → ¬ sweeper t).
Proof.
  intros Hr. destruct (sweeper_balanced _ _ Hr) as [[_ Hok] Ho].
  assert (Hw : running c.1 ≤ 1) by (unfold running; destruct (stopCh c.1.1); lia).
  assert (Hs : ∀ t, owing 0 0 t → ¬ sweeper t) by (intros t Ht (sf & ticks & ->); by apply (sweeper_owes s0) in Ht).
  split.
  - intros ts1 t1 ts2 t2 ts3 E [HA HB]. rewrite E in Ho.
    destruct (one_running _ _ _ _ _ _ _ Ho Hw) as [Ht|Ht]; by apply Hs in Ht.
  - intros En t Ht. apply Hs. rewrite En in Hok. eapply Forall_forall; [|exact Ht].
    eapply none_running; [exact Ho|apply Hok].
Qed.
End sweeping.

(** ** The loops of the services *)

Section serving.
Context {S : Type}.
Abbreviation Go A := (Res (Loop * S) A).
Abbreviation owing l n := (owes (S := Loop * S) (good_loop (λ _, True)) running unit (λ _ d, d = n) l).

Lemma owes_start goroutine : owing 1 0 goroutine → owing 0 0 (start goroutine).
Proof.
  intros Hg. apply owes_act with (λ _, 1).
  - intros s s' m _ _ [= <- _]. split_and!; [done|cbn; unfold running; lia|done].
  - intros s s' m _ _ [= _ <-]. apply (owes_fork _ _ _ _ 1 0); [done|done|exact Hg|by apply owes_ret].
Qed.
Lemma owes_loop_field (f : Loop → Loop) : (∀ l, wg (f l) = wg l) → owing 0 0 (atomic_ (on_loop f)).
Proof. intros Hf. apply owes_atomic_; [done|]. intros s _. split; [done|apply Hf]. Qed.
Lemma owes_wait : owing 0 0 wait.
Proof.
  apply owes_act with (λ _, 0); intros s s' m _ _ E; (destruct (wg s.1 =? 0); [|done]).
  - injection E as <- _. split_and!; [done|lia|done].
  - injection E as _ <-. by apply (owes_ret _ _ _ (λ _ d, d = 0)).
Qed.
Lemma owes_close_open : owing 0 0 close_open.
Proof.
  apply owes_act with (λ _, 0); intros s s' m _ _ E; (destruct (decide _); [|done]).
  - injection E as <- _. split_and!; [done|cbn; unfold running; cbn; lia|done].
  - injection E as _ <-. by apply (owes_ret _ _ _ (λ _ d, d = 0)).
Qed.
Lemma owes_then (m k : Go unit) : owing 0 0 m → owing 0 0 k → owing 0 0 (m ;;; k).
Proof. intros Hm Hk. eapply owes_bind; [exact Hm|]. by intros _ ? ->. Qed.

(** Goroutines that start a service with [starts], stop it, cancel its context,
    or use what it shares with them. *)
Context (starts : Go unit → Prop).
Context (Hstarts : ∀ t, starts t → owing 0 0 t).
Inductive service_user : Go unit → Prop :=
  | user_start t : starts t → service_user t
  | user_StopDelta : service_user StopDelta
  | user_StopUploads : service_user StopUploads
  | user_cancel : service_user cancelDelta
  | user_beside (m : Res S unit) : service_user (beside m).
Inductive service_step : (Loop * S) * list (Go unit) → (Loop * S) * list (Go unit) → Prop :=
  | service_spawn s ts t : service_user t → service_step (s, ts) (s, ts ++ [t])
  | service_run c c' : pool_step c c' → service_step c c'.

(** In every interleaving the count a [Stop] waits for is that of the loops that
    have not ended: when it is 0, hence when a [Stop] is through, no goroutine
    has a [wg.Done] to do. *)
Theorem stop_waits_for_loops s0 c :
  rtc service_step ((idle_service, s0), []) c →
  balanced (good_loop (λ _, True)) running c ∧ (running c.1 = 0 → Forall (owing 0 0) c.2).
Proof using Hstarts.
  intros Hr. assert (Hb : balanced (good_loop (λ _, True)) running c).
  { remember ((idle_service, s0), []) as c0 eqn:E0.
    assert (Hb : balanced (good_loop (λ _, True)) running c0) by (subst c0; split; [done|constructor]).
    clear E0. induction Hr as [c|c c1 c2 Hs _ IH]; [exact Hb|]. apply IH. destruct Hs as [s ts t Ht|c c' Hs].
    - apply balanced_spawn; [exact Hb|].
      destruct Ht; [by apply Hstarts|apply owes_then; [by apply owes_loop_field|apply owes_wait]
        |apply owes_then; [apply owes_close_open|apply owes_wait]|by apply owes_loop_field|by apply owes_other].
    - by eapply pool_step_balanced. }
  split; [exact Hb|]. intros E. eapply none_running; [apply Hb|exact E].
Qed.
End serving.

(** The two services, which this holds of. *)
Section service_starts.
Context {D W : Type} `{Bolt D} `{Clock W} `{GraphAPI W} `{TimeText} `{JsonLen} `{LocalZone}.
Abbreviation owing m := (owes (good_loop (λ _, True)) running unit (λ _ d, d = 0) 0 m).

Lemma owes_StartDelta stop_first turns fuel (ctx : Ctx W) interval :
  owing (StartDelta (D := D) stop_first turns fuel ctx interval).
Proof.
  apply owes_start. eapply owes_bind; [by apply owes_atomic|]. intros link ? ->. by apply owes_background.
Qed.
Lemma owes_StartUploads stop_first evs : owing (StartUploads (D := D) (W := W) stop_first evs).
Proof. apply owes_start. by apply owes_background. Qed.
End service_starts.
